(** * sops: the tree-walking encryption engine of [sops/__init__.py]

    A shallow embedding of the encrypt and decrypt walks, of the leaf codec,
    of the IV stash and of the master-key bookkeeping, followed by the
    properties of the specification that concern them.

    The embedding follows the Python 3 behaviour of the module ([str] and
    [bytes] are different types).  A Python [str] is represented by the
    [string] holding its UTF-8 encoding, [bytes] by [list byte], [int] by [Z]
    and [float] by a binary64 [float].  Everything the module obtains from a
    library or from the outside world (AES-GCM, base64, SHA-512, [os.urandom],
    the clock, KMS and gpg) is a field of the [Platform] class. *)

From Stdlib Require Import String List ZArith Bool Lia Ascii Floats.
From Stdlib Require Import Strings.Byte DecimalString DecimalZ DecimalPos.
Import ListNotations.

Local Open Scope string_scope.
Local Open Scope list_scope.

Set Warnings "-register-all,-inexact-float".


(** ** Bytes and text *)

Definition bytes := list byte.

Definition bytes_eqb (a b : bytes) : bool :=
  if list_eq_dec Byte.byte_eq_dec a b then true else false.

(** [s.encode('utf-8')]. *)
Definition encode_utf8 (s : string) : bytes := list_byte_of_string s.

(** A bytes literal written as text. *)
Definition lit (s : string) : bytes := list_byte_of_string s.

Definition in_range (lo hi : N) (b : byte) : bool :=
  (N.leb lo (Byte.to_N b) && N.leb (Byte.to_N b) hi)%bool.

Definition cont_byte : byte -> bool := in_range 128 191.

(** Well-formed UTF-8, as the decoder of Python 3 accepts it: shortest form,
    no surrogates, nothing above U+10FFFF. *)
Fixpoint utf8_valid (b : bytes) : bool :=
  match b with
  | [] => true
  | c :: r =>
    if in_range 0 127 c then utf8_valid r
    else match r with
    | c1 :: r1 =>
      if in_range 194 223 c then (cont_byte c1 && utf8_valid r1)%bool
      else match r1 with
      | c2 :: r2 =>
        if in_range 224 224 c
        then (in_range 160 191 c1 && cont_byte c2 && utf8_valid r2)%bool
        else if (in_range 225 236 c || in_range 238 239 c)%bool
        then (cont_byte c1 && cont_byte c2 && utf8_valid r2)%bool
        else if in_range 237 237 c
        then (in_range 128 159 c1 && cont_byte c2 && utf8_valid r2)%bool
        else match r2 with
        | c3 :: r3 =>
          if in_range 240 240 c
          then (in_range 144 191 c1 && cont_byte c2 && cont_byte c3
                && utf8_valid r3)%bool
          else if in_range 241 243 c
          then (cont_byte c1 && cont_byte c2 && cont_byte c3
                && utf8_valid r3)%bool
          else if in_range 244 244 c
          then (in_range 128 143 c1 && cont_byte c2 && cont_byte c3
                && utf8_valid r3)%bool
          else false
        | [] => false
        end
      | [] => false
      end
    | [] => false
    end
  end.

(** [b.decode('utf-8')]; [None] stands for [UnicodeDecodeError]. *)
Definition decode_utf8 (b : bytes) : option string :=
  if utf8_valid b then Some (string_of_list_byte b) else None.

(** [bytes.lower()]: ASCII letters only. *)
Definition lower_byte (b : byte) : byte :=
  if in_range 65 90 b
  then match Byte.of_N (Byte.to_N b + 32) with Some c => c | None => b end
  else b.

Definition lower (b : bytes) : bytes := map lower_byte b.

(** [str.upper()] on the bytes of the text.  It is only applied to the
    hexadecimal digest, which is ASCII. *)
Definition upper_byte (b : byte) : byte :=
  if in_range 97 122 b
  then match Byte.of_N (Byte.to_N b - 32) with Some c => c | None => b end
  else b.

Definition upper (s : string) : string :=
  string_of_list_byte (map upper_byte (list_byte_of_string s)).

Fixpoint starts_with (p s : bytes) : bool :=
  match p, s with
  | [], _ => true
  | _ :: _, [] => false
  | a :: p', b :: s' => (Byte.eqb a b && starts_with p' s')%bool
  end.

(** [p in s] for two texts: [p] occurs somewhere in [s]. *)
Fixpoint is_infix (p s : bytes) : bool :=
  (starts_with p s
   || match s with [] => false | _ :: s' => is_infix p s' end)%bool.

(** ** The regular expressions of the module

    The module uses two patterns, both made of literals, greedy groups
    [(.+)] and [([0-9]+)], and a final [$].  [re.match] anchors at the start
    only and backtracks from the longest candidate of each group. *)

Inductive tok : Type :=
| Lit (l : bytes)
| AnyPlus
| DigitPlus
| Dollar.

Definition newline : byte := "010"%byte.

Definition not_newline (b : byte) : bool := negb (Byte.eqb b newline).

Definition is_digit : byte -> bool := in_range 48 57.

(** One greedy group: [pre] is what the group holds so far, [k] matches the
    rest of the pattern. *)
Fixpoint greedy (ok : byte -> bool) (k : bytes -> option (list bytes))
    (pre s : bytes) : option (list bytes) :=
  let here :=
    match pre with
    | [] => None
    | _ :: _ => option_map (cons pre) (k s)
    end in
  match s with
  | [] => here
  | c :: s' =>
    if ok c then
      match greedy ok k (pre ++ [c]) s' with
      | Some r => Some r
      | None => here
      end
    else here
  end.

(** The groups of the match of a pattern at the start of [s]. *)
Fixpoint re_match (p : list tok) (s : bytes) : option (list bytes) :=
  match p with
  | [] => Some []
  | Lit l :: p' =>
    if starts_with l s then re_match p' (skipn (length l) s) else None
  | AnyPlus :: p' => greedy not_newline (re_match p') [] s
  | DigitPlus :: p' => greedy is_digit (re_match p') [] s
  | Dollar :: p' =>
    match s with
    | [] => re_match p' s
    | c :: [] => if Byte.eqb c newline then re_match p' s else None
    | _ => None
    end
  end.

(** ** Documents *)

(** The leaves of a document.  [SPreserved] is ruamel's
    [PreservedScalarString], a subclass of [str]; [SNone] is YAML's null. *)
Inductive scalar : Type :=
| SNone
| SStr (s : string)
| SPreserved (s : string)
| SBool (b : bool)
| SInt (z : Z)
| SFloat (f : float)
| SBytes (b : bytes).

(** A mapping keeps its entries in insertion order. *)
Inductive value : Type :=
| VLeaf (x : scalar)
| VDict (d : list (string * value))
| VList (l : list value).

Definition pydict := list (string * value).

Fixpoint dict_get (d : pydict) (k : string) : option value :=
  match d with
  | [] => None
  | (k', v) :: d' => if String.eqb k k' then Some v else dict_get d' k
  end.

Definition dict_has (d : pydict) (k : string) : bool :=
  match dict_get d k with Some _ => true | None => false end.

(** [d[k] = v]: an existing key keeps its place, a new one goes last. *)
Fixpoint dict_set (d : pydict) (k : string) (v : value) : pydict :=
  match d with
  | [] => [(k, v)]
  | (k', v') :: d' =>
    if String.eqb k k' then (k', v) :: d' else (k', v') :: dict_set d' k v
  end.


(** ** Failures *)

(** [Panic c] is [panic(msg, c)], that is [sys.exit(c)]; the others are the
    uncaught exceptions a call can end with. *)
Inductive error : Type :=
| Panic (code : Z)
| KeyError
| TypeError
| AttributeError
| ValueError
| UnicodeDecodeError
| Base64Error
| IndexError
| InvalidTag.

Inductive result (A : Type) : Type :=
| Ok (a : A)
| Err (e : error).

Arguments Ok {A} a.
Arguments Err {A} e.

(** ** The outside world *)

Record credentials : Type := {
  access_key_id : string;
  secret_access_key : string;
  session_token : string
}.

(** What [boto3.client('kms', ...)] was built from. *)
Record kms_client : Type := {
  client_region : bytes;
  client_credentials : option credentials
}.

(** How a use of the AES-GCM decryptor ends: with the cleartext, with
    [InvalidTag], or with the [ValueError] raised on a key, an IV or a tag
    the library refuses. *)
Inductive decryption : Type :=
| Decrypted (cleartext : bytes)
| BadTag
| BadParameters.

Class Platform : Type := {
  (** [Cipher(AES(key), GCM(iv)).encryptor()], fed [aad] then the cleartext:
      the ciphertext and the tag; arguments in the order key, iv, aad,
      cleartext.  [None] is the [ValueError] raised on a key or an IV the
      library refuses. *)
  aes_gcm_encrypt : bytes -> bytes -> bytes -> bytes -> option (bytes * bytes);
  (** [Cipher(AES(key), GCM(iv, tag)).decryptor()], fed [aad] then the
      ciphertext; arguments in the order key, iv, tag, aad, ciphertext. *)
  aes_gcm_decrypt : bytes -> bytes -> bytes -> bytes -> bytes -> decryption;
  b64encode : bytes -> bytes;
  (** [None] is [binascii.Error]. *)
  b64decode : bytes -> option bytes;
  (** [hashlib.sha512(data).hexdigest()]. *)
  sha512_hexdigest : bytes -> string;
  (** The [n]-th answer of [os.urandom(32)] in this run. *)
  urandom32 : nat -> bytes;
  (** The module-level timestamp [NOW]. *)
  NOW : string;
  (** [str(f)] and [float(text)] on floats; [None] is [ValueError]. *)
  float_str : float -> string;
  float_of_string : string -> option float;
  (** [str(b)] on a bytes object, that is its [repr]. *)
  bytes_repr : bytes -> string;
  (** [sts.assume_role(RoleArn=role, ...)] down to its three credentials;
      [None] when the call raises or the answer lacks a field. *)
  sts_assume_role : value -> option credentials;
  (** [kms.encrypt(KeyId=arn, Plaintext=key)['CiphertextBlob']]; [None] when
      the call raises. *)
  kms_encrypt : kms_client -> string -> bytes -> option bytes;
  (** [gpg --encrypt -a -r fp ...] fed the key, for the [fp] of an entry
      whatever its type: what gpg wrote on its standard output; [None] when
      building the command line, starting gpg or talking to it raises. *)
  gpg_encrypt : value -> bytes -> option bytes;
  (** [gpg -d] fed the text: its standard output; [None] when starting or
      talking to gpg raises. *)
  gpg_decrypt : bytes -> option bytes
}.

(** One use of the AES-GCM encryptor: the IV, the additional authenticated
    data and the cleartext it was given. *)
Record gcm_call : Type := {
  call_iv : bytes;
  call_aad : bytes;
  call_cleartext : bytes
}.

(** The state the walks act on: how many times [os.urandom] was asked, the
    uses of the encryptor so far, and what the SHA-512 object has absorbed. *)
Record world : Type := {
  draws : nat;
  gcm_calls : list gcm_call;
  sha512 : bytes
}.

Definition M (A : Type) : Type := world -> result (A * world).

Definition ret {A} (a : A) : M A := fun w => Ok (a, w).

Definition raise {A} (e : error) : M A := fun _ => Err e.

Definition bind {A B} (m : M A) (f : A -> M B) : M B :=
  fun w => match m w with
           | Ok (a, w') => f a w'
           | Err e => Err e
           end.

Definition lift {A} (r : result A) : M A :=
  fun w => match r with Ok a => Ok (a, w) | Err e => Err e end.

Declare Scope sops_scope.
Delimit Scope sops_scope with sops.
Notation "x <- m ;; k" := (bind m (fun x => k))
  (at level 61, m at next level, right associativity) : sops_scope.
Notation "' p <- m ;; k" := (bind m (fun x => let p := x in k))
  (at level 61, p pattern, m at next level, right associativity) : sops_scope.
Notation "m ;;; k" := (bind m (fun _ => k))
  (at level 61, right associativity) : sops_scope.
Local Open Scope sops_scope.

(** [os.urandom(32)]. *)
Definition urandom `{Platform} : M bytes :=
  fun w => Ok (urandom32 (draws w),
               {| draws := S (draws w); gcm_calls := gcm_calls w;
                  sha512 := sha512 w |}).

(** [digest = hashlib.sha512()]. *)
Definition sha512_new : M unit :=
  fun w => Ok (tt, {| draws := draws w; gcm_calls := gcm_calls w;
                      sha512 := [] |}).

(** [digest.update(data)]. *)
Definition sha512_update (data : bytes) : M unit :=
  fun w => Ok (tt, {| draws := draws w; gcm_calls := gcm_calls w;
                      sha512 := sha512 w ++ data |}).

(** [digest.hexdigest()]. *)
Definition sha512_hex `{Platform} : M string :=
  fun w => Ok (sha512_hexdigest (sha512 w), w).

(** The encryptor at work. *)
Definition gcm_encrypt `{Platform} (key iv aad cleartext : bytes)
    : M (bytes * bytes) :=
  fun w =>
    match aes_gcm_encrypt key iv aad cleartext with
    | Some r =>
      Ok (r, {| draws := draws w;
                gcm_calls := gcm_calls w
                  ++ [{| call_iv := iv; call_aad := aad;
                         call_cleartext := cleartext |}];
                sha512 := sha512 w |})
    | None => Err ValueError
    end.

(** The decryptor at work. *)
Definition gcm_decrypt `{Platform} (key iv tag aad ciphertext : bytes)
    : result bytes :=
  match aes_gcm_decrypt key iv tag aad ciphertext with
  | Decrypted cleartext => Ok cleartext
  | BadTag => Err InvalidTag
  | BadParameters => Err ValueError
  end.

(** ** The IV stash

    The stash is a Python dict built by the decrypt walk: under a mapping key
    or a list index, a dict holding [has_stash], the entries of the children
    and, for a leaf, [iv], [aad] and [cleartext].  Its keys are therefore
    texts or indices, and its values dicts, [True] or bytes; indexing a bytes
    value yields an integer. *)

Inductive skey : Type :=
| KStr (s : string)
| KInt (i : nat).

Inductive stash : Type :=
| StNone
| StTrue
| StInt (n : N)
| StBytes (b : bytes)
| StDict (d : list (skey * stash)).

Definition skey_eqb (a b : skey) : bool :=
  match a, b with
  | KStr s, KStr t => String.eqb s t
  | KInt i, KInt j => Nat.eqb i j
  | _, _ => false
  end.

Fixpoint sdict_get (d : list (skey * stash)) (k : skey) : option stash :=
  match d with
  | [] => None
  | (k', v) :: d' => if skey_eqb k k' then Some v else sdict_get d' k
  end.

Fixpoint sdict_set (d : list (skey * stash)) (k : skey) (v : stash)
    : list (skey * stash) :=
  match d with
  | [] => [(k, v)]
  | (k', v') :: d' =>
    if skey_eqb k k' then (k', v) :: d' else (k', v') :: sdict_set d' k v
  end.

(** [if stash:]. *)
Definition truthy (st : stash) : bool :=
  match st with
  | StNone => false
  | StTrue => true
  | StInt n => negb (N.eqb n 0)
  | StBytes b => match b with [] => false | _ => true end
  | StDict d => match d with [] => false | _ => true end
  end.

(** [k in stash]. *)
Definition stash_contains (st : stash) (k : skey) : result bool :=
  match st with
  | StDict d => Ok (match sdict_get d k with Some _ => true | None => false end)
  | StBytes b =>
    match k with
    | KStr _ => Err TypeError
    | KInt i =>
      if Nat.ltb i 256
      then Ok (existsb (fun c => N.eqb (Byte.to_N c) (N.of_nat i)) b)
      else Err ValueError
    end
  | _ => Err TypeError
  end.

(** [stash[k]]. *)
Definition stash_getitem (st : stash) (k : skey) : result stash :=
  match st with
  | StDict d =>
    match sdict_get d k with Some v => Ok v | None => Err KeyError end
  | StBytes b =>
    match k with
    | KStr _ => Err TypeError
    | KInt i =>
      match nth_error b i with
      | Some c => Ok (StInt (Byte.to_N c))
      | None => Err IndexError
      end
    end
  | _ => Err TypeError
  end.

(** [stash[k] = v]. *)
Definition stash_setitem (st : stash) (k : skey) (v : stash) : result stash :=
  match st with
  | StDict d => Ok (StDict (sdict_set d k v))
  | _ => Err TypeError
  end.

(** [{'has_stash': True}]. *)
Definition new_stash_entry : stash := StDict [(KStr "has_stash", StTrue)].

(** [dict()]. *)
Definition empty_stash : stash := StDict [].

(** ** The leaf codec *)

(** [str(value)] for a leaf that is not bytes. *)
Definition py_str `{Platform} (x : scalar) : string :=
  match x with
  | SNone => "None"
  | SStr s => s
  | SPreserved s => s
  | SBool true => "True"
  | SBool false => "False"
  | SInt z => NilZero.string_of_int (Z.to_int z)
  | SFloat f => float_str f
  | SBytes b => bytes_repr b
  end.

(** [int(text)] on a plain decimal numeral, an optional minus sign and
    digits, which is the form [str] gives an [int]; [None] is [ValueError].
    (Python also accepts surrounding blanks, a plus sign and underscores;
    no cleartext written by [encrypt] has them.) *)
Definition py_int (s : string) : option Z :=
  option_map Z.of_int (NilZero.int_of_string s).

(** The type tag [encrypt] records: the order of the tests is the order of
    the [isinstance] chain. *)
Definition valtype_of (x : scalar) : string :=
  match x with
  | SStr _ | SPreserved _ => "str"
  | SBool _ => "bool"
  | SInt _ => "int"
  | SFloat _ => "float"
  | SNone | SBytes _ => "bytes"
  end.

(** The bytes [encrypt] hashes and encrypts. *)
Definition cleartext_of `{Platform} (x : scalar) : bytes :=
  match x with
  | SBytes b => b
  | _ => encode_utf8 (py_str x)
  end.

Definition decode_or_raise (b : bytes) : result string :=
  match decode_utf8 b with
  | Some s => Ok s
  | None => Err UnicodeDecodeError
  end.

(** The envelope text. *)
Definition format_envelope (value iv tag valtype : string) : string :=
  ("ENC[AES256_GCM,data:" ++ value ++ ",iv:" ++ iv ++ ",tag:" ++ tag
   ++ ",type:" ++ valtype ++ "]")%string.

(** ** [encrypt] and [decrypt] *)

Definition VERSION : float := 0.9%float.

Section Engine.

Context `{Platform}.

(** The module-level [INPUT_VERSION]: the [sops.version] of the file that was
    read, [VERSION] when there was none. *)
Variable INPUT_VERSION : float.

(** The IV [encrypt] uses: the stashed one when the stash holds this very
    cleartext, a new random one otherwise. *)
Definition choose_iv (st : stash) (value : bytes) : M bytes :=
  if truthy st then
    has <- lift (stash_contains st (KStr "cleartext")) ;;
    if has then
      old <- lift (stash_getitem st (KStr "cleartext")) ;;
      match old with
      | StBytes b =>
        if bytes_eqb b value then
          iv <- lift (stash_getitem st (KStr "iv")) ;;
          match iv with
          | StBytes i => ret i
          | _ => raise TypeError
          end
        else urandom
      | _ => urandom
      end
    else urandom
  else urandom.

(** [encrypt(value, key, aad, stash, digest)]; [digest] tells whether a
    SHA-512 object was passed. *)
Definition encrypt (value : scalar) (key aad : bytes) (st : stash)
    (digest : bool) : M string :=
  let valtype := valtype_of value in
  let value := cleartext_of value in
  (if digest then sha512_update value else ret tt) ;;;
  iv <- choose_iv st value ;;
  '(enc_value, tag) <- gcm_encrypt key iv aad value ;;
  data64 <- lift (decode_or_raise (b64encode enc_value)) ;;
  iv64 <- lift (decode_or_raise (b64encode iv)) ;;
  tag64 <- lift (decode_or_raise (b64encode tag)) ;;
  ret (format_envelope data64 iv64 tag64 valtype).

Definition has_type_field : bool := (0.8 <=? INPUT_VERSION)%float.

(** [valre]. *)
Definition valre : list tok :=
  [Lit (lit "ENC[AES256_GCM,data:"); AnyPlus; Lit (lit ",iv:"); AnyPlus;
   Lit (lit ",tag:"); AnyPlus]
  ++ (if has_type_field then [Lit (lit ",type:"); AnyPlus] else [])
  ++ [Lit (lit "]")].

Definition b64decode_or_raise (b : bytes) : result bytes :=
  match b64decode b with
  | Some x => Ok x
  | None => Err Base64Error
  end.

(** The tail of [decrypt]: the value of the recorded type.  Before format
    0.8 the tag is the text ['str'], which equals none of the bytes literals
    it is compared with, so the function ends in [panic(..., 23)]; from 0.8
    on an unknown tag is bytes, and building the panic message raises. *)
Definition restore_type (valtype : option bytes) (cleartext : bytes)
    : result scalar :=
  match valtype with
  | None => Err (Panic 23)
  | Some t =>
    if bytes_eqb t (lit "bytes") then Ok (SBytes cleartext)
    else if bytes_eqb t (lit "str") then
      match decode_utf8 cleartext with
      | Some cv => Ok (SStr cv)
      | None => Ok (SBytes cleartext)
      end
    else if bytes_eqb t (lit "int") then
      match decode_utf8 cleartext with
      | Some s =>
        match py_int s with Some z => Ok (SInt z) | None => Err ValueError end
      | None => Err UnicodeDecodeError
      end
    else if bytes_eqb t (lit "float") then
      match decode_utf8 cleartext with
      | Some s =>
        match float_of_string s with
        | Some f => Ok (SFloat f)
        | None => Err ValueError
        end
      | None => Err UnicodeDecodeError
      end
    else if bytes_eqb t (lit "bool") then
      Ok (SBool (bytes_eqb (lower cleartext) (lit "true")))
    else Err TypeError
  end.

(** What [decrypt] leaves in a stash that is not empty. *)
Definition stash_leaf (st : stash) (iv aad cleartext : bytes) : result stash :=
  match stash_setitem st (KStr "iv") (StBytes iv) with
  | Ok st1 =>
    match stash_setitem st1 (KStr "aad") (StBytes aad) with
    | Ok st2 => stash_setitem st2 (KStr "cleartext") (StBytes cleartext)
    | Err e => Err e
    end
  | Err e => Err e
  end.

(** [decrypt(value, key, aad, stash, digest)]: the value, and the stash as
    the call leaves it. *)
Definition decrypt (value : scalar) (key aad : bytes) (st : stash)
    (digest : bool) : M (scalar * stash) :=
  match value with
  | SStr s | SPreserved s =>
    match re_match valre (encode_utf8 s) with
    | None => ret (value, st)
    | Some groups =>
      enc_value <- lift (b64decode_or_raise (nth 0 groups [])) ;;
      iv <- lift (b64decode_or_raise (nth 1 groups [])) ;;
      tag <- lift (b64decode_or_raise (nth 2 groups [])) ;;
      let valtype := if has_type_field then Some (nth 3 groups []) else None in
      cleartext <- lift (gcm_decrypt key iv tag aad enc_value) ;;
      st' <- (if truthy st then lift (stash_leaf st iv aad cleartext)
              else ret st) ;;
      (if digest then sha512_update cleartext else ret tt) ;;;
      r <- lift (restore_type valtype cleartext) ;;
      ret (r, st')
    end
  | _ => raise AttributeError
  end.

(** ** Indexing document values *)

(** [x == text] for a document value [x]. *)
Definition value_is_text (x : value) (s : string) : bool :=
  match x with
  | VLeaf (SStr t) | VLeaf (SPreserved t) => String.eqb t s
  | _ => false
  end.

(** [k in v] for a text [k]. *)
Definition py_contains (v : value) (k : string) : result bool :=
  match v with
  | VDict d => Ok (dict_has d k)
  | VList l => Ok (existsb (fun x => value_is_text x k) l)
  | VLeaf (SStr t) | VLeaf (SPreserved t) =>
    Ok (is_infix (encode_utf8 k) (encode_utf8 t))
  | VLeaf _ => Err TypeError
  end.

(** [v[k]] for a text [k]. *)
Definition py_getitem (v : value) (k : string) : result value :=
  match v with
  | VDict d => match dict_get d k with Some x => Ok x | None => Err KeyError end
  | _ => Err TypeError
  end.

(** [v[k] = x] for a text [k]. *)
Definition py_setitem (v : value) (k : string) (x : value) : result value :=
  match v with
  | VDict d => Ok (VDict (dict_set d k x))
  | _ => Err TypeError
  end.

(** [v.encode('utf-8')]. *)
Definition py_encode (v : value) : result bytes :=
  match v with
  | VLeaf (SStr t) | VLeaf (SPreserved t) => Ok (encode_utf8 t)
  | _ => Err AttributeError
  end.

(** ** The encrypt walk *)

(** [nstash] after [if stash and k in stash: nstash = stash[k]]. *)
Definition child_stash (st : stash) (k : skey) (nstash : stash)
    : result stash :=
  if truthy st then
    match stash_contains st k with
    | Ok true => stash_getitem st k
    | Ok false => Ok nstash
    | Err e => Err e
    end
  else Ok nstash.

Section EncryptLoops.

(** The recursive calls on a mapping or a list met during a walk. *)
Variable walk : value -> bytes -> bytes -> stash -> bool -> M value.

(** The loop of [walk_and_encrypt] over [branch.items()]. *)
Fixpoint walk_and_encrypt_items (items : pydict) (key aad : bytes)
    (st : stash) (isRoot digest : bool) : M pydict :=
  match items with
  | [] => ret []
  | (k, v) :: rest =>
    if (String.eqb k "sops" && isRoot)%bool then
      rest' <- walk_and_encrypt_items rest key aad st isRoot digest ;;
      ret ((k, v) :: rest')
    else
      let caad := aad ++ encode_utf8 k ++ lit ":" in
      nstash <- lift (child_stash st (KStr k) empty_stash) ;;
      v' <- match v with
            | VDict _ | VList _ => walk v key caad nstash digest
            | VLeaf (SPreserved s) =>
              ev <- encrypt (SPreserved s) key caad nstash digest ;;
              ret (VLeaf (SPreserved ev))
            | VLeaf x =>
              ev <- encrypt x key caad nstash digest ;;
              ret (VLeaf (SStr ev))
            end ;;
      rest' <- walk_and_encrypt_items rest key aad st isRoot digest ;;
      ret ((k, v') :: rest')
  end.

(** The loop of [walk_list_and_encrypt]: [i] is the index of the head of
    [items], [nstash] the variable of that name, which the loop does not
    reset. *)
Fixpoint walk_list_and_encrypt_items (items : list value) (i : nat)
    (nstash : stash) (key aad : bytes) (st : stash) (digest : bool)
    : M (list value) :=
  match items with
  | [] => ret []
  | v :: rest =>
    nstash <- lift (child_stash st (KInt i) nstash) ;;
    v' <- match v with
          | VDict _ | VList _ => walk v key aad nstash digest
          | VLeaf x =>
            ev <- encrypt x key aad nstash digest ;;
            ret (VLeaf (SStr ev))
          end ;;
    rest' <- walk_list_and_encrypt_items rest (S i) nstash key aad st digest ;;
    ret (v' :: rest')
  end.

(** What the root call does once the loop is over. *)
Definition seal_root (branch : pydict) (key : bytes) : M pydict :=
  sops <- lift (py_getitem (VDict branch) "sops") ;;
  sops <- lift (py_setitem sops "lastmodified" (VLeaf (SStr NOW))) ;;
  h <- sha512_hex ;;
  let h := upper h in
  mac <- encrypt (SStr h) key (encode_utf8 NOW) StNone false ;;
  sops <- lift (py_setitem sops "mac" (VLeaf (SStr mac))) ;;
  ret (dict_set branch "sops" sops).

Definition walk_and_encrypt_body (branch : pydict) (key aad : bytes)
    (st : stash) (isRoot digest : bool) : M pydict :=
  digest <- (if isRoot then sha512_new ;;; ret true else ret digest) ;;
  branch <- walk_and_encrypt_items branch key aad st isRoot digest ;;
  if isRoot then seal_root branch key else ret branch.

End EncryptLoops.

(** A mapping or a list met during the encrypt walk. *)
Fixpoint walk_node_encrypt (v : value) (key aad : bytes) (st : stash)
    (digest : bool) {struct v} : M value :=
  match v with
  | VDict branch =>
    r <- walk_and_encrypt_body walk_node_encrypt branch key aad st false
           digest ;;
    ret (VDict r)
  | VList branch =>
    r <- walk_list_and_encrypt_items walk_node_encrypt branch 0 empty_stash
           key aad st digest ;;
    ret (VList r)
  | VLeaf x =>
    ev <- encrypt x key aad st digest ;;
    ret (VLeaf (SStr ev))
  end.

(** [walk_and_encrypt(branch, key, aad, stash, isRoot, digest)]. *)
Definition walk_and_encrypt (branch : pydict) (key aad : bytes) (st : stash)
    (isRoot digest : bool) : M pydict :=
  walk_and_encrypt_body walk_node_encrypt branch key aad st isRoot digest.

(** [walk_list_and_encrypt(branch, key, aad, stash, digest)]. *)
Definition walk_list_and_encrypt (branch : list value) (key aad : bytes)
    (st : stash) (digest : bool) : M (list value) :=
  walk_list_and_encrypt_items walk_node_encrypt branch 0 empty_stash
    key aad st digest.

(** ** The decrypt walk *)

(** [if stash: stash[k] = {'has_stash': True}; nstash = stash[k]]: the stash
    with its new entry, and [nstash]. *)
Definition open_stash (st : stash) (k : skey) (nstash : stash)
    : result (stash * stash) :=
  if truthy st then
    match stash_setitem st k new_stash_entry with
    | Ok st' => Ok (st', new_stash_entry)
    | Err e => Err e
    end
  else Ok (st, nstash).

(** The entry [stash[k]] is the object the child call was given, so what the
    child wrote into it shows in the stash. *)
Definition close_stash (st : stash) (k : skey) (nstash : stash)
    : result stash :=
  if truthy st then stash_setitem st k nstash else Ok st.

(** [PreservedScalarString(ev)]. *)
Definition preserved (ev : scalar) : scalar := SPreserved (py_str ev).

Definition uses_separators : bool := (0.9 <=? INPUT_VERSION)%float.

Section DecryptLoops.

Variable walk : value -> bytes -> bytes -> stash -> bool -> M (value * stash).

(** The loop of [walk_and_decrypt] over [branch.items()]; [carryaad] is the
    variable of that name. *)
Fixpoint walk_and_decrypt_items (items : pydict) (carryaad : bytes)
    (key aad : bytes) (st : stash) (isRoot digest : bool)
    : M (pydict * stash) :=
  match items with
  | [] => ret ([], st)
  | (k, v) :: rest =>
    if (String.eqb k "sops" && isRoot)%bool then
      '(rest', st') <- walk_and_decrypt_items rest carryaad key aad st isRoot
                         digest ;;
      ret ((k, v) :: rest', st')
    else
      let caad := if uses_separators then aad ++ encode_utf8 k ++ lit ":"
                  else carryaad ++ encode_utf8 k in
      let carryaad := if uses_separators then carryaad else caad in
      '(st1, nstash) <- lift (open_stash st (KStr k) empty_stash) ;;
      '(v', nstash') <-
         match v with
         | VDict _ | VList _ => walk v key caad nstash digest
         | VLeaf (SPreserved s) =>
           '(ev, n) <- decrypt (SPreserved s) key caad nstash digest ;;
           ret (VLeaf (preserved ev), n)
         | VLeaf x =>
           '(ev, n) <- decrypt x key caad nstash digest ;;
           ret (VLeaf ev, n)
         end ;;
      st2 <- lift (close_stash st1 (KStr k) nstash') ;;
      '(rest', st3) <- walk_and_decrypt_items rest carryaad key aad st2 isRoot
                         digest ;;
      ret ((k, v') :: rest', st3)
  end.

(** The loop of [walk_list_and_decrypt]. *)
Fixpoint walk_list_and_decrypt_items (items : list value) (i : nat)
    (nstash : stash) (key aad : bytes) (st : stash) (digest : bool)
    : M (list value * stash) :=
  match items with
  | [] => ret ([], st)
  | v :: rest =>
    '(st1, nstash) <- lift (open_stash st (KInt i) nstash) ;;
    '(v', nstash') <-
       match v with
       | VDict _ | VList _ => walk v key aad nstash digest
       | VLeaf x =>
         '(ev, n) <- decrypt x key aad nstash digest ;;
         ret (VLeaf ev, n)
       end ;;
    st2 <- lift (close_stash st1 (KInt i) nstash') ;;
    '(rest', st3) <- walk_list_and_decrypt_items rest (S i) nstash' key aad
                       st2 digest ;;
    ret (v' :: rest', st3)
  end.

(** The verification of [sops.mac] that ends the root call. *)
Definition verify_mac (branch : pydict) (key : bytes) : M unit :=
  sops <- lift (py_getitem (VDict branch) "sops") ;;
  has_mac <- lift (py_contains sops "mac") ;;
  if negb has_mac then raise (Panic 52)
  else
    h <- sha512_hex ;;
    let h := upper h in
    mac <- lift (py_getitem sops "mac") ;;
    lastmodified <- lift (py_getitem sops "lastmodified") ;;
    aad <- lift (py_encode lastmodified) ;;
    '(orig_h, _) <-
       match mac with
       | VLeaf x => decrypt x key aad StNone false
       | _ => raise AttributeError
       end ;;
    if value_is_text (VLeaf orig_h) h then ret tt else raise (Panic 51).

Definition walk_and_decrypt_body (branch : pydict) (key aad : bytes)
    (st : stash) (digest isRoot ignoreMac : bool) : M (pydict * stash) :=
  let check := (isRoot && negb ignoreMac)%bool in
  digest <- (if check then sha512_new ;;; ret true else ret digest) ;;
  '(branch, st') <- walk_and_decrypt_items branch aad key aad st isRoot
                      digest ;;
  (if check then verify_mac branch key else ret tt) ;;;
  ret (branch, st').

End DecryptLoops.

(** A mapping or a list met during the decrypt walk. *)
Fixpoint walk_node_decrypt (v : value) (key aad : bytes) (st : stash)
    (digest : bool) {struct v} : M (value * stash) :=
  match v with
  | VDict branch =>
    '(r, st') <- walk_and_decrypt_body walk_node_decrypt branch key aad st
                   digest false false ;;
    ret (VDict r, st')
  | VList branch =>
    '(r, st') <- walk_list_and_decrypt_items walk_node_decrypt branch 0
                   empty_stash key aad st digest ;;
    ret (VList r, st')
  | VLeaf x =>
    '(ev, st') <- decrypt x key aad st digest ;;
    ret (VLeaf ev, st')
  end.

(** [walk_and_decrypt(branch, key, aad, stash, digest, isRoot, ignoreMac)]:
    the branch, and the stash as the walk leaves it. *)
Definition walk_and_decrypt (branch : pydict) (key aad : bytes) (st : stash)
    (digest isRoot ignoreMac : bool) : M (pydict * stash) :=
  walk_and_decrypt_body walk_node_decrypt branch key aad st digest isRoot
    ignoreMac.

(** [walk_list_and_decrypt(branch, key, aad, stash, digest)]. *)
Definition walk_list_and_decrypt (branch : list value) (key aad : bytes)
    (st : stash) (digest : bool) : M (list value * stash) :=
  walk_list_and_decrypt_items walk_node_decrypt branch 0 empty_stash
    key aad st digest.

End Engine.

Arguments encrypt : simpl never.
Arguments decrypt : simpl never.
Arguments re_match : simpl never.

(** ** Master keys *)

Section MasterKeys.

Context `{Platform}.

(** The pattern of [get_aws_session_for_entry]. *)
Definition arn_re : list tok :=
  [Lit (lit "arn:aws:kms:"); AnyPlus; Lit (lit ":"); DigitPlus;
   Lit (lit ":key/"); AnyPlus; Dollar].

(** [get_aws_session_for_entry(entry)]; [None] is Python's [None]. *)
Definition get_aws_session_for_entry (entry : value)
    : result (option kms_client) :=
  match py_getitem entry "arn" with
  | Err e => Err e
  | Ok arn =>
    match arn with
    | VLeaf (SStr a) | VLeaf (SPreserved a) =>
      match re_match arn_re (encode_utf8 a) with
      | None => Ok None
      | Some groups =>
        let region := nth 0 groups [] in
        match py_contains entry "role" with
        | Err e => Err e
        | Ok false =>
          Ok (Some {| client_region := region; client_credentials := None |})
        | Ok true =>
          match py_getitem entry "role" with
          | Err e => Err e
          | Ok role =>
            match sts_assume_role role with
            | None => Ok None
            | Some c =>
              Ok (Some {| client_region := region;
                          client_credentials := Some c |})
            end
          end
        end
      end
    | _ => Err TypeError
    end
  end.

(** [k not in entry or entry[k] == ""]. *)
Definition lacks (entry : value) (k : string) : result bool :=
  match py_contains entry k with
  | Err e => Err e
  | Ok false => Ok true
  | Ok true =>
    match py_getitem entry k with
    | Err e => Err e
    | Ok x => Ok (value_is_text x "")
    end
  end.

(** [entry['enc'] = enc; entry['created_at'] = NOW]. *)
Definition record_wrap (entry : value) (enc : scalar) : result value :=
  match py_setitem entry "enc" (VLeaf enc) with
  | Err e => Err e
  | Ok entry' => py_setitem entry' "created_at" (VLeaf (SStr NOW))
  end.

(** [encrypt_key_with_kms(key, entry)]; [VLeaf SNone] is Python's [None]. *)
Definition encrypt_key_with_kms (key : bytes) (entry : value) : result value :=
  match lacks entry "arn" with
  | Err e => Err e
  | Ok true => Ok entry
  | Ok false =>
    match get_aws_session_for_entry entry with
    | Err e => Err e
    | Ok None => Ok entry
    | Ok (Some kms) =>
      match py_getitem entry "arn" with
      | Ok (VLeaf (SStr a)) | Ok (VLeaf (SPreserved a)) =>
        match kms_encrypt kms a key with
        | None => Ok (VLeaf SNone)
        | Some blob =>
          match decode_or_raise (b64encode blob) with
          | Err e => Err e
          | Ok enc => record_wrap entry (SStr enc)
          end
        end
      | Ok _ => Err TypeError
      | Err e => Err e
      end
    end
  end.

(** [encrypt_key_with_pgp(key, entry)]. *)
Definition encrypt_key_with_pgp (key : bytes) (entry : value) : result value :=
  match lacks entry "fp" with
  | Err e => Err e
  | Ok true => Ok entry
  | Ok false =>
    match py_getitem entry "fp" with
    | Err e => Err e
    | Ok fp =>
      match gpg_encrypt fp key with
      | None => Ok (VLeaf SNone)
      | Some enc =>
        match decode_or_raise enc with
        | Err e => Err e
        | Ok enc => record_wrap entry (SPreserved enc)
        end
      end
    end
  end.

(** One of the two loops of [update_master_keys]: every entry without an
    [enc] is replaced, at its index, by what the wrapping function returns. *)
Fixpoint update_entries (wrap : bytes -> value -> result value) (key : bytes)
    (entries : list value) : result (list value) :=
  match entries with
  | [] => Ok []
  | entry :: rest =>
    match lacks entry "enc" with
    | Err e => Err e
    | Ok todo =>
      match (if todo then wrap key entry else Ok entry) with
      | Err e => Err e
      | Ok updated =>
        match update_entries wrap key rest with
        | Err e => Err e
        | Ok rest' => Ok (updated :: rest')
        end
      end
    end
  end.

(** The [kms] or [pgp] part of [update_master_keys]. *)
Definition update_recipients (field : string)
    (wrap : bytes -> value -> result value) (key : bytes) (sops : value)
    : result value :=
  match py_contains sops field with
  | Err e => Err e
  | Ok false => Ok sops
  | Ok true =>
    match py_getitem sops field with
    | Err e => Err e
    | Ok (VList entries) =>
      match update_entries wrap key entries with
      | Err e => Err e
      | Ok entries' => py_setitem sops field (VList entries')
      end
    | Ok _ => Err (Panic 1)
    end
  end.

(** [x < VERSION]. *)
Definition below_version (x : value) : result bool :=
  match x with
  | VLeaf (SFloat f) => Ok (f <? VERSION)%float
  | VLeaf (SInt z) => Ok (z <=? 0)%Z
  | VLeaf (SBool b) => Ok (negb b)
  | _ => Err TypeError
  end.

Definition update_version (sops : value) : result value :=
  match py_contains sops "version" with
  | Err e => Err e
  | Ok false => py_setitem sops "version" (VLeaf (SFloat VERSION))
  | Ok true =>
    match py_getitem sops "version" with
    | Err e => Err e
    | Ok x =>
      match below_version x with
      | Err e => Err e
      | Ok true => py_setitem sops "version" (VLeaf (SFloat VERSION))
      | Ok false => Ok sops
      end
    end
  end.

(** [update_master_keys(tree, key)]. *)
Definition update_master_keys (tree : pydict) (key : bytes) : result pydict :=
  match py_getitem (VDict tree) "sops" with
  | Err e => Err e
  | Ok sops =>
    match update_recipients "kms" encrypt_key_with_kms key sops with
    | Err e => Err e
    | Ok sops1 =>
      match update_recipients "pgp" encrypt_key_with_pgp key sops1 with
      | Err e => Err e
      | Ok sops2 =>
        match update_version sops2 with
        | Err e => Err e
        | Ok sops3 => Ok (dict_set tree "sops" sops3)
        end
      end
    end
  end.

(** The loop of [get_key_from_pgp]. *)
Fixpoint first_pgp_key (entries : list value) : result (option bytes) :=
  match entries with
  | [] => Ok None
  | entry :: rest =>
    match py_getitem entry "enc" with
    | Err KeyError => first_pgp_key rest
    | Err e => Err e
    | Ok enc =>
      match py_encode enc with
      | Err _ => first_pgp_key rest
      | Ok text =>
        match gpg_decrypt text with
        | None => first_pgp_key rest
        | Some key =>
          if Nat.eqb (length key) 32 then Ok (Some key)
          else first_pgp_key rest
        end
      end
    end
  end.

(** What [for entry in pgp_tree] goes through. *)
Definition py_iter (v : value) : result (list value) :=
  match v with
  | VList l => Ok l
  | VDict d => Ok (map (fun kv => VLeaf (SStr (fst kv))) d)
  | VLeaf (SStr s) | VLeaf (SPreserved s) =>
    Ok (map (fun c => VLeaf (SStr (String c EmptyString)))
          (list_ascii_of_string s))
  | VLeaf (SBytes b) =>
    Ok (map (fun c => VLeaf (SInt (Z.of_N (Byte.to_N c)))) b)
  | VLeaf _ => Err TypeError
  end.

(** [get_key_from_pgp(tree)]. *)
Definition get_key_from_pgp (tree : pydict) : result (option bytes) :=
  match dict_get tree "sops" with
  | None => Ok None
  | Some sops =>
    match py_getitem sops "pgp" with
    | Err KeyError => Ok None
    | Err e => Err e
    | Ok pgp_tree =>
      match py_iter pgp_tree with
      | Err e => Err e
      | Ok entries => first_pgp_key entries
      end
    end
  end.

End MasterKeys.

(** ** A small platform to run the model on

    Stand-ins that behave like the real services as far as the walks can
    tell: the cipher keeps the length of the cleartext and its tag
    authenticates key, IV and AAD; the encoding is hexadecimal, whose
    alphabet is part of base64's; the digest is 128 hexadecimal digits. *)

Module Lab.

Definition hex_digit (n : N) : byte :=
  match Byte.of_N (if N.ltb n 10 then 48 + n else 87 + n)%N with
  | Some c => c
  | None => "0"%byte
  end.

Definition hex_value (c : byte) : option N :=
  let n := Byte.to_N c in
  if in_range 48 57 c then Some (n - 48)%N
  else if in_range 97 102 c then Some (n - 87)%N
  else None.

Definition hex_of_byte (b : byte) : bytes :=
  [hex_digit (N.div (Byte.to_N b) 16); hex_digit (N.modulo (Byte.to_N b) 16)].

Definition hexlify (b : bytes) : bytes := flat_map hex_of_byte b.

Fixpoint unhexlify (s : bytes) : option bytes :=
  match s with
  | [] => Some []
  | h :: l :: r =>
    match hex_value h, hex_value l, unhexlify r with
    | Some x, Some y, Some t =>
      match Byte.of_N (16 * x + y)%N with
      | Some c => Some (c :: t)
      | None => None
      end
    | _, _, _ => None
    end
  | _ => None
  end.

Definition seal_tag (key iv aad : bytes) : bytes :=
  hexlify key ++ lit "." ++ hexlify iv ++ lit "." ++ aad.

Definition lab_encrypt (key iv aad cleartext : bytes)
    : option (bytes * bytes) :=
  if (Nat.eqb (length key) 32 && Nat.leb 8 (length iv))%bool
  then Some (rev cleartext, seal_tag key iv aad)
  else None.

Definition lab_decrypt (key iv tag aad ciphertext : bytes) : decryption :=
  if (Nat.eqb (length key) 32 && Nat.leb 8 (length iv))%bool
  then if bytes_eqb tag (seal_tag key iv aad) then Decrypted (rev ciphertext)
       else BadTag
  else BadParameters.

Definition lab_sha512 (data : bytes) : string :=
  string_of_list_byte
    (hexlify (firstn 64 (data ++ repeat "000"%byte 64))).

Definition lab_urandom (n : nat) : bytes :=
  repeat (match Byte.of_N (N.of_nat n mod 256)%N with
          | Some c => c
          | None => "000"%byte
          end) 32.

Definition lab_float_str (f : float) : string :=
  if (f =? 3.5)%float then "3.5" else if (f =? 0.9)%float then "0.9" else "0.0".

Definition lab_float_of_string (s : string) : option float :=
  if String.eqb s "3.5" then Some 3.5%float
  else if String.eqb s "0.9" then Some 0.9%float
  else if String.eqb s "0.0" then Some 0%float
  else None.

Definition lab_kms_encrypt (c : kms_client) (arn : string) (key : bytes)
    : option bytes :=
  if bytes_eqb (client_region c) (lit "us-east-1") then Some (rev key)
  else None.

Definition lab_gpg_encrypt (fp : value) (key : bytes) : option bytes :=
  match fp with
  | VLeaf (SStr s) =>
    if Nat.eqb (String.length s) 40 then Some (lit "PGP:" ++ hexlify key)
    else Some []
  | _ => None
  end.

Definition lab_gpg_decrypt (text : bytes) : option bytes :=
  if starts_with (lit "PGP:") text then unhexlify (skipn 4 text)
  else if starts_with (lit "crash") text then None
  else Some text.

#[export] Instance platform : Platform := {|
  aes_gcm_encrypt := lab_encrypt;
  aes_gcm_decrypt := lab_decrypt;
  b64encode := hexlify;
  b64decode := unhexlify;
  sha512_hexdigest := lab_sha512;
  urandom32 := lab_urandom;
  NOW := "2016-03-01T10:00:00Z";
  float_str := lab_float_str;
  float_of_string := lab_float_of_string;
  bytes_repr := fun b => ("b'" ++ string_of_list_byte b ++ "'")%string;
  sts_assume_role := fun _ => None;
  kms_encrypt := lab_kms_encrypt;
  gpg_encrypt := lab_gpg_encrypt;
  gpg_decrypt := lab_gpg_decrypt
|}.

Definition key : bytes := repeat "k"%byte 32.

Definition start : world := {| draws := 0; gcm_calls := []; sha512 := [] |}.

Definition sops0 : value :=
  VDict [("version", VLeaf (SFloat 0.9%float))].

End Lab.

(** ** What the specification speaks of *)

(** The candidate data key of one [sops.pgp] entry, in the words of the
    specification: none when the entry has no [enc] field, when running gpg
    raises, or when gpg's output is not 32 bytes long. *)
Definition pgp_candidate `{Platform} (entry : value) : option bytes :=
  match entry with
  | VDict d =>
    match dict_get d "enc" with
    | None => None
    | Some enc =>
      match py_encode enc with
      | Err _ => None
      | Ok text =>
        match gpg_decrypt text with
        | None => None
        | Some out => if Nat.eqb (length out) 32 then Some out else None
        end
      end
    end
  | _ => None
  end.

(** The first entry of a list that yields something. *)
Fixpoint first_some {A B} (f : A -> option B) (l : list A) : option B :=
  match l with
  | [] => None
  | a :: r => match f a with Some b => Some b | None => first_some f r end
  end.

Definition is_dict (v : value) : bool :=
  match v with VDict _ => true | _ => false end.

Definition succeeds {A} (r : result A) : bool :=
  match r with Ok _ => true | Err _ => false end.

(** Induction on documents, with the hypothesis on every member of a mapping
    and of a list. *)
Section ValueInduction.

Variable P : value -> Prop.
Hypothesis leaf_case : forall x, P (VLeaf x).
Hypothesis dict_case : forall d, Forall (fun kv => P (snd kv)) d -> P (VDict d).
Hypothesis list_case : forall l, Forall P l -> P (VList l).

Fixpoint value_induction (v : value) : P v :=
  match v with
  | VLeaf x => leaf_case x
  | VDict d =>
    dict_case d
      ((fix members (d : pydict) : Forall (fun kv => P (snd kv)) d :=
          match d with
          | [] => Forall_nil _
          | kv :: r => Forall_cons kv (value_induction (snd kv)) (members r)
          end) d)
  | VList l =>
    list_case l
      ((fix members (l : list value) : Forall P l :=
          match l with
          | [] => Forall_nil _
          | x :: r => Forall_cons x (value_induction x) (members r)
          end) l)
  end.

End ValueInduction.

(** What [update_master_keys] may turn a [sops.kms] entry into: an entry
    that holds an [enc] stays as it is; so does one without a usable [arn]
    and one no KMS client can be built for; one the service wrapped the key
    for gets [enc] and [created_at]. *)
Definition kms_entry_outcome `{Platform} (key : bytes) (entry entry' : value)
    : Prop :=
  (lacks entry "enc" = Ok false -> entry' = entry)
  /\ (lacks entry "enc" = Ok true -> lacks entry "arn" = Ok true ->
      entry' = entry)
  /\ (lacks entry "enc" = Ok true -> lacks entry "arn" = Ok false ->
      get_aws_session_for_entry entry = Ok None -> entry' = entry)
  /\ (forall d a c blob,
      entry = VDict d -> lacks entry "enc" = Ok true ->
      lacks entry "arn" = Ok false ->
      dict_get d "arn" = Some (VLeaf (SStr a)) ->
      get_aws_session_for_entry entry = Ok (Some c) ->
      kms_encrypt c a key = Some blob ->
      exists enc,
        decode_utf8 (b64encode blob) = Some enc
        /\ entry' = VDict (dict_set (dict_set d "enc" (VLeaf (SStr enc)))
                             "created_at" (VLeaf (SStr NOW)))).

(** The same for a [sops.pgp] entry. *)
Definition pgp_entry_outcome `{Platform} (key : bytes) (entry entry' : value)
    : Prop :=
  (lacks entry "enc" = Ok false -> entry' = entry)
  /\ (lacks entry "enc" = Ok true -> lacks entry "fp" = Ok true ->
      entry' = entry)
  /\ (forall d fp out,
      entry = VDict d -> lacks entry "enc" = Ok true ->
      lacks entry "fp" = Ok false ->
      dict_get d "fp" = Some fp ->
      gpg_encrypt fp key = Some out ->
      exists enc,
        decode_utf8 out = Some enc
        /\ entry' = VDict (dict_set (dict_set d "enc" (VLeaf (SPreserved enc)))
                             "created_at" (VLeaf (SStr NOW)))).

(** Every entry of a list has its outcome at the same index of the other. *)
Definition entrywise (R : value -> value -> Prop)
    (entries entries' : list value) : Prop :=
  length entries' = length entries
  /\ forall i entry, nth_error entries i = Some entry ->
     exists entry', nth_error entries' i = Some entry' /\ R entry entry'.

(** The recipients of [tree'] are those of [tree], each with its outcome. *)
Definition recipients_kept `{Platform} (key : bytes) (sops : pydict)
    (tree' : pydict) : Prop :=
  exists sops',
    dict_get tree' "sops" = Some (VDict sops')
    /\ (forall entries, dict_get sops "kms" = Some (VList entries) ->
        exists entries',
          dict_get sops' "kms" = Some (VList entries')
          /\ entrywise (kms_entry_outcome key) entries entries')
    /\ (forall entries, dict_get sops "pgp" = Some (VList entries) ->
        exists entries',
          dict_get sops' "pgp" = Some (VList entries')
          /\ entrywise (pgp_entry_outcome key) entries entries').

Module Examples.

Import Lab.

(** Three KMS recipients (one whose [arn] is not an ARN, one in a region
    where the service answers, one in a region where the call raises) and
    two PGP recipients (a fingerprint gpg knows, and one it does not, for
    which it exits with nothing on its output). *)
Definition recipients_tree : pydict :=
  [("data", VLeaf (SStr "x"));
   ("sops", VDict
      [("kms", VList
          [VDict [("arn", VLeaf (SStr "bogus"))];
           VDict [("arn", VLeaf (SStr "arn:aws:kms:us-east-1:000:key/x"))];
           VDict [("arn", VLeaf (SStr "arn:aws:kms:eu-west-1:000:key/y"))]]);
       ("pgp", VList
          [VDict
             [("fp", VLeaf (SStr "85D77543B3D624B63CEA9E6DBC17301B491B3F21"))];
           VDict
             [("fp", VLeaf (SStr "1022470DE3F0BC54BC6AB62DE05550BC07FB1A0A"));
              ("enc", VLeaf (SStr "kept"));
              ("created_at", VLeaf (SStr "then"))];
           VDict [("fp", VLeaf (SStr "unknown"))]])])].

Definition recipients_sops : pydict :=
  match dict_get recipients_tree "sops" with
  | Some (VDict d) => d
  | _ => []
  end.

Definition recipients_tree' : pydict :=
  match update_master_keys recipients_tree key with
  | Ok t => t
  | Err _ => []
  end.

(** A document with every kind of leaf, nested mappings and a list. *)
Definition document : pydict :=
  [("outer", VDict
      [("inner", VList
          [VLeaf (SInt 1); VLeaf (SStr "two");
           VDict [("deep", VLeaf (SBool false))]])]);
   ("n", VLeaf (SInt 42));
   ("f", VLeaf (SFloat 3.5%float));
   ("b", VLeaf (SBool true));
   ("s", VLeaf (SStr "x"));
   ("raw", VLeaf (SBytes (lit "bin")));
   ("note", VLeaf (SPreserved "kept as a block"));
   ("sops", sops0)].

Definition other_document : pydict :=
  [("a", VLeaf (SStr "hello")); ("sops", sops0)].

(** The branch a root call of [walk_and_encrypt] returns. *)
Definition encrypt_document (d : pydict) : pydict :=
  match walk_and_encrypt d key [] StNone true false start with
  | Ok (e, _) => e
  | Err _ => []
  end.

Definition encrypted : pydict := encrypt_document document.

(** An encrypted document into which a leaf in clear was put. *)
Definition slipped_in : pydict :=
  ("extra", VLeaf (SStr "evil")) :: encrypt_document other_document.

Definition sops_of (d : pydict) : pydict :=
  match dict_get d "sops" with
  | Some (VDict s) => s
  | _ => []
  end.

(** The encrypted document, with the [sops] branch of another one: its
    [mac] decrypts, to the digest of the other document. *)
Definition forged : pydict :=
  dict_set encrypted "sops" (VDict (sops_of (encrypt_document other_document))).

(** The encrypted document with its [mac] removed. *)
Definition unsigned : pydict :=
  dict_set encrypted "sops" sops0.

(** The world a root call of [walk_and_encrypt] ends in. *)
Definition world_after_encrypting (d : pydict) : world :=
  match walk_and_encrypt d key [] StNone true false start with
  | Ok (_, w) => w
  | Err _ => start
  end.

(** The stash of an edit session before the decrypt walk: the copy of the
    [sops] branch, which no walk reads, is left empty. *)
Definition session_stash : stash := StDict [(KStr "sops", StDict [])].

(** The stash the decrypt walk of an encrypted document leaves. *)
Definition stash_after_decrypting (e : pydict) : stash :=
  match walk_and_decrypt 0.9%float e key [] session_stash false true false
          start with
  | Ok ((_, st), _) => st
  | Err _ => StNone
  end.

(** A list of one leaf, and the same list after an edit that appended a
    copy of that leaf and a new one. *)
Definition list_document : pydict :=
  [("a", VList [VLeaf (SStr "x")]); ("sops", sops0)].

Definition list_document_edited : pydict :=
  [("a", VList [VLeaf (SStr "x"); VLeaf (SStr "x"); VLeaf (SStr "y")]);
   ("sops", VDict (sops_of (encrypt_document list_document)))].

(** The same edit on a mapping. *)
Definition map_document : pydict :=
  [("a", VDict [("p", VLeaf (SStr "x"))]); ("sops", sops0)].

Definition map_document_edited : pydict :=
  [("a", VDict [("p", VLeaf (SStr "x")); ("q", VLeaf (SStr "x"));
                ("r", VLeaf (SStr "y"))]);
   ("sops", VDict (sops_of (encrypt_document map_document)))].

(** The IVs a re-encryption with the stash of the session gives the
    encryptor, the last one being that of the MAC. *)
Definition ivs_of_reencryption (original edited : pydict) : list bytes :=
  match walk_and_encrypt edited key []
          (stash_after_decrypting (encrypt_document original)) true false
          {| draws := 7; gcm_calls := []; sha512 := [] |} with
  | Ok (_, w) => map call_iv (gcm_calls w)
  | Err _ => []
  end.

(** A document with an empty leaf. *)
Definition empty_leaf_document : pydict :=
  [("a", VLeaf (SStr "")); ("b", VLeaf (SStr "x")); ("sops", sops0)].

(** A root call of [walk_and_encrypt], then one of [walk_and_decrypt] on its
    result. *)
Definition roundtrip (d : pydict) : result pydict :=
  match walk_and_encrypt d key [] StNone true false start with
  | Ok (e, w) =>
    match walk_and_decrypt 0.9%float e key [] StNone false true false w with
    | Ok ((d', _), _) => Ok d'
    | Err e => Err e
    end
  | Err e => Err e
  end.


End Examples.

Module PgpExample.

(** Five PGP recipients: one without [enc], one for which gpg cannot be
    run, one whose output is too short, and two that yield 32 bytes. *)
Definition entries : list value :=
  [VDict [("fp", VLeaf (SStr "A"))];
   VDict [("fp", VLeaf (SStr "B")); ("enc", VLeaf (SStr "crash"))];
   VDict [("fp", VLeaf (SStr "C")); ("enc", VLeaf (SStr "short"))];
   VDict [("fp", VLeaf (SStr "D"));
          ("enc", VLeaf (SPreserved "0123456789abcdef0123456789abcdef"))];
   VDict [("fp", VLeaf (SStr "E"));
          ("enc", VLeaf (SStr "ffffffffffffffffffffffffffffffff"))]].

Definition sops : pydict := [("pgp", VList entries)].

Definition tree : pydict := [("sops", VDict sops)].

End PgpExample.

(** The world with a new SHA-512 object. *)
Definition fresh (w : world) : world :=
  {| draws := draws w; gcm_calls := gcm_calls w; sha512 := [] |}.

(** What the root call of [walk_and_decrypt] does about [sops.mac], for a
    document whose [sops] branch is the mapping [sops].  The first two parts
    are about a document whose leaves decrypt, which is told by the call
    that ignores the MAC and is given a new digest; that call ends in the
    world [w'], whose digest has absorbed the leaves. *)
Definition mac_policy `{Platform} (V : float) (branch : pydict)
    (key aad : bytes) (st : stash) (digest : bool) (w : world) (sops : pydict)
    : Prop :=
  (forall branch' st' w',
     walk_and_decrypt V branch key aad st true true true (fresh w)
       = Ok ((branch', st'), w') ->
     dict_get sops "mac" = None ->
     walk_and_decrypt V branch key aad st digest true false w
       = Err (Panic 52))
  /\ (forall branch' st' w' x lastmodified a orig stx wx,
      walk_and_decrypt V branch key aad st true true true (fresh w)
        = Ok ((branch', st'), w') ->
      dict_get sops "mac" = Some (VLeaf x) ->
      dict_get sops "lastmodified" = Some lastmodified ->
      py_encode lastmodified = Ok a ->
      decrypt V x key a StNone false w' = Ok ((orig, stx), wx) ->
      value_is_text (VLeaf orig) (upper (sha512_hexdigest (sha512 w')))
        = false ->
      walk_and_decrypt V branch key aad st digest true false w
        = Err (Panic 51))
  /\ (walk_and_decrypt V branch key aad st digest true false w
        = Err (Panic 52)
      \/ walk_and_decrypt V branch key aad st digest true false w
           = Err (Panic 51) ->
      exists r, walk_and_decrypt V branch key aad st digest true true w
                = Ok r).

(** ** Leaves, paths and what the specification derives from them *)

(** The leaves of a document in traversal order, mapping entries in document
    order and list entries by ascending index, each with the mapping keys on
    the way to it; list indices are not part of the path. *)
Fixpoint leaves (v : value) : list (list string * scalar) :=
  match v with
  | VLeaf x => [([], x)]
  | VDict d =>
    (fix entries (d : pydict) : list (list string * scalar) :=
       match d with
       | [] => []
       | (k, c) :: r =>
         map (fun px => (k :: fst px, snd px)) (leaves c) ++ entries r
       end) d
  | VList l =>
    (fix elements (l : list value) : list (list string * scalar) :=
       match l with
       | [] => []
       | c :: r => leaves c ++ elements r
       end) l
  end.

(** The entries of the root other than the [sops] branch. *)
Definition content (branch : pydict) : pydict :=
  filter (fun kv => negb (String.eqb (fst kv) "sops")) branch.

(** The entries a call of [walk_and_encrypt] or [walk_and_decrypt] goes
    through. *)
Definition walked (isRoot : bool) (branch : pydict) : pydict :=
  if isRoot then content branch else branch.

Definition root_leaves (branch : pydict) : list (list string * scalar) :=
  leaves (VDict (content branch)).

(** The AAD of the specification for format 0.9: every key of the path
    followed by a colon. *)
Fixpoint path_aad (path : list string) : bytes :=
  match path with
  | [] => []
  | k :: p => encode_utf8 k ++ lit ":" ++ path_aad p
  end.

(** The cleartext bytes of the leaves, in traversal order. *)
Definition cleartexts `{Platform} (ls : list (list string * scalar)) : bytes :=
  flat_map (fun px => cleartext_of (snd px)) ls.

(** What the encryptor is given for the leaves below a node reached with
    the AAD [aad]: for each leaf its AAD and its cleartext. *)
Definition leaf_calls `{Platform} (aad : bytes)
    (ls : list (list string * scalar)) : list (bytes * bytes) :=
  map (fun px => (aad ++ path_aad (fst px), cleartext_of (snd px))) ls.

Definition view (c : gcm_call) : bytes * bytes :=
  (call_aad c, call_cleartext c).

(** The uppercase hexadecimal digest of the leaves of a document. *)
Definition leaves_digest `{Platform} (branch : pydict) : string :=
  upper (sha512_hexdigest (cleartexts (root_leaves branch))).

(** ** What the platform is taken to guarantee *)

(** The alphabet of base64. *)
Definition b64_char (c : byte) : bool :=
  (in_range 65 90 c || in_range 97 122 c || in_range 48 57 c
   || Byte.eqb c "+" || Byte.eqb c "/" || Byte.eqb c "=")%bool.

Definition hex_char (c : byte) : bool :=
  (in_range 48 57 c || in_range 97 102 c)%bool.


Class PlatformLaws `{Platform} : Prop := {
  (** Decrypting what was encrypted, with the same key, IV, tag and AAD,
      gives the cleartext back. *)
  gcm_roundtrip : forall key iv aad c e t,
    aes_gcm_encrypt key iv aad c = Some (e, t) ->
    aes_gcm_decrypt key iv t aad e = Decrypted c;
  (** GCM is a stream mode: the ciphertext is as long as the cleartext; and
      there is a tag. *)
  gcm_keeps_length : forall key iv aad c e t,
    aes_gcm_encrypt key iv aad c = Some (e, t) -> length e = length c;
  gcm_has_tag : forall key iv aad c e,
    aes_gcm_encrypt key iv aad c <> Some (e, []);
  (** A 32-byte key and a 32-byte IV are accepted. *)
  gcm_accepts : forall key iv aad c,
    length key = 32 -> length iv = 32 ->
    aes_gcm_encrypt key iv aad c <> None;
  b64_roundtrip : forall x, b64decode (b64encode x) = Some x;
  b64_alphabet : forall x, forallb b64_char (b64encode x) = true;
  b64_empty : b64encode [] = [];
  urandom_length : forall n, length (urandom32 n) = 32;
  hexdigest_alphabet : forall x,
    forallb hex_char (encode_utf8 (sha512_hexdigest x)) = true;
  hexdigest_length : forall x,
    length (encode_utf8 (sha512_hexdigest x)) = 128
}.

(** The formats [walk_and_encrypt] writes and C1 to C3 are about: envelopes
    carry a type and the AAD has separators. *)
Definition current_format (V : float) : Prop :=
  has_type_field V = true /\ uses_separators V = true.

(** ** Documents that come back as they were *)

(** A float that [float] reads back from its [str], the latter being, as
    every Python [str], valid UTF-8. *)
Definition float_reads_back `{Platform} (f : float) : Prop :=
  utf8_valid (encode_utf8 (float_str f)) = true
  /\ float_of_string (float_str f) = Some f.

(** Leaves whose envelope [decrypt] can take apart and restore: a float has
    to read back from its text. *)
Definition restorable `{Platform} (x : scalar) : Prop :=
  match x with
  | SFloat f => float_reads_back f
  | _ => True
  end.

(** Leaves of the five types of the specification, with a cleartext that is
    not empty; a [str] is valid UTF-8, as every Python [str] is, and a float
    reads back from its text. *)
Definition intact_scalar `{Platform} (x : scalar) : Prop :=
  match x with
  | SStr s => s <> "" /\ utf8_valid (encode_utf8 s) = true
  | SBytes b => b <> []
  | SFloat f => float_str f <> "" /\ float_reads_back f
  | SBool _ | SInt _ => True
  | SNone | SPreserved _ => False
  end.

(** A preserved literal keeps its marker under a mapping key. *)
Definition intact_entry `{Platform} (x : scalar) : Prop :=
  match x with
  | SPreserved s => s <> "" /\ utf8_valid (encode_utf8 s) = true
  | _ => intact_scalar x
  end.

Fixpoint all_leaves (P : scalar -> Prop) (v : value) : Prop :=
  match v with
  | VLeaf x => P x
  | VDict d =>
    (fix entries (d : pydict) : Prop :=
       match d with
       | [] => True
       | (_, c) :: r => all_leaves P c /\ entries r
       end) d
  | VList l =>
    (fix elements (l : list value) : Prop :=
       match l with
       | [] => True
       | c :: r => all_leaves P c /\ elements r
       end) l
  end.

Fixpoint intact `{Platform} (v : value) : Prop :=
  match v with
  | VLeaf x => intact_scalar x
  | VDict d =>
    (fix entries (d : pydict) : Prop :=
       match d with
       | [] => True
       | (_, c) :: r =>
         match c with
         | VLeaf x => intact_entry x
         | _ => intact c
         end /\ entries r
       end) d
  | VList l =>
    (fix elements (l : list value) : Prop :=
       match l with
       | [] => True
       | c :: r => intact c /\ elements r
       end) l
  end.

(** The bytes of an envelope. *)
Definition envelope_bytes (data iv tag valtype : bytes) : bytes :=
  lit "ENC[AES256_GCM,data:" ++ data ++ lit ",iv:" ++ iv ++ lit ",tag:" ++ tag
  ++ lit ",type:" ++ valtype ++ lit "]".

(** The world with [data] absorbed by the digest, if there is one. *)
Definition absorb (digest : bool) (data : bytes) (w : world) : world :=
  if digest
  then {| draws := draws w; gcm_calls := gcm_calls w;
          sha512 := sha512 w ++ data |}
  else w.

(** Mapping, list or leaf. *)
Definition kind (v : value) : nat :=
  match v with
  | VLeaf _ => 0
  | VDict _ => 1
  | VList _ => 2
  end.

(** What it takes of a member of a mapping to come back as it was. *)
Definition intact_member `{Platform} (v : value) : Prop :=
  match v with
  | VLeaf x => intact_entry x
  | _ => intact v
  end.

(** An encryption [enc] of the document value [v] that succeeds and whose
    result the decryption [dec] turns, without a stash, into a value that is
    [v] when [keeps] holds, having fed the digest the cleartexts of [v]. *)
Definition comes_back `{Platform} (enc : M value)
    (dec : value -> stash -> bool -> M (value * stash)) (v : value)
    (keeps : Prop) (w : world) : Prop :=
  exists E w1,
    enc w = Ok (E, w1)
    /\ kind E = kind v
    /\ forall nst dg2 w2, truthy nst = false ->
       exists D,
         dec E nst dg2 w2
           = Ok ((D, nst), absorb dg2 (cleartexts (leaves v)) w2)
         /\ (keeps -> D = v).

(** The [sops] branch once the root call of [walk_and_encrypt] has set
    [lastmodified] and [mac]. *)
Definition sealed `{Platform} (sops : pydict) (mac : string) : value :=
  VDict (dict_set (dict_set sops "lastmodified" (VLeaf (SStr NOW)))
           "mac" (VLeaf (SStr mac))).


(** ** What the walks do to the world

    The decrypt walk reads nothing of the world and only feeds the digest:
    a run that succeeds, succeeds from any world, with or without a digest,
    with the same result and the same bytes absorbed. *)
Definition steady {A} (f : bool -> M A) : Prop :=
  forall dg w r w1, f dg w = Ok (r, w1) ->
  exists absorbed,
    w1 = absorb dg absorbed w
    /\ forall dg0 w0, f dg0 w0 = Ok (r, absorb dg0 absorbed w0).

(** No [panic(..., 51)] or [panic(..., 52)] comes out of a computation. *)
Definition calm {A} (m : M A) : Prop :=
  forall w c, m w = Err (Panic c) -> c = 23%Z.

Definition calm_result {A} (x : result A) : Prop :=
  forall c, x = Err (Panic c) -> c = 23%Z.

(** Both, of a walk of one document value. *)
Definition steady_on
    (walk : value -> bytes -> bytes -> stash -> bool -> M (value * stash))
    (v : value) : Prop :=
  forall key aad st, steady (fun dg => walk v key aad st dg).

Definition calm_on
    (walk : value -> bytes -> bytes -> stash -> bool -> M (value * stash))
    (v : value) : Prop :=
  forall key aad st dg, calm (walk v key aad st dg).

(** A computation that, when it succeeds, has used the encryptor for [calls]
    and fed [hashed] to the digest. *)
Definition emits {A} (m : M A) (calls : list (bytes * bytes)) (hashed : bytes)
    : Prop :=
  forall w r w1, m w = Ok (r, w1) ->
  exists cs,
    gcm_calls w1 = gcm_calls w ++ cs
    /\ map view cs = calls
    /\ sha512 w1 = sha512 w ++ hashed.

(** What [decrypt] feeds the digest for a leaf reached with the AAD [aad]:
    the cleartext the decryptor returns for a text in encrypted form, and
    nothing for any other value, which is returned as it is. *)
Definition opened_leaf `{Platform} (V : float) (key aad : bytes) (x : scalar)
    : bytes :=
  match x with
  | SStr s | SPreserved s =>
    match re_match (valre V) (encode_utf8 s) with
    | Some groups =>
      match b64decode (nth 0 groups []), b64decode (nth 1 groups []),
            b64decode (nth 2 groups []) with
      | Some enc_value, Some iv, Some tag =>
        match aes_gcm_decrypt key iv tag aad enc_value with
        | Decrypted cleartext => cleartext
        | _ => []
        end
      | _, _, _ => []
      end
    | None => []
    end
  | _ => []
  end.

(** The same for the leaves below a node reached with the AAD [aad], in
    traversal order, at a format with separators in the AAD. *)
Definition opened `{Platform} (V : float) (key aad : bytes)
    (ls : list (list string * scalar)) : bytes :=
  flat_map (fun px => opened_leaf V key (aad ++ path_aad (fst px)) (snd px))
    ls.

(** A computation that, when it succeeds, has fed [hashed] to the digest. *)
Definition feeds {A} (m : M A) (hashed : bytes) : Prop :=
  forall w r w1, m w = Ok (r, w1) -> sha512 w1 = sha512 w ++ hashed.

Definition feeds_on `{Platform} (V : float)
    (walk : value -> bytes -> bytes -> stash -> bool -> M (value * stash))
    (v : value) : Prop :=
  forall key aad st dg,
    feeds (walk v key aad st dg)
      (if dg then opened V key aad (leaves v) else []).

(** ** The envelope under the regular expression *)

(** What [greedy] answers once the run of matching bytes is over. *)
Definition here (k : bytes -> option (list bytes)) (pre s : bytes)
    : option (list bytes) :=
  match pre with
  | [] => None
  | _ :: _ => option_map (cons pre) (k s)
  end.

Definition comma_free (b : bytes) : bool :=
  forallb (fun x => negb (Byte.eqb "," x)) b.

(** ** The members of a mapping and of a list *)

Section Walks.

Context `{Platform}.
Variable V : float.

Definition hashed (dg : bool) (ls : list (list string * scalar)) : bytes :=
  if dg then cleartexts ls else [].

(** What is expected of the encrypt walk of one document value. *)
Definition emits_on
    (walk : value -> bytes -> bytes -> stash -> bool -> M value)
    (v : value) : Prop :=
  forall key aad st dg,
    emits (walk v key aad st dg) (leaf_calls aad (leaves v))
      (hashed dg (leaves v)).

(** The loop of the root call of the decrypt walk. *)
Definition root_items (branch : pydict) (key aad : bytes) (st : stash)
    (dg : bool) : M (pydict * stash) :=
  walk_and_decrypt_items V (walk_node_decrypt V) branch aad key aad st true dg.

(** What the loops do with one member of a mapping or of a list. *)
Definition encrypt_entry (v : value) (key caad : bytes) (nstash : stash)
    (dg : bool) : M value :=
  match v with
  | VDict _ | VList _ => walk_node_encrypt v key caad nstash dg
  | VLeaf (SPreserved s) =>
    ev <- encrypt (SPreserved s) key caad nstash dg ;;
    ret (VLeaf (SPreserved ev))
  | VLeaf x =>
    ev <- encrypt x key caad nstash dg ;;
    ret (VLeaf (SStr ev))
  end.

Definition encrypt_element (v : value) (key aad : bytes) (nstash : stash)
    (dg : bool) : M value :=
  match v with
  | VDict _ | VList _ => walk_node_encrypt v key aad nstash dg
  | VLeaf x =>
    ev <- encrypt x key aad nstash dg ;;
    ret (VLeaf (SStr ev))
  end.

Definition decrypt_entry (v : value) (key caad : bytes) (nstash : stash)
    (dg : bool) : M (value * stash) :=
  match v with
  | VDict _ | VList _ => walk_node_decrypt V v key caad nstash dg
  | VLeaf (SPreserved s) =>
    '(ev, n) <- decrypt V (SPreserved s) key caad nstash dg ;;
    ret (VLeaf (preserved ev), n)
  | VLeaf x =>
    '(ev, n) <- decrypt V x key caad nstash dg ;;
    ret (VLeaf ev, n)
  end.

Definition decrypt_element (v : value) (key aad : bytes) (nstash : stash)
    (dg : bool) : M (value * stash) :=
  match v with
  | VDict _ | VList _ => walk_node_decrypt V v key aad nstash dg
  | VLeaf x =>
    '(ev, n) <- decrypt V x key aad nstash dg ;;
    ret (VLeaf ev, n)
  end.

(** A value that the decrypt walk brings back from the encrypt walk. *)
Definition roundtrips (v : value) : Prop :=
  forall key aad st dg w,
    all_leaves restorable v -> truthy st = false -> length key = 32 ->
    comes_back (walk_node_encrypt v key aad st dg)
      (fun E nst dg2 => walk_node_decrypt V E key aad nst dg2) v (intact v) w.

End Walks.

(** * The rest of the module *)

(** ** Text *)

(** [s.split(sep)] for a separator of one character: never an empty list. *)
Fixpoint split (sep : ascii) (s : string) : list string :=
  match s with
  | EmptyString => [EmptyString]
  | String c r =>
    if Ascii.eqb c sep then EmptyString :: split sep r
    else match split sep r with
         | p :: ps => String c p :: ps
         | [] => [String c EmptyString]
         end
  end.

(** [s.replace(c, "")]. *)
Fixpoint remove_all (c : ascii) (s : string) : string :=
  match s with
  | EmptyString => EmptyString
  | String a r =>
    if Ascii.eqb a c then remove_all c r else String a (remove_all c r)
  end.

(** [s.replace(c, "", n)]: the first [n] occurrences go. *)
Fixpoint remove_first (n : nat) (c : ascii) (s : string) : string :=
  match n, s with
  | O, _ => s
  | _, EmptyString => EmptyString
  | S n', String a r =>
    if Ascii.eqb a c then remove_first n' c r
    else String a (remove_first n c r)
  end.

(** [s.find(sub)]; [None] is [-1].  Positions count bytes here and characters
    in Python: the module only uses them to cut [s] at an ASCII text, where
    both cut at the same place. *)
Fixpoint find (sub s : string) : option nat :=
  if String.prefix sub s then Some 0
  else match s with
       | EmptyString => None
       | String _ r => option_map S (find sub r)
       end.

(** [s[:n]] and [s[n:]]. *)
Fixpoint take (n : nat) (s : string) : string :=
  match n, s with
  | S n', String a r => String a (take n' r)
  | _, _ => EmptyString
  end.

Fixpoint drop (n : nat) (s : string) : string :=
  match n, s with
  | S n', String _ r => drop n' r
  | _, _ => s
  end.

(** [s[len(s)-1]] of a text that is not empty. *)
Fixpoint last_char (s : string) : option ascii :=
  match s with
  | EmptyString => None
  | String a EmptyString => Some a
  | String _ r => last_char r
  end.

(** [s[0:len(s)-1]]. *)
Fixpoint but_last (s : string) : string :=
  match s with
  | EmptyString => EmptyString
  | String _ EmptyString => EmptyString
  | String a r => String a (but_last r)
  end.

(** The characters of a text, each as its UTF-8 bytes: a byte that is not a
    continuation byte starts a character. *)
Fixpoint code_points (b : bytes) : list bytes :=
  match b with
  | [] => []
  | c :: r =>
    match code_points r with
    | (x :: g) :: gs =>
      if cont_byte x then (c :: x :: g) :: gs else [c] :: (x :: g) :: gs
    | gs => [c] :: gs
    end
  end.

(** ** [truncate_tree] *)

(** [v[i]] for an index [i] that is not negative.  The keys of a document
    mapping are texts, none equals an integer. *)
Definition py_getitem_int (v : value) (i : nat) : result value :=
  match v with
  | VList l =>
    match nth_error l i with Some x => Ok x | None => Err IndexError end
  | VDict _ => Err KeyError
  | VLeaf (SStr s) | VLeaf (SPreserved s) =>
    match nth_error (code_points (encode_utf8 s)) i with
    | Some c => Ok (VLeaf (SStr (string_of_list_byte c)))
    | None => Err IndexError
    end
  | VLeaf (SBytes b) =>
    match nth_error b i with
    | Some c => Ok (VLeaf (SInt (Z.of_N (Byte.to_N c))))
    | None => Err IndexError
    end
  | VLeaf _ => Err TypeError
  end.

(** The pattern [^\d+$] of [truncate_tree], searched in bytes. *)
Definition index_re : list tok := [DigitPlus; Dollar].

(** [int(comp)] for a [comp] the pattern accepts: digits, and possibly the
    newline that [$] lets through and [int] strips. *)
Definition index_of (comp : string) : option nat :=
  let digits :=
    match last_char comp with
    | Some "010"%char => but_last comp
    | _ => comp
    end in
  option_map Z.to_nat (py_int digits).

(** One turn of the loop of [truncate_tree]. *)
Definition truncate_step (tree : value) (comp : string) : result value :=
  if String.eqb comp "" then Ok tree
  else
    match last_char comp with
    | Some "]"%char =>
      let comp := but_last comp in
      let comp := remove_first 2 "034"%char comp in
      let comp := remove_first 2 "039"%char comp in
      match re_match index_re (encode_utf8 comp) with
      | Some _ =>
        match index_of comp with
        | Some i => py_getitem_int tree i
        | None => Err ValueError
        end
      | None => py_getitem tree comp
      end
    | _ => Err (Panic 91)
    end.

Fixpoint truncate_steps (tree : value) (comps : list string) : result value :=
  match comps with
  | [] => Ok tree
  | comp :: rest =>
    match truncate_step tree comp with
    | Ok tree' => truncate_steps tree' rest
    | Err e => Err e
    end
  end.

(** [truncate_tree(tree, path)]. *)
Definition truncate_tree (tree : value) (path : string) : result value :=
  truncate_steps tree (split "["%char path).

(** [c not in s]. *)
Fixpoint char_free (c : ascii) (s : string) : bool :=
  match s with
  | EmptyString => true
  | String a r => (negb (Ascii.eqb a c) && char_free c r)%bool
  end.

(** [str(n)]: the decimal numeral of [n]. *)
Definition decimal (n : nat) : string :=
  NilZero.string_of_int (Z.to_int (Z.of_nat n)).

(** A path component between brackets: bare, in double quotes and in single
    quotes. *)
Definition bare (k : string) : string := String "[" (k ++ "]").

Definition double_quoted (k : string) : string :=
  bare (String "034" (k ++ String "034" "")).

Definition single_quoted (k : string) : string :=
  bare (String "039" (k ++ String "039" "")).

(** One component, once the brackets are gone. *)
Definition component (tree : value) (comp : string) : result value :=
  match re_match index_re (encode_utf8 comp) with
  | Some _ =>
    match index_of comp with
    | Some i => py_getitem_int tree i
    | None => Err ValueError
    end
  | None => py_getitem tree comp
  end.

(** ** The [sops] branch of a new document *)

(** [tree['sops'][field] = entries]. *)
Definition set_recipients (tree : pydict) (field : string)
    (entries : list value) : result pydict :=
  match py_getitem (VDict tree) "sops" with
  | Err e => Err e
  | Ok sops =>
    match py_setitem sops field (VList entries) with
    | Err e => Err e
    | Ok sops' => Ok (dict_set tree "sops" sops')
    end
  end.

(** Whether a [for] loop over [pieces] ran at all. *)
Definition ran {A} (pieces : list A) : bool :=
  match pieces with [] => false | _ :: _ => true end.

(** The entry [parse_kms_arn] makes of one piece of its argument. *)
Definition kms_entry_of (arn : string) : value :=
  let arn := remove_all " " arn in
  match find "+arn:aws:iam::" arn with
  | Some (S n) =>
    VDict [("arn", VLeaf (SStr (take (S n) arn)));
           ("role", VLeaf (SStr (drop (S n + 1) arn)))]
  | _ => VDict [("arn", VLeaf (SStr arn))]
  end.

(** [parse_kms_arn(tree, kms_arns)]. *)
Definition parse_kms_arn (tree : pydict) (kms_arns : string)
    : result (pydict * bool) :=
  let pieces := split "," kms_arns in
  match set_recipients tree "kms" (map kms_entry_of pieces) with
  | Err e => Err e
  | Ok tree' => Ok (tree', ran pieces)
  end.

Definition pgp_entry_of (fp : string) : value :=
  VDict [("fp", VLeaf (SStr (remove_all " " fp)))].

(** [parse_pgp_fp(tree, pgp_fps)]. *)
Definition parse_pgp_fp (tree : pydict) (pgp_fps : string)
    : result (pydict * bool) :=
  let pieces := split "," pgp_fps in
  match set_recipients tree "pgp" (map pgp_entry_of pieces) with
  | Err e => Err e
  | Ok tree' => Ok (tree', ran pieces)
  end.

(** [k in entry and entry[k] != "" and entry['enc'] != ""]. *)
Definition holds_key (k : string) (entry : value) : result bool :=
  match py_contains entry k with
  | Err e => Err e
  | Ok false => Ok false
  | Ok true =>
    match py_getitem entry k with
    | Err e => Err e
    | Ok x =>
      if value_is_text x "" then Ok false
      else
        match py_getitem entry "enc" with
        | Err e => Err e
        | Ok enc => Ok (negb (value_is_text enc ""))
        end
    end
  end.

(** A loop that returns at the first entry for which [test] holds. *)
Fixpoint first_hit (test : value -> result bool) (entries : list value)
    : result bool :=
  match entries with
  | [] => Ok false
  | entry :: rest =>
    match test entry with
    | Err e => Err e
    | Ok true => Ok true
    | Ok false => first_hit test rest
    end
  end.

(** [field in sops and isinstance(sops[field], list)], then the loop. *)
Definition has_wrapped_key (field k : string) (sops : value) : result bool :=
  match py_contains sops field with
  | Err e => Err e
  | Ok false => Ok false
  | Ok true =>
    match py_getitem sops field with
    | Err e => Err e
    | Ok (VList entries) => first_hit (holds_key k) entries
    | Ok _ => Ok false
    end
  end.

Definition attention : string :=
  "This section contains key material"
  ++ " that should only be modified with extra care. See `sops -h`.".

(** The branch [verify_or_create_sops_branch] gives a tree that has none. *)
Definition new_sops_branch : value :=
  VDict [("attention", VLeaf (SStr attention));
         ("version", VLeaf (SFloat VERSION))].

(** [verify_or_create_sops_branch(tree, kms_arns, pgp_fps)]: the tree and
    [need_new_data_key]. *)
Definition verify_or_create_sops_branch (tree : pydict)
    (kms_arns pgp_fps : option string) : result (pydict * bool) :=
  let tree :=
    if dict_has tree "sops" then tree
    else dict_set tree "sops" new_sops_branch in
  match py_getitem (VDict tree) "sops" with
  | Err e => Err e
  | Ok sops =>
    match has_wrapped_key "kms" "arn" sops with
    | Err e => Err e
    | Ok true => Ok (tree, false)
    | Ok false =>
      match has_wrapped_key "pgp" "fp" sops with
      | Err e => Err e
      | Ok true => Ok (tree, false)
      | Ok false =>
        match (match kms_arns with
               | Some arns => parse_kms_arn tree arns
               | None => Ok (tree, false)
               end) with
        | Err e => Err e
        | Ok (tree, has_at_least_one_method) =>
          match (match pgp_fps with
                 | Some fps => parse_pgp_fp tree fps
                 | None => Ok (tree, has_at_least_one_method)
                 end) with
          | Err e => Err e
          | Ok (tree, has_at_least_one_method) =>
            if has_at_least_one_method then Ok (tree, true)
            else Err (Panic 111)
          end
        end
      end
    end
  end.

(** [k in entry and entry[k] != ""]. *)
Definition names_key (k : string) (entry : value) : result bool :=
  match lacks entry k with
  | Err e => Err e
  | Ok b => Ok (negb b)
  end.

(** One of the two loops of [check_master_keys]. *)
Definition has_master_key (field k : string) (sops : value) : result bool :=
  match py_contains sops field with
  | Err e => Err e
  | Ok false => Ok false
  | Ok true =>
    match py_getitem sops field with
    | Err e => Err e
    | Ok recipients =>
      match py_iter recipients with
      | Err e => Err e
      | Ok entries => first_hit (names_key k) entries
      end
    end
  end.

(** [check_master_keys(tree)]. *)
Definition check_master_keys (tree : pydict) : result bool :=
  match py_getitem (VDict tree) "sops" with
  | Err e => Err e
  | Ok sops =>
    match has_master_key "kms" "arn" sops with
    | Err e => Err e
    | Ok true => Ok true
    | Ok false => has_master_key "pgp" "fp" sops
    end
  end.

(** [sep.join(l)]. *)
Fixpoint join (sep : string) (l : list string) : string :=
  match l with
  | [] => ""
  | [a] => a
  | a :: r => a ++ sep ++ join sep r
  end.

(** A KMS entry with its ARN and, possibly, the role to assume. *)
Definition kms_entry (x : string * option string) : value :=
  match x with
  | (arn, Some role) =>
    VDict [("arn", VLeaf (SStr arn)); ("role", VLeaf (SStr role))]
  | (arn, None) => VDict [("arn", VLeaf (SStr arn))]
  end.

(** The text that names such an entry on the command line. *)
Definition kms_entry_text (x : string * option string) : string :=
  match x with
  | (arn, Some role) => arn ++ "+" ++ role
  | (arn, None) => arn
  end.

(** What a role starts with in the text of an entry. *)
Definition role_mark : string := "+arn:aws:iam::".

(** An entry with a role has an ARN, its role is an IAM ARN, and its ARN
    stops where [+arn:aws:iam::] first occurs in its text; the text of an
    entry without a role has that mark nowhere, or only at its very start. *)
Definition role_in_place (x : string * option string) : bool :=
  match x with
  | (arn, Some role) =>
    (negb (String.eqb arn "") && String.prefix "arn:aws:iam::" role
     && match find role_mark (arn ++ "+" ++ role) with
        | Some n => Nat.eqb n (String.length arn)
        | None => false
        end)%bool
  | (arn, None) =>
    match find role_mark arn with
    | Some (S _) => false
    | _ => true
    end
  end.

(** A PGP entry. *)
Definition pgp_entry (fp : string) : value := VDict [("fp", VLeaf (SStr fp))].

(** A fingerprint or an ARN as the parsers leave it: without blanks, and
    without the comma that separates two of them. *)
Definition trimmed (s : string) : bool :=
  (char_free "," s && char_free " " s)%bool.

(** The entries of [sops.kms] or [sops.pgp] when it is a list. *)
Definition recipients (field : string) (sops : pydict) : list value :=
  match dict_get sops field with
  | Some (VList entries) => entries
  | _ => []
  end.

(** An entry that is a mapping and has an [enc]. *)
Definition complete (entry : value) : bool :=
  match entry with
  | VDict d => dict_has d "enc"
  | _ => false
  end.

(** An entry that names its key under [k], with a text that is not empty. *)
Definition named_under (k : string) (entry : value) : bool :=
  match entry with
  | VDict d =>
    match dict_get d k with
    | Some x => negb (value_is_text x "")
    | None => false
    end
  | _ => false
  end.

(** An entry that names its key and holds the data key wrapped for it. *)
Definition wrapped_under (k : string) (entry : value) : bool :=
  (named_under k entry && named_under "enc" entry)%bool.

(** [sops.kms] or [sops.pgp] is absent, or a list of mappings. *)
Definition listed (field : string) (sops : pydict) : bool :=
  match dict_get sops field with
  | None => true
  | Some (VList entries) => forallb is_dict entries
  | Some _ => false
  end.

(** A piece of a command-line argument that holds more than blanks. *)
Definition not_blank (piece : string) : bool :=
  negb (String.eqb (remove_all " " piece) "").

(** Documents to try the functions on. *)
Module Samples.

Definition wrapped_sops : pydict :=
  [("kms", VList [VDict [("arn", VLeaf (SStr "")); ("enc", VLeaf (SStr ""))];
                  VDict [("arn", VLeaf (SStr "arn:aws:kms:us-east-1:1:key/k"));
                         ("enc", VLeaf (SStr "AQEC"))]]);
   ("version", VLeaf (SFloat VERSION))].

Definition wrapped_tree : pydict :=
  [("user", VLeaf (SStr "bob")); ("sops", VDict wrapped_sops)].

Definition unwrapped_entry : pydict :=
  [("arn", VLeaf (SStr "arn:aws:kms:us-east-1:1:key/k"))].

Definition unwrapped_sops : pydict :=
  [("kms", VList [VDict unwrapped_entry])].

Definition unwrapped_tree : pydict :=
  [("user", VLeaf (SStr "bob")); ("sops", VDict unwrapped_sops)].

Definition bare_sops : pydict := [("version", VLeaf (SFloat VERSION))].

Definition bare_tree : pydict :=
  [("user", VLeaf (SStr "bob")); ("sops", VDict bare_sops)].

Definition plain_tree : pydict := [("user", VLeaf (SStr "bob"))].

Definition odd_tree : pydict :=
  [("user", VLeaf (SStr "bob"));
   ("ports", VList [VLeaf (SStr "http"); VLeaf (SInt 8080)]);
   ("sops", VDict bare_sops)].

End Samples.

(** ** The data key *)

(** The KMS at the other end, for decryption. *)
Class Vault : Type := {
  (** [kms.decrypt(CiphertextBlob=blob)['Plaintext']]; [None] when the call
      raises. *)
  kms_decrypt : kms_client -> bytes -> option bytes
}.

Section DataKey.

Context `{Platform} `{Vault}.

(** [b64decode(enc)] for whatever an entry holds under [enc]: a text must be
    ASCII, anything but a text or bytes is refused; [None] is the exception
    raised. *)
Definition b64decode_value (enc : value) : option bytes :=
  match enc with
  | VLeaf (SStr s) | VLeaf (SPreserved s) =>
    if forallb (in_range 0 127) (encode_utf8 s)
    then b64decode (encode_utf8 s)
    else None
  | VLeaf (SBytes b) => b64decode b
  | _ => None
  end.

(** The loop of [get_key_from_kms]. *)
Fixpoint first_kms_key (entries : list value) : result (option bytes) :=
  match entries with
  | [] => Ok None
  | entry :: rest =>
    match py_getitem entry "enc" with
    | Err KeyError => first_kms_key rest
    | Err e => Err e
    | Ok enc =>
      match lacks entry "arn" with
      | Err e => Err e
      | Ok true => first_kms_key rest
      | Ok false =>
        match get_aws_session_for_entry entry with
        | Err e => Err e
        | Ok None => first_kms_key rest
        | Ok (Some kms) =>
          match b64decode_value enc with
          | None => first_kms_key rest
          | Some blob =>
            match kms_decrypt kms blob with
            | None => first_kms_key rest
            | Some key => Ok (Some key)
            end
          end
        end
      end
    end
  end.

(** [get_key_from_kms(tree)]. *)
Definition get_key_from_kms (tree : pydict) : result (option bytes) :=
  match dict_get tree "sops" with
  | None => Ok None
  | Some sops =>
    match py_getitem sops "kms" with
    | Err KeyError => Ok None
    | Err e => Err e
    | Ok kms_tree =>
      match py_iter kms_tree with
      | Err e => Err e
      | Ok entries => first_kms_key entries
      end
    end
  end.

(** One of the two loops of [get_key] when a key is needed: the entries as
    the loop leaves them, and whether one of them holds the key.  The
    wrapping functions write into the entry they are given, so the entry of
    the tree is the one they return whether or not the loop stores it. *)
Fixpoint wrap_entries (wrap : bytes -> value -> result value) (key : bytes)
    (entries : list value) : result (list value * bool) :=
  match entries with
  | [] => Ok ([], false)
  | entry :: rest =>
    match wrap key entry with
    | Err e => Err e
    | Ok updated =>
      match lacks updated "enc" with
      | Err e => Err e
      | Ok missing =>
        match wrap_entries wrap key rest with
        | Err e => Err e
        | Ok (rest', has) => Ok (updated :: rest', (negb missing || has)%bool)
        end
      end
    end
  end.

(** The [kms] or [pgp] part of [get_key].  What is iterated and is not a list
    has texts or integers for entries, and the loop ends in an exception or
    stores nothing. *)
Definition wrap_recipients (field : string)
    (wrap : bytes -> value -> result value) (key : bytes) (sops : value)
    : result (value * bool) :=
  match py_contains sops field with
  | Err e => Err e
  | Ok false => Ok (sops, false)
  | Ok true =>
    match py_getitem sops field with
    | Err e => Err e
    | Ok recipients =>
      match py_iter recipients with
      | Err e => Err e
      | Ok entries =>
        match wrap_entries wrap key entries with
        | Err e => Err e
        | Ok (entries', has) =>
          match recipients with
          | VList _ =>
            match py_setitem sops field (VList entries') with
            | Err e => Err e
            | Ok sops' => Ok (sops', has)
            end
          | _ => Ok (sops, has)
          end
        end
      end
    end
  end.

(** The part of [get_key] that stores a new key. *)
Definition store_key (tree : pydict) (key : bytes) : result pydict :=
  match py_getitem (VDict tree) "sops" with
  | Err e => Err e
  | Ok sops =>
    match wrap_recipients "kms" encrypt_key_with_kms key sops with
    | Err e => Err e
    | Ok (sops1, has_kms) =>
      match wrap_recipients "pgp" encrypt_key_with_pgp key sops1 with
      | Err e => Err e
      | Ok (sops2, has_pgp) =>
        if (has_kms || has_pgp)%bool then Ok (dict_set tree "sops" sops2)
        else Err (Panic 37)
      end
    end
  end.

(** [get_key(tree, need_key)]: the key and the tree. *)
Definition get_key (tree : pydict) (need_key : bool) : M (bytes * pydict) :=
  if need_key then
    key <- urandom ;;
    tree' <- lift (store_key tree key) ;;
    ret (key, tree')
  else
    from_kms <- lift (get_key_from_kms tree) ;;
    match from_kms with
    | Some key => ret (key, tree)
    | None =>
      from_pgp <- lift (get_key_from_pgp tree) ;;
      match from_pgp with
      | Some key => ret (key, tree)
      | None => raise (Panic 128)
      end
    end.

End DataKey.

(** A mapping whose [arn], if it has one, is a text. *)
Definition kms_shaped (entry : value) : bool :=
  match entry with
  | VDict d =>
    match dict_get d "arn" with
    | None | Some (VLeaf (SStr _)) | Some (VLeaf (SPreserved _)) => true
    | Some _ => false
    end
  | _ => false
  end.

(** [sops.kms] is absent, or a list of such mappings. *)
Definition kms_listed (sops : pydict) : bool :=
  match dict_get sops "kms" with
  | None => true
  | Some (VList entries) => forallb kms_shaped entries
  | Some _ => false
  end.

(** The data key a KMS entry yields: the entry has an [enc] and an ARN, a
    client can be built for it, the [enc] decodes and the service decrypts
    it. *)
Definition kms_candidate `{Platform} `{Vault} (entry : value)
    : option bytes :=
  match entry with
  | VDict d =>
    match dict_get d "enc" with
    | None => None
    | Some enc =>
      if named_under "arn" entry then
        match get_aws_session_for_entry entry with
        | Ok (Some kms) =>
          match b64decode_value enc with
          | Some blob => kms_decrypt kms blob
          | None => None
          end
        | _ => None
        end
      else None
    end
  | _ => None
  end.

(** A KMS entry the wrapping function passes over: it names no ARN, or no
    client can be built for the one it names. *)
Definition without_client `{Platform} (entry : value) : bool :=
  match entry with
  | VDict _ =>
    (negb (named_under "arn" entry)
     || match get_aws_session_for_entry entry with
        | Ok None => true
        | _ => false
        end)%bool
  | _ => false
  end.

(** A stand-in for the KMS that undoes what the one of [Lab] does. *)
Module LabVault.

Definition lab_kms_decrypt (c : kms_client) (blob : bytes) : option bytes :=
  if bytes_eqb (client_region c) (lit "us-east-1") then Some (rev blob)
  else None.

#[export] Instance vault : Vault := {| kms_decrypt := lab_kms_decrypt |}.

End LabVault.

Module KeySamples.

Definition one_kms_entry (entry : pydict) : pydict :=
  [("user", VLeaf (SStr "bob"));
   ("sops", VDict [("kms", VList [VDict entry])])].

(** A key wrapped by the KMS of [Lab], and a second one by its gpg. *)
Definition wrapped_twice : pydict :=
  [("kms", VList [VDict [("arn", VLeaf (SStr "arn:aws:kms:us-east-1:1:key/k"));
                         ("enc", VLeaf (SStr "6b6579"))]]);
   ("pgp", VList [VDict [("fp", VLeaf (SStr "AB12"));
                         ("enc", VLeaf (SStr "crash"))]])].

Definition wrapped_twice_tree : pydict :=
  [("user", VLeaf (SStr "bob")); ("sops", VDict wrapped_twice)].

(** An entry still to wrap for. *)
Definition to_wrap : pydict :=
  [("arn", VLeaf (SStr "arn:aws:kms:us-east-1:1:key/k"))].

(** An entry with a role that cannot be assumed, and the [enc] of an
    earlier key. *)
Definition out_of_reach : pydict :=
  [("arn", VLeaf (SStr "arn:aws:kms:us-east-1:1:key/k"));
   ("role", VLeaf (SStr "arn:aws:iam::2:role/r"));
   ("enc", VLeaf (SStr "6f6c64"))].

(** An entry in a region where the KMS of [Lab] refuses to encrypt. *)
Definition refused : pydict :=
  [("arn", VLeaf (SStr "arn:aws:kms:eu-west-1:1:key/k"))].

End KeySamples.

(** ** What the walks do to a document *)

(** What every envelope starts with. *)
Definition marker : bytes := lit "ENC[AES256_GCM,data:".

(** A leaf that is a text. *)
Definition is_text (x : scalar) : bool :=
  match x with
  | SStr _ | SPreserved _ => true
  | _ => false
  end.

(** A text that has the look of an envelope, and one that does not. *)
Definition sealed_leaf (x : scalar) : bool :=
  match x with
  | SStr s | SPreserved s => starts_with marker (encode_utf8 s)
  | _ => false
  end.

Definition in_clear (x : scalar) : bool :=
  match x with
  | SStr s | SPreserved s => negb (starts_with marker (encode_utf8 s))
  | _ => false
  end.

(** A document without its leaves: the mappings with their keys in order,
    the lists with their lengths. *)
Fixpoint skeleton (v : value) : value :=
  match v with
  | VLeaf _ => VLeaf SNone
  | VDict d =>
    VDict ((fix entries (d : pydict) : pydict :=
              match d with
              | [] => []
              | (k, c) :: r => (k, skeleton c) :: entries r
              end) d)
  | VList l =>
    VList ((fix elements (l : list value) : list value :=
              match l with
              | [] => []
              | c :: r => skeleton c :: elements r
              end) l)
  end.

(** Whether every leaf of a document passes a test. *)
Definition every_leaf (test : scalar -> bool) (v : value) : bool :=
  forallb (fun px => test (snd px)) (leaves v).

(** A computation whose result, when there is one, has a property. *)
Definition yields {A} (m : M A) (P : A -> Prop) : Prop :=
  forall w r w1, m w = Ok (r, w1) -> P r.

(** What the encrypt walk makes of a document value: the same document
    without its leaves, and leaves that all have the look of an envelope. *)
Definition sealing (v v' : value) : Prop :=
  skeleton v' = skeleton v /\ every_leaf sealed_leaf v' = true.

Definition sealing_on
    (walk : value -> bytes -> bytes -> stash -> bool -> M value)
    (v : value) : Prop :=
  forall key aad st dg, yields (walk v key aad st dg) (sealing v).

(** The envelope of a value under a key: the text [encrypt] writes from the
    ciphertext and the tag the AES-GCM encryptor gave for the cleartext of
    the value, for some IV and some AAD, with the type of the value. *)
Definition envelope_for `{Platform} (key : bytes) (x : scalar) (env : string)
    : Prop :=
  exists iv aad e t data64 iv64 tag64,
    aes_gcm_encrypt key iv aad (cleartext_of x) = Some (e, t)
    /\ decode_utf8 (b64encode e) = Some data64
    /\ decode_utf8 (b64encode iv) = Some iv64
    /\ decode_utf8 (b64encode t) = Some tag64
    /\ env = format_envelope data64 iv64 tag64 (valtype_of x).

Definition sealed_by `{Platform} (key : bytes) (x y : scalar) : Prop :=
  exists env,
    envelope_for key x env /\ (y = SStr env \/ y = SPreserved env).

(** Two documents of which the second has, leaf by leaf in traversal order
    and under the same mapping keys, the envelopes of the values of the
    first. *)
Definition leafwise `{Platform} (key : bytes) (v v' : value) : Prop :=
  Forall2 (fun px py => fst py = fst px /\ sealed_by key (snd px) (snd py))
    (leaves v) (leaves v').

Definition wrapping_on `{Platform}
    (walk : value -> bytes -> bytes -> stash -> bool -> M value)
    (v : value) : Prop :=
  forall key aad st dg, yields (walk v key aad st dg) (leafwise key v).

(** A computation that cannot return unless something holds. *)
Definition demands {A} (m : M A) (P : Prop) : Prop :=
  forall w r, m w = Ok r -> P.

Definition texts_on
    (walk : value -> bytes -> bytes -> stash -> bool -> M (value * stash))
    (v : value) : Prop :=
  forall key aad st dg,
    demands (walk v key aad st dg) (every_leaf is_text v = true).

(** A walk that gives a value whose leaves are all in clear back as it is,
    the stash and the world with it, when there is no stash. *)
Definition idle_on
    (walk : value -> bytes -> bytes -> stash -> bool -> M (value * stash))
    (v : value) : Prop :=
  every_leaf in_clear v = true ->
  forall key aad st dg w,
    truthy st = false -> walk v key aad st dg w = Ok ((v, st), w).

(** A stash as the module makes them: [None], or a dict. *)
Definition plain_stash (st : stash) : bool :=
  match st with
  | StNone | StDict _ => true
  | _ => false
  end.

(** The first leaf, in traversal order, that is not a text in clear. *)
Definition first_not_clear (ls : list (list string * scalar))
    : option (list string * scalar) :=
  List.find (fun px => negb (in_clear (snd px))) ls.

(** A walk that goes through a value whose leaves are all in clear, and one
    that ends in [AttributeError] on a value in which the first leaf that is
    not a text in clear is no text at all. *)
Definition passes_on
    (walk : value -> bytes -> bytes -> stash -> bool -> M (value * stash))
    (v : value) : Prop :=
  every_leaf in_clear v = true ->
  forall key aad st dg w,
    plain_stash st = true ->
    exists st', plain_stash st' = true
                /\ walk v key aad st dg w = Ok ((v, st'), w).

Definition trips_on
    (walk : value -> bytes -> bytes -> stash -> bool -> M (value * stash))
    (v : value) : Prop :=
  forall p x,
    first_not_clear (leaves v) = Some (p, x) ->
    is_text x = false ->
    forall key aad st dg w,
      plain_stash st = true ->
      walk v key aad st dg w = Err AttributeError.

(** The stash [decrypt] leaves for a value, from the stash [d] it was
    given. *)
Definition stashed (d : list (skey * stash)) (iv aad cleartext : bytes)
    : stash :=
  StDict (sdict_set
            (sdict_set (sdict_set d (KStr "iv") (StBytes iv))
               (KStr "aad") (StBytes aad))
            (KStr "cleartext") (StBytes cleartext)).

(** A computation whose uses of the cipher each took the next answer of
    [os.urandom] for IV. *)
Definition draws_ivs `{Platform} {A} (m : M A) : Prop :=
  forall w r w1, m w = Ok (r, w1) ->
  exists cs,
    gcm_calls w1 = gcm_calls w ++ cs
    /\ map call_iv cs = map urandom32 (seq (draws w) (length cs))
    /\ draws w1 = draws w + length cs.

Definition draws_ivs_on `{Platform}
    (walk : value -> bytes -> bytes -> stash -> bool -> M value)
    (v : value) : Prop :=
  forall key aad st dg,
    truthy st = false -> draws_ivs (walk v key aad st dg).

(** ** ARNs *)

(** The text of a key ARN, from its region, its account and its key id. *)
Definition key_arn (region account id : string) : string :=
  "arn:aws:kms:" ++ region ++ ":" ++ account ++ ":key/" ++ id.

(** Texts the groups of the ARN pattern can hold. *)
Definition one_line (s : string) : bool :=
  forallb not_newline (encode_utf8 s).

Definition digits_only (s : string) : bool :=
  forallb is_digit (encode_utf8 s).

(** What follows the account in the pattern, and what follows the region. *)
Definition after_account : list tok := [Lit (lit ":key/"); AnyPlus; Dollar].

Definition after_region : list tok :=
  [Lit (lit ":"); DigitPlus; Lit (lit ":key/"); AnyPlus; Dollar].

(** ** [detect_filetype] *)

(** [s.rfind(c)] for one character; [None] is [-1]. *)
Fixpoint rfind (c : ascii) (s : string) : option nat :=
  match s with
  | EmptyString => None
  | String a r =>
    match rfind c r with
    | Some i => Some (S i)
    | None => if Ascii.eqb a c then Some 0 else None
    end
  end.

(** The loop of [splitext] that skips the dots a file name starts with:
    whether one of the [n] characters from index [i] on is not a dot. *)
Fixpoint has_stem (p : string) (i n : nat) : bool :=
  match n with
  | O => false
  | S n' =>
    match String.get i p with
    | Some "."%char => has_stem p (S i) n'
    | _ => true
    end
  end.

(** [os.path.splitext(p)], with [/] for separator. *)
Definition splitext (p : string) : string * string :=
  let filenameIndex :=
    match rfind "/" p with Some i => S i | None => 0 end in
  match rfind "." p with
  | Some dotIndex =>
    if (filenameIndex <=? dotIndex)%nat
       && has_stem p filenameIndex (dotIndex - filenameIndex)
    then (take dotIndex p, drop dotIndex p)
    else (p, "")
  | None => (p, "")
  end.

(** [detect_filetype(file)]. *)
Definition detect_filetype (file : string) : string :=
  let ext := snd (splitext file) in
  if (String.eqb ext ".yaml" || String.eqb ext ".yml")%bool then "yaml"
  else if String.eqb ext ".json" then "json"
  else "bytes".

(** A directory part: nothing, or a text that ends with the separator. *)
Definition directory (dir : string) : bool :=
  match last_char dir with
  | None | Some "/"%char => true
  | Some _ => false
  end.

(** A name made of dots and nothing else. *)
Definition only_dots (name : string) : bool :=
  String.eqb (remove_all "." name) "".

(** * Properties *)

(** ** Booleans in the codec *)

(** C7, as the code has it: a bool leaf gets the tag [bool], never [int],
    because the bool test comes first; its cleartext is Python's [str] of
    the value, [True] or [False] with a capital, and lowering it gives the
    [true] or [false] that [decrypt] compares with, so the leaf is restored. *)
Theorem bool_leaf_encoding `{Platform} (b : bool) :
  valtype_of (SBool b) = "bool"
  /\ String.eqb (valtype_of (SBool b)) "int" = false
  /\ cleartext_of (SBool b) = lit (if b then "True" else "False")
  /\ lower (cleartext_of (SBool b)) = lit (if b then "true" else "false")
  /\ restore_type (Some (lit "bool")) (cleartext_of (SBool b)) = Ok (SBool b).
Proof.
  destruct b; repeat split; reflexivity.
Qed.

(** C7, as stated, fails: the cleartext of [True] is not the lowercased
    text. *)
Lemma bool_cleartext_is_capitalised :
  cleartext_of (H := Lab.platform) (SBool true) = lit "True"
  /\ bytes_eqb (cleartext_of (H := Lab.platform) (SBool true)) (lit "true")
     = false.
Proof.
  split; reflexivity.
Qed.

(** ** Unwrapping through PGP *)

Section PgpUnwrap.

Context `{Platform}.

Lemma first_pgp_key_candidates (entries : list value) :
  forallb is_dict entries = true ->
  first_pgp_key entries = Ok (first_some pgp_candidate entries).
Proof.
  induction entries as [|entry rest IH]; intros Hd; [reflexivity|].
  simpl in Hd. apply andb_prop in Hd. destruct Hd as [He Hr].
  destruct entry as [x|d|l]; try discriminate.
  specialize (IH Hr). simpl.
  destruct (dict_get d "enc") as [enc|]; [|exact IH].
  destruct (py_encode enc) as [text|e]; [|exact IH].
  destruct (gpg_decrypt text) as [out|]; [|exact IH].
  destruct (Nat.eqb (length out) 32); [reflexivity|exact IH].
Qed.

Lemma first_some_candidate_length (entries : list value) (k : bytes) :
  first_some pgp_candidate entries = Some k -> length k = 32.
Proof.
  induction entries as [|entry rest IH]; simpl; [discriminate|].
  destruct (pgp_candidate entry) as [c|] eqn:E; [|exact IH].
  intros [= <-]. unfold pgp_candidate in E.
  destruct entry as [x|d|l]; try discriminate.
  destruct (dict_get d "enc") as [enc|]; [|discriminate].
  destruct (py_encode enc) as [text|e]; [|discriminate].
  destruct (gpg_decrypt text) as [out|]; [|discriminate].
  destruct (Nat.eqb (length out) 32) eqn:L; [|discriminate].
  injection E as <-. now apply Nat.eqb_eq.
Qed.

(** C10: over a [sops.pgp] list of entries, [get_key_from_pgp] returns the
    candidate of the first entry that has one, [None] when no entry has
    one, and a key it returns is 32 bytes long. *)
Theorem get_key_from_pgp_first_32_bytes
    (tree sops : pydict) (entries : list value) :
  dict_get tree "sops" = Some (VDict sops) ->
  dict_get sops "pgp" = Some (VList entries) ->
  forallb is_dict entries = true ->
  get_key_from_pgp tree = Ok (first_some pgp_candidate entries)
  /\ forall k, get_key_from_pgp tree = Ok (Some k) -> length k = 32.
Proof.
  intros Hs Hp Hd.
  assert (E : get_key_from_pgp tree = Ok (first_some pgp_candidate entries)).
  { unfold get_key_from_pgp. rewrite Hs. simpl. rewrite Hp. simpl.
    now apply first_pgp_key_candidates. }
  split; [exact E|].
  intros k Hk. rewrite E in Hk. injection Hk as Hk.
  now apply first_some_candidate_length with entries.
Qed.

End PgpUnwrap.

(** ** Mappings *)

Lemma dict_get_cons (d : pydict) (k q : string) (v : value) :
  dict_get ((k, v) :: d) q = if String.eqb q k then Some v else dict_get d q.
Proof.
  reflexivity.
Qed.

Lemma dict_get_set_same (d : pydict) (k : string) (v : value) :
  dict_get (dict_set d k v) k = Some v.
Proof.
  induction d as [|[k' v'] d IH]; simpl.
  - now rewrite String.eqb_refl.
  - destruct (String.eqb k k') eqn:E; simpl; rewrite E; [reflexivity|exact IH].
Qed.

Lemma dict_get_set_other (d : pydict) (k k' : string) (v : value) :
  String.eqb k' k = false ->
  dict_get (dict_set d k v) k' = dict_get d k'.
Proof.
  intros N. induction d as [|[k0 v0] d IH]; simpl.
  - now rewrite N.
  - destruct (String.eqb k k0) eqn:E; simpl.
    + apply String.eqb_eq in E. subst k0. now rewrite N.
    + destruct (String.eqb k' k0); [reflexivity|exact IH].
Qed.

(** ** Wrapping the data key for the recipients *)

Section Recipients.

Context `{Platform}.

Lemma update_entries_pointwise (wrap : bytes -> value -> result value)
    (key : bytes) (entries entries' : list value) :
  update_entries wrap key entries = Ok entries' ->
  length entries' = length entries
  /\ forall i entry, nth_error entries i = Some entry ->
     exists entry', nth_error entries' i = Some entry'
       /\ (lacks entry "enc" = Ok false -> entry' = entry)
       /\ (lacks entry "enc" = Ok true -> wrap key entry = Ok entry').
Proof.
  revert entries'. induction entries as [|e rest IH]; intros entries' U.
  - injection U as <-. split; [reflexivity|]. intros [|i] entry; discriminate.
  - simpl in U. destruct (lacks e "enc") as [todo|] eqn:L; [|discriminate].
    destruct (if todo then wrap key e else Ok e) as [updated|] eqn:W;
      [|discriminate].
    destruct (update_entries wrap key rest) as [rest'|] eqn:R; [|discriminate].
    injection U as <-. destruct (IH rest' eq_refl) as [Len Nth].
    split; [simpl; now rewrite Len|].
    intros [|i] entry Hn; simpl in Hn.
    + injection Hn as <-. exists updated. split; [reflexivity|].
      rewrite L. split; intros [= ->]; [now injection W|exact W].
    + destruct (Nth i entry Hn) as (entry' & ? & ? & ?). now exists entry'.
Qed.

Lemma update_recipients_list (field : string)
    (wrap : bytes -> value -> result value) (key : bytes)
    (sops : pydict) (sops' : value) (entries : list value) :
  update_recipients field wrap key (VDict sops) = Ok sops' ->
  dict_get sops field = Some (VList entries) ->
  exists entries',
    update_entries wrap key entries = Ok entries'
    /\ sops' = VDict (dict_set sops field (VList entries')).
Proof.
  unfold update_recipients. simpl. unfold dict_has. intros U G.
  rewrite G in U.
  destruct (update_entries wrap key entries) as [entries'|]; [|discriminate].
  exists entries'. split; [reflexivity|]. now injection U.
Qed.

Lemma update_recipients_dict (field : string)
    (wrap : bytes -> value -> result value) (key : bytes)
    (sops : pydict) (sops' : value) :
  update_recipients field wrap key (VDict sops) = Ok sops' ->
  exists d, sops' = VDict d
    /\ forall k, String.eqb k field = false -> dict_get d k = dict_get sops k.
Proof.
  unfold update_recipients. simpl. unfold dict_has. intros U.
  destruct (dict_get sops field) as [v|] eqn:G.
  - destruct v as [x|d|l]; try discriminate.
    destruct (update_entries wrap key l) as [l'|]; [|discriminate].
    injection U as <-. eexists. split; [reflexivity|].
    intros k N. now apply dict_get_set_other.
  - injection U as <-. now exists sops.
Qed.

Lemma update_version_dict (sops : pydict) (sops' : value) :
  update_version (VDict sops) = Ok sops' ->
  exists d, sops' = VDict d
    /\ forall k, String.eqb k "version" = false ->
                 dict_get d k = dict_get sops k.
Proof.
  unfold update_version. simpl. unfold dict_has. intros U.
  assert (S : forall v, exists d,
              VDict (dict_set sops "version" v) = VDict d
              /\ forall k, String.eqb k "version" = false ->
                 dict_get d k = dict_get sops k).
  { intros v. eexists. split; [reflexivity|].
    intros k N. now apply dict_get_set_other. }
  destruct (dict_get sops "version") as [v|].
  - destruct (below_version v) as [[|]|]; try discriminate;
      injection U as <-; [apply S|now exists sops].
  - injection U as <-. apply S.
Qed.

(** What [update_master_keys] does to the two lists of recipients. *)
Lemma update_master_keys_lists (tree tree' sops : pydict) (key : bytes) :
  update_master_keys tree key = Ok tree' ->
  dict_get tree "sops" = Some (VDict sops) ->
  exists sops',
    dict_get tree' "sops" = Some (VDict sops')
    /\ (forall entries, dict_get sops "kms" = Some (VList entries) ->
        exists entries',
          dict_get sops' "kms" = Some (VList entries')
          /\ update_entries encrypt_key_with_kms key entries = Ok entries')
    /\ (forall entries, dict_get sops "pgp" = Some (VList entries) ->
        exists entries',
          dict_get sops' "pgp" = Some (VList entries')
          /\ update_entries encrypt_key_with_pgp key entries = Ok entries').
Proof.
  unfold update_master_keys. simpl. intros U S. rewrite S in U.
  destruct (update_recipients "kms" encrypt_key_with_kms key (VDict sops))
    as [s1|] eqn:K; [|discriminate].
  destruct (update_recipients_dict _ _ _ _ _ K) as (d1 & -> & K1).
  destruct (update_recipients "pgp" encrypt_key_with_pgp key (VDict d1))
    as [s2|] eqn:P; [|discriminate].
  destruct (update_recipients_dict _ _ _ _ _ P) as (d2 & -> & P2).
  destruct (update_version (VDict d2)) as [s3|] eqn:V; [|discriminate].
  destruct (update_version_dict _ _ V) as (d3 & -> & V3).
  injection U as <-. exists d3.
  split; [apply dict_get_set_same|]. split; intros entries G.
  - destruct (update_recipients_list _ _ _ _ _ _ K G) as (entries' & UE & E).
    exists entries'. split; [|exact UE].
    rewrite V3, P2 by reflexivity. injection E as ->.
    apply dict_get_set_same.
  - rewrite <- K1 in G by reflexivity.
    destruct (update_recipients_list _ _ _ _ _ _ P G) as (entries' & UE & E).
    exists entries'. split; [|exact UE].
    rewrite V3 by reflexivity. injection E as ->.
    apply dict_get_set_same.
Qed.

End Recipients.

Section RecipientOutcomes.

Context `{Platform}.

Lemma kms_outcome_of_wrap (key : bytes) (entry entry' : value) :
  (lacks entry "enc" = Ok false -> entry' = entry) ->
  (lacks entry "enc" = Ok true -> encrypt_key_with_kms key entry = Ok entry') ->
  kms_entry_outcome key entry entry'.
Proof.
  intros Kept Wrapped. unfold kms_entry_outcome.
  split; [exact Kept|]. split; [|split].
  - intros L A. specialize (Wrapped L). unfold encrypt_key_with_kms in Wrapped.
    rewrite A in Wrapped. now injection Wrapped.
  - intros L A S. specialize (Wrapped L).
    unfold encrypt_key_with_kms in Wrapped.
    rewrite A, S in Wrapped. now injection Wrapped.
  - intros d a c blob -> L A G S K. specialize (Wrapped L).
    unfold encrypt_key_with_kms in Wrapped. rewrite A, S in Wrapped.
    simpl in Wrapped. rewrite G, K in Wrapped.
    unfold decode_or_raise in Wrapped.
    destruct (decode_utf8 (b64encode blob)) as [enc|]; [|discriminate].
    exists enc. split; [reflexivity|]. simpl in Wrapped. now injection Wrapped.
Qed.

Lemma pgp_outcome_of_wrap (key : bytes) (entry entry' : value) :
  (lacks entry "enc" = Ok false -> entry' = entry) ->
  (lacks entry "enc" = Ok true -> encrypt_key_with_pgp key entry = Ok entry') ->
  pgp_entry_outcome key entry entry'.
Proof.
  intros Kept Wrapped. unfold pgp_entry_outcome.
  split; [exact Kept|]. split.
  - intros L A. specialize (Wrapped L). unfold encrypt_key_with_pgp in Wrapped.
    rewrite A in Wrapped. now injection Wrapped.
  - intros d fp out -> L A G K. specialize (Wrapped L).
    unfold encrypt_key_with_pgp in Wrapped. rewrite A in Wrapped.
    simpl in Wrapped. rewrite G, K in Wrapped.
    unfold decode_or_raise in Wrapped.
    destruct (decode_utf8 out) as [enc|]; [|discriminate].
    exists enc. split; [reflexivity|]. simpl in Wrapped. now injection Wrapped.
Qed.

Lemma update_entries_entrywise (wrap : bytes -> value -> result value)
    (R : value -> value -> Prop) (key : bytes) (entries entries' : list value) :
  (forall entry entry',
     (lacks entry "enc" = Ok false -> entry' = entry) ->
     (lacks entry "enc" = Ok true -> wrap key entry = Ok entry') ->
     R entry entry') ->
  update_entries wrap key entries = Ok entries' ->
  entrywise R entries entries'.
Proof.
  intros HR U. destruct (update_entries_pointwise _ _ _ _ U) as [Len Nth].
  split; [exact Len|]. intros i entry Hn.
  destruct (Nth i entry Hn) as (entry' & ? & ? & ?).
  exists entry'. split; [assumption|]. now apply HR.
Qed.

(** C8, as the code has it by design: when [update_master_keys] returns,
    the two lists of recipients have kept their length and their order; an
    entry that held an [enc] is as it was; an entry without [enc] whose key
    identifier is missing or empty, or for which no KMS client could be
    built, is still there, unchanged and so without [enc]; an entry the key
    was wrapped for is the same entry with [enc] and [created_at] set. *)
Theorem update_master_keys_keeps_recipients
    (tree tree' sops : pydict) (key : bytes) :
  update_master_keys tree key = Ok tree' ->
  dict_get tree "sops" = Some (VDict sops) ->
  recipients_kept key sops tree'.
Proof.
  intros U S.
  destruct (update_master_keys_lists _ _ _ _ U S) as (sops' & G & K & P).
  exists sops'. split; [exact G|]. split; intros entries E.
  - destruct (K entries E) as (entries' & G' & U').
    exists entries'. split; [exact G'|].
    eapply update_entries_entrywise; [|exact U'].
    apply kms_outcome_of_wrap.
  - destruct (P entries E) as (entries' & G' & U').
    exists entries'. split; [exact G'|].
    eapply update_entries_entrywise; [|exact U'].
    apply pgp_outcome_of_wrap.
Qed.

End RecipientOutcomes.

Lemma update_master_keys_keeps_recipients_witness :
  recipients_kept (H := Lab.platform) Lab.key Examples.recipients_sops
    Examples.recipients_tree'.
Proof.
  apply (update_master_keys_keeps_recipients (H := Lab.platform)
           Examples.recipients_tree Examples.recipients_tree'
           Examples.recipients_sops Lab.key); vm_compute; reflexivity.
Defined.

(** C8, as stated, fails on both counts.  After a successful
    [update_master_keys] the first KMS entry still has its [arn] and no
    [enc], and the last PGP entry has its [fp] and an empty [enc]; and the
    KMS entry whose call raised is no longer an entry but [None]. *)
Lemma recipients_without_enc :
  (exists kms pgp,
     dict_get Examples.recipients_tree' "sops"
       = Some (VDict [("kms", VList kms); ("pgp", VList pgp);
                      ("version", VLeaf (SFloat VERSION))])
     /\ nth_error kms 0 = Some (VDict [("arn", VLeaf (SStr "bogus"))])
     /\ lacks (VDict [("arn", VLeaf (SStr "bogus"))]) "arn" = Ok false
     /\ lacks (VDict [("arn", VLeaf (SStr "bogus"))]) "enc" = Ok true
     /\ nth_error kms 2 = Some (VLeaf SNone)
     /\ nth_error pgp 2
        = Some (VDict [("fp", VLeaf (SStr "unknown"));
                       ("enc", VLeaf (SPreserved ""));
                       ("created_at", VLeaf (SStr "2016-03-01T10:00:00Z"))])).
Proof.
  eexists. eexists. vm_compute. repeat split.
Qed.

(** ** Reasoning in the monad *)

Lemma bind_ok {A B} (m : M A) (f : A -> M B) (w : world) (r : B * world) :
  bind m f w = Ok r -> exists a w', m w = Ok (a, w') /\ f a w' = Ok r.
Proof.
  unfold bind. destruct (m w) as [[a w']|e]; [|discriminate].
  intros E. now exists a, w'.
Qed.

Lemma bind_eq {A B} (m : M A) (f : A -> M B) (w w' : world) (a : A) :
  m w = Ok (a, w') -> bind m f w = f a w'.
Proof.
  unfold bind. now intros ->.
Qed.

Lemma bind_err {A B} (m : M A) (f : A -> M B) (w : world) (e : error) :
  bind m f w = Err e ->
  m w = Err e \/ exists a w', m w = Ok (a, w') /\ f a w' = Err e.
Proof.
  unfold bind. destruct (m w) as [[a w']|e']; intros E.
  - right. now exists a, w'.
  - left. now injection E as ->.
Qed.

Lemma lift_ok {A} (r : result A) (w : world) (a : A) (w' : world) :
  lift r w = Ok (a, w') -> r = Ok a /\ w' = w.
Proof.
  unfold lift. destruct r; [|discriminate]. intros [= -> ->]. now split.
Qed.

Lemma lift_eq {A} (r : result A) (w : world) (a : A) :
  r = Ok a -> lift r w = Ok (a, w).
Proof.
  now intros ->.
Qed.

Lemma ret_ok {A} (a b : A) (w w' : world) :
  ret a w = Ok (b, w') -> b = a /\ w' = w.
Proof.
  unfold ret. intros [= -> ->]. now split.
Qed.

(** Takes a successful run apart, bind after bind. *)
Ltac run_ok H :=
  repeat match type of H with
  | bind _ _ _ = Ok _ =>
    let a := fresh "a" in let w := fresh "w" in
    let H1 := fresh "Run" in
    apply bind_ok in H; destruct H as (a & w & H1 & H)
  | ret _ _ = Ok _ =>
    let E1 := fresh "E" in let E2 := fresh "E" in
    apply ret_ok in H; destruct H as [E1 E2]
  | (let '(_, _) := ?p in _) _ = Ok _ => destruct p
  | (let (_, _) := ?p in _) _ = Ok _ => destruct p
  end.

Lemma absorb_nil (digest : bool) (w : world) : absorb digest [] w = w.
Proof.
  destruct digest; [|reflexivity]. destruct w. unfold absorb. simpl.
  now rewrite app_nil_r.
Qed.

Lemma absorb_app (digest : bool) (a b : bytes) (w : world) :
  absorb digest b (absorb digest a w) = absorb digest (a ++ b) w.
Proof.
  destruct digest; [|reflexivity]. unfold absorb. simpl.
  now rewrite app_assoc.
Qed.

Lemma get_key_from_pgp_witness :
  get_key_from_pgp (H := Lab.platform) PgpExample.tree
    = Ok (Some (lit "0123456789abcdef0123456789abcdef"))
  /\ forall k, get_key_from_pgp (H := Lab.platform) PgpExample.tree
               = Ok (Some k) -> length k = 32.
Proof.
  exact (get_key_from_pgp_first_32_bytes (H := Lab.platform)
           PgpExample.tree PgpExample.sops PgpExample.entries
           eq_refl eq_refl eq_refl).
Defined.

(** Runs one more bind of the goal with the result [E] of its first part. *)
Ltac step E := rewrite (bind_eq _ _ _ _ _ E); cbv beta iota zeta.

(** ** The decrypt walk and the world *)

Lemma steady_ret {A} (a : A) : steady (fun _ => ret a).
Proof.
  intros dg w r w1 E. apply ret_ok in E. destruct E as [-> ->].
  exists []. split; [now rewrite absorb_nil|].
  intros. now rewrite absorb_nil.
Qed.

Lemma steady_lift {A} (x : result A) : steady (fun _ => lift x).
Proof.
  intros dg w r w1 E. apply lift_ok in E. destruct E as [-> ->].
  exists []. split; [now rewrite absorb_nil|].
  intros. now rewrite absorb_nil.
Qed.

Lemma steady_raise {A} (e : error) : steady (fun _ => raise (A := A) e).
Proof.
  intros dg w r w1 E. discriminate.
Qed.

Lemma steady_update (data : bytes) :
  steady (fun dg => if dg then sha512_update data else ret tt).
Proof.
  intros dg w r w1 E. exists data. destruct r.
  split.
  - destruct dg; [now injection E as <-|]. apply ret_ok in E. now destruct E.
  - intros [|] w0; reflexivity.
Qed.

Lemma steady_bind {A B} (m : bool -> M A) (f : A -> bool -> M B) :
  steady m -> (forall a, steady (f a)) ->
  steady (fun dg => bind (m dg) (fun a => f a dg)).
Proof.
  intros Sm Sf dg w r w1 E.
  apply bind_ok in E. destruct E as (a & w' & E1 & E2).
  destruct (Sm _ _ _ _ E1) as (ab1 & -> & K1).
  destruct (Sf a _ _ _ _ E2) as (ab2 & -> & K2).
  exists (ab1 ++ ab2). split; [now rewrite absorb_app|].
  intros dg0 w0. rewrite (bind_eq _ _ _ _ _ (K1 dg0 w0)), K2.
  now rewrite absorb_app.
Qed.

Lemma steady_ext {A} (f g : bool -> M A) :
  (forall dg w, f dg w = g dg w) -> steady g -> steady f.
Proof.
  intros E S dg w r w1 R. rewrite E in R.
  destruct (S _ _ _ _ R) as (ab & -> & K).
  exists ab. split; [reflexivity|]. intros. now rewrite E.
Qed.

Lemma calm_ret {A} (a : A) : calm (ret a).
Proof.
  intros w c E. discriminate.
Qed.

Lemma calm_lift {A} (x : result A) : calm_result x -> calm (lift x).
Proof.
  intros C w c E. apply C. unfold lift in E. destruct x; [discriminate|].
  now injection E as ->.
Qed.

Lemma calm_bind {A B} (m : M A) (f : A -> M B) :
  calm m -> (forall a, calm (f a)) -> calm (bind m f).
Proof.
  intros Cm Cf w c E. apply bind_err in E.
  destruct E as [E|(a & w' & _ & E)]; [now apply Cm in E|now apply Cf in E].
Qed.

Lemma calm_update (dg : bool) (data : bytes) :
  calm (if dg then sha512_update data else ret tt).
Proof.
  intros w c E. destruct dg; discriminate.
Qed.

Section DecryptWorld.

Context `{Platform}.
Variable V : float.

Lemma calm_b64 (b : bytes) : calm_result (b64decode_or_raise b).
Proof.
  intros c E. unfold b64decode_or_raise in E.
  destruct (b64decode b); discriminate.
Qed.

Lemma calm_stash_leaf (st : stash) (iv aad c : bytes) :
  calm_result (stash_leaf st iv aad c).
Proof.
  intros k E. unfold stash_leaf, stash_setitem in E.
  destruct st; try discriminate; simpl in E; discriminate.
Qed.

Lemma calm_restore_type (t : option bytes) (c : bytes) :
  calm_result (restore_type t c).
Proof.
  intros k E. unfold restore_type in E.
  destruct t as [t|]; [|now injection E as <-].
  repeat match type of E with
         | (if ?b then _ else _) = _ => destruct b
         | match ?x with _ => _ end = _ => destruct x
         end; discriminate.
Qed.

Lemma steady_decrypt (x : scalar) (key aad : bytes) (st : stash) :
  steady (fun dg => decrypt V x key aad st dg).
Proof.
  unfold decrypt.
  destruct x; try apply steady_raise;
    (destruct (re_match (valre V) (encode_utf8 s)) as [groups|];
     [|apply steady_ret]);
    repeat (apply steady_bind;
            [first [apply steady_lift | apply steady_update
                   | apply (steady_lift (A := stash))
                   | destruct (truthy st); [apply steady_lift|apply steady_ret]]
            |intros ?]);
    apply steady_ret.
Qed.

End DecryptWorld.

Section DecryptWalkWorld.

Context `{Platform}.
Variable V : float.

Lemma calm_gcm_decrypt (key iv tag aad c : bytes) :
  calm_result (gcm_decrypt key iv tag aad c).
Proof.
  intros k E. unfold gcm_decrypt in E.
  destruct (aes_gcm_decrypt key iv tag aad c); discriminate.
Qed.

Lemma calm_decrypt (x : scalar) (key aad : bytes) (st : stash) (dg : bool) :
  calm (decrypt V x key aad st dg).
Proof.
  unfold decrypt.
  destruct x; try (intros w c E; discriminate);
    (destruct (re_match (valre V) (encode_utf8 s)) as [groups|];
     [|apply calm_ret]);
    repeat (apply calm_bind;
            [first [apply calm_lift; first [apply calm_b64
                                           | apply calm_restore_type
                                           | apply calm_gcm_decrypt
                                           | apply calm_stash_leaf]
                   | apply calm_update
                   | destruct (truthy st);
                     [apply calm_lift, calm_stash_leaf|apply calm_ret]]
            |intros ?]);
    apply calm_ret.
Qed.

End DecryptWalkWorld.

Section DecryptLoopsWorld.

Context `{Platform}.
Variable V : float.
Variable walk : value -> bytes -> bytes -> stash -> bool -> M (value * stash).

Lemma calm_open_stash (st : stash) (k : skey) (n : stash) :
  calm_result (open_stash st k n).
Proof.
  intros c E. unfold open_stash, stash_setitem in E.
  destruct (truthy st); [|discriminate]. destruct st; discriminate.
Qed.

Lemma calm_close_stash (st : stash) (k : skey) (n : stash) :
  calm_result (close_stash st k n).
Proof.
  intros c E. unfold close_stash, stash_setitem in E.
  destruct (truthy st); [|discriminate]. destruct st; discriminate.
Qed.

Lemma steady_decrypt_items (items : pydict) :
  Forall (fun kv => steady_on walk (snd kv)) items ->
  forall carry key aad st isRoot,
    steady (fun dg =>
              walk_and_decrypt_items V walk items carry key aad st isRoot dg).
Proof.
  induction 1 as [|[k v] rest Hv _ IH]; intros carry key aad st isRoot; simpl.
  - apply steady_ret.
  - destruct (String.eqb k "sops" && isRoot)%bool.
    + apply steady_bind; [apply IH|]. intros [rest' st']. apply steady_ret.
    + apply steady_bind; [apply steady_lift|]. intros [st1 nstash].
      apply steady_bind.
      * destruct v as [x|d|l]; try apply Hv.
        destruct x;
          (apply steady_bind; [apply steady_decrypt|];
           intros [ev n]; apply steady_ret).
      * intros [v' nstash']. apply steady_bind; [apply steady_lift|].
        intros st2. apply steady_bind; [apply IH|].
        intros [rest' st3]. apply steady_ret.
Qed.

Lemma steady_decrypt_list (items : list value) :
  Forall (steady_on walk) items ->
  forall i nstash key aad st,
    steady (fun dg =>
              walk_list_and_decrypt_items V walk items i nstash key aad st dg).
Proof.
  induction 1 as [|v rest Hv _ IH]; intros i nstash key aad st; simpl.
  - apply steady_ret.
  - apply steady_bind; [apply steady_lift|]. intros [st1 nstash1].
    apply steady_bind.
    + destruct v as [x|d|l]; try apply Hv.
      apply steady_bind; [apply steady_decrypt|].
      intros [ev n]. apply steady_ret.
    + intros [v' nstash']. apply steady_bind; [apply steady_lift|].
      intros st2. apply steady_bind; [apply IH|].
      intros [rest' st3]. apply steady_ret.
Qed.

Lemma calm_decrypt_items (items : pydict) :
  Forall (fun kv => calm_on walk (snd kv)) items ->
  forall carry key aad st isRoot dg,
    calm (walk_and_decrypt_items V walk items carry key aad st isRoot dg).
Proof.
  induction 1 as [|[k v] rest Hv _ IH]; intros carry key aad st isRoot dg;
    simpl.
  - apply calm_ret.
  - destruct (String.eqb k "sops" && isRoot)%bool.
    + apply calm_bind; [apply IH|]. intros [rest' st']. apply calm_ret.
    + apply calm_bind; [apply calm_lift, calm_open_stash|]. intros [st1 nstash].
      apply calm_bind.
      * destruct v as [x|d|l]; try apply Hv.
        destruct x;
          (apply calm_bind; [apply calm_decrypt|];
           intros [ev n]; apply calm_ret).
      * intros [v' nstash'].
        apply calm_bind; [apply calm_lift, calm_close_stash|].
        intros st2. apply calm_bind; [apply IH|].
        intros [rest' st3]. apply calm_ret.
Qed.

Lemma calm_decrypt_list (items : list value) :
  Forall (calm_on walk) items ->
  forall i nstash key aad st dg,
    calm (walk_list_and_decrypt_items V walk items i nstash key aad st dg).
Proof.
  induction 1 as [|v rest Hv _ IH]; intros i nstash key aad st dg; simpl.
  - apply calm_ret.
  - apply calm_bind; [apply calm_lift, calm_open_stash|]. intros [st1 nstash1].
    apply calm_bind.
    + destruct v as [x|d|l]; try apply Hv.
      apply calm_bind; [apply calm_decrypt|].
      intros [ev n]. apply calm_ret.
    + intros [v' nstash'].
      apply calm_bind; [apply calm_lift, calm_close_stash|].
      intros st2. apply calm_bind; [apply IH|].
      intros [rest' st3]. apply calm_ret.
Qed.

End DecryptLoopsWorld.

Section DecryptNodeWorld.

Context `{Platform}.
Variable V : float.

Lemma steady_walk_node_decrypt (v : value) :
  steady_on (walk_node_decrypt V) v.
Proof.
  induction v as [x|d IH|l IH] using value_induction; intros key aad st;
    simpl.
  - apply steady_bind; [apply steady_decrypt|]. intros [ev st'].
    apply steady_ret.
  - apply steady_bind; [|intros [r st']; apply steady_ret].
    unfold walk_and_decrypt_body. simpl.
    eapply steady_ext with
      (g := fun dg => bind (walk_and_decrypt_items V (walk_node_decrypt V) d
                              aad key aad st false dg)
                        (fun x => let '(branch, st') := x in
                                  bind (ret tt) (fun _ => ret (branch, st')))).
    + reflexivity.
    + apply steady_bind; [now apply steady_decrypt_items|].
      intros [branch st']. apply steady_bind; [apply steady_ret|].
      intros _. apply steady_ret.
  - apply steady_bind; [|intros [r st']; apply steady_ret].
    now apply steady_decrypt_list.
Qed.

End DecryptNodeWorld.

Section DecryptRoot.

Context `{Platform}.
Variable V : float.

Lemma calm_walk_node_decrypt (v : value) : calm_on (walk_node_decrypt V) v.
Proof.
  induction v as [x|d IH|l IH] using value_induction;
    intros key aad st dg; simpl.
  - apply calm_bind; [apply calm_decrypt|]. intros [ev st']. apply calm_ret.
  - apply calm_bind; [|intros [r st']; apply calm_ret].
    unfold walk_and_decrypt_body. simpl.
    apply calm_bind; [apply calm_ret|]. intros dg'.
    apply calm_bind; [now apply calm_decrypt_items|].
    intros [branch st']. apply calm_bind; [apply calm_ret|].
    intros _. apply calm_ret.
  - apply calm_bind; [|intros [r st']; apply calm_ret].
    now apply calm_decrypt_list.
Qed.

Lemma steady_root_items (branch : pydict) (key aad : bytes) (st : stash) :
  steady (root_items V branch key aad st).
Proof.
  apply steady_decrypt_items. apply Forall_forall. intros kv _.
  apply steady_walk_node_decrypt.
Qed.

Lemma calm_root_items (branch : pydict) (key aad : bytes) (st : stash)
    (dg : bool) :
  calm (root_items V branch key aad st dg).
Proof.
  apply calm_decrypt_items. apply Forall_forall. intros kv _.
  apply calm_walk_node_decrypt.
Qed.

Lemma walk_and_decrypt_checked (branch : pydict) (key aad : bytes)
    (st : stash) (digest : bool) (w : world) :
  walk_and_decrypt V branch key aad st digest true false w
  = bind (root_items V branch key aad st true)
      (fun x => let '(b, st') := x in
                bind (verify_mac V b key) (fun _ => ret (b, st')))
      (fresh w).
Proof.
  reflexivity.
Qed.

Lemma walk_and_decrypt_ignoring (branch : pydict) (key aad : bytes)
    (st : stash) (digest : bool) (w : world) :
  walk_and_decrypt V branch key aad st digest true true w
  = bind (root_items V branch key aad st digest)
      (fun x => let '(b, st') := x in ret (b, st')) w.
Proof.
  unfold walk_and_decrypt, walk_and_decrypt_body, root_items. simpl.
  unfold bind at 1. unfold ret at 1. unfold bind.
  destruct (walk_and_decrypt_items V (walk_node_decrypt V) branch aad key aad
              st true digest w) as [[[b st'] w']|e]; reflexivity.
Qed.

Lemma decrypt_items_keep_sops
    (walk : value -> bytes -> bytes -> stash -> bool -> M (value * stash))
    (items : pydict) :
  forall carry key aad st dg w b' st' w',
    walk_and_decrypt_items V walk items carry key aad st true dg w
      = Ok ((b', st'), w') ->
    dict_get b' "sops" = dict_get items "sops".
Proof.
  induction items as [|[k v] rest IH]; intros carry key aad st dg w b' st' w' R;
    simpl in R.
  - apply ret_ok in R. destruct R as [[= -> _] _]. reflexivity.
  - rewrite andb_true_r in R. destruct (String.eqb k "sops") eqn:K.
    + run_ok R. injection E as -> _.
      rewrite !dict_get_cons, String.eqb_sym, K. reflexivity.
    + run_ok R. injection E as -> _.
      rewrite !dict_get_cons, String.eqb_sym, K. eapply IH. eassumption.
Qed.

(** [verify_mac] on a document whose [sops] branch is a mapping. *)
Lemma verify_mac_unfold (b : pydict) (key : bytes) (w : world) (sops : pydict) :
  dict_get b "sops" = Some (VDict sops) ->
  verify_mac V b key w
  = match dict_get sops "mac" with
    | None => Err (Panic 52)
    | Some mac =>
      match dict_get sops "lastmodified" with
      | None => Err KeyError
      | Some lastmodified =>
        match py_encode lastmodified with
        | Err e => Err e
        | Ok a =>
          match mac with
          | VLeaf x =>
            match decrypt V x key a StNone false w with
            | Ok ((orig, _), w') =>
              if value_is_text (VLeaf orig)
                   (upper (sha512_hexdigest (sha512 w)))
              then Ok (tt, w') else Err (Panic 51)
            | Err e => Err e
            end
          | _ => Err AttributeError
          end
        end
      end
    end.
Proof.
  intros S. unfold verify_mac, bind, lift, raise, ret, sha512_hex.
  simpl. rewrite S. simpl. unfold dict_has.
  destruct (dict_get sops "mac") as [mac|]; [simpl|reflexivity].
  destruct (dict_get sops "lastmodified") as [lm|]; [|reflexivity].
  destruct (py_encode lm) as [a|e]; [|reflexivity].
  destruct mac as [x|d|l]; try reflexivity.
  destruct (decrypt V x key a StNone false w) as [[[orig st'] w']|e];
    [|reflexivity].
  unfold value_is_text.
  destruct orig; try reflexivity;
    destruct (String.eqb s (upper (sha512_hexdigest (sha512 w))));
    reflexivity.
Qed.

(** C5, as the code has it: with [ignoreMac] unset, a root decrypt whose
    leaves decrypt fails with [panic(..., 52)] when [sops.mac] is absent and
    with [panic(..., 51)] when the value [sops.mac] decrypts to is not the
    uppercase hexadecimal digest of the leaves; with [ignoreMac] set neither
    check is made, so a walk that fails on either of them succeeds. *)
Theorem mac_is_checked_unless_ignored (branch : pydict) (key aad : bytes)
    (st : stash) (digest : bool) (w : world) (sops : pydict) :
  dict_get branch "sops" = Some (VDict sops) ->
  mac_policy V branch key aad st digest w sops.
Proof.
  intros S. unfold mac_policy. split; [|split].
  - intros b' st' w' R Hmac.
    rewrite walk_and_decrypt_ignoring in R. run_ok R.
    injection E as -> ->. subst w0.
    rewrite walk_and_decrypt_checked, (bind_eq _ _ _ _ _ Run).
    pose proof (decrypt_items_keep_sops _ _ _ _ _ _ _ _ _ _ _ Run) as K.
    rewrite S in K. unfold bind. rewrite (verify_mac_unfold _ _ _ _ K), Hmac.
    reflexivity.
  - intros b' st' w' x lm a orig stx wx R Hmac Hlm Henc D T.
    rewrite walk_and_decrypt_ignoring in R. run_ok R.
    injection E as -> ->. subst w0.
    rewrite walk_and_decrypt_checked, (bind_eq _ _ _ _ _ Run).
    pose proof (decrypt_items_keep_sops _ _ _ _ _ _ _ _ _ _ _ Run) as K.
    rewrite S in K. unfold bind.
    rewrite (verify_mac_unfold _ _ _ _ K), Hmac, Hlm, Henc, D, T.
    reflexivity.
  - intros F.
    assert (R : exists b s w1,
               root_items V branch key aad st true (fresh w) = Ok ((b, s), w1)).
    { destruct (root_items V branch key aad st true (fresh w))
        as [[[b s] w1]|e] eqn:R; [now exists b, s, w1|].
      exfalso. rewrite !walk_and_decrypt_checked in F. unfold bind in F.
      rewrite R in F.
      destruct F as [F|F]; injection F as ->;
        now apply calm_root_items in R. }
    destruct R as (b & s & w1 & R).
    destruct (steady_root_items _ _ _ _ _ _ _ _ R) as (ab & _ & K).
    exists ((b, s), absorb digest ab w).
    rewrite walk_and_decrypt_ignoring, (bind_eq _ _ _ _ _ (K digest w)).
    reflexivity.
Qed.

End DecryptRoot.

Lemma mac_is_checked_unless_ignored_witness :
  mac_policy (H := Lab.platform) 0.9%float Examples.forged Lab.key [] StNone
    false Lab.start (Examples.sops_of Examples.forged).
Proof.
  apply (mac_is_checked_unless_ignored (H := Lab.platform) 0.9%float
           Examples.forged Lab.key [] StNone false Lab.start
           (Examples.sops_of Examples.forged)).
  vm_compute. reflexivity.
Defined.

(** C5, as stated, fails on its last part: on a document whose [sops.mac]
    decrypts to another digest than that of its leaves the walk ends in
    [panic(..., 51)], but with [ignoreMac] set the same walk returns, and the
    mismatch goes unnoticed.  The flag also lets a document without
    [sops.mac] through, as the claim says. *)
Lemma ignore_mac_skips_mismatch :
  walk_and_decrypt (H := Lab.platform) 0.9%float Examples.forged Lab.key []
    StNone false true false Lab.start = Err (Panic 51)
  /\ succeeds (walk_and_decrypt (H := Lab.platform) 0.9%float Examples.forged
                 Lab.key [] StNone false true true Lab.start) = true
  /\ walk_and_decrypt (H := Lab.platform) 0.9%float Examples.unsigned Lab.key
       [] StNone false true false Lab.start = Err (Panic 52)
  /\ succeeds (walk_and_decrypt (H := Lab.platform) 0.9%float
                 Examples.unsigned Lab.key [] StNone false true true Lab.start)
     = true.
Proof.
  repeat split; vm_compute; reflexivity.
Qed.

(** ** The encrypt walk and the world *)

Lemma emits_ret {A} (a : A) : emits (ret a) [] [].
Proof.
  intros w r w1 E. apply ret_ok in E. destruct E as [_ ->].
  exists []. now rewrite !app_nil_r.
Qed.

Lemma emits_lift {A} (x : result A) : emits (lift x) [] [].
Proof.
  intros w r w1 E. apply lift_ok in E. destruct E as [_ ->].
  exists []. now rewrite !app_nil_r.
Qed.

Lemma emits_bind {A B} (m : M A) (f : A -> M B)
    (c1 c2 : list (bytes * bytes)) (h1 h2 : bytes) :
  emits m c1 h1 -> (forall a, emits (f a) c2 h2) ->
  emits (bind m f) (c1 ++ c2) (h1 ++ h2).
Proof.
  intros Em Ef w r w1 E. apply bind_ok in E.
  destruct E as (a & w' & E1 & E2).
  destruct (Em _ _ _ E1) as (cs1 & G1 & V1 & S1).
  destruct (Ef a _ _ _ E2) as (cs2 & G2 & V2 & S2).
  exists (cs1 ++ cs2). rewrite G2, G1, S2, S1, map_app, V1, V2.
  now rewrite !app_assoc.
Qed.

Lemma emits_eq {A} (m : M A) (c c' : list (bytes * bytes)) (h h' : bytes) :
  c = c' -> h = h' -> emits m c h -> emits m c' h'.
Proof.
  now intros -> ->.
Qed.

Section EncryptWorld.

Context `{Platform}.

Lemma emits_urandom : emits urandom [] [].
Proof.
  intros w r w1 E. injection E as _ <-. exists []. simpl.
  now rewrite !app_nil_r.
Qed.

Lemma emits_update (dg : bool) (data : bytes) :
  emits (if dg then sha512_update data else ret tt) []
    (if dg then data else []).
Proof.
  destruct dg; [|apply emits_ret].
  intros w r w1 E. injection E as _ <-. exists []. simpl.
  now rewrite !app_nil_r.
Qed.

Lemma emits_gcm_encrypt (key iv aad c : bytes) :
  emits (gcm_encrypt key iv aad c) [(aad, c)] [].
Proof.
  intros w r w1 E. unfold gcm_encrypt in E.
  destruct (aes_gcm_encrypt key iv aad c); [|discriminate].
  injection E as _ <-. eexists. simpl. split; [reflexivity|].
  split; [reflexivity|]. now rewrite app_nil_r.
Qed.

Lemma emits_choose_iv (st : stash) (value : bytes) :
  emits (choose_iv st value) [] [].
Proof.
  unfold choose_iv.
  destruct (truthy st); [|apply emits_urandom].
  apply (emits_bind _ _ [] [] [] []); [apply emits_lift|].
  intros [|]; [|apply emits_urandom].
  apply (emits_bind _ _ [] [] [] []); [apply emits_lift|].
  intros [| | |b|]; try apply emits_urandom.
  destruct (bytes_eqb b value); [|apply emits_urandom].
  apply (emits_bind _ _ [] [] [] []); [apply emits_lift|].
  intros [| | |i|]; try (intros w r w1 E; discriminate).
  apply emits_ret.
Qed.

(** One leaf: one use of the encryptor, with the AAD the walk passed and
    the cleartext of the leaf, which the digest absorbs if there is one. *)
Lemma emits_encrypt (x : scalar) (key aad : bytes) (st : stash) (dg : bool) :
  emits (encrypt x key aad st dg) [(aad, cleartext_of x)]
    (if dg then cleartext_of x else []).
Proof.
  unfold encrypt.
  eapply emits_eq;
    [| |apply emits_bind; [apply emits_update|]; intros _;
        apply emits_bind; [apply emits_choose_iv|]; intros iv;
        apply emits_bind; [apply emits_gcm_encrypt|]; intros [c t];
        apply (emits_bind _ _ [] [] [] []); [apply emits_lift|]; intros d64;
        apply (emits_bind _ _ [] [] [] []); [apply emits_lift|]; intros i64;
        apply (emits_bind _ _ [] [] [] []); [apply emits_lift|]; intros t64;
        apply emits_ret].
  - reflexivity.
  - now rewrite !app_nil_r.
Qed.

End EncryptWorld.

Section EncryptWalkWorld.

Context `{Platform}.

Lemma hashed_app (dg : bool) (a b : list (list string * scalar)) :
  hashed dg (a ++ b) = hashed dg a ++ hashed dg b.
Proof.
  destruct dg; [|reflexivity]. apply flat_map_app.
Qed.

Lemma leaf_calls_app (aad : bytes) (a b : list (list string * scalar)) :
  leaf_calls aad (a ++ b) = leaf_calls aad a ++ leaf_calls aad b.
Proof.
  apply map_app.
Qed.

Lemma leaf_calls_under (aad : bytes) (k : string)
    (ls : list (list string * scalar)) :
  leaf_calls aad (map (fun px => (k :: fst px, snd px)) ls)
  = leaf_calls (aad ++ encode_utf8 k ++ lit ":") ls.
Proof.
  unfold leaf_calls. rewrite map_map. apply map_ext. intros [p x]. simpl.
  now rewrite <- !app_assoc.
Qed.

Lemma hashed_under (dg : bool) (k : string) (ls : list (list string * scalar)) :
  hashed dg (map (fun px => (k :: fst px, snd px)) ls) = hashed dg ls.
Proof.
  destruct dg; [|reflexivity]. unfold hashed, cleartexts.
  induction ls as [|[p x] ls IH]; simpl; [reflexivity|]. now rewrite IH.
Qed.

Lemma leaves_dict_cons (k : string) (c : value) (r : pydict) :
  leaves (VDict ((k, c) :: r))
  = map (fun px => (k :: fst px, snd px)) (leaves c) ++ leaves (VDict r).
Proof.
  reflexivity.
Qed.

Lemma leaves_list_cons (c : value) (r : list value) :
  leaves (VList (c :: r)) = leaves c ++ leaves (VList r).
Proof.
  reflexivity.
Qed.

Variable walk : value -> bytes -> bytes -> stash -> bool -> M value.

Lemma emits_leaf (x : scalar) (key aad : bytes) (st : stash) (dg : bool)
    (wrap : string -> value) :
  emits (bind (encrypt x key aad st dg) (fun ev => ret (wrap ev)))
    (leaf_calls aad (leaves (VLeaf x))) (hashed dg (leaves (VLeaf x))).
Proof.
  eapply emits_eq; [| |apply emits_bind; [apply emits_encrypt|];
                       intros ev; apply emits_ret].
  - unfold leaf_calls. simpl. now rewrite app_nil_r.
  - unfold hashed, cleartexts. simpl. destruct dg; now rewrite ?app_nil_r.
Qed.

Lemma walked_skip (k : string) (v : value) (rest : pydict) (isRoot : bool) :
  (String.eqb k "sops" && isRoot)%bool = true ->
  walked isRoot ((k, v) :: rest) = walked isRoot rest.
Proof.
  intros T. apply andb_prop in T. destruct T as [K ->].
  unfold walked, content. cbn [filter fst]. now rewrite K.
Qed.

Lemma walked_keep (k : string) (v : value) (rest : pydict) (isRoot : bool) :
  (String.eqb k "sops" && isRoot)%bool = false ->
  walked isRoot ((k, v) :: rest) = (k, v) :: walked isRoot rest.
Proof.
  intros T. destruct isRoot; [|reflexivity].
  unfold walked, content. cbn [filter fst].
  rewrite andb_true_r in T. now rewrite T.
Qed.

Lemma emits_encrypt_items (items : pydict) :
  Forall (fun kv => emits_on walk (snd kv)) items ->
  forall key aad st isRoot dg,
    emits (walk_and_encrypt_items walk items key aad st isRoot dg)
      (leaf_calls aad (leaves (VDict (walked isRoot items))))
      (hashed dg (leaves (VDict (walked isRoot items)))).
Proof.
  induction 1 as [|[k v] rest Hv _ IH]; intros key aad st isRoot dg.
  - eapply emits_eq; [| |apply emits_ret];
      destruct isRoot, dg; reflexivity.
  - specialize (IH key aad st isRoot dg).
    cbn [walk_and_encrypt_items].
    destruct (String.eqb k "sops" && isRoot)%bool eqn:T.
    + rewrite (walked_skip _ _ _ _ T).
      eapply emits_eq; [| |apply emits_bind; [exact IH|]; intros rest';
                           apply emits_ret];
        now rewrite app_nil_r.
    + rewrite (walked_keep _ _ _ _ T), leaves_dict_cons, leaf_calls_app,
        hashed_app, leaf_calls_under, hashed_under.
      eapply emits_eq;
        [| |eapply (emits_bind _ _ [] _ [] _); [apply emits_lift|];
            intros nstash; apply emits_bind;
            [|intros v'; apply emits_bind; [exact IH|]; intros rest';
              apply emits_ret]].
      3:{ destruct v as [x|d|l]; [|apply Hv|apply Hv].
          destruct x; apply emits_leaf. }
      * now rewrite app_nil_r.
      * now rewrite app_nil_r.
Qed.

Lemma emits_encrypt_list (items : list value) :
  Forall (emits_on walk) items ->
  forall i nstash key aad st dg,
    emits (walk_list_and_encrypt_items walk items i nstash key aad st dg)
      (leaf_calls aad (leaves (VList items)))
      (hashed dg (leaves (VList items))).
Proof.
  induction 1 as [|v rest Hv _ IH]; intros i nstash key aad st dg.
  - eapply emits_eq; [| |apply emits_ret]; destruct dg; reflexivity.
  - cbn [walk_list_and_encrypt_items].
    rewrite leaves_list_cons, leaf_calls_app, hashed_app.
    eapply emits_eq;
      [| |eapply (emits_bind _ _ [] _ [] _); [apply emits_lift|];
          intros nstash'; apply emits_bind;
          [|intros v'; apply emits_bind; [apply IH|]; intros rest';
            apply emits_ret]].
    3:{ destruct v as [x|d|l]; [|apply Hv|apply Hv]. apply emits_leaf. }
    + now rewrite app_nil_r.
    + now rewrite app_nil_r.
Qed.

End EncryptWalkWorld.

Lemma emits_ext {A} (m m' : M A) (c : list (bytes * bytes)) (h : bytes) :
  (forall w, m w = m' w) -> emits m' c h -> emits m c h.
Proof.
  intros E Em w r w1 R. rewrite E in R. exact (Em w r w1 R).
Qed.

Section EncryptRoot.

Context `{Platform}.

Lemma emits_walk_node_encrypt (v : value) : emits_on walk_node_encrypt v.
Proof.
  induction v as [x|d IH|l IH] using value_induction;
    intros key aad st dg.
  - apply emits_leaf.
  - apply emits_ext with
      (m' := bind
               (walk_and_encrypt_items walk_node_encrypt d key aad st false dg)
               (fun r => ret (VDict r))).
    + intros w. cbn [walk_node_encrypt].
      unfold walk_and_encrypt_body, bind, ret.
      destruct
        (walk_and_encrypt_items walk_node_encrypt d key aad st false dg w)
        as [[r w']|e]; reflexivity.
    + eapply emits_eq;
        [| |apply emits_bind;
            [apply (emits_encrypt_items walk_node_encrypt d IH key aad st
                      false)|];
            intros r; apply emits_ret];
        now rewrite app_nil_r.
  - cbn [walk_node_encrypt].
    eapply emits_eq;
      [| |apply emits_bind; [now apply emits_encrypt_list|];
          intros r; apply emits_ret];
      now rewrite app_nil_r.
Qed.

Lemma encrypt_items_keep_sops
    (walk : value -> bytes -> bytes -> stash -> bool -> M value)
    (items : pydict) :
  forall key aad st dg w b' w',
    walk_and_encrypt_items walk items key aad st true dg w = Ok (b', w') ->
    dict_get b' "sops" = dict_get items "sops".
Proof.
  induction items as [|[k v] rest IH]; intros key aad st dg w b' w' R;
    cbn [walk_and_encrypt_items] in R.
  - apply ret_ok in R. destruct R as [-> _]. reflexivity.
  - rewrite andb_true_r in R. destruct (String.eqb k "sops") eqn:K.
    + run_ok R. subst b'.
      rewrite !dict_get_cons, String.eqb_sym, K. reflexivity.
    + run_ok R. subst b'.
      rewrite !dict_get_cons, String.eqb_sym, K. eapply IH. eassumption.
Qed.

(** The root call of [walk_and_encrypt], step by step. *)
Lemma walk_and_encrypt_root (branch : pydict) (key aad : bytes) (st : stash)
    (dg : bool) (w : world) (E : pydict) (w1 : world) :
  walk_and_encrypt branch key aad st true dg w = Ok (E, w1) ->
  exists items' w' sops mac cs,
    walk_and_encrypt_items walk_node_encrypt branch key aad st true true
      (fresh w) = Ok (items', w')
    /\ gcm_calls w' = gcm_calls w ++ cs
    /\ map view cs = leaf_calls aad (root_leaves branch)
    /\ sha512 w' = cleartexts (root_leaves branch)
    /\ dict_get branch "sops" = Some (VDict sops)
    /\ encrypt (SStr (leaves_digest branch)) key (encode_utf8 NOW) StNone false
         w' = Ok (mac, w1)
    /\ E = dict_set items' "sops"
             (VDict (dict_set (dict_set sops "lastmodified" (VLeaf (SStr NOW)))
                       "mac" (VLeaf (SStr mac)))).
Proof.
  intros R. unfold walk_and_encrypt, walk_and_encrypt_body in R.
  apply bind_ok in R. destruct R as (dg' & w0 & R0 & R).
  assert (dg' = true /\ w0 = fresh w) as [-> ->].
  { unfold bind, sha512_new, ret in R0. now injection R0 as <- <-. }
  apply bind_ok in R. destruct R as (items' & w' & Ri & R).
  assert (Em : emits (walk_and_encrypt_items walk_node_encrypt branch key aad
                        st true true)
                 (leaf_calls aad (root_leaves branch))
                 (hashed true (root_leaves branch))).
  { apply emits_encrypt_items. apply Forall_forall. intros kv _.
    apply emits_walk_node_encrypt. }
  destruct (Em _ _ _ Ri) as (cs & G & Vw & S).
  pose proof (encrypt_items_keep_sops _ _ _ _ _ _ _ _ _ Ri) as K.
  unfold seal_root in R. apply bind_ok in R.
  destruct R as (sops & w2 & R1 & R). apply lift_ok in R1.
  destruct R1 as [R1 ->]. simpl in R1.
  destruct (dict_get items' "sops") as [sv|] eqn:Gs; [|discriminate].
  injection R1 as ->.
  apply bind_ok in R. destruct R as (sops1 & w2 & R1 & R).
  apply lift_ok in R1. destruct R1 as [R1 ->].
  destruct sops as [x|sd|l]; try discriminate. injection R1 as <-.
  apply bind_ok in R. destruct R as (h & w2 & R1 & R).
  injection R1 as <- <-.
  apply bind_ok in R. destruct R as (mac & w2 & R1 & R).
  apply bind_ok in R. destruct R as (sops2 & w3 & R2 & R).
  apply lift_ok in R2. destruct R2 as [R2 ->]. injection R2 as <-.
  apply ret_ok in R. destruct R as [-> ->].
  exists items', w', sd, mac, cs.
  split; [exact Ri|]. split; [exact G|]. split; [exact Vw|].
  split; [exact S|]. split; [now rewrite <- K|].
  split; [|reflexivity].
  unfold leaves_digest. simpl in S. rewrite <- S. exact R1.
Qed.

(** C2: in a root call of [walk_and_encrypt] that returns, the encryptor is
    used once per leaf outside the [sops] branch, in traversal order, and
    then once for the MAC; the AAD of a leaf is the concatenation, over the
    mapping keys [k1 ... kn] on the way to it, of the UTF-8 bytes of the key
    and a colon.  A list index is no part of that path, so an element of a
    list gets the AAD its list was reached with, as all its siblings do. *)
Theorem leaf_aad_is_key_path (branch : pydict) (key : bytes) (st : stash)
    (dg : bool) (w : world) (E : pydict) (w1 : world) :
  walk_and_encrypt branch key [] st true dg w = Ok (E, w1) ->
  exists cs,
    gcm_calls w1 = gcm_calls w ++ cs
    /\ map call_aad cs
       = map (fun px => path_aad (fst px)) (root_leaves branch)
         ++ [encode_utf8 NOW].
Proof.
  intros R.
  destruct (walk_and_encrypt_root _ _ _ _ _ _ _ _ R)
    as (items' & w' & sops & mac & cs & _ & G & Vw & _ & _ & Rm & _).
  destruct (emits_encrypt _ _ _ _ _ _ _ _ Rm) as (cm & Gm & Vm & _).
  exists (cs ++ cm). split; [now rewrite Gm, G, app_assoc|].
  rewrite map_app. f_equal.
  - transitivity (map fst (map view cs)); [now rewrite map_map|].
    rewrite Vw. unfold leaf_calls. rewrite map_map. reflexivity.
  - transitivity (map fst (map view cm)); [now rewrite map_map|].
    now rewrite Vm.
Qed.

End EncryptRoot.

Lemma leaf_aad_is_key_path_witness :
  exists cs,
    gcm_calls (Examples.world_after_encrypting Examples.document)
      = gcm_calls Lab.start ++ cs
    /\ map call_aad cs
       = [lit "outer:inner:"; lit "outer:inner:"; lit "outer:inner:deep:";
          lit "n:"; lit "f:"; lit "b:"; lit "s:"; lit "raw:"; lit "note:";
          lit "2016-03-01T10:00:00Z"].
Proof.
  exact (leaf_aad_is_key_path (H := Lab.platform) Examples.document Lab.key
           StNone false Lab.start Examples.encrypted
           (Examples.world_after_encrypting Examples.document) eq_refl).
Defined.

(** ** The stash at work *)

(** C6, on the input where the code departs from it.  A list [["x"]] was
    decrypted into the stash, and is encrypted again as [["x", "x", "y"]]:
    the first leaf gets the stashed IV, as it should; the second, which has no
    stash entry, gets that same IV instead of a new one, because
    [walk_list_and_encrypt] does not reset [nstash]; the third gets a new one,
    as does the MAC.  The same edit on a mapping gives the added leaf a new
    IV. *)
Theorem appended_list_leaf_reuses_stashed_iv :
  Examples.ivs_of_reencryption Examples.list_document
    Examples.list_document_edited
  = [Lab.lab_urandom 0; Lab.lab_urandom 0; Lab.lab_urandom 7;
     Lab.lab_urandom 8]
  /\ Examples.ivs_of_reencryption Examples.map_document
       Examples.map_document_edited
     = [Lab.lab_urandom 0; Lab.lab_urandom 7; Lab.lab_urandom 8;
        Lab.lab_urandom 9].
Proof.
  split; vm_compute; reflexivity.
Qed.

(** At one leaf the choice of the IV is the one the comment in [encrypt]
    describes: the stashed IV when the stashed cleartext is the value to
    encrypt, 32 new bytes otherwise.  What goes wrong above is the stash that
    reaches the leaf, not the choice made from it. *)
Lemma choose_iv_stashed `{Platform} (d : list (skey * stash))
    (value iv : bytes) (w : world) :
  sdict_get d (KStr "cleartext") = Some (StBytes value) ->
  sdict_get d (KStr "iv") = Some (StBytes iv) ->
  choose_iv (StDict d) value w = Ok (iv, w).
Proof.
  intros C I. unfold choose_iv.
  assert (T : truthy (StDict d) = true) by (destruct d; [discriminate|easy]).
  rewrite T. unfold bind, lift, ret. simpl. rewrite C, I. unfold bytes_eqb.
  now destruct (list_eq_dec Byte.byte_eq_dec value value).
Qed.

Lemma choose_iv_without_stash `{Platform} (st : stash) (value : bytes) :
  truthy st = false -> choose_iv st value = urandom.
Proof.
  intros T. unfold choose_iv. now rewrite T.
Qed.

Lemma choose_iv_without_entry `{Platform} (d : list (skey * stash))
    (value : bytes) (w : world) :
  sdict_get d (KStr "cleartext") = None ->
  choose_iv (StDict d) value w = urandom w.
Proof.
  intros C. unfold choose_iv. destruct (truthy (StDict d)); [|reflexivity].
  unfold bind, lift. simpl. now rewrite C.
Qed.

Lemma choose_iv_changed `{Platform} (d : list (skey * stash))
    (old value : bytes) (w : world) :
  sdict_get d (KStr "cleartext") = Some (StBytes old) ->
  old <> value ->
  choose_iv (StDict d) value w = urandom w.
Proof.
  intros C N. unfold choose_iv. destruct (truthy (StDict d)); [|reflexivity].
  unfold bind, lift. simpl. rewrite C. unfold bytes_eqb.
  now destruct (list_eq_dec Byte.byte_eq_dec old value).
Qed.

(** ** Matching an envelope *)

Lemma encode_utf8_app (a b : string) :
  encode_utf8 (a ++ b)%string = encode_utf8 a ++ encode_utf8 b.
Proof.
  unfold encode_utf8, list_byte_of_string.
  induction a as [|c a IH]; simpl; [reflexivity|]. now rewrite IH.
Qed.

Lemma starts_with_app (l s : bytes) : starts_with l (l ++ s) = true.
Proof.
  induction l as [|c l IH]; simpl; [reflexivity|].
  now rewrite (Byte.byte_dec_lb (eq_refl c)), IH.
Qed.

Lemma skipn_app_exact (l s : bytes) : skipn (length l) (l ++ s) = s.
Proof.
  induction l as [|c l IH]; simpl; [reflexivity|exact IH].
Qed.

Lemma is_infix_cons (l : bytes) (c : byte) (s : bytes) :
  is_infix l (c :: s) = (starts_with l (c :: s) || is_infix l s)%bool.
Proof.
  reflexivity.
Qed.

(** A text that does not occur in [s] starts no suffix of [s]. *)
Lemma is_infix_skipn (l s : bytes) (n : nat) :
  is_infix l s = false -> starts_with l (skipn n s) = false.
Proof.
  revert s. induction n as [|n IH]; intros s I.
  - simpl. destruct s; simpl in I; now apply orb_false_elim in I.
  - destruct s as [|c s].
    + simpl in *. now apply orb_false_elim in I.
    + simpl. apply IH. rewrite is_infix_cons in I.
      now apply orb_false_elim in I.
Qed.

(** A text starting with [c] does not start inside a run free of [c]. *)
Lemma is_infix_past (c : byte) (l a b : bytes) :
  forallb (fun x => negb (Byte.eqb c x)) a = true ->
  is_infix (c :: l) (a ++ b) = is_infix (c :: l) b.
Proof.
  intros F. induction a as [|x a IH]; [reflexivity|].
  simpl in F. apply andb_prop in F. destruct F as [Fx Fa].
  rewrite <- app_comm_cons, is_infix_cons, (IH Fa).
  simpl. apply negb_true_iff in Fx. now rewrite Fx.
Qed.

Section Greedy.

Variable ok : byte -> bool.
Variable k : bytes -> option (list bytes).

Lemma greedy_cons (pre : bytes) (c : byte) (s : bytes) :
  greedy ok k pre (c :: s)
  = if ok c then match greedy ok k (pre ++ [c]) s with
                 | Some r => Some r
                 | None => here k pre (c :: s)
                 end
    else here k pre (c :: s).
Proof.
  reflexivity.
Qed.

(** When the rest of the pattern matches no later suffix, the group ends
    where it stands. *)
Lemma greedy_stops (s pre : bytes) :
  (forall n, 1 <= n -> k (skipn n s) = None) ->
  greedy ok k pre s = here k pre s.
Proof.
  revert pre. induction s as [|c s IH]; intros pre L; [reflexivity|].
  rewrite greedy_cons. destruct (ok c); [|reflexivity].
  rewrite IH.
  - unfold here at 1. destruct (pre ++ [c]) eqn:E.
    + now destruct pre.
    + rewrite <- E. specialize (L 1 (le_n 1)). simpl in L. now rewrite L.
  - intros n Hn. apply (L (S n)). lia.
Qed.

(** A group takes the run [g] when the rest of the pattern matches right
    after it and at no later place. *)
Lemma greedy_takes (g r pre : bytes) (res : list bytes) :
  forallb ok g = true ->
  pre ++ g <> [] ->
  k r = Some res ->
  (forall n, 1 <= n -> k (skipn n r) = None) ->
  greedy ok k pre (g ++ r) = Some ((pre ++ g) :: res).
Proof.
  revert pre. induction g as [|c g IH]; intros pre F N K L.
  - simpl. rewrite app_nil_r in *. rewrite greedy_stops by exact L.
    unfold here. destruct pre; [congruence|]. now rewrite K.
  - simpl in F. apply andb_prop in F. destruct F as [Fc Fg].
    rewrite <- app_comm_cons, greedy_cons, Fc.
    rewrite (IH (pre ++ [c])); try assumption.
    + now rewrite <- app_assoc.
    + rewrite <- app_assoc. simpl. now destruct pre.
Qed.

End Greedy.

Lemma re_match_lit_eq (l : bytes) (p : list tok) (s : bytes) :
  re_match (Lit l :: p) s
  = if starts_with l s then re_match p (skipn (length l) s) else None.
Proof.
  reflexivity.
Qed.

Lemma re_match_any_eq (p : list tok) (s : bytes) :
  re_match (AnyPlus :: p) s = greedy not_newline (re_match p) [] s.
Proof.
  reflexivity.
Qed.

Lemma re_match_lit (l : bytes) (p : list tok) (s : bytes) :
  re_match (Lit l :: p) (l ++ s) = re_match p s.
Proof.
  now rewrite re_match_lit_eq, starts_with_app, skipn_app_exact.
Qed.

Lemma re_match_lit_absent (l : bytes) (p : list tok) (s : bytes) (n : nat) :
  is_infix l s = false -> re_match (Lit l :: p) (skipn n s) = None.
Proof.
  intros I. now rewrite re_match_lit_eq, is_infix_skipn.
Qed.

(** A group followed by a literal: the group is [g] when [g] is followed by
    the literal and the literal occurs at no later place. *)
Lemma group_then_lit (ok : byte -> bool) (l : bytes) (p : list tok)
    (g s : bytes) (res : list bytes) :
  forallb ok g = true ->
  g <> [] ->
  is_infix l (tl (l ++ s)) = false ->
  re_match p s = Some res ->
  greedy ok (re_match (Lit l :: p)) [] (g ++ l ++ s) = Some (g :: res).
Proof.
  intros F N I K.
  apply (greedy_takes ok (re_match (Lit l :: p)) g (l ++ s) [] res F N).
  - now rewrite re_match_lit.
  - intros n Hn. destruct n as [|n]; [lia|].
    replace (skipn (S n) (l ++ s)) with (skipn n (tl (l ++ s)))
      by (destruct (l ++ s); [now destruct n|reflexivity]).
    now apply re_match_lit_absent.
Qed.

(** An empty group does not match. *)
Lemma empty_group_then_lit (ok : byte -> bool) (l : bytes) (p : list tok)
    (s : bytes) :
  is_infix l (tl (l ++ s)) = false ->
  greedy ok (re_match (Lit l :: p)) [] (l ++ s) = None.
Proof.
  intros I. rewrite greedy_stops; [reflexivity|].
  intros n Hn. destruct n as [|n]; [lia|].
  replace (skipn (S n) (l ++ s)) with (skipn n (tl (l ++ s)))
    by (destruct (l ++ s); [now destruct n|reflexivity]).
  now apply re_match_lit_absent.
Qed.

Lemma b64_char_plain (c : byte) :
  b64_char c = true ->
  negb (Byte.eqb "," c) = true /\ not_newline c = true
  /\ in_range 0 127 c = true.
Proof.
  destruct c; intros E; try discriminate E; repeat split.
Qed.

Lemma b64_text_plain (b : bytes) :
  forallb b64_char b = true ->
  comma_free b = true /\ forallb not_newline b = true
  /\ forallb (in_range 0 127) b = true.
Proof.
  unfold comma_free. induction b as [|c b IH]; simpl; [now repeat split|].
  intros E. apply andb_prop in E. destruct E as [Ec Eb].
  destruct (b64_char_plain c Ec) as (-> & -> & ->).
  destruct (IH Eb) as (-> & -> & ->). now repeat split.
Qed.

Lemma utf8_valid_ascii (b : bytes) :
  forallb (in_range 0 127) b = true -> utf8_valid b = true.
Proof.
  induction b as [|c b IH]; simpl; [reflexivity|].
  intros E. apply andb_prop in E. destruct E as [-> Eb]. now apply IH.
Qed.

Lemma decode_encode (s : string) :
  utf8_valid (encode_utf8 s) = true -> decode_utf8 (encode_utf8 s) = Some s.
Proof.
  unfold decode_utf8, encode_utf8. intros ->.
  now rewrite string_of_list_byte_of_string.
Qed.

Lemma decode_ascii (b : bytes) :
  forallb (in_range 0 127) b = true ->
  decode_utf8 b = Some (string_of_list_byte b).
Proof.
  intros E. unfold decode_utf8. now rewrite utf8_valid_ascii.
Qed.

Lemma encode_format_envelope (d i t y : string) :
  encode_utf8 (format_envelope d i t y)
  = envelope_bytes (encode_utf8 d) (encode_utf8 i) (encode_utf8 t)
      (encode_utf8 y).
Proof.
  unfold format_envelope, envelope_bytes. now rewrite !encode_utf8_app.
Qed.

(** Shows a bytes literal as the list it is. *)
Ltac reveal_literals :=
  repeat match goal with
  | |- context [lit ?s] =>
    let v := eval vm_compute in (lit s) in change (lit s) with v
  end.

(** Decides that a literal starting with a comma does not occur in a text
    made of literals and of runs free of commas. *)
Ltac scan :=
  repeat first
    [ reflexivity
    | match goal with
      | F : comma_free ?a = true |- is_infix (_ :: _) (?a ++ _) = false =>
        rewrite (is_infix_past _ _ a _ F)
      | |- is_infix ?l (?c :: ?s) = false =>
        rewrite (is_infix_cons l c s);
        change (starts_with l (c :: s)) with false; cbn [orb]
      end ].

Section Envelope.

Variable V : float.
Hypothesis typed : has_type_field V = true.

Variables data iv tag valtype : bytes.
Hypothesis iv_plain : forallb b64_char iv = true.
Hypothesis tag_plain : forallb b64_char tag = true.
Hypothesis valtype_plain : forallb b64_char valtype = true.

Lemma valre_typed :
  valre V
  = [Lit (lit "ENC[AES256_GCM,data:"); AnyPlus; Lit (lit ",iv:"); AnyPlus;
     Lit (lit ",tag:"); AnyPlus; Lit (lit ",type:"); AnyPlus; Lit (lit "]")].
Proof.
  unfold valre. now rewrite typed.
Qed.

(** An envelope whose [data] is empty is no envelope for [decrypt]. *)
Lemma envelope_without_data :
  data = [] -> re_match (valre V) (envelope_bytes data iv tag valtype) = None.
Proof.
  intros ->. rewrite valre_typed. unfold envelope_bytes.
  rewrite re_match_lit, re_match_any_eq, app_nil_l.
  destruct (b64_text_plain _ iv_plain) as (Ci & _ & _).
  destruct (b64_text_plain _ tag_plain) as (Ct & _ & _).
  destruct (b64_text_plain _ valtype_plain) as (Cy & _ & _).
  apply empty_group_then_lit. reveal_literals. cbn [app tl]. scan.
Qed.

Hypothesis data_plain : forallb b64_char data = true.
Hypothesis data_not_empty : data <> [].
Hypothesis iv_not_empty : iv <> [].
Hypothesis tag_not_empty : tag <> [].
Hypothesis valtype_not_empty : valtype <> [].

(** The groups of an envelope are its four fields. *)
Lemma envelope_groups :
  re_match (valre V) (envelope_bytes data iv tag valtype)
  = Some [data; iv; tag; valtype].
Proof.
  rewrite valre_typed. unfold envelope_bytes.
  destruct (b64_text_plain _ data_plain) as (Cd & Nd & _).
  destruct (b64_text_plain _ iv_plain) as (Ci & Ni & _).
  destruct (b64_text_plain _ tag_plain) as (Ct & Nt & _).
  destruct (b64_text_plain _ valtype_plain) as (Cy & Ny & _).
  rewrite re_match_lit, re_match_any_eq.
  apply group_then_lit; try assumption.
  { reveal_literals. cbn [app tl]. scan. }
  rewrite re_match_any_eq.
  apply group_then_lit; try assumption.
  { reveal_literals. cbn [app tl]. scan. }
  rewrite re_match_any_eq.
  apply group_then_lit; try assumption.
  { reveal_literals. cbn [app tl]. scan. }
  rewrite re_match_any_eq.
  replace (valtype ++ lit "]") with (valtype ++ lit "]" ++ [])
    by now rewrite app_nil_r.
  apply group_then_lit; try assumption; reflexivity.
Qed.

End Envelope.

(** ** One leaf, encrypted and decrypted *)

Section LeafRoundtrip.

Context `{PlatformLaws}.
Variable V : float.
Hypothesis fmt : current_format V.

Lemma b64_not_empty (x : bytes) : x <> [] -> b64encode x <> [].
Proof.
  intros N E. pose proof (b64_roundtrip x) as R. rewrite E in R.
  pose proof (b64_roundtrip []) as R0. rewrite b64_empty in R0.
  rewrite R0 in R. injection R as R. congruence.
Qed.

Lemma b64_text (x : bytes) :
  decode_or_raise (b64encode x) = Ok (string_of_list_byte (b64encode x)).
Proof.
  unfold decode_or_raise. rewrite decode_ascii; [reflexivity|].
  now destruct (b64_text_plain _ (b64_alphabet x)) as (_ & _ & ?).
Qed.

Lemma choose_iv_fresh (st : stash) (c : bytes) (w : world) :
  truthy st = false -> choose_iv st c w = urandom w.
Proof.
  intros T. unfold choose_iv. now rewrite T.
Qed.

(** Without a stash, and with a 32-byte key, [encrypt] returns an envelope
    made from a new IV. *)
Lemma encrypt_fresh (x : scalar) (key aad : bytes) (st : stash) (dg : bool)
    (w : world) :
  truthy st = false -> length key = 32 ->
  exists e t env w1,
    aes_gcm_encrypt key (urandom32 (draws w)) aad (cleartext_of x) = Some (e, t)
    /\ encrypt x key aad st dg w = Ok (env, w1)
    /\ encode_utf8 env
       = envelope_bytes (b64encode e) (b64encode (urandom32 (draws w)))
           (b64encode t) (encode_utf8 (valtype_of x)).
Proof.
  intros T K.
  destruct (aes_gcm_encrypt key (urandom32 (draws w)) aad (cleartext_of x))
    as [[e t]|] eqn:G.
  2:{ exfalso. revert G. apply gcm_accepts; [exact K|apply urandom_length]. }
  exists e, t. unfold encrypt.
  assert (U : forall w0 : world,
            draws w0 = draws w ->
            exists env w1,
              bind (choose_iv st (cleartext_of x))
                (fun iv =>
                   bind (gcm_encrypt key iv aad (cleartext_of x))
                     (fun et =>
                        let '(enc_value, tag) := et in
                        bind (lift (decode_or_raise (b64encode enc_value)))
                          (fun data64 =>
                             bind (lift (decode_or_raise (b64encode iv)))
                               (fun iv64 =>
                                  bind (lift (decode_or_raise (b64encode tag)))
                                    (fun tag64 =>
                                       ret (format_envelope data64 iv64 tag64
                                              (valtype_of x))))))) w0
              = Ok (env, w1)
              /\ encode_utf8 env
                 = envelope_bytes (b64encode e)
                     (b64encode (urandom32 (draws w))) (b64encode t)
                     (encode_utf8 (valtype_of x))).
  { intros w0 D. unfold bind at 1. rewrite choose_iv_fresh by exact T.
    unfold urandom. rewrite D. unfold bind at 1. unfold gcm_encrypt. simpl.
    rewrite G. unfold bind, lift. rewrite !b64_text. unfold ret.
    eexists. eexists. split; [reflexivity|].
    rewrite encode_format_envelope. unfold encode_utf8.
    now rewrite !list_byte_of_string_of_list_byte. }
  destruct dg.
  - destruct (U {| draws := draws w; gcm_calls := gcm_calls w;
                   sha512 := sha512 w ++ cleartext_of x |} eq_refl)
      as (env & w1 & R & E).
    exists env, w1. split; [reflexivity|]. split; [exact R|exact E].
  - destruct (U w eq_refl) as (env & w1 & R & E).
    exists env, w1. split; [reflexivity|]. split; [exact R|exact E].
Qed.

Lemma valtype_plain (x : scalar) :
  forallb b64_char (encode_utf8 (valtype_of x)) = true
  /\ encode_utf8 (valtype_of x) <> [].
Proof.
  destruct x; split; try reflexivity; discriminate.
Qed.

(** What [decrypt] makes of an envelope that [encrypt] made: nothing when
    the cleartext was empty, the value of the recorded type otherwise. *)
Lemma decrypt_envelope (value : scalar) (env : string)
    (key aad iv c e t y : bytes) (st : stash) (dg : bool) (w : world) :
  value = SStr env \/ value = SPreserved env ->
  aes_gcm_encrypt key iv aad c = Some (e, t) ->
  iv <> [] ->
  encode_utf8 env
  = envelope_bytes (b64encode e) (b64encode iv) (b64encode t) y ->
  forallb b64_char y = true -> y <> [] ->
  truthy st = false ->
  decrypt V value key aad st dg w
  = match c with
    | [] => Ok ((value, st), w)
    | _ :: _ =>
      match restore_type (Some y) c with
      | Ok r => Ok ((r, st), absorb dg c w)
      | Err er => Err er
      end
    end.
Proof.
  intros Hv G Ni Henv Py Ny T. destruct fmt as [typed _].
  assert (Nt : t <> []).
  { intros ->. now apply gcm_has_tag in G. }
  pose proof (gcm_keeps_length _ _ _ _ _ _ G) as L.
  assert (D : decrypt V value key aad st dg w
              = match re_match (valre V) (encode_utf8 env) with
                | None => Ok ((value, st), w)
                | Some groups =>
                  bind (lift (b64decode_or_raise (nth 0 groups [])))
                    (fun enc_value =>
                     bind (lift (b64decode_or_raise (nth 1 groups [])))
                       (fun iv =>
                        bind (lift (b64decode_or_raise (nth 2 groups [])))
                          (fun tag =>
                           bind (lift (gcm_decrypt key iv tag aad enc_value))
                             (fun cleartext =>
                              bind (if truthy st
                                    then lift (stash_leaf st iv aad cleartext)
                                    else ret st)
                                (fun st' =>
                                 bind (if dg then sha512_update cleartext
                                       else ret tt)
                                   (fun _ =>
                                    bind (lift (restore_type
                                                  (Some (nth 3 groups []))
                                                  cleartext))
                                      (fun r => ret (r, st')))))))) w
                end).
  { unfold decrypt. rewrite typed.
    destruct Hv as [-> | ->];
      destruct (re_match (valre V) (encode_utf8 env)); reflexivity. }
  rewrite D, Henv. clear D.
  destruct c as [|c0 c].
  - destruct e; [|discriminate]. rewrite b64_empty.
    rewrite envelope_without_data; try apply b64_alphabet; try assumption;
      reflexivity.
  - rewrite envelope_groups; try apply b64_alphabet; try assumption;
      try (apply b64_not_empty; assumption).
    2:{ apply b64_not_empty. destruct e; discriminate. }
    cbn [nth]. unfold bind, lift, ret, b64decode_or_raise, gcm_decrypt.
    do 3 (rewrite b64_roundtrip; cbv beta iota).
    rewrite (gcm_roundtrip _ _ _ _ _ _ G), T. cbv beta iota.
    destruct (restore_type (Some y) (c0 :: c)) as [r|er];
      destruct dg; reflexivity.
Qed.

End LeafRoundtrip.

(** ** The text of an integer *)

Lemma uint_text_ascii (d : Decimal.uint) :
  forallb (in_range 0 127) (encode_utf8 (NilEmpty.string_of_uint d)) = true.
Proof.
  induction d; simpl; try reflexivity; exact IHd.
Qed.

Lemma int_text_ascii (z : Z) :
  forallb (in_range 0 127) (encode_utf8 (NilZero.string_of_int (Z.to_int z)))
  = true.
Proof.
  assert (U : forall d, forallb (in_range 0 127)
                          (encode_utf8 (NilZero.string_of_uint d)) = true).
  { intros d. destruct d; try reflexivity; apply (uint_text_ascii (_ d)). }
  destruct z; simpl; try reflexivity; apply U.
Qed.

Lemma int_text_not_empty (z : Z) :
  encode_utf8 (NilZero.string_of_int (Z.to_int z)) <> [].
Proof.
  assert (U : forall d, encode_utf8 (NilZero.string_of_uint d) <> []).
  { intros d. destruct d; discriminate. }
  destruct z; simpl; try discriminate. apply U.
Qed.

Lemma int_reads_back (z : Z) :
  py_int (NilZero.string_of_int (Z.to_int z)) = Some z.
Proof.
  unfold py_int. rewrite NilZero.isi.
  - simpl. now rewrite DecimalZ.of_to.
  - destruct z; try discriminate. simpl. intros [= E].
    now apply DecimalPos.Unsigned.to_uint_nonnil in E.
  - destruct z; try discriminate. simpl. intros [= E].
    now apply DecimalPos.Unsigned.to_uint_nonnil in E.
Qed.

Section RestoreLeaf.

Context `{Platform}.

(** The value [decrypt] gives back for the cleartext and the tag of a
    leaf. *)
Lemma restore_leaf (x : scalar) :
  restorable x ->
  exists r,
    restore_type (Some (encode_utf8 (valtype_of x))) (cleartext_of x) = Ok r
    /\ (intact_scalar x -> r = x)
    /\ (forall s, x = SPreserved s -> utf8_valid (encode_utf8 s) = true ->
        r = SStr s).
Proof.
  intros R. destruct x as [|s|s|b|z|f|b].
  - eexists. split; [reflexivity|]. split; [intros []|discriminate].
  - unfold restore_type. cbn [valtype_of cleartext_of py_str].
    change (bytes_eqb (encode_utf8 "str") (lit "bytes")) with false.
    change (bytes_eqb (encode_utf8 "str") (lit "str")) with true.
    cbv beta iota.
    destruct (decode_utf8 (encode_utf8 s)) as [cv|] eqn:D;
      (eexists; split; [reflexivity|]; split; [|discriminate]);
      intros [_ Vs]; rewrite (decode_encode _ Vs) in D; congruence.
  - unfold restore_type. cbn [valtype_of cleartext_of py_str].
    change (bytes_eqb (encode_utf8 "str") (lit "bytes")) with false.
    change (bytes_eqb (encode_utf8 "str") (lit "str")) with true.
    cbv beta iota.
    destruct (decode_utf8 (encode_utf8 s)) as [cv|] eqn:D;
      (eexists; split; [reflexivity|]; split; [intros []|]);
      intros s' [= <-] Vs; rewrite (decode_encode _ Vs) in D; congruence.
  - exists (SBool b). split; [now destruct b|].
    split; [reflexivity|discriminate].
  - exists (SInt z). split; [|split; [reflexivity|discriminate]].
    unfold restore_type. cbn [valtype_of cleartext_of py_str].
    change (bytes_eqb (encode_utf8 "int") (lit "bytes")) with false.
    change (bytes_eqb (encode_utf8 "int") (lit "str")) with false.
    change (bytes_eqb (encode_utf8 "int") (lit "int")) with true.
    cbv beta iota.
    rewrite decode_ascii by apply int_text_ascii.
    unfold encode_utf8. rewrite string_of_list_byte_of_string.
    now rewrite int_reads_back.
  - exists (SFloat f). split; [|split; [reflexivity|discriminate]].
    destruct R as [Vf Rf].
    unfold restore_type. cbn [valtype_of cleartext_of py_str].
    change (bytes_eqb (encode_utf8 "float") (lit "bytes")) with false.
    change (bytes_eqb (encode_utf8 "float") (lit "str")) with false.
    change (bytes_eqb (encode_utf8 "float") (lit "int")) with false.
    change (bytes_eqb (encode_utf8 "float") (lit "float")) with true.
    cbv beta iota. now rewrite (decode_encode _ Vf), Rf.
  - exists (SBytes b). split; [reflexivity|]. split; [reflexivity|discriminate].
Qed.

(** A cleartext is empty only for the leaves [intact_entry] leaves out. *)
Lemma intact_cleartext (x : scalar) :
  intact_entry x -> cleartext_of x <> [].
Proof.
  assert (E : forall s : string, s <> "" -> encode_utf8 s <> []).
  { intros s N. destruct s; [congruence|discriminate]. }
  destruct x as [|s|s|b|z|f|b]; simpl.
  - intros [].
  - intros [N _]. now apply E.
  - intros [N _]. now apply E.
  - intros _. destruct b; discriminate.
  - intros _. apply int_text_not_empty.
  - intros [N _]. now apply E.
  - trivial.
Qed.

End RestoreLeaf.

(** ** The loops, one member at a time *)

Section Members.

Context `{Platform}.
Variable V : float.

Lemma walk_and_encrypt_items_cons (k : string) (v : value) (rest : pydict)
    (key aad : bytes) (st : stash) (isRoot dg : bool) :
  walk_and_encrypt_items walk_node_encrypt ((k, v) :: rest) key aad st isRoot dg
  = if (String.eqb k "sops" && isRoot)%bool then
      rest' <- walk_and_encrypt_items walk_node_encrypt rest key aad st isRoot
                 dg ;;
      ret ((k, v) :: rest')
    else
      nstash <- lift (child_stash st (KStr k) empty_stash) ;;
      v' <- encrypt_entry v key (aad ++ encode_utf8 k ++ lit ":") nstash dg ;;
      rest' <- walk_and_encrypt_items walk_node_encrypt rest key aad st isRoot
                 dg ;;
      ret ((k, v') :: rest').
Proof.
  reflexivity.
Qed.

Lemma walk_list_and_encrypt_items_cons (v : value) (rest : list value)
    (i : nat) (nstash : stash) (key aad : bytes) (st : stash) (dg : bool) :
  walk_list_and_encrypt_items walk_node_encrypt (v :: rest) i nstash key aad
    st dg
  = (nstash <- lift (child_stash st (KInt i) nstash) ;;
     v' <- encrypt_element v key aad nstash dg ;;
     rest' <- walk_list_and_encrypt_items walk_node_encrypt rest (S i) nstash
                key aad st dg ;;
     ret (v' :: rest')).
Proof.
  reflexivity.
Qed.

Lemma walk_and_decrypt_items_cons (k : string) (v : value) (rest : pydict)
    (carry key aad : bytes) (st : stash) (isRoot dg : bool) :
  uses_separators V = true ->
  walk_and_decrypt_items V (walk_node_decrypt V) ((k, v) :: rest) carry key aad
    st isRoot dg
  = if (String.eqb k "sops" && isRoot)%bool then
      '(rest', st') <- walk_and_decrypt_items V (walk_node_decrypt V) rest
                         carry key aad st isRoot dg ;;
      ret ((k, v) :: rest', st')
    else
      '(st1, nstash) <- lift (open_stash st (KStr k) empty_stash) ;;
      '(v', nstash') <- decrypt_entry V v key (aad ++ encode_utf8 k ++ lit ":")
                          nstash dg ;;
      st2 <- lift (close_stash st1 (KStr k) nstash') ;;
      '(rest', st3) <- walk_and_decrypt_items V (walk_node_decrypt V) rest
                         carry key aad st2 isRoot dg ;;
      ret ((k, v') :: rest', st3).
Proof.
  intros U. cbn [walk_and_decrypt_items]. rewrite U. reflexivity.
Qed.

Lemma walk_list_and_decrypt_items_cons (v : value) (rest : list value)
    (i : nat) (nstash : stash) (key aad : bytes) (st : stash) (dg : bool) :
  walk_list_and_decrypt_items V (walk_node_decrypt V) (v :: rest) i nstash key
    aad st dg
  = ('(st1, nstash) <- lift (open_stash st (KInt i) nstash) ;;
     '(v', nstash') <- decrypt_element V v key aad nstash dg ;;
     st2 <- lift (close_stash st1 (KInt i) nstash') ;;
     '(rest', st3) <- walk_list_and_decrypt_items V (walk_node_decrypt V) rest
                        (S i) nstash' key aad st2 dg ;;
     ret (v' :: rest', st3)).
Proof.
  reflexivity.
Qed.

End Members.

(** ** Documents, encrypted and decrypted *)

Section TreeRoundtrip.

Context `{PlatformLaws}.
Variable V : float.
Hypothesis fmt : current_format V.

Lemma urandom_not_empty (n : nat) : urandom32 n <> [].
Proof.
  intros E. pose proof (urandom_length n) as L. rewrite E in L. discriminate.
Qed.

(** One leaf: [encrypt] succeeds, and [decrypt] of its envelope feeds the
    digest the cleartext and gives the leaf back. *)
Lemma leaf_roundtrip (x : scalar) (key aad : bytes) (st : stash) (dg : bool)
    (w : world) :
  restorable x -> truthy st = false -> length key = 32 ->
  exists env w1,
    encrypt x key aad st dg w = Ok (env, w1)
    /\ forall value nst dg2 w2,
       value = SStr env \/ value = SPreserved env ->
       truthy nst = false ->
       exists r,
         decrypt V value key aad nst dg2 w2
           = Ok ((r, nst), absorb dg2 (cleartext_of x) w2)
         /\ (cleartext_of x = [] -> r = value)
         /\ (intact_scalar x -> r = x)
         /\ (forall s, x = SPreserved s -> intact_entry x -> r = SStr s).
Proof.
  intros R T K.
  destruct (encrypt_fresh x key aad st dg w T K)
    as (e & t & env & w1 & G & E & B).
  exists env, w1. split; [exact E|].
  intros value nst dg2 w2 Hv Tn.
  destruct (valtype_plain x) as [Py Ny].
  rewrite (decrypt_envelope V fmt value env key aad _ _ e t _ nst dg2 w2 Hv G
             (urandom_not_empty _) B Py Ny Tn).
  destruct (cleartext_of x) as [|c0 c] eqn:C.
  - exists value. rewrite absorb_nil. split; [reflexivity|].
    split; [reflexivity|]. split.
    + intros I. exfalso. apply (intact_cleartext x); [|exact C].
      destruct x; try exact I. destruct I.
    + intros s -> I. exfalso. now apply (intact_cleartext _ I).
  - destruct (restore_leaf x R) as (r & Rr & Ri & Rp).
    rewrite C in Rr. rewrite Rr. exists r. split; [reflexivity|].
    split; [discriminate|]. split; [exact Ri|].
    intros s -> [_ Vs]. now apply Rp.
Qed.

Lemma cleartexts_leaf (x : scalar) :
  cleartexts (leaves (VLeaf x)) = cleartext_of x.
Proof.
  unfold cleartexts. simpl. apply app_nil_r.
Qed.

(** A member of a mapping. *)
Lemma entry_roundtrip (v : value) (key caad : bytes) (st : stash) (dg : bool)
    (w : world) :
  roundtrips V v ->
  all_leaves restorable v -> truthy st = false -> length key = 32 ->
  comes_back (encrypt_entry v key caad st dg)
    (fun E nst dg2 => decrypt_entry V E key caad nst dg2) v (intact_member v) w.
Proof.
  intros Rv Wv T K.
  destruct v as [x|d|l];
    [|destruct (Rv key caad st dg w Wv T K) as (E & w1 & En & Kd & Dn);
      exists E, w1; split; [exact En|]; split; [exact Kd|];
      destruct E; try discriminate Kd; exact Dn..].
  destruct (leaf_roundtrip x key caad st dg w Wv T K) as (env & w1 & E & D).
  assert (Plain : (forall s, x <> SPreserved s) ->
            comes_back (encrypt_entry (VLeaf x) key caad st dg)
              (fun E nst dg2 => decrypt_entry V E key caad nst dg2) (VLeaf x)
              (intact_member (VLeaf x)) w).
  { intros Np. exists (VLeaf (SStr env)), w1. split.
    { unfold encrypt_entry.
      destruct x; try (now rewrite (bind_eq _ _ _ _ _ E)).
      now destruct (Np s). }
    split; [reflexivity|]. intros nst dg2 w2 Tn.
    destruct (D (SStr env) nst dg2 w2 (or_introl eq_refl) Tn)
      as (r & Dr & _ & Ri & _).
    rewrite cleartexts_leaf. exists (VLeaf r). split.
    - unfold decrypt_entry. now rewrite (bind_eq _ _ _ _ _ Dr).
    - intros I. f_equal. apply Ri. destruct x; try exact I.
      now destruct (Np s). }
  destruct x as [|s|s|b|z|f|b]; try (apply Plain; discriminate).
  exists (VLeaf (SPreserved env)), w1. split.
  { unfold encrypt_entry. now rewrite (bind_eq _ _ _ _ _ E). }
  split; [reflexivity|]. intros nst dg2 w2 Tn.
  destruct (D (SPreserved env) nst dg2 w2 (or_intror eq_refl) Tn)
    as (r & Dr & _ & _ & Rp).
  rewrite cleartexts_leaf. exists (VLeaf (preserved r)). split.
  - unfold decrypt_entry. now rewrite (bind_eq _ _ _ _ _ Dr).
  - intros I. rewrite (Rp s eq_refl I). reflexivity.
Qed.

(** An element of a list. *)
Lemma element_roundtrip (v : value) (key aad : bytes) (st : stash) (dg : bool)
    (w : world) :
  roundtrips V v ->
  all_leaves restorable v -> truthy st = false -> length key = 32 ->
  comes_back (encrypt_element v key aad st dg)
    (fun E nst dg2 => decrypt_element V E key aad nst dg2) v (intact v) w.
Proof.
  intros Rv Wv T K.
  destruct v as [x|d|l];
    [|destruct (Rv key aad st dg w Wv T K) as (E & w1 & En & Kd & Dn);
      exists E, w1; split; [exact En|]; split; [exact Kd|];
      destruct E; try discriminate Kd; exact Dn..].
  destruct (leaf_roundtrip x key aad st dg w Wv T K) as (env & w1 & E & D).
  exists (VLeaf (SStr env)), w1. split.
  { unfold encrypt_element. now rewrite (bind_eq _ _ _ _ _ E). }
  split; [reflexivity|]. intros nst dg2 w2 Tn.
  destruct (D (SStr env) nst dg2 w2 (or_introl eq_refl) Tn)
    as (r & Dr & _ & Ri & _).
  rewrite cleartexts_leaf. exists (VLeaf r). split.
  - unfold decrypt_element. now rewrite (bind_eq _ _ _ _ _ Dr).
  - intros I. f_equal. now apply Ri.
Qed.

Lemma all_leaves_dict_cons (P : scalar -> Prop) (k : string) (c : value)
    (r : pydict) :
  all_leaves P (VDict ((k, c) :: r))
  = (all_leaves P c /\ all_leaves P (VDict r)).
Proof.
  reflexivity.
Qed.

Lemma all_leaves_list_cons (P : scalar -> Prop) (c : value) (r : list value) :
  all_leaves P (VList (c :: r)) = (all_leaves P c /\ all_leaves P (VList r)).
Proof.
  reflexivity.
Qed.

Lemma intact_dict_cons (k : string) (c : value) (r : pydict) :
  intact (VDict ((k, c) :: r)) = (intact_member c /\ intact (VDict r)).
Proof.
  reflexivity.
Qed.

Lemma intact_list_cons (c : value) (r : list value) :
  intact (VList (c :: r)) = (intact c /\ intact (VList r)).
Proof.
  reflexivity.
Qed.

Lemma cleartexts_dict_cons (k : string) (c : value) (r : pydict) :
  cleartexts (leaves (VDict ((k, c) :: r)))
  = cleartexts (leaves c) ++ cleartexts (leaves (VDict r)).
Proof.
  rewrite leaves_dict_cons.
  change (hashed true
            (map (fun px => (k :: fst px, snd px)) (leaves c)
             ++ leaves (VDict r))
          = hashed true (leaves c) ++ hashed true (leaves (VDict r))).
  now rewrite hashed_app, hashed_under.
Qed.

Lemma cleartexts_list_cons (c : value) (r : list value) :
  cleartexts (leaves (VList (c :: r)))
  = cleartexts (leaves c) ++ cleartexts (leaves (VList r)).
Proof.
  rewrite leaves_list_cons. apply (hashed_app true).
Qed.

Lemma child_stash_none (st : stash) (k : skey) (n : stash) :
  truthy st = false -> child_stash st k n = Ok n.
Proof.
  intros T. unfold child_stash. now rewrite T.
Qed.

Lemma open_stash_none (st : stash) (k : skey) (n : stash) :
  truthy st = false -> open_stash st k n = Ok (st, n).
Proof.
  intros T. unfold open_stash. now rewrite T.
Qed.

Lemma close_stash_none (st : stash) (k : skey) (n : stash) :
  truthy st = false -> close_stash st k n = Ok st.
Proof.
  intros T. unfold close_stash. now rewrite T.
Qed.

(** The loop over the entries of a mapping. *)
Lemma items_roundtrip (items : pydict) :
  Forall (fun kv => roundtrips V (snd kv)) items ->
  forall key aad st isRoot dg w,
    all_leaves restorable (VDict (walked isRoot items)) ->
    truthy st = false -> length key = 32 ->
    exists E w1,
      walk_and_encrypt_items walk_node_encrypt items key aad st isRoot dg w
        = Ok (E, w1)
      /\ forall carry nst dg2 w2, truthy nst = false ->
         exists D,
           walk_and_decrypt_items V (walk_node_decrypt V) E carry key aad nst
             isRoot dg2 w2
             = Ok ((D, nst),
                   absorb dg2
                     (cleartexts (leaves (VDict (walked isRoot items)))) w2)
           /\ (intact (VDict (walked isRoot items)) -> D = items).
Proof.
  destruct fmt as [_ Sep].
  induction 1 as [|[k v] rest Rv _ IH]; intros key aad st isRoot dg w W T K.
  - exists [], w. split; [reflexivity|]. intros carry nst dg2 w2 Tn.
    exists []. split; [|reflexivity].
    replace (walked isRoot []) with (@nil (string * value))
      by now destruct isRoot.
    simpl. unfold ret. now rewrite absorb_nil.
  - destruct (String.eqb k "sops" && isRoot)%bool eqn:Test.
    + rewrite (walked_skip _ _ _ _ Test) in *.
      destruct (IH key aad st isRoot dg w W T K) as (E & w1 & En & De).
      exists ((k, v) :: E), w1. split.
      { rewrite walk_and_encrypt_items_cons, Test. now step En. }
      intros carry nst dg2 w2 Tn.
      destruct (De carry nst dg2 w2 Tn) as (D & Dd & Di).
      exists ((k, v) :: D). split.
      { rewrite walk_and_decrypt_items_cons, Test by exact Sep. now step Dd. }
      intros I. now rewrite (Di I).
    + rewrite (walked_keep _ _ _ _ Test) in *.
      rewrite all_leaves_dict_cons in W. destruct W as [Wv Wr].
      destruct (entry_roundtrip v key (aad ++ encode_utf8 k ++ lit ":")
                  empty_stash dg w Rv Wv eq_refl K)
        as (Ev & wa & En & _ & Dv).
      destruct (IH key aad st isRoot dg wa Wr T K) as (E & w1 & Er & De).
      exists ((k, Ev) :: E), w1. split.
      { rewrite walk_and_encrypt_items_cons, Test.
        step (lift_eq _ w _ (child_stash_none st (KStr k) empty_stash T)).
        step En. now step Er. }
      intros carry nst dg2 w2 Tn.
      destruct (Dv empty_stash dg2 w2 eq_refl) as (D1 & Dd1 & Di1).
      destruct (De carry nst dg2 (absorb dg2 (cleartexts (leaves v)) w2) Tn)
        as (D & Dd & Di).
      exists ((k, D1) :: D). split.
      { rewrite walk_and_decrypt_items_cons, Test by exact Sep.
        step (lift_eq _ w2 _ (open_stash_none nst (KStr k) empty_stash Tn)).
        step Dd1.
        step (lift_eq _ (absorb dg2 (cleartexts (leaves v)) w2) _
                (close_stash_none nst (KStr k) empty_stash Tn)).
        step Dd. unfold ret.
        now rewrite absorb_app, cleartexts_dict_cons. }
      rewrite intact_dict_cons. intros [Iv Ir].
      now rewrite (Di1 Iv), (Di Ir).
Qed.

(** The loop over the elements of a list. *)
Lemma list_roundtrip (items : list value) :
  Forall (roundtrips V) items ->
  forall i n key aad st dg w,
    all_leaves restorable (VList items) ->
    truthy st = false -> truthy n = false -> length key = 32 ->
    exists E w1,
      walk_list_and_encrypt_items walk_node_encrypt items i n key aad st dg w
        = Ok (E, w1)
      /\ forall j n2 nst dg2 w2, truthy nst = false -> truthy n2 = false ->
         exists D,
           walk_list_and_decrypt_items V (walk_node_decrypt V) E j n2 key aad
             nst dg2 w2
             = Ok ((D, nst), absorb dg2 (cleartexts (leaves (VList items))) w2)
           /\ (intact (VList items) -> D = items).
Proof.
  induction 1 as [|v rest Rv _ IH]; intros i n key aad st dg w W T Tn K.
  - exists [], w. split; [reflexivity|]. intros j n2 nst dg2 w2 Tn2 Tn3.
    exists []. split; [|reflexivity].
    simpl. unfold ret. now rewrite absorb_nil.
  - rewrite all_leaves_list_cons in W. destruct W as [Wv Wr].
    destruct (element_roundtrip v key aad n dg w Rv Wv Tn K)
      as (Ev & wa & En & _ & Dv).
    destruct (IH (S i) n key aad st dg wa Wr T Tn K) as (E & w1 & Er & De).
    exists (Ev :: E), w1. split.
    { rewrite walk_list_and_encrypt_items_cons.
      step (lift_eq _ w _ (child_stash_none st (KInt i) n T)).
      step En. now step Er. }
    intros j n2 nst dg2 w2 Tn2 Tn3.
    destruct (Dv n2 dg2 w2 Tn3) as (D1 & Dd1 & Di1).
    destruct (De (S j) n2 nst dg2 (absorb dg2 (cleartexts (leaves v)) w2)
                Tn2 Tn3) as (D & Dd & Di).
    exists (D1 :: D). split.
    { rewrite walk_list_and_decrypt_items_cons.
      step (lift_eq _ w2 _ (open_stash_none nst (KInt j) n2 Tn2)).
      step Dd1.
      step (lift_eq _ (absorb dg2 (cleartexts (leaves v)) w2) _
              (close_stash_none nst (KInt j) n2 Tn2)).
      step Dd. unfold ret.
      now rewrite absorb_app, cleartexts_list_cons. }
    rewrite intact_list_cons. intros [Iv Ir].
    now rewrite (Di1 Iv), (Di Ir).
Qed.

(** Every document value comes back. *)
Lemma node_roundtrip (v : value) : roundtrips V v.
Proof.
  induction v as [x|d IH|l IH] using value_induction;
    intros key aad st dg w W T K.
  - destruct (leaf_roundtrip x key aad st dg w W T K) as (env & w1 & E & D).
    exists (VLeaf (SStr env)), w1. split.
    { cbn [walk_node_encrypt]. now step E. }
    split; [reflexivity|]. intros nst dg2 w2 Tn.
    destruct (D (SStr env) nst dg2 w2 (or_introl eq_refl) Tn)
      as (r & Dr & _ & Ri & _).
    rewrite cleartexts_leaf. exists (VLeaf r). split.
    + cbn [walk_node_decrypt]. now step Dr.
    + intros I. f_equal. now apply Ri.
  - destruct (items_roundtrip d IH key aad st false dg w W T K)
      as (E & w1 & En & De).
    exists (VDict E), w1. split.
    { cbn [walk_node_encrypt]. unfold walk_and_encrypt_body.
      cbv beta iota zeta. unfold bind at 1 2. unfold ret at 1.
      now step En. }
    split; [reflexivity|]. intros nst dg2 w2 Tn.
    destruct (De aad nst dg2 w2 Tn) as (D & Dd & Di).
    exists (VDict D). split.
    + cbn [walk_node_decrypt]. unfold walk_and_decrypt_body.
      cbn [andb negb]. cbv beta iota zeta. unfold bind at 1 2.
      unfold ret at 1. now step Dd.
    + intros I. f_equal. now apply Di.
  - destruct (list_roundtrip l IH 0 empty_stash key aad st dg w W T eq_refl K)
      as (E & w1 & En & De).
    exists (VList E), w1. split.
    { cbn [walk_node_encrypt]. now step En. }
    split; [reflexivity|]. intros nst dg2 w2 Tn.
    destruct (De 0 empty_stash nst dg2 w2 Tn eq_refl) as (D & Dd & Di).
    exists (VList D). split.
    + cbn [walk_node_decrypt]. now step Dd.
    + intros I. f_equal. now apply Di.
Qed.

Lemma upper_hex_ascii (c : byte) :
  hex_char c = true -> in_range 0 127 (upper_byte c) = true.
Proof.
  destruct c; intros E; try discriminate E; reflexivity.
Qed.

(** The uppercase digest is a text of 128 ASCII characters. *)
Lemma digest_text (c : bytes) :
  let h := upper (sha512_hexdigest c) in
  h <> "" /\ utf8_valid (encode_utf8 h) = true.
Proof.
  cbv zeta. unfold upper.
  assert (E : encode_utf8
                (string_of_list_byte
                   (map upper_byte (list_byte_of_string (sha512_hexdigest c))))
              = map upper_byte (encode_utf8 (sha512_hexdigest c))).
  { unfold encode_utf8. now rewrite list_byte_of_string_of_list_byte. }
  split.
  - intros N. rewrite N in E. pose proof (hexdigest_length c) as L.
    destruct (encode_utf8 (sha512_hexdigest c)); discriminate.
  - rewrite E. apply utf8_valid_ascii.
    pose proof (hexdigest_alphabet c) as A. revert A.
    generalize (encode_utf8 (sha512_hexdigest c)). intros l.
    induction l as [|b l IH]; intros A; [reflexivity|].
    simpl in *. apply andb_prop in A. destruct A as [Ab Al].
    now rewrite (upper_hex_ascii _ Ab), (IH Al).
Qed.

(** The root loop of the decrypt walk does not look at the [sops] branch. *)
Lemma decrypt_items_set_sops (X : value) (E : pydict) :
  forall carry key aad st dg w D s w',
    walk_and_decrypt_items V (walk_node_decrypt V) E carry key aad st true dg w
      = Ok ((D, s), w') ->
    walk_and_decrypt_items V (walk_node_decrypt V) (dict_set E "sops" X) carry
      key aad st true dg w
      = Ok ((dict_set D "sops" X, s), w').
Proof.
  destruct fmt as [_ Sep].
  induction E as [|[k v] rest IH]; intros carry key aad st dg w D s w' R.
  - apply ret_ok in R. destruct R as [[= -> ->] ->]. reflexivity.
  - rewrite walk_and_decrypt_items_cons in R by exact Sep.
    cbn [dict_set]. rewrite String.eqb_sym.
    destruct (String.eqb k "sops") eqn:Ks; cbn [andb] in R.
    + apply bind_ok in R. destruct R as ([p s0] & w0 & Run & R).
      apply ret_ok in R. destruct R as [[= -> ->] ->].
      rewrite walk_and_decrypt_items_cons, Ks by exact Sep. cbn [andb].
      step Run. cbn [dict_set]. rewrite String.eqb_sym, Ks. reflexivity.
    + apply bind_ok in R. destruct R as ([st1 n] & w1 & Ro & R).
      apply lift_ok in Ro. destruct Ro as [Ro ->].
      apply bind_ok in R. destruct R as ([v' n'] & w2 & Rv & R).
      apply bind_ok in R. destruct R as (st2 & w3 & Rc & R).
      apply lift_ok in Rc. destruct Rc as [Rc ->].
      apply bind_ok in R. destruct R as ([p s0] & w4 & Rr & R).
      apply ret_ok in R. destruct R as [[= -> ->] ->].
      rewrite walk_and_decrypt_items_cons, Ks by exact Sep. cbn [andb].
      step (lift_eq _ w _ Ro). step Rv. step (lift_eq _ w2 _ Rc).
      step (IH _ _ _ _ _ _ _ _ _ Rr).
      cbn [dict_set]. rewrite String.eqb_sym, Ks. reflexivity.
Qed.

(** The root calls, one after the other: the encryption succeeds; the
    decryption of its result succeeds whatever the world it starts in; both
    digests have absorbed the cleartexts of the leaves; and a document whose
    leaves all come back comes back, its [sops] branch sealed. *)
Lemma root_roundtrip (branch sops : pydict) (key aad : bytes) (st st2 : stash)
    (dg : bool) (w : world) :
  dict_get branch "sops" = Some (VDict sops) ->
  all_leaves restorable (VDict (content branch)) ->
  truthy st = false -> truthy st2 = false -> length key = 32 ->
  exists E w1 mac,
    walk_and_encrypt branch key aad st true dg w = Ok (E, w1)
    /\ sha512 w1 = cleartexts (root_leaves branch)
    /\ forall dg2 w2,
       exists D w3,
         walk_and_decrypt V E key aad st2 dg2 true false w2
           = Ok ((D, st2), w3)
         /\ sha512 w3 = cleartexts (root_leaves branch)
         /\ (intact (VDict (content branch)) ->
             D = dict_set branch "sops" (sealed sops mac)).
Proof.
  intros S W T T2 K.
  assert (Rt : Forall (fun kv => roundtrips V (snd kv)) branch).
  { apply Forall_forall. intros kv _. apply node_roundtrip. }
  destruct (items_roundtrip branch Rt key aad st true true (fresh w) W T K)
    as (Ei & w' & En & De).
  set (h := upper (sha512_hexdigest (sha512 w'))).
  destruct (leaf_roundtrip (SStr h) key (encode_utf8 NOW) StNone false w' I
              eq_refl K) as (mac & w1 & Em & Dm).
  pose proof (encrypt_items_keep_sops _ _ _ _ _ _ _ _ _ En) as Ks.
  rewrite S in Ks.
  assert (R : walk_and_encrypt branch key aad st true dg w
              = Ok (dict_set Ei "sops" (sealed sops mac), w1)).
  { unfold walk_and_encrypt, walk_and_encrypt_body.
    unfold bind at 1 2. unfold sha512_new at 1. unfold ret at 1.
    change {| draws := draws w; gcm_calls := gcm_calls w; sha512 := [] |}
      with (fresh w).
    step En. unfold seal_root.
    unfold bind at 1. unfold lift at 1. cbn [py_getitem]. rewrite Ks.
    unfold bind at 1. unfold lift at 1. cbn [py_setitem].
    unfold bind at 1. unfold sha512_hex at 1. fold h. now step Em. }
  destruct (walk_and_encrypt_root _ _ _ _ _ _ _ _ R)
    as (i' & w'' & s' & m' & cs & En' & _ & _ & Sha & _ & Em' & _).
  rewrite En in En'. injection En' as <- <-.
  assert (S1 : sha512 w1 = sha512 w').
  { destruct (emits_encrypt _ _ _ _ _ _ _ _ Em) as (c & _ & _ & Sm).
    now rewrite Sm, app_nil_r. }
  exists (dict_set Ei "sops" (sealed sops mac)), w1, mac.
  split; [exact R|]. split; [now rewrite S1|].
  intros dg2 w2.
  destruct (De aad st2 true (fresh w2) T2) as (D & Dd & Di).
  pose proof (decrypt_items_set_sops (sealed sops mac) _ _ _ _ _ _ _ _ _ _ Dd)
    as Ds.
  set (w3 := absorb true (cleartexts (leaves (VDict (walked true branch))))
               (fresh w2)) in *.
  assert (S3 : sha512 w3 = cleartexts (root_leaves branch)) by reflexivity.
  destruct (Dm (SStr mac) StNone false w3 (or_introl eq_refl) eq_refl)
    as (r & Dr & _ & Ri & _).
  rewrite (Ri (digest_text _)) in Dr. clear Ri.
  exists (dict_set D "sops" (sealed sops mac)), w3.
  split; [|split; [exact S3|]].
  - rewrite walk_and_decrypt_checked. unfold root_items. step Ds.
    unfold bind at 1.
    rewrite (verify_mac_unfold V _ key w3
               (dict_set (dict_set sops "lastmodified" (VLeaf (SStr NOW)))
                  "mac" (VLeaf (SStr mac)))) by apply dict_get_set_same.
    rewrite dict_get_set_same.
    rewrite dict_get_set_other by reflexivity. rewrite dict_get_set_same.
    cbn [py_encode]. rewrite Dr. cbn [value_is_text].
    unfold h. rewrite S3, <- Sha, String.eqb_refl. reflexivity.
  - intros It. now rewrite (Di It).
Qed.

End TreeRoundtrip.

Section Intact.

Context `{Platform}.

Lemma intact_entry_restorable (x : scalar) : intact_entry x -> restorable x.
Proof.
  destruct x; simpl; try trivial. now intros [_ R].
Qed.

Lemma intact_restorable (v : value) : intact v -> all_leaves restorable v.
Proof.
  induction v as [x|d IH|l IH] using value_induction.
  - intros I. apply intact_entry_restorable. destruct x; try exact I.
    destruct I.
  - induction IH as [|[k c] r Hc _ IHr]; [trivial|].
    rewrite intact_dict_cons, all_leaves_dict_cons. intros [Ic Ir].
    split; [|now apply IHr].
    destruct c as [x|d'|l']; [|now apply Hc..].
    now apply intact_entry_restorable.
  - induction IH as [|c r Hc _ IHr]; [trivial|].
    rewrite intact_list_cons, all_leaves_list_cons. intros [Ic Ir].
    split; [now apply Hc|now apply IHr].
Qed.

Lemma content_set_sops (branch : pydict) (X : value) :
  content (dict_set branch "sops" X) = content branch.
Proof.
  unfold content. induction branch as [|[k v] r IH]; [reflexivity|].
  cbn [dict_set]. destruct (String.eqb "sops" k) eqn:E.
  - cbn [filter fst]. rewrite String.eqb_sym, E. reflexivity.
  - cbn [filter fst]. rewrite String.eqb_sym, E. cbn [negb]. now rewrite IH.
Qed.

End Intact.

(** ** What the decrypt walk feeds the digest *)

Lemma feeds_ret {A} (a : A) : feeds (ret a) [].
Proof.
  intros w r w1 E. apply ret_ok in E. destruct E as [_ ->].
  now rewrite app_nil_r.
Qed.

Lemma feeds_lift {A} (x : result A) : feeds (lift x) [].
Proof.
  intros w r w1 E. apply lift_ok in E. destruct E as [_ ->].
  now rewrite app_nil_r.
Qed.

Lemma feeds_raise {A} (e : error) (b : bytes) : feeds (raise (A := A) e) b.
Proof.
  intros w r w1 E. discriminate E.
Qed.

Lemma feeds_bind {A B} (m : M A) (f : A -> M B) (a b : bytes) :
  feeds m a -> (forall x, feeds (f x) b) -> feeds (bind m f) (a ++ b).
Proof.
  intros Fm Ff w r w1 E. apply bind_ok in E.
  destruct E as (x & w' & Em & Ef).
  now rewrite (Ff x _ _ _ Ef), (Fm _ _ _ Em), app_assoc.
Qed.

Lemma feeds_lift_bind {A B} (x : result A) (f : A -> M B) (b : bytes) :
  (forall a, x = Ok a -> feeds (f a) b) -> feeds (bind (lift x) f) b.
Proof.
  intros F. unfold bind, lift. destruct x as [a|e].
  - now apply F.
  - intros w r w1 E. discriminate E.
Qed.

Lemma feeds_ret_bind {A B} (a : A) (f : A -> M B) (b : bytes) :
  feeds (f a) b -> feeds (bind (ret a) f) b.
Proof.
  intros F w r w1 E. exact (F w r w1 E).
Qed.

Lemma feeds_eq {A} (m : M A) (a b : bytes) : a = b -> feeds m a -> feeds m b.
Proof.
  now intros ->.
Qed.

Lemma feeds_update (dg : bool) (data : bytes) :
  feeds (if dg then sha512_update data else ret tt) (if dg then data else []).
Proof.
  destruct dg; [|apply feeds_ret].
  intros w r w1 E. unfold sha512_update in E. now injection E as _ <-.
Qed.

Lemma opened_app `{Platform} (V : float) (key aad : bytes)
    (a b : list (list string * scalar)) :
  opened V key aad (a ++ b) = opened V key aad a ++ opened V key aad b.
Proof.
  unfold opened. apply flat_map_app.
Qed.

Lemma opened_under `{Platform} (V : float) (key aad : bytes) (k : string)
    (ls : list (list string * scalar)) :
  opened V key aad (map (fun px => (k :: fst px, snd px)) ls)
  = opened V key (aad ++ encode_utf8 k ++ lit ":") ls.
Proof.
  unfold opened. induction ls as [|px ls IH]; [reflexivity|].
  cbn [map flat_map fst snd path_aad]. rewrite IH.
  now rewrite <- !app_assoc.
Qed.

Section Feeding.

Context `{Platform}.
Variable V : float.
Hypothesis separators : uses_separators V = true.

(** One leaf: the cleartext of an envelope, nothing for another value. *)
Lemma feeds_decrypt (x : scalar) (key aad : bytes) (st : stash) (dg : bool) :
  feeds (decrypt V x key aad st dg)
    (if dg then opened_leaf V key aad x else []).
Proof.
  assert (T : forall s,
            feeds
              match re_match (valre V) (encode_utf8 s) with
              | Some groups =>
                enc_value <- lift (b64decode_or_raise (nth 0 groups [])) ;;
                iv <- lift (b64decode_or_raise (nth 1 groups [])) ;;
                tag <- lift (b64decode_or_raise (nth 2 groups [])) ;;
                cleartext <- lift (gcm_decrypt key iv tag aad enc_value) ;;
                st' <- (if truthy st
                        then lift (stash_leaf st iv aad cleartext)
                        else ret st) ;;
                (if dg then sha512_update cleartext else ret tt) ;;;
                r <- lift (restore_type
                             (if has_type_field V
                              then Some (nth 3 groups []) else None)
                             cleartext) ;;
                ret (r, st')
              | None => ret (x, st)
              end
              (if dg
               then match re_match (valre V) (encode_utf8 s) with
                    | Some groups =>
                      match b64decode (nth 0 groups []),
                            b64decode (nth 1 groups []),
                            b64decode (nth 2 groups []) with
                      | Some enc_value, Some iv, Some tag =>
                        match aes_gcm_decrypt key iv tag aad enc_value with
                        | Decrypted cleartext => cleartext
                        | _ => []
                        end
                      | _, _, _ => []
                      end
                    | None => []
                    end
               else [])).
  { intros s.
    destruct (re_match (valre V) (encode_utf8 s)) as [groups|];
      [|destruct dg; apply feeds_ret].
    apply feeds_lift_bind. intros e Ee.
    apply feeds_lift_bind. intros iv Ei.
    apply feeds_lift_bind. intros tag Et.
    apply feeds_lift_bind. intros c Ec.
    unfold b64decode_or_raise in Ee, Ei, Et. unfold gcm_decrypt in Ec.
    destruct (b64decode (nth 0 groups [])) as [e0|]; [|discriminate Ee].
    destruct (b64decode (nth 1 groups [])) as [iv0|]; [|discriminate Ei].
    destruct (b64decode (nth 2 groups [])) as [tag0|]; [|discriminate Et].
    injection Ee as ->. injection Ei as ->. injection Et as ->.
    destruct (aes_gcm_decrypt key iv tag aad e) as [c0| |];
      try discriminate Ec.
    injection Ec as ->.
    apply (feeds_bind _ _ [] (if dg then c else [])).
    { destruct (truthy st); [apply feeds_lift|apply feeds_ret]. }
    intros st'. eapply feeds_eq; [apply app_nil_r|].
    apply feeds_bind; [apply feeds_update|]. intros _.
    apply (feeds_bind _ _ [] []); [apply feeds_lift|]. intros r.
    apply feeds_ret. }
  unfold decrypt. destruct x; try (apply feeds_raise); apply T.
Qed.

Section Loops.

Variable walk : value -> bytes -> bytes -> stash -> bool -> M (value * stash).

Lemma feeds_items (items : pydict) :
  Forall (fun kv => feeds_on V walk (snd kv)) items ->
  forall carry key aad st isRoot dg,
    feeds (walk_and_decrypt_items V walk items carry key aad st isRoot dg)
      (if dg then opened V key aad (leaves (VDict (walked isRoot items)))
       else []).
Proof.
  induction 1 as [|[k v] rest Hv _ IH]; intros carry key aad st isRoot dg;
    cbn [walk_and_decrypt_items].
  - eapply feeds_eq; [|apply feeds_ret]. now destruct dg, isRoot.
  - destruct (String.eqb k "sops" && isRoot)%bool eqn:K.
    + rewrite (walked_skip _ _ _ _ K).
      eapply feeds_eq; [apply app_nil_r|].
      apply feeds_bind; [apply IH|]. intros [rest' st']. apply feeds_ret.
    + rewrite (walked_keep _ _ _ _ K), leaves_dict_cons.
      rewrite separators.
      eapply feeds_eq;
        [|apply (feeds_bind _ _ []); [apply feeds_lift|];
          intros [st1 nstash];
          apply (feeds_bind _ _
                   (if dg
                    then opened V key (aad ++ encode_utf8 k ++ lit ":")
                           (leaves v)
                    else [])
                   (if dg
                    then opened V key aad (leaves (VDict (walked isRoot rest)))
                    else []));
          [|intros [v' nstash'];
            apply (feeds_bind _ _ []); [apply feeds_lift|]; intros st2;
            eapply feeds_eq; [apply app_nil_r|];
            apply feeds_bind; [apply IH|]; intros [rest' st3];
            apply feeds_ret]].
      * destruct dg; [|reflexivity].
        now rewrite opened_app, opened_under.
      * destruct v as [x|d|l]; try apply Hv.
        assert (L : feeds
                      ('(ev, n) <- decrypt V x key
                                     (aad ++ encode_utf8 k ++ lit ":")
                                     nstash dg ;;
                       ret (VLeaf ev, n))
                      (if dg
                       then opened V key (aad ++ encode_utf8 k ++ lit ":")
                              (leaves (VLeaf x))
                       else [])).
        { eapply feeds_eq;
            [|apply feeds_bind; [apply feeds_decrypt|]; intros [ev n];
              apply feeds_ret].
          destruct dg; [|reflexivity].
          unfold opened. cbn [leaves flat_map fst snd path_aad].
          now rewrite !app_nil_r. }
        destruct x; try exact L.
        eapply feeds_eq;
          [|apply feeds_bind; [apply feeds_decrypt|]; intros [ev n];
            apply feeds_ret].
        destruct dg; [|reflexivity].
        unfold opened. cbn [leaves flat_map fst snd path_aad].
        now rewrite !app_nil_r.
Qed.

Lemma feeds_list (items : list value) :
  Forall (feeds_on V walk) items ->
  forall i nstash key aad st dg,
    feeds (walk_list_and_decrypt_items V walk items i nstash key aad st dg)
      (if dg then opened V key aad (leaves (VList items)) else []).
Proof.
  induction 1 as [|v rest Hv _ IH]; intros i nstash key aad st dg;
    cbn [walk_list_and_decrypt_items].
  - eapply feeds_eq; [|apply feeds_ret]. now destruct dg.
  - rewrite leaves_list_cons.
    eapply feeds_eq;
      [|apply (feeds_bind _ _ []); [apply feeds_lift|];
        intros [st1 nstash1];
        apply (feeds_bind _ _
                 (if dg then opened V key aad (leaves v) else [])
                 (if dg then opened V key aad (leaves (VList rest))
                  else []));
        [|intros [v' nstash'];
          apply (feeds_bind _ _ []); [apply feeds_lift|]; intros st2;
          eapply feeds_eq; [apply app_nil_r|];
          apply feeds_bind; [apply IH|]; intros [rest' st3];
          apply feeds_ret]].
    + destruct dg; [|reflexivity]. now rewrite opened_app.
    + destruct v as [x|d|l]; try apply Hv.
      eapply feeds_eq;
        [|apply feeds_bind; [apply feeds_decrypt|]; intros [ev n];
          apply feeds_ret].
      destruct dg; [|reflexivity].
      unfold opened. cbn [leaves flat_map fst snd path_aad].
      now rewrite !app_nil_r.
Qed.

End Loops.

Lemma feeds_walk_node_decrypt (v : value) :
  feeds_on V (walk_node_decrypt V) v.
Proof.
  induction v as [x|d IH|l IH] using value_induction;
    intros key aad st dg; cbn [walk_node_decrypt].
  - eapply feeds_eq;
      [|apply feeds_bind; [apply feeds_decrypt|]; intros [ev n];
        apply feeds_ret].
    destruct dg; [|reflexivity].
    unfold opened. cbn [leaves flat_map fst snd path_aad].
    now rewrite !app_nil_r.
  - eapply feeds_eq; [apply app_nil_r|].
    apply feeds_bind; [|intros [r st']; apply feeds_ret].
    unfold walk_and_decrypt_body. cbn [andb].
    apply feeds_ret_bind.
    eapply feeds_eq; [apply app_nil_r|].
    apply feeds_bind; [apply (feeds_items _ d IH _ _ _ _ false)|].
    intros [b st']. apply (feeds_bind _ _ [] []); [apply feeds_ret|].
    intros _. apply feeds_ret.
  - eapply feeds_eq; [apply app_nil_r|].
    apply feeds_bind; [apply (feeds_list _ l IH)|].
    intros [r st']. apply feeds_ret.
Qed.

Lemma feeds_verify_mac (branch : pydict) (key : bytes) :
  feeds (verify_mac V branch key) [].
Proof.
  unfold verify_mac.
  apply (feeds_bind _ _ [] []); [apply feeds_lift|]. intros sops.
  apply (feeds_bind _ _ [] []); [apply feeds_lift|]. intros has_mac.
  destruct (negb has_mac); [apply feeds_raise|].
  apply (feeds_bind _ _ [] []).
  { intros w r w1 E. unfold sha512_hex in E. injection E as _ <-.
    now rewrite app_nil_r. }
  intros h.
  apply (feeds_bind _ _ [] []); [apply feeds_lift|]. intros mac.
  apply (feeds_bind _ _ [] []); [apply feeds_lift|]. intros lastmodified.
  apply (feeds_bind _ _ [] []); [apply feeds_lift|]. intros aad.
  apply (feeds_bind _ _ [] []).
  { destruct mac as [x|d|l]; try apply feeds_raise.
    apply (feeds_decrypt x key aad StNone false). }
  intros [orig_h st'].
  destruct (value_is_text (VLeaf orig_h) (upper h));
    [apply feeds_ret|apply feeds_raise].
Qed.

(** The root call that checks the MAC: its digest has absorbed the
    cleartexts of the leaves in encrypted form, and nothing else. *)
Lemma walk_and_decrypt_feeds (tree : pydict) (key aad : bytes) (st : stash)
    (dg : bool) (w : world) (r : pydict * stash) (w1 : world) :
  walk_and_decrypt V tree key aad st dg true false w = Ok (r, w1) ->
  sha512 w1 = opened V key aad (root_leaves tree).
Proof.
  intros R. unfold walk_and_decrypt, walk_and_decrypt_body in R.
  cbn [andb negb] in R.
  apply bind_ok in R. destruct R as (dg' & w0 & R0 & R).
  assert (dg' = true /\ sha512 w0 = []) as [-> S0].
  { unfold bind, sha512_new, ret in R0. now injection R0 as <- <-. }
  apply bind_ok in R. destruct R as ([b st'] & w' & Ri & R).
  apply bind_ok in R. destruct R as (u & w2 & Rv & R).
  apply ret_ok in R. destruct R as [_ ->].
  assert (Fi : Forall (fun kv => feeds_on V (walk_node_decrypt V) (snd kv))
                 tree).
  { apply Forall_forall. intros kv _. apply feeds_walk_node_decrypt. }
  rewrite (feeds_verify_mac _ _ _ _ _ Rv), app_nil_r.
  rewrite (feeds_items _ tree Fi _ _ _ _ _ _ _ _ _ Ri), S0.
  reflexivity.
Qed.

End Feeding.

(** ** The two walks together *)

Section Together.

Context `{PlatformLaws}.
Variable V : float.

(** C1, as the code has it by design: for a document with a [sops] mapping
    whose leaves are of the five types, with a cleartext that is not empty,
    and a 32-byte key, the root encryption succeeds, and the root decryption
    of its result, at a format with typed envelopes and separators in the
    AAD, returns the document with its [sops] branch sealed: the entries
    outside [sops] are those of the document, keys, order, lists and leaf
    types included. *)
Theorem decrypt_after_encrypt (branch sops : pydict) (key : bytes) (w : world) :
  current_format V ->
  length key = 32 ->
  dict_get branch "sops" = Some (VDict sops) ->
  intact (VDict (content branch)) ->
  exists E w1 mac,
    walk_and_encrypt branch key [] StNone true false w = Ok (E, w1)
    /\ forall w2,
       exists D w3,
         walk_and_decrypt V E key [] StNone false true false w2
           = Ok ((D, StNone), w3)
         /\ D = dict_set branch "sops" (sealed sops mac)
         /\ content D = content branch.
Proof.
  intros fmt K S I.
  destruct (root_roundtrip V fmt branch sops key [] StNone StNone false w S
              (intact_restorable _ I) eq_refl eq_refl K)
    as (E & w1 & mac & En & _ & De).
  exists E, w1, mac. split; [exact En|]. intros w2.
  destruct (De false w2) as (D & w3 & Dd & _ & Di).
  exists D, w3. split; [exact Dd|]. rewrite (Di I).
  split; [reflexivity|apply content_set_sops].
Qed.

Lemma walk_and_encrypt_feeds (tree : pydict) (key aad : bytes) (st : stash)
    (dg : bool) (w : world) (E : pydict) (w1 : world) :
  walk_and_encrypt tree key aad st true dg w = Ok (E, w1) ->
  sha512 w1 = cleartexts (root_leaves tree).
Proof.
  intros R.
  destruct (walk_and_encrypt_root _ _ _ _ _ _ _ _ R)
    as (items' & w' & sops & mac & cs & _ & _ & _ & S & _ & Rm & _).
  destruct (emits_encrypt _ _ _ _ _ _ _ _ Rm) as (cm & _ & _ & Sm).
  now rewrite Sm, app_nil_r.
Qed.

(** C3, as the code has it by design, at a format with separators in the
    AAD.  The digest of a root call of [walk_and_encrypt] that returns has
    absorbed the cleartext bytes of every leaf outside [sops], in traversal
    order, and nothing else.  The digest of a root call of
    [walk_and_decrypt] that returns, the MAC being checked, has absorbed, in
    traversal order, the cleartext the decryptor gave for every leaf outside
    [sops] that is in encrypted form, and nothing for a leaf that is not,
    which [decrypt] returns as it is.  On what the encrypt walk writes the
    two agree: for a document with a [sops] mapping whose floats read back,
    and a 32-byte key, the root encryption succeeds, so does the root
    decryption of its result, and the digest of the latter has absorbed what
    the digest of the former has. *)
Theorem digests_absorb_leaf_cleartexts (key : bytes) :
  current_format V ->
  (forall tree st dg w E w1,
     walk_and_encrypt tree key [] st true dg w = Ok (E, w1) ->
     sha512 w1 = cleartexts (root_leaves tree))
  /\ (forall tree st dg w r w1,
        walk_and_decrypt V tree key [] st dg true false w = Ok (r, w1) ->
        sha512 w1 = opened V key [] (root_leaves tree))
  /\ (forall branch sops w,
        length key = 32 ->
        dict_get branch "sops" = Some (VDict sops) ->
        all_leaves restorable (VDict (content branch)) ->
        exists E w1,
          walk_and_encrypt branch key [] StNone true false w = Ok (E, w1)
          /\ sha512 w1 = cleartexts (root_leaves branch)
          /\ opened V key [] (root_leaves E)
             = cleartexts (root_leaves branch)
          /\ forall w2,
             exists r w3,
               walk_and_decrypt V E key [] StNone false true false w2
                 = Ok (r, w3)
               /\ sha512 w3 = cleartexts (root_leaves branch)).
Proof.
  intros fmt.
  split; [intros tree st dg w E w1; apply walk_and_encrypt_feeds|].
  assert (F : forall tree st dg w r w1,
            walk_and_decrypt V tree key [] st dg true false w = Ok (r, w1) ->
            sha512 w1 = opened V key [] (root_leaves tree)).
  { intros tree st dg w r w1. apply walk_and_decrypt_feeds, fmt. }
  split; [exact F|]. intros branch sops w K S W.
  destruct (root_roundtrip V fmt branch sops key [] StNone StNone false w S W
              eq_refl eq_refl K)
    as (E & w1 & mac & En & Sh & De).
  exists E, w1. split; [exact En|]. split; [exact Sh|].
  split.
  - destruct (De false w) as (D & w3 & Dd & Sd & _).
    now rewrite <- (F _ _ _ _ _ _ Dd).
  - intros w2. destruct (De false w2) as (D & w3 & Dd & Sd & _).
    now exists (D, StNone), w3.
Qed.

End Together.

(** ** The text of the MAC *)

Section MacText.

Context `{PlatformLaws}.




End MacText.

(** ** The small platform keeps the laws *)

Lemma bytes_eqb_refl (b : bytes) : bytes_eqb b b = true.
Proof.
  unfold bytes_eqb. now destruct (list_eq_dec Byte.byte_eq_dec b b).
Qed.

Lemma unhexlify_cons (b : byte) (r : bytes) :
  Lab.unhexlify (Lab.hex_of_byte b ++ r)
  = match Lab.unhexlify r with Some t => Some (b :: t) | None => None end.
Proof.
  destruct b; reflexivity.
Qed.

Lemma unhexlify_hexlify (x : bytes) : Lab.unhexlify (Lab.hexlify x) = Some x.
Proof.
  induction x as [|b x IH]; [reflexivity|].
  unfold Lab.hexlify in *. cbn [flat_map]. now rewrite unhexlify_cons, IH.
Qed.

Lemma hex_of_byte_alphabet (b : byte) :
  forallb b64_char (Lab.hex_of_byte b) = true
  /\ forallb hex_char (Lab.hex_of_byte b) = true.
Proof.
  destruct b; split; reflexivity.
Qed.

Lemma hexlify_alphabet (x : bytes) :
  forallb b64_char (Lab.hexlify x) = true
  /\ forallb hex_char (Lab.hexlify x) = true.
Proof.
  induction x as [|b x [IH1 IH2]]; [now split|].
  unfold Lab.hexlify in *. cbn [flat_map]. rewrite !forallb_app, IH1, IH2.
  now destruct (hex_of_byte_alphabet b) as [-> ->].
Qed.

Lemma hexlify_length (x : bytes) : length (Lab.hexlify x) = 2 * length x.
Proof.
  induction x as [|b x IH]; [reflexivity|].
  unfold Lab.hexlify in *. cbn [flat_map]. rewrite length_app, IH.
  simpl. lia.
Qed.

Lemma lab_laws : PlatformLaws (H := Lab.platform).
Proof.
  split.
  - intros key iv aad c e t. simpl. unfold Lab.lab_encrypt, Lab.lab_decrypt.
    destruct (Nat.eqb (length key) 32 && Nat.leb 8 (length iv))%bool;
      [|discriminate].
    intros [= <- <-]. now rewrite bytes_eqb_refl, rev_involutive.
  - intros key iv aad c e t. simpl. unfold Lab.lab_encrypt.
    destruct (Nat.eqb (length key) 32 && Nat.leb 8 (length iv))%bool;
      [|discriminate].
    intros [= <- _]. apply length_rev.
  - intros key iv aad c e. simpl. unfold Lab.lab_encrypt.
    destruct (Nat.eqb (length key) 32 && Nat.leb 8 (length iv))%bool;
      [|discriminate].
    intros [= _ E]. unfold Lab.seal_tag in E.
    apply app_eq_nil in E. destruct E as [_ E]. discriminate.
  - intros key iv aad c Lk Li. simpl. unfold Lab.lab_encrypt.
    rewrite Lk, Li. discriminate.
  - apply unhexlify_hexlify.
  - intros x. apply hexlify_alphabet.
  - reflexivity.
  - intros n. apply repeat_length.
  - intros x. simpl. unfold Lab.lab_sha512, encode_utf8.
    rewrite list_byte_of_string_of_list_byte. apply hexlify_alphabet.
  - intros x. simpl. unfold Lab.lab_sha512, encode_utf8.
    rewrite list_byte_of_string_of_list_byte, hexlify_length, length_firstn,
      length_app, repeat_length. lia.
Qed.

Lemma decrypt_after_encrypt_witness :
  exists E w1 mac,
    walk_and_encrypt (H := Lab.platform) Examples.document Lab.key [] StNone
      true false Lab.start = Ok (E, w1)
    /\ forall w2,
       exists D w3,
         walk_and_decrypt (H := Lab.platform) 0.9%float E Lab.key [] StNone
           false true false w2 = Ok ((D, StNone), w3)
         /\ D = dict_set Examples.document "sops"
                  (sealed (H := Lab.platform)
                     (Examples.sops_of Examples.document) mac)
         /\ content D = content Examples.document.
Proof.
  apply (decrypt_after_encrypt (H0 := lab_laws) 0.9%float Examples.document
           (Examples.sops_of Examples.document) Lab.key Lab.start).
  - split; reflexivity.
  - reflexivity.
  - reflexivity.
  - cbn. repeat split; try discriminate; reflexivity.
Defined.

(** C1, as stated, fails.  The document [{a: "", b: "x"}] does not come back:
    the envelope made for the empty leaf has an empty [data] field, which the
    pattern of [decrypt] does not match, so the decrypt walk leaves the
    envelope text where the empty string was.  (And the [sops] branch of any
    document comes back with [lastmodified] and [mac] set.) *)
Lemma empty_leaf_comes_back_encrypted :
  exists D a,
    Examples.roundtrip Examples.empty_leaf_document = Ok D
    /\ dict_get Examples.empty_leaf_document "a" = Some (VLeaf (SStr ""))
    /\ dict_get D "a" = Some (VLeaf (SStr a))
    /\ starts_with (lit "ENC[AES256_GCM,data:,iv:") (encode_utf8 a) = true
    /\ dict_get D "b" = Some (VLeaf (SStr "x"))
    /\ dict_has (Examples.sops_of Examples.empty_leaf_document) "mac" = false
    /\ dict_has (Examples.sops_of D) "mac" = true.
Proof.
  eexists. eexists. vm_compute. repeat split.
Qed.

(** C3, as stated, fails on the decrypt walk.  A leaf in clear put into an
    encrypted document is returned as it is, without being fed to the
    digest: the root decryption succeeds, MAC verified, and its digest has
    absorbed the cleartext of the other leaf only. *)
Lemma clear_leaf_is_not_absorbed :
  exists D w3,
    walk_and_decrypt (H := Lab.platform) VERSION Examples.slipped_in
      Lab.key [] StNone false true false Lab.start = Ok ((D, StNone), w3)
    /\ map snd (root_leaves D) = [SStr "evil"; SStr "hello"]
    /\ cleartexts (H := Lab.platform) (root_leaves D) = lit "evilhello"
    /\ sha512 w3 = lit "hello".
Proof.
  eexists. eexists. vm_compute. repeat split.
Qed.

Lemma digests_absorb_leaf_cleartexts_witness :
  (forall tree st dg w E w1,
     walk_and_encrypt (H := Lab.platform) tree Lab.key [] st true dg w
     = Ok (E, w1) ->
     sha512 w1 = cleartexts (H := Lab.platform) (root_leaves tree))
  /\ (forall tree st dg w r w1,
        walk_and_decrypt (H := Lab.platform) VERSION tree Lab.key [] st dg
          true false w = Ok (r, w1) ->
        sha512 w1
        = opened (H := Lab.platform) VERSION Lab.key [] (root_leaves tree))
  /\ exists E w1,
       walk_and_encrypt (H := Lab.platform) Examples.empty_leaf_document
         Lab.key [] StNone true false Lab.start = Ok (E, w1)
       /\ sha512 w1 = lit "x"
       /\ opened (H := Lab.platform) VERSION Lab.key [] (root_leaves E)
          = lit "x"
       /\ forall w2,
          exists r w3,
            walk_and_decrypt (H := Lab.platform) VERSION E Lab.key []
              StNone false true false w2 = Ok (r, w3)
            /\ sha512 w3 = lit "x".
Proof.
  destruct (digests_absorb_leaf_cleartexts (H0 := lab_laws) VERSION Lab.key)
    as (En & De & Both).
  - split; reflexivity.
  - split; [exact En|]. split; [exact De|].
    apply (Both Examples.empty_leaf_document
             (Examples.sops_of Examples.empty_leaf_document) Lab.start).
    + reflexivity.
    + reflexivity.
    + cbn. repeat split.
Defined.


(** ** A tampered timestamp *)

Lemma dict_set_set (d : pydict) (k : string) (x y : value) :
  dict_set (dict_set d k x) k y = dict_set d k y.
Proof.
  induction d as [|[k' v] d IH]; cbn [dict_set].
  - now rewrite String.eqb_refl.
  - destruct (String.eqb k k') eqn:E; cbn [dict_set]; rewrite E;
      [reflexivity|now rewrite IH].
Qed.

Lemma encode_utf8_injective (a b : string) :
  encode_utf8 a = encode_utf8 b -> a = b.
Proof.
  unfold encode_utf8. intros E.
  rewrite <- (string_of_list_byte_of_string a),
    <- (string_of_list_byte_of_string b).
  now rewrite E.
Qed.

Section Tampering.

Context `{PlatformLaws}.
Variable V : float.
Hypothesis fmt : current_format V.



End Tampering.





(** * Properties of the rest of the module *)

(** ** Text *)

Lemma split_not_nil (c : ascii) (s : string) : split c s <> [].
Proof.
  destruct s as [|a r]; simpl; [discriminate|].
  destruct (Ascii.eqb a c); [discriminate|].
  destruct (split c r); discriminate.
Qed.

Lemma split_app (c : ascii) (p q : string) :
  split c (p ++ String c q)%string = split c p ++ split c q.
Proof.
  induction p as [|a r IH]; simpl.
  - now rewrite Ascii.eqb_refl.
  - destruct (Ascii.eqb a c); [now rewrite IH|].
    rewrite IH. destruct (split c r) as [|x xs] eqn:E; [|reflexivity].
    now destruct (split_not_nil c r).
Qed.

Lemma split_free (c : ascii) (s : string) :
  char_free c s = true -> split c s = [s].
Proof.
  induction s as [|a r IH]; simpl; [reflexivity|].
  intros F. apply andb_prop in F. destruct F as [N F].
  apply negb_true_iff in N. rewrite N, (IH F). reflexivity.
Qed.

Lemma char_free_app (c : ascii) (a b : string) :
  char_free c (a ++ b)%string = (char_free c a && char_free c b)%bool.
Proof.
  induction a as [|x r IH]; simpl; [reflexivity|].
  now rewrite IH, andb_assoc.
Qed.

Lemma last_char_app (s : string) (a : ascii) :
  last_char (s ++ String a "")%string = Some a.
Proof.
  induction s as [|x r IH]; [reflexivity|].
  simpl. rewrite IH. now destruct r.
Qed.

Lemma but_last_app (s : string) (a : ascii) :
  but_last (s ++ String a "")%string = s.
Proof.
  induction s as [|x r IH]; [reflexivity|].
  simpl. rewrite IH. now destruct r.
Qed.

Lemma remove_first_free (n : nat) (c : ascii) (s : string) :
  char_free c s = true -> remove_first n c s = s.
Proof.
  induction s as [|a r IH]; intros F; [now destruct n|].
  simpl in F. apply andb_prop in F. destruct F as [N F].
  apply negb_true_iff in N. destruct n; [reflexivity|].
  simpl. now rewrite N, (IH F).
Qed.

Lemma remove_first_closing (n : nat) (c : ascii) (s : string) :
  char_free c s = true -> remove_first (S n) c (s ++ String c "")%string = s.
Proof.
  induction s as [|a r IH]; intros F; simpl.
  - rewrite Ascii.eqb_refl. now destruct n.
  - simpl in F. apply andb_prop in F. destruct F as [N F].
    apply negb_true_iff in N. now rewrite N, (IH F).
Qed.

Lemma remove_first_quotes (c : ascii) (s : string) :
  char_free c s = true ->
  remove_first 2 c (String c (s ++ String c "")%string) = s.
Proof.
  intros F. simpl. rewrite Ascii.eqb_refl. now apply remove_first_closing.
Qed.

(** ** Paths into a tree *)

Lemma truncate_steps_app (tree : value) (a b : list string) :
  truncate_steps tree (a ++ b)
  = match truncate_steps tree a with
    | Ok t => truncate_steps t b
    | Err e => Err e
    end.
Proof.
  revert tree. induction a as [|c r IH]; intros tree; [reflexivity|].
  simpl. destruct (truncate_step tree c); [apply IH|reflexivity].
Qed.

Lemma truncate_tree_bracket (tree : value) (q : string) :
  truncate_tree tree (String "[" q) = truncate_steps tree (split "[" q).
Proof.
  reflexivity.
Qed.
Lemma truncate_tree_component (tree : value) (c : string) :
  char_free "[" c = true ->
  truncate_tree tree (bare c)
  = component tree (remove_first 2 "039" (remove_first 2 "034" c)).
Proof.
  intros F. unfold bare. rewrite truncate_tree_bracket.
  rewrite split_free by (rewrite char_free_app, F; reflexivity).
  simpl truncate_steps. unfold truncate_step.
  replace (c ++ "]")%string with (c ++ String "]" "")%string by reflexivity.
  rewrite last_char_app, but_last_app.
  assert (N : String.eqb (c ++ String "]" "")%string "" = false)
    by (now destruct c).
  rewrite N.
  fold (component tree (remove_first 2 "039" (remove_first 2 "034" c))).
  now destruct (component tree _).
Qed.

(** X1: a path can be followed in two legs. *)
Theorem truncate_tree_composes (tree : value) (p q : string) :
  truncate_tree tree (p ++ String "[" q)%string
  = match truncate_tree tree p with
    | Ok t => truncate_tree t (String "[" q)
    | Err e => Err e
    end.
Proof.
  unfold truncate_tree at 1 2. rewrite split_app, truncate_steps_app.
  destruct (truncate_steps tree (split "[" p)); [|reflexivity].
  now rewrite truncate_tree_bracket.
Qed.

(** X2: a key between brackets, quoted or not, is looked up in the tree. *)
Theorem truncate_tree_key (tree : value) (k : string) :
  char_free "[" k = true ->
  char_free "034" k = true ->
  char_free "039" k = true ->
  re_match index_re (encode_utf8 k) = None ->
  truncate_tree tree (double_quoted k) = py_getitem tree k
  /\ truncate_tree tree (single_quoted k) = py_getitem tree k
  /\ truncate_tree tree (bare k) = py_getitem tree k.
Proof.
  intros Fb Fd Fs R.
  assert (C : component tree k = py_getitem tree k)
    by (unfold component; now rewrite R).
  repeat split.
  - unfold double_quoted. rewrite truncate_tree_component
      by (simpl; rewrite char_free_app, Fb; reflexivity).
    rewrite remove_first_quotes by exact Fd.
    now rewrite remove_first_free.
  - unfold single_quoted. rewrite truncate_tree_component
      by (simpl; rewrite char_free_app, Fb; reflexivity).
    rewrite (remove_first_free 2 "034")
      by (simpl; rewrite char_free_app, Fd; reflexivity).
    now rewrite remove_first_quotes.
  - rewrite truncate_tree_component by exact Fb.
    rewrite (remove_first_free 2 "034" k) by exact Fd.
    now rewrite remove_first_free.
Qed.

Lemma greedy_to_the_end (ok : byte -> bool) (k : bytes -> option (list bytes))
    (res : list bytes) (g pre : bytes) :
  forallb ok g = true ->
  pre ++ g <> [] ->
  k [] = Some res ->
  greedy ok k pre g = Some ((pre ++ g) :: res).
Proof.
  revert pre. induction g as [|c r IH]; intros pre A N K.
  - rewrite app_nil_r in *. destruct pre; [congruence|].
    simpl. now rewrite K.
  - simpl in A. apply andb_prop in A. destruct A as [Ac Ar].
    rewrite greedy_cons, Ac.
    rewrite (IH (pre ++ [c])), <- app_assoc; try easy.
    rewrite <- app_assoc. now destruct pre.
Qed.

Lemma index_re_digits (s : string) :
  forallb is_digit (encode_utf8 s) = true ->
  s <> "" ->
  re_match index_re (encode_utf8 s) = Some [encode_utf8 s].
Proof.
  intros D N. unfold index_re.
  change (re_match [DigitPlus; Dollar] (encode_utf8 s))
    with (greedy is_digit (re_match [Dollar]) [] (encode_utf8 s)).
  apply (greedy_to_the_end is_digit _ [] (encode_utf8 s) []); try easy.
  destruct s; [congruence|discriminate].
Qed.

Lemma uint_digits (d : Decimal.uint) :
  forallb is_digit (encode_utf8 (NilEmpty.string_of_uint d)) = true.
Proof.
  induction d; simpl; try reflexivity; exact IHd.
Qed.

Lemma decimal_digits (n : nat) :
  forallb is_digit (encode_utf8 (decimal n)) = true.
Proof.
  assert (U : forall d, forallb is_digit
                          (encode_utf8 (NilZero.string_of_uint d)) = true).
  { intros d. destruct d; try reflexivity; apply (uint_digits (_ d)). }
  unfold decimal. destruct (Z.of_nat n) eqn:E; simpl; try reflexivity.
  - apply U.
  - pose proof (Nat2Z.is_nonneg n). lia.
Qed.

Lemma decimal_not_empty (n : nat) : decimal n <> "".
Proof.
  intros E. apply (int_text_not_empty (Z.of_nat n)).
  unfold decimal in E. now rewrite E.
Qed.

Lemma digits_char_free (c : ascii) (s : string) :
  is_digit (byte_of_ascii c) = false ->
  forallb is_digit (encode_utf8 s) = true ->
  char_free c s = true.
Proof.
  intros N. induction s as [|a r IH]; [reflexivity|].
  simpl. intros D. apply andb_prop in D. destruct D as [Da Dr].
  rewrite (IH Dr), andb_true_r. apply negb_true_iff.
  destruct (Ascii.eqb a c) eqn:E; [|reflexivity].
  apply Ascii.eqb_eq in E. subst a. congruence.
Qed.

Lemma char_free_last (c : ascii) (s : string) :
  char_free c s = true -> last_char s <> Some c.
Proof.
  induction s as [|a r IH]; [discriminate|].
  simpl. intros F. apply andb_prop in F. destruct F as [N F].
  apply negb_true_iff in N. destruct r as [|b r'].
  - intros [= ->]. now rewrite Ascii.eqb_refl in N.
  - now apply IH.
Qed.

Lemma index_of_decimal (n : nat) : index_of (decimal n) = Some n.
Proof.
  unfold index_of.
  assert (L : last_char (decimal n) <> Some "010"%char).
  { apply char_free_last, digits_char_free; [reflexivity|].
    apply decimal_digits. }
  assert (E : match last_char (decimal n) with
              | Some "010"%char => but_last (decimal n)
              | _ => decimal n
              end = decimal n).
  { destruct (last_char (decimal n)) as [a|]; [|reflexivity].
    destruct a as [[] [] [] [] [] [] [] []]; try reflexivity.
    now destruct L. }
  rewrite E. unfold decimal. rewrite int_reads_back. simpl.
  now rewrite Nat2Z.id.
Qed.

Lemma component_decimal (tree : value) (n : nat) :
  component tree (decimal n) = py_getitem_int tree n.
Proof.
  unfold component.
  rewrite index_re_digits by (apply decimal_digits || apply decimal_not_empty).
  now rewrite index_of_decimal.
Qed.

(** X3: a number between brackets is an index, of a list, of a text or of
    bytes; out of range it is [IndexError]. *)
Theorem truncate_tree_index (tree : value) (n : nat) :
  truncate_tree tree (bare (decimal n)) = py_getitem_int tree n.
Proof.
  assert (F : forall c, is_digit (byte_of_ascii c) = false ->
                        char_free c (decimal n) = true).
  { intros c N. apply digits_char_free; [exact N|apply decimal_digits]. }
  rewrite truncate_tree_component by now apply F.
  rewrite (remove_first_free 2 "034") by now apply F.
  rewrite remove_first_free by now apply F.
  apply component_decimal.
Qed.

(** X4: quotes do not make a number a key: a mapping key written with digits
    only cannot be reached, the path ends in [KeyError] whatever the mapping
    holds. *)
Theorem truncate_tree_numeric_key (d : pydict) (n : nat) :
  truncate_tree (VDict d) (double_quoted (decimal n)) = Err KeyError
  /\ truncate_tree (VDict d) (single_quoted (decimal n)) = Err KeyError.
Proof.
  assert (F : forall c, is_digit (byte_of_ascii c) = false ->
                        char_free c (decimal n) = true).
  { intros c N. apply digits_char_free; [exact N|apply decimal_digits]. }
  split.
  - unfold double_quoted. rewrite truncate_tree_component
      by (simpl; rewrite char_free_app, F; reflexivity).
    rewrite remove_first_quotes by now apply F.
    rewrite remove_first_free by now apply F.
    now rewrite component_decimal.
  - unfold single_quoted. rewrite truncate_tree_component
      by (simpl; rewrite char_free_app, F; reflexivity).
    rewrite (remove_first_free 2 "034")
      by (simpl; rewrite char_free_app, F; reflexivity).
    rewrite remove_first_quotes by now apply F.
    now rewrite component_decimal.
Qed.

(** X5: a component that does not end with a closing bracket ends the run
    with [panic(..., 91)], as does a path that does not start with an opening
    one. *)
Theorem truncate_tree_malformed (tree : value) (p c : string) :
  c <> "" ->
  char_free "[" c = true ->
  last_char c <> Some "]"%char ->
  truncate_tree tree c = Err (Panic 91)
  /\ truncate_tree tree (p ++ String "[" c)%string
     = match truncate_tree tree p with
       | Ok _ => Err (Panic 91)
       | Err e => Err e
       end.
Proof.
  intros N F L.
  assert (S : forall t, truncate_step t c = Err (Panic 91)).
  { intros t. unfold truncate_step.
    assert (E : String.eqb c "" = false) by (now apply String.eqb_neq).
    rewrite E. destruct (last_char c) as [a|]; [|reflexivity].
    destruct a as [[] [] [] [] [] [] [] []]; try reflexivity.
    now destruct L. }
  split.
  - unfold truncate_tree. rewrite split_free by exact F. simpl.
    now rewrite S.
  - rewrite truncate_tree_composes.
    destruct (truncate_tree tree p) as [t|e]; [|reflexivity].
    rewrite truncate_tree_bracket, split_free by exact F. simpl.
    now rewrite S.
Qed.

Lemma truncate_tree_key_witness :
  truncate_tree (VDict [("app", VDict [("user", VLeaf (SStr "bob"))])])
    (double_quoted "app")
  = Ok (VDict [("user", VLeaf (SStr "bob"))]).
Proof.
  exact (proj1 (truncate_tree_key
                  (VDict [("app", VDict [("user", VLeaf (SStr "bob"))])])
                  "app" eq_refl eq_refl eq_refl eq_refl)).
Defined.

Lemma truncate_tree_malformed_witness :
  truncate_tree (VLeaf SNone) "app" = Err (Panic 91).
Proof.
  refine (proj1 (truncate_tree_malformed (VLeaf SNone) "" "app" _ eq_refl _));
    discriminate.
Defined.

(** ** The recipients given on the command line *)

Lemma join_cons (sep a : string) (l : list string) :
  l <> [] -> join sep (a :: l) = (a ++ sep ++ join sep l)%string.
Proof.
  now destruct l.
Qed.

Lemma join_split (c : ascii) (s : string) :
  join (String c "") (split c s) = s.
Proof.
  induction s as [|a r IH]; [reflexivity|].
  simpl split. destruct (Ascii.eqb a c) eqn:E.
  - apply Ascii.eqb_eq in E. subst a.
    rewrite join_cons by apply split_not_nil. simpl. now rewrite IH.
  - destruct (split c r) as [|p ps] eqn:S; [now destruct (split_not_nil c r)|].
    destruct ps as [|q qs]; simpl in *; now rewrite <- IH.
Qed.

Lemma split_pieces_free (c : ascii) (s : string) :
  forallb (char_free c) (split c s) = true.
Proof.
  induction s as [|a r IH]; [reflexivity|].
  simpl split. destruct (Ascii.eqb a c) eqn:E; [exact IH|].
  destruct (split c r) as [|p ps]; simpl in *; rewrite E; [reflexivity|].
  exact IH.
Qed.

Lemma remove_all_app (x : ascii) (a b : string) :
  remove_all x (a ++ b)%string = (remove_all x a ++ remove_all x b)%string.
Proof.
  induction a as [|c r IH]; [reflexivity|].
  simpl. destruct (Ascii.eqb c x); simpl; now rewrite IH.
Qed.

Lemma remove_all_join (x : ascii) (sep : string) (l : list string) :
  char_free x sep = true ->
  remove_all x (join sep l) = join sep (map (remove_all x) l).
Proof.
  intros F. induction l as [|a r IH]; [reflexivity|].
  destruct r as [|b r']; [reflexivity|].
  rewrite join_cons by discriminate.
  change (map (remove_all x) (a :: b :: r'))
    with (remove_all x a :: map (remove_all x) (b :: r')).
  rewrite (join_cons sep (remove_all x a)) by discriminate.
  rewrite !remove_all_app, IH. f_equal. f_equal.
  clear -F. induction sep as [|c s IH]; [reflexivity|].
  simpl in *. apply andb_prop in F. destruct F as [N F].
  apply negb_true_iff in N. now rewrite N, (IH F).
Qed.

Lemma char_free_remove_all (c x : ascii) (s : string) :
  char_free c s = true -> char_free c (remove_all x s) = true.
Proof.
  induction s as [|a r IH]; [reflexivity|].
  simpl. intros F. apply andb_prop in F. destruct F as [N F].
  destruct (Ascii.eqb a x); simpl; [now apply IH|].
  now rewrite N, (IH F).
Qed.

Lemma char_free_removed (x : ascii) (s : string) :
  char_free x (remove_all x s) = true.
Proof.
  induction s as [|a r IH]; [reflexivity|].
  simpl. destruct (Ascii.eqb a x) eqn:E; [exact IH|].
  simpl. now rewrite E, IH.
Qed.

Lemma trimmed_pieces (s : string) :
  forallb trimmed (map (remove_all " ") (split "," s)) = true.
Proof.
  pose proof (split_pieces_free "," s) as F.
  induction (split "," s) as [|p ps IH]; [reflexivity|].
  simpl in *. apply andb_prop in F. destruct F as [Fp Fs].
  rewrite (IH Fs), andb_true_r. unfold trimmed.
  now rewrite char_free_remove_all, char_free_removed.
Qed.

Lemma pieces_text (s : string) :
  join "," (map (remove_all " ") (split "," s)) = remove_all " " s.
Proof.
  rewrite <- remove_all_join by reflexivity.
  now rewrite (join_split "," s).
Qed.

Lemma set_recipients_dict (tree sops : pydict) (field : string)
    (entries : list value) :
  dict_get tree "sops" = Some (VDict sops) ->
  set_recipients tree field entries
  = Ok (dict_set tree "sops" (VDict (dict_set sops field (VList entries)))).
Proof.
  intros S. unfold set_recipients. simpl. now rewrite S.
Qed.

(** X6: [parse_pgp_fp] makes one entry of each piece between commas, in
    order, blanks removed; the entries put together with commas are the
    argument without its blanks.  The list replaces the [pgp] entry of the
    branch, and the function always says a method was found. *)
Theorem parse_pgp_fp_entries (tree sops : pydict) (pgp_fps : string) :
  dict_get tree "sops" = Some (VDict sops) ->
  exists fps,
    parse_pgp_fp tree pgp_fps
    = Ok (dict_set tree "sops"
            (VDict (dict_set sops "pgp" (VList (map pgp_entry fps)))), true)
    /\ join "," fps = remove_all " " pgp_fps
    /\ forallb trimmed fps = true.
Proof.
  intros S. exists (map (remove_all " ") (split "," pgp_fps)).
  split; [|split; [apply pieces_text|apply trimmed_pieces]].
  unfold parse_pgp_fp. rewrite (set_recipients_dict _ _ _ _ S).
  rewrite map_map.
  destruct (split "," pgp_fps) eqn:E; [|reflexivity].
  now destruct (split_not_nil "," pgp_fps).
Qed.

Lemma take_drop (n : nat) (s : string) : (take n s ++ drop n s)%string = s.
Proof.
  revert s. induction n as [|n IH]; intros s; [now destruct s|].
  destruct s as [|a r]; [reflexivity|]. simpl. now rewrite IH.
Qed.

Lemma drop_succ (n : nat) (s : string) : drop (n + 1) s = drop 1 (drop n s).
Proof.
  revert s. induction n as [|n IH]; intros s; [reflexivity|].
  destruct s as [|a r]; [reflexivity|]. simpl. apply IH.
Qed.

Lemma find_prefix (sub s : string) (n : nat) :
  find sub s = Some n -> String.prefix sub (drop n s) = true.
Proof.
  revert n. induction s as [|a r IH]; intros n.
  - cbn [find]. destruct (String.prefix sub "") eqn:P.
    + intros [= <-]. exact P.
    + intros [=].
  - cbn [find]. destruct (String.prefix sub (String a r)) eqn:P.
    + intros [= <-]. exact P.
    + destruct (find sub r) as [m|]; [|intros [=]].
      intros [= <-]. cbn [drop]. now apply IH.
Qed.

Lemma take_not_empty (n : nat) (s : string) :
  drop n s <> "" -> take (S n) s <> "".
Proof.
  destruct s; [now destruct n|discriminate].
Qed.

Lemma find_bound (sub s : string) (n : nat) :
  find sub s = Some n -> n <= String.length s.
Proof.
  revert n. induction s as [|a r IH]; intros n; cbn [find].
  - destruct (String.prefix sub ""); intros [=]. subst n. apply Nat.le_0_l.
  - destruct (String.prefix sub (String a r)).
    + intros [= <-]. apply Nat.le_0_l.
    + destruct (find sub r) as [m|]; intros [=]. subst n.
      simpl. apply le_n_S. now apply IH.
Qed.

Lemma length_take (n : nat) (s : string) :
  n <= String.length s -> String.length (take n s) = n.
Proof.
  revert s. induction n as [|n IH]; intros s L; [now destruct s|].
  destruct s as [|a r]; [inversion L|]. simpl in *.
  rewrite IH; [reflexivity|lia].
Qed.

Lemma kms_entry_of_text (piece : string) :
  exists x,
    kms_entry_of piece = kms_entry x
    /\ kms_entry_text x = remove_all " " piece
    /\ role_in_place x = true.
Proof.
  unfold kms_entry_of. fold role_mark. set (arn := remove_all " " piece).
  destruct (find role_mark arn) as [[|n]|] eqn:F.
  - exists (arn, None). repeat split. cbn [role_in_place]. now rewrite F.
  - exists (take (S n) arn, Some (drop (S n + 1) arn)).
    pose proof (find_bound _ _ _ F) as B.
    pose proof (find_prefix _ _ _ F) as P. rewrite drop_succ.
    destruct (drop (S n) arn) as [|c rest] eqn:D.
    { cbn in P. discriminate P. }
    unfold role_mark in P. cbn [String.prefix] in P.
    destruct (Ascii.ascii_dec "+" c) as [<-|]; [|discriminate P].
    assert (T : (take (S n) arn ++ "+" ++ rest)%string = arn).
    { change ("+" ++ rest)%string with (String "+" rest).
      now rewrite <- D, take_drop. }
    repeat split.
    + exact T.
    + cbn [role_in_place drop]. rewrite T, F, (length_take _ _ B).
      rewrite Nat.eqb_refl, andb_true_r.
      apply andb_true_intro. split; [|exact P].
      apply negb_true_iff, String.eqb_neq. intros E.
      apply (f_equal String.length) in E.
      rewrite (length_take _ _ B) in E. discriminate E.
  - exists (arn, None). repeat split. cbn [role_in_place]. now rewrite F.
Qed.

Lemma kms_entries_text (pieces : list string) :
  exists xs,
    map kms_entry_of pieces = map kms_entry xs
    /\ map kms_entry_text xs = map (remove_all " ") pieces
    /\ forallb role_in_place xs = true.
Proof.
  induction pieces as [|p ps (xs & E & T & R)]; [now exists []|].
  destruct (kms_entry_of_text p) as (x & Ex & Tx & Rx).
  exists (x :: xs). simpl. now rewrite E, Ex, T, Tx, R, Rx.
Qed.

(** X7: [parse_kms_arn] makes one entry of each piece between commas,
    blanks removed: the texts of the entries hold no comma and no blank, and
    put together with commas they are the argument without its blanks.  An
    entry is the ARN alone, or the ARN and the role that followed it after a
    plus sign: the role is split off where [+arn:aws:iam::] first occurs in
    the piece, unless that is at its very start, and an entry without a role
    has no such place. *)
Theorem parse_kms_arn_entries (tree sops : pydict) (kms_arns : string) :
  dict_get tree "sops" = Some (VDict sops) ->
  exists xs,
    parse_kms_arn tree kms_arns
    = Ok (dict_set tree "sops"
            (VDict (dict_set sops "kms" (VList (map kms_entry xs)))), true)
    /\ xs <> []
    /\ join "," (map kms_entry_text xs) = remove_all " " kms_arns
    /\ forallb trimmed (map kms_entry_text xs) = true
    /\ forallb role_in_place xs = true.
Proof.
  intros S.
  destruct (kms_entries_text (split "," kms_arns)) as (xs & E & T & R).
  exists xs.
  assert (N : xs <> []).
  { intros ->. destruct (split "," kms_arns) eqn:P; [|discriminate T].
    now destruct (split_not_nil "," kms_arns). }
  split; [|split; [exact N|split; [now rewrite T, pieces_text|]]].
  - unfold parse_kms_arn. rewrite (set_recipients_dict _ _ _ _ S), E.
    destruct (split "," kms_arns) eqn:P; [|reflexivity].
    now destruct (split_not_nil "," kms_arns).
  - split; [|exact R]. rewrite T. apply trimmed_pieces.
Qed.

(** ** The [sops] branch *)

Lemma dict_has_get (d : pydict) (k : string) :
  dict_has d k = match dict_get d k with Some _ => true | None => false end.
Proof.
  reflexivity.
Qed.

Lemma dict_set_new (d : pydict) (k : string) (v : value) :
  dict_has d k = false -> dict_set d k v = d ++ [(k, v)].
Proof.
  unfold dict_has. induction d as [|[k' v'] d IH]; [reflexivity|].
  simpl. destruct (String.eqb k k'); [discriminate|].
  intros N. now rewrite (IH N).
Qed.

Lemma holds_key_complete (k : string) (entry : value) :
  complete entry = true ->
  holds_key k entry = Ok (wrapped_under k entry).
Proof.
  destruct entry as [x|d|l]; try discriminate.
  unfold complete, dict_has, holds_key, wrapped_under, named_under. simpl.
  unfold dict_has.
  destruct (dict_get d "enc") as [enc|]; [intros _|discriminate].
  destruct (dict_get d k) as [x|]; [|reflexivity].
  now destruct (value_is_text x "").
Qed.

Lemma first_hit_exists (test : value -> result bool) (f : value -> bool)
    (entries : list value) :
  (forall e, In e entries -> test e = Ok (f e)) ->
  first_hit test entries = Ok (existsb f entries).
Proof.
  induction entries as [|e r IH]; intros T; [reflexivity|].
  simpl. rewrite (T e) by now left.
  destruct (f e); [reflexivity|]. apply IH. intros x I. apply T. now right.
Qed.

Lemma has_wrapped_key_recipients (field k : string) (sops : pydict) :
  forallb complete (recipients field sops) = true ->
  has_wrapped_key field k (VDict sops)
  = Ok (existsb (wrapped_under k) (recipients field sops)).
Proof.
  unfold has_wrapped_key, recipients. simpl. unfold dict_has.
  destruct (dict_get sops field) as [[x|d|l]|]; try reflexivity.
  intros C. apply first_hit_exists. intros e I.
  apply holds_key_complete. rewrite forallb_forall in C. now apply C.
Qed.

(** X8: a tree that already holds the data key wrapped for one of its master
    keys is returned as it is, with no new data key asked for, whatever the
    command line says. *)
Theorem verify_keeps_wrapped_key (tree sops : pydict)
    (kms_arns pgp_fps : option string) :
  dict_get tree "sops" = Some (VDict sops) ->
  forallb complete (recipients "kms" sops ++ recipients "pgp" sops) = true ->
  (existsb (wrapped_under "arn") (recipients "kms" sops)
   || existsb (wrapped_under "fp") (recipients "pgp" sops))%bool = true ->
  verify_or_create_sops_branch tree kms_arns pgp_fps = Ok (tree, false).
Proof.
  intros S C W. rewrite forallb_app in C. apply andb_prop in C.
  destruct C as [Ck Cp].
  unfold verify_or_create_sops_branch, dict_has. rewrite S. simpl. rewrite S.
  rewrite (has_wrapped_key_recipients "kms" "arn" sops Ck).
  destruct (existsb (wrapped_under "arn") (recipients "kms" sops));
    [reflexivity|].
  rewrite (has_wrapped_key_recipients "pgp" "fp" sops Cp).
  simpl in W. now rewrite W.
Qed.

(** X9: an entry at the head of [sops.kms] that names its key and has no
    [enc] yet ends the call with [KeyError]. *)
Theorem verify_stumbles_on_missing_enc (tree sops entry : pydict)
    (arn : value) (rest : list value) (kms_arns pgp_fps : option string) :
  dict_get tree "sops" = Some (VDict sops) ->
  dict_get sops "kms" = Some (VList (VDict entry :: rest)) ->
  dict_get entry "arn" = Some arn ->
  value_is_text arn "" = false ->
  dict_get entry "enc" = None ->
  verify_or_create_sops_branch tree kms_arns pgp_fps = Err KeyError.
Proof.
  intros S K A N E.
  unfold verify_or_create_sops_branch, dict_has. rewrite S. simpl. rewrite S.
  unfold has_wrapped_key. simpl. unfold dict_has. rewrite K. simpl.
  unfold holds_key. simpl. unfold dict_has. now rewrite A, N, E.
Qed.

Lemma no_panic_holds_key (k : string) (entry : value) (c : Z) :
  holds_key k entry <> Err (Panic c).
Proof.
  unfold holds_key.
  destruct entry as [[]|d|l]; simpl; try discriminate.
  - destruct (is_infix _ _); [|discriminate]. discriminate.
  - destruct (is_infix _ _); [|discriminate]. discriminate.
  - destruct (dict_has d k); [|discriminate].
    destruct (dict_get d k) as [x|]; [|discriminate].
    destruct (value_is_text x ""); [discriminate|].
    destruct (dict_get d "enc"); discriminate.
  - destruct (existsb _ l); discriminate.
Qed.

Lemma no_panic_first_hit (test : value -> result bool) (entries : list value)
    (c : Z) :
  (forall e, test e <> Err (Panic c)) ->
  first_hit test entries <> Err (Panic c).
Proof.
  intros T. induction entries as [|e r IH]; [discriminate|].
  simpl. specialize (T e). destruct (test e) as [[]|x]; easy.
Qed.

Lemma no_panic_has_wrapped_key (field k : string) (sops : value) (c : Z) :
  has_wrapped_key field k sops <> Err (Panic c).
Proof.
  unfold has_wrapped_key.
  destruct (py_contains sops field) as [[]|e] eqn:C.
  - destruct (py_getitem sops field) as [[x|d|l]|e] eqn:G; try discriminate.
    + apply no_panic_first_hit. intros e. apply no_panic_holds_key.
    + destruct sops as [x|d|l]; simpl in G; try congruence.
      destruct (dict_get d field); congruence.
  - discriminate.
  - destruct sops as [[]|d|l]; simpl in C; congruence.
Qed.

Lemma set_recipients_outcome (tree : pydict) (field : string)
    (entries : list value) (c : Z) :
  set_recipients tree field entries <> Err (Panic c).
Proof.
  unfold set_recipients. simpl.
  destruct (dict_get tree "sops") as [[x|d|l]|]; simpl; discriminate.
Qed.

Lemma parse_kms_arn_outcome (tree : pydict) (arns : string) :
  (exists t, parse_kms_arn tree arns = Ok (t, true))
  \/ (exists e, parse_kms_arn tree arns = Err e /\ forall c, e <> Panic c).
Proof.
  unfold parse_kms_arn.
  pose proof (set_recipients_outcome tree "kms"
                (map kms_entry_of (split "," arns))) as P.
  destruct (set_recipients _ _ _) as [t|e].
  - left. exists t. destruct (split "," arns) eqn:E; [|reflexivity].
    now destruct (split_not_nil "," arns).
  - right. exists e. split; [reflexivity|]. intros c ->. now apply (P c).
Qed.

Lemma parse_pgp_fp_outcome (tree : pydict) (fps : string) :
  (exists t, parse_pgp_fp tree fps = Ok (t, true))
  \/ (exists e, parse_pgp_fp tree fps = Err e /\ forall c, e <> Panic c).
Proof.
  unfold parse_pgp_fp.
  pose proof (set_recipients_outcome tree "pgp"
                (map pgp_entry_of (split "," fps))) as P.
  destruct (set_recipients _ _ _) as [t|e].
  - left. exists t. destruct (split "," fps) eqn:E; [|reflexivity].
    now destruct (split_not_nil "," fps).
  - right. exists e. split; [reflexivity|]. intros c ->. now apply (P c).
Qed.

(** X10: the call panics only with code 111, and only when neither a KMS
    nor a PGP argument was given: an argument that is there, were it the
    empty text, is taken for a method. *)
Theorem verify_panics_without_arguments (tree : pydict)
    (kms_arns pgp_fps : option string) (c : Z) :
  verify_or_create_sops_branch tree kms_arns pgp_fps = Err (Panic c) ->
  c = 111%Z /\ kms_arns = None /\ pgp_fps = None.
Proof.
  unfold verify_or_create_sops_branch.
  set (t := if dict_has tree "sops" then tree
            else dict_set tree "sops" new_sops_branch).
  destruct (py_getitem (VDict t) "sops") as [sops|e] eqn:G.
  2:{ simpl in G. destruct (dict_get t "sops"); [discriminate|].
      injection G as <-. discriminate. }
  pose proof (no_panic_has_wrapped_key "kms" "arn" sops c) as Pk.
  destruct (has_wrapped_key "kms" "arn" sops) as [[]|e]; try easy;
    [|congruence].
  pose proof (no_panic_has_wrapped_key "pgp" "fp" sops c) as Pp.
  destruct (has_wrapped_key "pgp" "fp" sops) as [[]|e]; try easy;
    [|congruence].
  destruct kms_arns as [arns|].
  - destruct (parse_kms_arn_outcome t arns) as [(t1 & ->)|(e & -> & N)].
    + destruct pgp_fps as [fps|]; [|discriminate].
      destruct (parse_pgp_fp_outcome t1 fps) as [(t2 & ->)|(e & -> & N)];
        [discriminate|].
      intros [= ->]. now destruct (N c).
    + intros [= ->]. now destruct (N c).
  - destruct pgp_fps as [fps|].
    + destruct (parse_pgp_fp_outcome t fps) as [(t2 & ->)|(e & -> & N)];
        [discriminate|].
      intros [= ->]. now destruct (N c).
    + now intros [= <-].
Qed.

(** X11: a tree without a [sops] entry gets one, placed last: the notice,
    the version of the module and the recipients of the command line; the
    other entries stay, and a new data key is asked for. *)
Theorem verify_creates_branch (tree : pydict) (kms_arns pgp_fps : string) :
  dict_has tree "sops" = false ->
  verify_or_create_sops_branch tree (Some kms_arns) (Some pgp_fps)
  = Ok (tree
        ++ [("sops",
             VDict [("attention", VLeaf (SStr attention));
                    ("version", VLeaf (SFloat VERSION));
                    ("kms", VList (map kms_entry_of (split "," kms_arns)));
                    ("pgp", VList (map pgp_entry_of (split "," pgp_fps)))])],
        true).
Proof.
  intros N. unfold verify_or_create_sops_branch. rewrite N.
  rewrite (dict_set_new _ _ _ N).
  assert (G : forall v, dict_get (tree ++ [("sops", v)]) "sops" = Some v).
  { intros v. rewrite <- (dict_set_new _ _ v N). apply dict_get_set_same. }
  assert (U : forall v v', dict_set (tree ++ [("sops", v)]) "sops" v'
                           = tree ++ [("sops", v')]).
  { intros v v'. rewrite <- (dict_set_new _ _ v N), dict_set_set.
    now apply dict_set_new. }
  cbn [py_getitem]. rewrite G.
  change (has_wrapped_key "kms" "arn" new_sops_branch) with (@Ok bool false).
  change (has_wrapped_key "pgp" "fp" new_sops_branch) with (@Ok bool false).
  cbv beta iota. unfold parse_kms_arn, set_recipients. cbn [py_getitem].
  rewrite G. unfold new_sops_branch. cbn [py_setitem]. rewrite U.
  unfold parse_pgp_fp, set_recipients. cbn [py_getitem]. rewrite G.
  cbn [py_setitem]. rewrite U.
  destruct (split "," kms_arns) eqn:Ek;
    [now destruct (split_not_nil "," kms_arns)|].
  destruct (split "," pgp_fps) eqn:Ep;
    [now destruct (split_not_nil "," pgp_fps)|].
  reflexivity.
Qed.

Lemma names_key_dict (k : string) (d : pydict) :
  names_key k (VDict d) = Ok (named_under k (VDict d)).
Proof.
  unfold names_key, lacks, named_under. simpl. unfold dict_has.
  destruct (dict_get d k) as [x|]; [|reflexivity].
  now destruct (value_is_text x "").
Qed.

Lemma has_master_key_listed (field k : string) (sops : pydict) :
  listed field sops = true ->
  has_master_key field k (VDict sops)
  = Ok (existsb (named_under k) (recipients field sops)).
Proof.
  unfold has_master_key, listed, recipients. simpl. unfold dict_has.
  destruct (dict_get sops field) as [[x|d|l]|]; try discriminate;
    [|reflexivity].
  intros D. simpl. apply first_hit_exists. intros e I.
  rewrite forallb_forall in D. specialize (D e I).
  destruct e; try discriminate. apply names_key_dict.
Qed.

(** X12: [check_master_keys] says whether some entry of [sops.kms] names an
    ARN or some entry of [sops.pgp] a fingerprint; whether the entry holds a
    wrapped key does not count. *)
Theorem check_master_keys_named (tree sops : pydict) :
  dict_get tree "sops" = Some (VDict sops) ->
  listed "kms" sops = true ->
  listed "pgp" sops = true ->
  check_master_keys tree
  = Ok (existsb (named_under "arn") (recipients "kms" sops)
        || existsb (named_under "fp") (recipients "pgp" sops))%bool.
Proof.
  intros S Lk Lp. unfold check_master_keys. simpl. rewrite S.
  rewrite (has_master_key_listed "kms" "arn" sops Lk).
  destruct (existsb (named_under "arn") (recipients "kms" sops));
    [reflexivity|].
  now rewrite (has_master_key_listed "pgp" "fp" sops Lp).
Qed.

Lemma kms_entry_of_named (piece : string) :
  named_under "arn" (kms_entry_of piece) = not_blank piece.
Proof.
  unfold kms_entry_of, not_blank. set (arn := remove_all " " piece).
  destruct (find "+arn:aws:iam::" arn) as [[|n]|] eqn:F; try reflexivity.
  apply find_prefix in F.
  destruct (drop (S n) arn) as [|c rest] eqn:D; [cbn in F; discriminate F|].
  assert (T : take (S n) arn <> "").
  { apply take_not_empty. intros E. apply (f_equal (drop 1)) in E.
    rewrite <- drop_succ in E. replace (n + 1) with (S n) in E by lia.
    rewrite D in E. discriminate E. }
  assert (A : arn <> "").
  { intros E. rewrite E in T. now apply T. }
  apply String.eqb_neq in T, A.
  change (negb (String.eqb (take (S n) arn) "")
          = negb (String.eqb arn "")).
  now rewrite T, A.
Qed.

(** X13: after [parse_kms_arn], [check_master_keys] finds a master key when
    some piece of the argument holds more than blanks, and only then; for the
    empty text it finds none. *)
Theorem check_master_keys_after_parse (tree sops : pydict)
    (kms_arns : string) :
  dict_get tree "sops" = Some (VDict sops) ->
  dict_get sops "pgp" = None ->
  exists tree',
    parse_kms_arn tree kms_arns = Ok (tree', true)
    /\ check_master_keys tree'
       = Ok (existsb not_blank (split "," kms_arns)).
Proof.
  intros S P. unfold parse_kms_arn.
  rewrite (set_recipients_dict _ _ _ _ S).
  eexists. split.
  - assert (R : ran (split "," kms_arns) = true).
    { destruct (split "," kms_arns) eqn:E; [|reflexivity].
      now destruct (split_not_nil "," kms_arns). }
    rewrite R. reflexivity.
  - set (entries := map kms_entry_of (split "," kms_arns)).
    assert (G : forall q, String.eqb q "kms" = false ->
                dict_get (dict_set sops "kms" (VList entries)) q
                = dict_get sops q)
      by (intros q N; now apply dict_get_set_other).
    rewrite (check_master_keys_named _
               (dict_set sops "kms" (VList entries))).
    + unfold recipients. rewrite dict_get_set_same, (G "pgp" eq_refl), P.
      rewrite orb_false_r. unfold entries. f_equal. clear.
      induction (split "," kms_arns) as [|p ps IH]; [reflexivity|].
      cbn [map existsb]. now rewrite kms_entry_of_named, IH.
    + apply dict_get_set_same.
    + unfold listed. rewrite dict_get_set_same. unfold entries.
      apply forallb_forall. intros e I. apply in_map_iff in I.
      destruct I as (p & <- & _).
      unfold kms_entry_of. now destruct (find _ _) as [[]|].
    + unfold listed. now rewrite (G "pgp" eq_refl), P.
Qed.

(** ** The data key *)

Section DataKeyFacts.

Context `{Platform} `{Vault}.

Lemma lacks_dict (k : string) (d : pydict) :
  lacks (VDict d) k = Ok (negb (named_under k (VDict d))).
Proof.
  unfold lacks, named_under. simpl. unfold dict_has.
  destruct (dict_get d k) as [x|]; [|reflexivity].
  now destruct (value_is_text x "").
Qed.

Lemma session_of_shaped (entry : value) :
  kms_shaped entry = true ->
  named_under "arn" entry = true ->
  exists c, get_aws_session_for_entry entry = Ok c.
Proof.
  destruct entry as [x|d|l]; try discriminate. simpl.
  unfold get_aws_session_for_entry. simpl. unfold dict_has.
  destruct (dict_get d "arn") as [[[]|?|?]|]; try discriminate; intros _ _.
  - destruct (re_match arn_re _); [|now eexists].
    destruct (dict_get d "role") as [r|]; [|now eexists].
    destruct (sts_assume_role r); now eexists.
  - destruct (re_match arn_re _); [|now eexists].
    destruct (dict_get d "role") as [r|]; [|now eexists].
    destruct (sts_assume_role r); now eexists.
Qed.

Lemma first_kms_key_candidates (entries : list value) :
  forallb kms_shaped entries = true ->
  first_kms_key entries = Ok (first_some kms_candidate entries).
Proof.
  induction entries as [|entry rest IH]; intros S; [reflexivity|].
  simpl in S. apply andb_prop in S. destruct S as [Se Sr].
  specialize (IH Sr). destruct entry as [x|d|l]; try discriminate.
  cbn [first_kms_key first_some kms_candidate py_getitem].
  destruct (dict_get d "enc") as [enc|]; [|exact IH].
  rewrite lacks_dict.
  destruct (named_under "arn" (VDict d)) eqn:N; [|exact IH].
  destruct (session_of_shaped _ Se N) as (c & ->). cbn [negb].
  destruct c as [kms|]; [|exact IH].
  destruct (b64decode_value enc) as [blob|]; [|exact IH].
  destruct (kms_decrypt kms blob); [reflexivity|exact IH].
Qed.

Lemma get_key_from_kms_candidates (tree sops : pydict) :
  dict_get tree "sops" = Some (VDict sops) ->
  kms_listed sops = true ->
  get_key_from_kms tree
  = Ok (first_some kms_candidate (recipients "kms" sops)).
Proof.
  intros S L. unfold get_key_from_kms, kms_listed, recipients in *.
  rewrite S. simpl.
  destruct (dict_get sops "kms") as [[x|d|l]|]; try discriminate;
    [|reflexivity].
  simpl. now apply first_kms_key_candidates.
Qed.

Lemma get_key_from_pgp_candidates (tree sops : pydict) :
  dict_get tree "sops" = Some (VDict sops) ->
  listed "pgp" sops = true ->
  get_key_from_pgp tree
  = Ok (first_some pgp_candidate (recipients "pgp" sops)).
Proof.
  intros S L. unfold get_key_from_pgp, listed, recipients in *.
  rewrite S. simpl.
  destruct (dict_get sops "pgp") as [[x|d|l]|]; try discriminate;
    [|reflexivity].
  simpl. now apply first_pgp_key_candidates.
Qed.

(** X14: without [need_key], [get_key] returns the key of the first KMS entry
    that yields one, whatever its length; when no KMS entry does, the 32
    bytes of the first PGP entry that yields them; when none does, it ends
    with [panic(..., 128)].  The tree is returned as it was and no random
    byte is drawn. *)
Theorem get_key_prefers_kms (tree sops : pydict) (w : world) :
  dict_get tree "sops" = Some (VDict sops) ->
  kms_listed sops = true ->
  listed "pgp" sops = true ->
  get_key tree false w
  = match first_some kms_candidate (recipients "kms" sops) with
    | Some key => Ok ((key, tree), w)
    | None =>
      match first_some pgp_candidate (recipients "pgp" sops) with
      | Some key => Ok ((key, tree), w)
      | None => Err (Panic 128)
      end
    end.
Proof.
  intros S Lk Lp. unfold get_key, bind, lift.
  rewrite (get_key_from_kms_candidates _ _ S Lk).
  destruct (first_some kms_candidate _); [reflexivity|].
  rewrite (get_key_from_pgp_candidates _ _ S Lp).
  now destruct (first_some pgp_candidate _).
Qed.

Lemma lacks_enc (u : value) (m : bool) :
  lacks u "enc" = Ok m -> named_under "enc" u = negb m.
Proof.
  destruct u as [x|d|l].
  - unfold lacks. simpl.
    destruct x; try discriminate;
      (destruct (is_infix _ _); [discriminate|]); now intros [= <-].
  - rewrite lacks_dict. intros [= <-]. now rewrite negb_involutive.
  - unfold lacks. simpl. destruct (existsb _ l); [discriminate|].
    now intros [= <-].
Qed.

Lemma wrap_entries_outcome (wrap : bytes -> value -> result value)
    (key : bytes) (entries entries' : list value) (has : bool) :
  wrap_entries wrap key entries = Ok (entries', has) ->
  Forall2 (fun e u => wrap key e = Ok u) entries entries'
  /\ has = existsb (named_under "enc") entries'.
Proof.
  revert entries' has. induction entries as [|e r IH]; intros entries' has.
  - intros [= <- <-]. now split.
  - cbn [wrap_entries]. destruct (wrap key e) as [u|x] eqn:W; [|discriminate].
    destruct (lacks u "enc") as [m|x] eqn:L; [|discriminate].
    destruct (wrap_entries wrap key r) as [[r' h]|x]; [|discriminate].
    intros [= <- <-]. destruct (IH r' h eq_refl) as [F ->].
    split; [now constructor|]. cbn [existsb].
    now rewrite (lacks_enc _ _ L).
Qed.

Lemma wrap_keeps_kind_kms (key : bytes) (e u : value) :
  encrypt_key_with_kms key e = Ok u -> is_dict u = true -> is_dict e = true.
Proof.
  destruct e as [x|d|l]; [|reflexivity|]; unfold encrypt_key_with_kms;
    (destruct (lacks _ "arn") as [[]|]; [now intros [= <-]| |discriminate]);
    unfold get_aws_session_for_entry; simpl; discriminate.
Qed.

Lemma wrap_keeps_kind_pgp (key : bytes) (e u : value) :
  encrypt_key_with_pgp key e = Ok u -> is_dict u = true -> is_dict e = true.
Proof.
  destruct e as [x|d|l]; [|reflexivity|]; unfold encrypt_key_with_pgp;
    (destruct (lacks _ "fp") as [[]|]; [now intros [= <-]| |discriminate]);
    simpl; discriminate.
Qed.

Lemma py_iter_not_list (v : value) (entries : list value) :
  py_iter v = Ok entries ->
  is_dict v = true \/ (exists x, v = VLeaf x) ->
  forallb (fun e => negb (is_dict e)) entries = true.
Proof.
  destruct v as [x|d|l]; simpl.
  - destruct x; try discriminate; intros [= <-] _.
    + now induction (list_ascii_of_string s).
    + now induction (list_ascii_of_string s).
    + now induction b.
  - intros [= <-] _. now induction d.
  - intros _ [N|(x & N)]; discriminate.
Qed.

Lemma named_is_dict (k : string) (e : value) :
  named_under k e = true -> is_dict e = true.
Proof.
  now destruct e.
Qed.

Section WrapLoop.

Variable wrap : bytes -> value -> result value.
Variable key : bytes.
Hypothesis wrap_keeps_kind :
  forall e u, wrap key e = Ok u -> is_dict u = true -> is_dict e = true.

Lemma wrap_entries_not_dicts (entries entries' : list value) (has : bool) :
  forallb (fun e => negb (is_dict e)) entries = true ->
  wrap_entries wrap key entries = Ok (entries', has) ->
  has = false.
Proof.
  intros N W. destruct (wrap_entries_outcome _ _ _ _ _ W) as [F ->].
  clear W. induction F as [|e u r r' Wu F IH]; [reflexivity|].
  simpl in N. apply andb_prop in N. destruct N as [Ne Nr].
  cbn [existsb]. rewrite (IH Nr), orb_false_r.
  destruct (named_under "enc" u) eqn:E; [|reflexivity].
  apply named_is_dict in E. apply (wrap_keeps_kind _ _ Wu) in E.
  now rewrite E in Ne.
Qed.

Lemma wrap_recipients_outcome (field : string) (sops sops' : value)
    (has : bool) :
  wrap_recipients field wrap key sops = Ok (sops', has) ->
  (sops' = sops /\ has = false)
  \/ exists d entries',
       sops = VDict d
       /\ sops' = VDict (dict_set d field (VList entries'))
       /\ has = existsb (named_under "enc") entries'.
Proof.
  unfold wrap_recipients.
  destruct (py_contains sops field) as [[]|x]; try discriminate.
  2:{ intros [= <- <-]. now left. }
  destruct (py_getitem sops field) as [v|x] eqn:G; [|discriminate].
  destruct sops as [x|d|l]; try discriminate.
  destruct (py_iter v) as [entries|x] eqn:I; [|discriminate].
  destruct (wrap_entries wrap key entries) as [[entries' h]|x] eqn:W;
    [|discriminate].
  destruct v as [x|dd|l].
  - intros [= <- <-]. left. split; [reflexivity|].
    apply (wrap_entries_not_dicts _ _ _ (py_iter_not_list _ _ I
             (or_intror (ex_intro _ x eq_refl))) W).
  - intros [= <- <-]. left. split; [reflexivity|].
    apply (wrap_entries_not_dicts _ _ _ (py_iter_not_list _ _ I
             (or_introl eq_refl)) W).
  - cbn [py_setitem]. intros [= <- <-]. right. exists d, entries'.
    repeat split. now destruct (wrap_entries_outcome _ _ _ _ _ W).
Qed.

End WrapLoop.

Lemma recipients_set_same (d : pydict) (field : string) (l : list value) :
  recipients field (dict_set d field (VList l)) = l.
Proof.
  unfold recipients. now rewrite dict_get_set_same.
Qed.

Lemma recipients_set_other (d : pydict) (field other : string) (v : value) :
  String.eqb field other = false ->
  recipients field (dict_set d other v) = recipients field d.
Proof.
  intros N. unfold recipients. now rewrite dict_get_set_other.
Qed.

Lemma store_key_outcome (tree tree' : pydict) (key : bytes) :
  store_key tree key = Ok tree' ->
  exists sops',
    tree' = dict_set tree "sops" (VDict sops')
    /\ existsb (named_under "enc")
         (recipients "kms" sops' ++ recipients "pgp" sops') = true.
Proof.
  unfold store_key.
  destruct (py_getitem (VDict tree) "sops") as [sops|x]; [|discriminate].
  destruct (wrap_recipients "kms" encrypt_key_with_kms key sops)
    as [[sops1 hk]|x] eqn:Wk; [|discriminate].
  destruct (wrap_recipients "pgp" encrypt_key_with_pgp key sops1)
    as [[sops2 hp]|x] eqn:Wp; [|discriminate].
  destruct (hk || hp)%bool eqn:Has; [|discriminate]. intros [= <-].
  apply wrap_recipients_outcome in Wk; [|apply wrap_keeps_kind_kms].
  apply wrap_recipients_outcome in Wp; [|apply wrap_keeps_kind_pgp].
  destruct Wk as [[-> ->]|(d & ks & -> & -> & ->)];
    destruct Wp as [[-> ->]|(d1 & ps & E & -> & ->)]; try discriminate.
  - exists (dict_set d1 "pgp" (VList ps)). split; [reflexivity|].
    rewrite existsb_app, recipients_set_same. simpl in Has.
    now rewrite Has, orb_true_r.
  - exists (dict_set d "kms" (VList ks)). split; [reflexivity|].
    rewrite existsb_app, recipients_set_same.
    rewrite orb_false_r in Has. now rewrite Has.
  - injection E as <-.
    exists (dict_set (dict_set d "kms" (VList ks)) "pgp" (VList ps)).
    split; [reflexivity|].
    rewrite existsb_app, recipients_set_same.
    rewrite (recipients_set_other _ "kms" "pgp") by reflexivity.
    now rewrite recipients_set_same.
Qed.

(** X15: when [get_key] returns with [need_key] set, the key is what
    [os.urandom(32)] gave, drawn once, some entry of [sops.kms] or [sops.pgp]
    of the tree returned holds a non-empty [enc], and nothing outside the
    [sops] branch has changed. *)
Theorem get_key_stores_new_key (tree tree' : pydict) (key : bytes)
    (w w' : world) :
  get_key tree true w = Ok ((key, tree'), w') ->
  key = urandom32 (draws w)
  /\ draws w' = S (draws w)
  /\ (exists sops',
        dict_get tree' "sops" = Some (VDict sops')
        /\ existsb (named_under "enc")
             (recipients "kms" sops' ++ recipients "pgp" sops') = true)
  /\ forall k, String.eqb k "sops" = false ->
                dict_get tree' k = dict_get tree k.
Proof.
  unfold get_key, bind, lift, urandom, ret.
  destruct (store_key tree (urandom32 (draws w))) as [t|x] eqn:St;
    [|discriminate].
  intros [= <- <- <-]. repeat split.
  - destruct (store_key_outcome _ _ _ St) as (sops' & -> & E).
    exists sops'. split; [apply dict_get_set_same|exact E].
  - intros k N. destruct (store_key_outcome _ _ _ St) as (sops' & -> & _).
    now apply dict_get_set_other.
Qed.

Lemma dict_set_same_value (d : pydict) (k : string) (v : value) :
  dict_get d k = Some v -> dict_set d k v = d.
Proof.
  induction d as [|[k' v'] d IH]; [discriminate|].
  simpl. destruct (String.eqb k k') eqn:E.
  - now intros [= ->].
  - intros G. now rewrite (IH G).
Qed.

Lemma wrap_without_client (key : bytes) (entry : value) :
  without_client entry = true -> encrypt_key_with_kms key entry = Ok entry.
Proof.
  destruct entry as [x|d|l]; try discriminate.
  unfold without_client, encrypt_key_with_kms. rewrite lacks_dict.
  destruct (named_under "arn" (VDict d)); [|reflexivity].
  cbn [negb orb].
  now destruct (get_aws_session_for_entry (VDict d)) as [[]|].
Qed.

Lemma wrap_entries_without_client (key : bytes) (entries : list value) :
  forallb without_client entries = true ->
  wrap_entries encrypt_key_with_kms key entries
  = Ok (entries, existsb (named_under "enc") entries).
Proof.
  induction entries as [|e r IH]; intros S; [reflexivity|].
  simpl in S. apply andb_prop in S. destruct S as [Se Sr].
  cbn [wrap_entries existsb]. rewrite (wrap_without_client key e Se).
  destruct e as [x|d|l]; try discriminate.
  rewrite lacks_dict, (IH Sr). now rewrite negb_involutive.
Qed.

(** X16: an [enc] left from before counts as the new key stored.  When no
    entry of [sops.kms] can be wrapped for (no ARN, or no client for it), one
    of them holds a non-empty [enc] and there is no [sops.pgp], [get_key]
    with [need_key] set returns a new random key and the tree as it was: the
    key is stored nowhere. *)
Theorem get_key_counts_old_enc (tree sops : pydict) (entries : list value)
    (w : world) :
  dict_get tree "sops" = Some (VDict sops) ->
  dict_get sops "kms" = Some (VList entries) ->
  dict_get sops "pgp" = None ->
  forallb without_client entries = true ->
  existsb (named_under "enc") entries = true ->
  get_key tree true w
  = Ok ((urandom32 (draws w), tree),
        {| draws := S (draws w); gcm_calls := gcm_calls w;
           sha512 := sha512 w |}).
Proof.
  intros S K P N E. unfold get_key, bind, lift, urandom, ret, store_key.
  cbn [py_getitem]. rewrite S. unfold wrap_recipients.
  cbn [py_contains py_getitem]. unfold dict_has. rewrite K.
  cbn [py_iter]. rewrite (wrap_entries_without_client _ _ N), E.
  cbn [py_setitem]. rewrite (dict_set_same_value _ _ _ K).
  cbn [py_contains]. unfold dict_has. rewrite P. cbn [orb].
  now rewrite (dict_set_same_value _ _ _ S).
Qed.

(** X17: a KMS that refuses to encrypt for the first entry is not passed
    over: [encrypt_key_with_kms] returns [None], which [get_key] searches
    for an [enc], and the run ends in [TypeError]. *)
Theorem get_key_breaks_on_refusal (tree sops entry : pydict) (arn : string)
    (rest : list value) (kms : kms_client) (w : world) :
  dict_get tree "sops" = Some (VDict sops) ->
  dict_get sops "kms" = Some (VList (VDict entry :: rest)) ->
  dict_get entry "arn" = Some (VLeaf (SStr arn)) ->
  arn <> "" ->
  get_aws_session_for_entry (VDict entry) = Ok (Some kms) ->
  kms_encrypt kms arn (urandom32 (draws w)) = None ->
  get_key tree true w = Err TypeError.
Proof.
  intros S K A N C R. unfold get_key, bind, lift, urandom, store_key.
  cbn [py_getitem]. rewrite S. unfold wrap_recipients.
  cbn [py_contains py_getitem]. unfold dict_has. rewrite K.
  cbn [py_iter wrap_entries]. unfold encrypt_key_with_kms.
  rewrite lacks_dict. unfold named_under. rewrite A.
  apply String.eqb_neq in N. cbn [value_is_text]. rewrite N.
  cbn [negb]. rewrite C. cbn [py_getitem]. rewrite A, R. reflexivity.
Qed.

End DataKeyFacts.

(** ** What the walks do to a document *)

Lemma yields_ret {A} (a : A) (P : A -> Prop) : P a -> yields (ret a) P.
Proof.
  intros Pa w r w1 E. apply ret_ok in E. now destruct E as [-> _].
Qed.

Lemma yields_bind {A B} (m : M A) (f : A -> M B) (P : A -> Prop)
    (Q : B -> Prop) :
  yields m P -> (forall a, P a -> yields (f a) Q) -> yields (bind m f) Q.
Proof.
  intros Ym Yf w r w1 E. apply bind_ok in E.
  destruct E as (a & w' & Em & Ef). exact (Yf a (Ym _ _ _ Em) _ _ _ Ef).
Qed.

Lemma yields_any {A} (m : M A) : yields m (fun _ => True).
Proof.
  now intros w r w1 _.
Qed.

Lemma yields_raise {A} (e : error) (P : A -> Prop) : yields (raise e) P.
Proof.
  intros w r w1 E. discriminate E.
Qed.

Lemma skeleton_dict_cons (k : string) (c : value) (r : pydict) :
  skeleton (VDict ((k, c) :: r))
  = match skeleton (VDict r) with
    | VDict r' => VDict ((k, skeleton c) :: r')
    | other => other
    end.
Proof.
  reflexivity.
Qed.

Lemma skeleton_list_cons (c : value) (r : list value) :
  skeleton (VList (c :: r))
  = match skeleton (VList r) with
    | VList r' => VList (skeleton c :: r')
    | other => other
    end.
Proof.
  reflexivity.
Qed.

Lemma skeleton_dict_eq (k : string) (c c' : value) (r r' : pydict) :
  skeleton c' = skeleton c ->
  skeleton (VDict r') = skeleton (VDict r) ->
  skeleton (VDict ((k, c') :: r')) = skeleton (VDict ((k, c) :: r)).
Proof.
  intros Ec Er. rewrite !skeleton_dict_cons. now rewrite Ec, Er.
Qed.

Lemma skeleton_list_eq (c c' : value) (r r' : list value) :
  skeleton c' = skeleton c ->
  skeleton (VList r') = skeleton (VList r) ->
  skeleton (VList (c' :: r')) = skeleton (VList (c :: r)).
Proof.
  intros Ec Er. rewrite !skeleton_list_cons. now rewrite Ec, Er.
Qed.

Lemma every_leaf_leaf (test : scalar -> bool) (x : scalar) :
  every_leaf test (VLeaf x) = test x.
Proof.
  unfold every_leaf. cbn [leaves forallb snd]. apply andb_true_r.
Qed.

Lemma every_leaf_dict_cons (test : scalar -> bool) (k : string) (c : value)
    (r : pydict) :
  every_leaf test (VDict ((k, c) :: r))
  = (every_leaf test c && every_leaf test (VDict r))%bool.
Proof.
  unfold every_leaf. rewrite leaves_dict_cons, forallb_app. f_equal.
  induction (leaves c) as [|px ls IH]; [reflexivity|].
  simpl. now rewrite IH.
Qed.

Lemma every_leaf_list_cons (test : scalar -> bool) (c : value)
    (r : list value) :
  every_leaf test (VList (c :: r))
  = (every_leaf test c && every_leaf test (VList r))%bool.
Proof.
  unfold every_leaf. now rewrite leaves_list_cons, forallb_app.
Qed.

Section Sealing.

Context `{Platform}.

Lemma encrypt_marked (x : scalar) (key aad : bytes) (st : stash) (dg : bool) :
  yields (encrypt x key aad st dg)
    (fun env => starts_with marker (encode_utf8 env) = true).
Proof.
  unfold encrypt.
  eapply yields_bind; [apply yields_any|]. intros _ _.
  eapply yields_bind; [apply yields_any|]. intros iv _.
  eapply yields_bind; [apply yields_any|]. intros [enc_value tag] _.
  eapply yields_bind; [apply yields_any|]. intros data64 _.
  eapply yields_bind; [apply yields_any|]. intros iv64 _.
  eapply yields_bind; [apply yields_any|]. intros tag64 _.
  apply yields_ret. unfold format_envelope. rewrite encode_utf8_app.
  apply starts_with_app.
Qed.

Lemma sealing_leaf (x : scalar) (env : string) :
  starts_with marker (encode_utf8 env) = true ->
  sealing (VLeaf x) (VLeaf (SStr env))
  /\ sealing (VLeaf x) (VLeaf (SPreserved env)).
Proof.
  intros S. unfold sealing, every_leaf.
  cbn [leaves forallb snd sealed_leaf skeleton]. now rewrite S.
Qed.

Section Loops.

Variable walk : value -> bytes -> bytes -> stash -> bool -> M value.

Lemma sealing_entry (v : value) (key aad : bytes) (st : stash) (dg : bool) :
  sealing_on walk v ->
  yields
    (match v with
     | VDict _ | VList _ => walk v key aad st dg
     | VLeaf (SPreserved s) =>
       ev <- encrypt (SPreserved s) key aad st dg ;;
       ret (VLeaf (SPreserved ev))
     | VLeaf x =>
       ev <- encrypt x key aad st dg ;;
       ret (VLeaf (SStr ev))
     end) (sealing v).
Proof.
  intros Hv. destruct v as [x|d|l]; try apply Hv.
  destruct x;
    (eapply yields_bind; [apply encrypt_marked|]; intros ev M;
     apply yields_ret; now apply sealing_leaf).
Qed.

Lemma sealing_items (items : pydict) :
  Forall (fun kv => sealing_on walk (snd kv)) items ->
  forall key aad st isRoot dg,
    yields (walk_and_encrypt_items walk items key aad st isRoot dg)
      (fun items' =>
         map fst items' = map fst items
         /\ sealing (VDict (walked isRoot items))
              (VDict (walked isRoot items'))).
Proof.
  induction 1 as [|[k v] rest Hv _ IH]; intros key aad st isRoot dg;
    cbn [walk_and_encrypt_items].
  - apply yields_ret. split; [reflexivity|]. now destruct isRoot.
  - destruct (String.eqb k "sops" && isRoot)%bool eqn:K.
    + eapply yields_bind; [apply IH|]. intros rest' [Keys S].
      apply yields_ret. split; [simpl; now rewrite Keys|].
      now rewrite !(walked_skip _ _ _ _ K).
    + eapply yields_bind; [apply yields_any|]. intros nstash _.
      eapply yields_bind; [apply sealing_entry, Hv|]. intros v' [Sv Lv].
      eapply yields_bind; [apply IH|]. intros rest' [Keys [Sr Lr]].
      apply yields_ret. split; [simpl; now rewrite Keys|].
      rewrite !(walked_keep _ _ _ _ K). split.
      * now apply skeleton_dict_eq.
      * now rewrite every_leaf_dict_cons, Lv, Lr.
Qed.

Lemma sealing_list (items : list value) :
  Forall (sealing_on walk) items ->
  forall i nstash key aad st dg,
    yields (walk_list_and_encrypt_items walk items i nstash key aad st dg)
      (fun items' => sealing (VList items) (VList items')).
Proof.
  induction 1 as [|v rest Hv _ IH]; intros i nstash key aad st dg;
    cbn [walk_list_and_encrypt_items].
  - apply yields_ret. now split.
  - eapply yields_bind; [apply yields_any|]. intros nstash1 _.
    eapply yields_bind.
    { instantiate (1 := sealing v). destruct v as [x|d|l]; try apply Hv.
      eapply yields_bind; [apply encrypt_marked|]. intros ev M.
      apply yields_ret. now apply sealing_leaf. }
    intros v' [Sv Lv]. eapply yields_bind; [apply IH|].
    intros rest' [Sr Lr]. apply yields_ret. split.
    + now apply skeleton_list_eq.
    + now rewrite every_leaf_list_cons, Lv, Lr.
Qed.

End Loops.

Lemma sealing_walk_node_encrypt (v : value) :
  sealing_on walk_node_encrypt v.
Proof.
  induction v as [x|d IH|l IH] using value_induction;
    intros key aad st dg; cbn [walk_node_encrypt].
  - eapply yields_bind; [apply encrypt_marked|]. intros ev M.
    apply yields_ret. now apply sealing_leaf.
  - eapply yields_bind; [|intros r S; apply yields_ret; exact S].
    unfold walk_and_encrypt_body.
    eapply yields_bind; [apply yields_any|]. intros dg' _.
    eapply yields_bind; [apply (sealing_items _ d IH)|].
    intros b [_ S]. apply yields_ret. exact S.
  - eapply yields_bind; [|intros r S; apply yields_ret; exact S].
    apply (sealing_list _ l IH).
Qed.

Lemma seal_root_content (branch : pydict) (key : bytes) :
  yields (seal_root branch key) (fun E => content E = content branch).
Proof.
  unfold seal_root.
  eapply yields_bind; [apply yields_any|]. intros sops _.
  eapply yields_bind; [apply yields_any|]. intros sops1 _.
  eapply yields_bind; [apply yields_any|]. intros h _.
  eapply yields_bind; [apply yields_any|]. intros mac _.
  eapply yields_bind; [apply yields_any|]. intros sops2 _.
  apply yields_ret. apply content_set_sops.
Qed.

Lemma walk_and_encrypt_marks (tree : pydict) (key aad : bytes) (st : stash)
    (isRoot dg : bool) :
  yields (walk_and_encrypt tree key aad st isRoot dg)
    (fun tree' => sealing (VDict (walked isRoot tree))
                    (VDict (walked isRoot tree'))).
Proof.
  unfold walk_and_encrypt, walk_and_encrypt_body.
  eapply yields_bind; [apply yields_any|]. intros dg' _.
  eapply yields_bind.
  - apply sealing_items. apply Forall_forall. intros kv _.
    apply sealing_walk_node_encrypt.
  - intros b [_ S]. destruct isRoot; [|now apply yields_ret].
    intros w0 E w1 R. apply seal_root_content in R.
    unfold walked in *. now rewrite R.
Qed.

End Sealing.

(** *** Every leaf is the envelope of its value *)

Section Wrapping.

Context `{Platform}.

Lemma gcm_encrypt_yields (key iv aad c : bytes) :
  yields (gcm_encrypt key iv aad c)
    (fun r => aes_gcm_encrypt key iv aad c = Some r).
Proof.
  intros w r w1. unfold gcm_encrypt.
  destruct (aes_gcm_encrypt key iv aad c) as [r0|]; [|discriminate].
  now intros [= <- _].
Qed.

Lemma decode_yields (b : bytes) :
  yields (lift (decode_or_raise b)) (fun s => decode_utf8 b = Some s).
Proof.
  intros w r w1 E. apply lift_ok in E. destruct E as [E _].
  unfold decode_or_raise in E.
  destruct (decode_utf8 b); [now injection E as ->|discriminate].
Qed.

Lemma encrypt_envelope (x : scalar) (key aad : bytes) (st : stash)
    (dg : bool) :
  yields (encrypt x key aad st dg) (envelope_for key x).
Proof.
  unfold encrypt.
  eapply yields_bind; [apply yields_any|]. intros _ _.
  eapply yields_bind; [apply yields_any|]. intros iv _.
  eapply yields_bind; [apply gcm_encrypt_yields|]. intros [e t] G.
  eapply yields_bind; [apply decode_yields|]. intros data64 D.
  eapply yields_bind; [apply decode_yields|]. intros iv64 I.
  eapply yields_bind; [apply decode_yields|]. intros tag64 T.
  apply yields_ret. now exists iv, aad, e, t, data64, iv64, tag64.
Qed.

Lemma leafwise_leaf (key : bytes) (x : scalar) (env : string) :
  envelope_for key x env ->
  leafwise key (VLeaf x) (VLeaf (SStr env))
  /\ leafwise key (VLeaf x) (VLeaf (SPreserved env)).
Proof.
  intros E. unfold leafwise. cbn [leaves].
  split; (constructor; [|constructor]); (split; [reflexivity|]);
    exists env; (split; [exact E|]); [now left|now right].
Qed.

Lemma leafwise_dict_cons (key : bytes) (k : string) (c c' : value)
    (r r' : pydict) :
  leafwise key c c' -> leafwise key (VDict r) (VDict r') ->
  leafwise key (VDict ((k, c) :: r)) (VDict ((k, c') :: r')).
Proof.
  unfold leafwise. intros Lc Lr. rewrite !leaves_dict_cons.
  apply Forall2_app; [|exact Lr].
  induction Lc as [|px py ls ls' [P S] _ IH]; [constructor|].
  cbn [map]. constructor; [|exact IH].
  cbn [fst snd]. now rewrite P.
Qed.

Lemma leafwise_list_cons (key : bytes) (c c' : value) (r r' : list value) :
  leafwise key c c' -> leafwise key (VList r) (VList r') ->
  leafwise key (VList (c :: r)) (VList (c' :: r')).
Proof.
  unfold leafwise. intros Lc Lr. rewrite !leaves_list_cons.
  now apply Forall2_app.
Qed.

Section Loops.

Variable walk : value -> bytes -> bytes -> stash -> bool -> M value.

Lemma wrapping_entry (v : value) (key aad : bytes) (st : stash) (dg : bool) :
  wrapping_on walk v ->
  yields
    (match v with
     | VDict _ | VList _ => walk v key aad st dg
     | VLeaf (SPreserved s) =>
       ev <- encrypt (SPreserved s) key aad st dg ;;
       ret (VLeaf (SPreserved ev))
     | VLeaf x =>
       ev <- encrypt x key aad st dg ;;
       ret (VLeaf (SStr ev))
     end) (leafwise key v).
Proof.
  intros Hv. destruct v as [x|d|l]; try apply Hv.
  destruct x;
    (eapply yields_bind; [apply encrypt_envelope|]; intros ev E;
     apply yields_ret; now apply leafwise_leaf).
Qed.

Lemma wrapping_items (items : pydict) :
  Forall (fun kv => wrapping_on walk (snd kv)) items ->
  forall key aad st isRoot dg,
    yields (walk_and_encrypt_items walk items key aad st isRoot dg)
      (fun items' =>
         leafwise key (VDict (walked isRoot items))
           (VDict (walked isRoot items'))).
Proof.
  induction 1 as [|[k v] rest Hv _ IH]; intros key aad st isRoot dg;
    cbn [walk_and_encrypt_items].
  - apply yields_ret. destruct isRoot; constructor.
  - destruct (String.eqb k "sops" && isRoot)%bool eqn:K.
    + eapply yields_bind; [apply IH|]. intros rest' L.
      apply yields_ret. now rewrite !(walked_skip _ _ _ _ K).
    + eapply yields_bind; [apply yields_any|]. intros nstash _.
      eapply yields_bind; [apply wrapping_entry, Hv|]. intros v' Lv.
      eapply yields_bind; [apply IH|]. intros rest' Lr.
      apply yields_ret. rewrite !(walked_keep _ _ _ _ K).
      now apply leafwise_dict_cons.
Qed.

Lemma wrapping_list (items : list value) :
  Forall (wrapping_on walk) items ->
  forall i nstash key aad st dg,
    yields (walk_list_and_encrypt_items walk items i nstash key aad st dg)
      (fun items' => leafwise key (VList items) (VList items')).
Proof.
  induction 1 as [|v rest Hv _ IH]; intros i nstash key aad st dg;
    cbn [walk_list_and_encrypt_items].
  - apply yields_ret. constructor.
  - eapply yields_bind; [apply yields_any|]. intros nstash1 _.
    eapply yields_bind.
    { instantiate (1 := leafwise key v). destruct v as [x|d|l]; try apply Hv.
      eapply yields_bind; [apply encrypt_envelope|]. intros ev E.
      apply yields_ret. now apply leafwise_leaf. }
    intros v' Lv. eapply yields_bind; [apply IH|].
    intros rest' Lr. apply yields_ret. now apply leafwise_list_cons.
Qed.

End Loops.

Lemma wrapping_walk_node_encrypt (v : value) :
  wrapping_on walk_node_encrypt v.
Proof.
  induction v as [x|d IH|l IH] using value_induction;
    intros key aad st dg; cbn [walk_node_encrypt].
  - eapply yields_bind; [apply encrypt_envelope|]. intros ev E.
    apply yields_ret. now apply leafwise_leaf.
  - eapply yields_bind; [|intros r S; apply yields_ret; exact S].
    unfold walk_and_encrypt_body.
    eapply yields_bind; [apply yields_any|]. intros dg' _.
    eapply yields_bind; [apply (wrapping_items _ d IH)|].
    intros b L. apply yields_ret. exact L.
  - eapply yields_bind; [|intros r S; apply yields_ret; exact S].
    apply (wrapping_list _ l IH).
Qed.

Lemma walk_and_encrypt_wraps (tree : pydict) (key aad : bytes) (st : stash)
    (isRoot dg : bool) :
  yields (walk_and_encrypt tree key aad st isRoot dg)
    (fun tree' =>
       leafwise key (VDict (walked isRoot tree))
         (VDict (walked isRoot tree'))).
Proof.
  unfold walk_and_encrypt, walk_and_encrypt_body.
  eapply yields_bind; [apply yields_any|]. intros dg' _.
  eapply yields_bind.
  - apply wrapping_items. apply Forall_forall. intros kv _.
    apply wrapping_walk_node_encrypt.
  - intros b L. destruct isRoot; [|now apply yields_ret].
    intros w0 E w1 R. apply seal_root_content in R.
    unfold walked in *. now rewrite R.
Qed.

End Wrapping.

Section Sealed.

Context `{Platform}.

(** X18: the encrypt walk leaves no value in clear.  When it returns, the
    document has the mappings, keys, lists and lengths it had, and every leaf
    outside the [sops] branch of the root is a text that starts with
    [ENC[AES256_GCM,data:]: the envelope of the value that was at its place,
    which holds, in base64, the ciphertext and the tag the AES-GCM encryptor
    gave under the data key for the cleartext of that value, the IV, and the
    type of the value. *)
Theorem walk_and_encrypt_seals_every_leaf (tree tree' : pydict)
    (key aad : bytes) (st : stash) (isRoot dg : bool) (w w' : world) :
  walk_and_encrypt tree key aad st isRoot dg w = Ok (tree', w') ->
  skeleton (VDict (walked isRoot tree')) = skeleton (VDict (walked isRoot tree))
  /\ every_leaf sealed_leaf (VDict (walked isRoot tree')) = true
  /\ Forall2
       (fun px py =>
          fst py = fst px
          /\ exists iv aad e t data64 iv64 tag64,
               aes_gcm_encrypt key iv aad (cleartext_of (snd px))
               = Some (e, t)
               /\ decode_utf8 (b64encode e) = Some data64
               /\ decode_utf8 (b64encode iv) = Some iv64
               /\ decode_utf8 (b64encode t) = Some tag64
               /\ is_text (snd py) = true
               /\ py_str (snd py)
                  = format_envelope data64 iv64 tag64 (valtype_of (snd px)))
       (leaves (VDict (walked isRoot tree)))
       (leaves (VDict (walked isRoot tree'))).
Proof.
  intros R.
  destruct (walk_and_encrypt_marks _ _ _ _ _ _ _ _ _ R) as [S M].
  split; [exact S|]. split; [exact M|].
  pose proof (walk_and_encrypt_wraps _ _ _ _ _ _ _ _ _ R) as L.
  unfold leafwise in L.
  induction L as [|px py ls ls' [P (env & E & Y)] _ IH]; constructor;
    [|exact IH].
  split; [exact P|].
  destruct E as (iv & aad' & e & t & data64 & iv64 & tag64
                 & G & D & I & T & ->).
  exists iv, aad', e, t, data64, iv64, tag64.
  repeat (split; [assumption|]).
  destruct Y as [-> | ->]; now split.
Qed.

End Sealed.

Lemma demands_left {A B} (m : M A) (f : A -> M B) (P : Prop) :
  demands m P -> demands (bind m f) P.
Proof.
  intros D w r E. apply bind_ok in E. destruct E as (a & w' & Em & _).
  exact (D _ _ Em).
Qed.

Lemma demands_right {A B} (m : M A) (f : A -> M B) (P : Prop) :
  (forall a, demands (f a) P) -> demands (bind m f) P.
Proof.
  intros D w r E. apply bind_ok in E. destruct E as (a & w' & _ & Ef).
  exact (D _ _ _ Ef).
Qed.

Lemma demands_both {A B} (m : M A) (f : A -> M B) (P Q : Prop) :
  demands m P -> (forall a, demands (f a) Q) -> demands (bind m f) (P /\ Q).
Proof.
  intros Dm Df w r E. apply bind_ok in E. destruct E as (a & w' & Em & Ef).
  split; [exact (Dm _ _ Em)|exact (Df _ _ _ Ef)].
Qed.

Lemma demands_and {A B} (m : M A) (f : A -> M B) (a b : bool) :
  demands m (a = true) ->
  (forall x, demands (f x) (b = true)) ->
  demands (bind m f) ((a && b)%bool = true).
Proof.
  intros Dm Df w r E.
  destruct (demands_both m f _ _ Dm Df w r E) as [-> ->]. reflexivity.
Qed.

Lemma demands_true {A} (m : M A) : demands m True.
Proof.
  now intros w r _.
Qed.

Section Opening.

Context `{Platform}.
Variable V : float.

Lemma decrypt_demands_text (x : scalar) (key aad : bytes) (st : stash)
    (dg : bool) :
  demands (decrypt V x key aad st dg) (is_text x = true).
Proof.
  intros w r E. unfold decrypt in E.
  destruct x; try reflexivity; discriminate E.
Qed.

Lemma decrypt_in_clear (x : scalar) (key aad : bytes) (st : stash)
    (dg : bool) :
  in_clear x = true -> decrypt V x key aad st dg = ret (x, st).
Proof.
  assert (R : forall s, starts_with marker (encode_utf8 s) = false ->
                        re_match (valre V) (encode_utf8 s) = None).
  { intros s N. unfold valre. cbn [app]. rewrite re_match_lit_eq.
    fold marker. now rewrite N. }
  destruct x; try discriminate; cbn [in_clear]; intros C;
    apply negb_true_iff in C; unfold decrypt; now rewrite (R _ C).
Qed.

Section Loops.

Variable walk : value -> bytes -> bytes -> stash -> bool -> M (value * stash).

Lemma texts_items (items : pydict) :
  Forall (fun kv => texts_on walk (snd kv)) items ->
  forall carry key aad st isRoot dg,
    demands (walk_and_decrypt_items V walk items carry key aad st isRoot dg)
      (every_leaf is_text (VDict (walked isRoot items)) = true).
Proof.
  induction 1 as [|[k v] rest Hv _ IH]; intros carry key aad st isRoot dg;
    cbn [walk_and_decrypt_items].
  - intros w r _. now destruct isRoot.
  - destruct (String.eqb k "sops" && isRoot)%bool eqn:K.
    + rewrite (walked_skip _ _ _ _ K). apply demands_left, IH.
    + rewrite (walked_keep _ _ _ _ K), every_leaf_dict_cons.
      apply demands_right. intros [st1 nstash].
      apply demands_and.
      * destruct v as [x|d|l]; try apply Hv. rewrite every_leaf_leaf.
        destruct x; apply demands_left, decrypt_demands_text.
      * intros [v' nstash']. apply demands_right. intros st2.
        apply demands_left, IH.
Qed.

Lemma texts_list (items : list value) :
  Forall (texts_on walk) items ->
  forall i nstash key aad st dg,
    demands (walk_list_and_decrypt_items V walk items i nstash key aad st dg)
      (every_leaf is_text (VList items) = true).
Proof.
  induction 1 as [|v rest Hv _ IH]; intros i nstash key aad st dg;
    cbn [walk_list_and_decrypt_items].
  - now intros w r _.
  - rewrite every_leaf_list_cons.
    apply demands_right. intros [st1 nstash1].
    apply demands_and.
    + destruct v as [x|d|l]; try apply Hv.
      rewrite every_leaf_leaf. apply demands_left, decrypt_demands_text.
    + intros [v' nstash']. apply demands_right. intros st2.
      apply demands_left, IH.
Qed.

Lemma idle_items (items : pydict) :
  Forall (fun kv => idle_on walk (snd kv)) items ->
  forall isRoot,
    every_leaf in_clear (VDict (walked isRoot items)) = true ->
    forall carry key aad st dg w,
      truthy st = false ->
      walk_and_decrypt_items V walk items carry key aad st isRoot dg w
      = Ok ((items, st), w).
Proof.
  induction 1 as [|[k v] rest Hv _ IH];
    intros isRoot C carry key aad st dg w T;
    cbn [walk_and_decrypt_items]; [reflexivity|].
  destruct (String.eqb k "sops" && isRoot)%bool eqn:K.
  { rewrite (walked_skip _ _ _ _ K) in C.
    now rewrite (bind_eq _ _ _ _ _ (IH _ C _ _ _ _ _ _ T)). }
  rewrite (walked_keep _ _ _ _ K), every_leaf_dict_cons in C.
  apply andb_prop in C. destruct C as [Cv Cr].
  unfold open_stash, close_stash. rewrite T.
  unfold bind at 1. unfold lift at 1. cbv beta iota.
  assert (E : forall aad',
            (match v with
             | VDict _ | VList _ => walk v key aad' empty_stash dg
             | VLeaf (SPreserved s) =>
               '(ev, n) <- decrypt V (SPreserved s) key aad' empty_stash dg ;;
               ret (VLeaf (preserved ev), n)
             | VLeaf x =>
               '(ev, n) <- decrypt V x key aad' empty_stash dg ;;
               ret (VLeaf ev, n)
             end) w = Ok ((v, empty_stash), w)).
  { intros aad'. destruct v as [x|d|l]; try (now apply Hv).
    rewrite every_leaf_leaf in Cv.
    destruct x; try discriminate Cv;
      now rewrite (decrypt_in_clear _ _ _ _ _ Cv). }
  rewrite (bind_eq _ _ _ _ _ (E _)). cbv beta iota. rewrite T.
  unfold bind at 1. unfold lift at 1. cbv beta iota.
  now rewrite (bind_eq _ _ _ _ _ (IH _ Cr _ _ _ _ _ _ T)).
Qed.

Lemma idle_list (items : list value) :
  Forall (idle_on walk) items ->
  every_leaf in_clear (VList items) = true ->
  forall i nstash key aad st dg w,
    truthy st = false -> truthy nstash = false ->
    walk_list_and_decrypt_items V walk items i nstash key aad st dg w
    = Ok ((items, st), w).
Proof.
  induction 1 as [|v rest Hv _ IH]; intros C i nstash key aad st dg w T Tn;
    cbn [walk_list_and_decrypt_items]; [reflexivity|].
  rewrite every_leaf_list_cons in C. apply andb_prop in C.
  destruct C as [Cv Cr].
  unfold open_stash, close_stash. rewrite T.
  unfold bind at 1. unfold lift at 1. cbv beta iota.
  assert (E : (match v with
               | VDict _ | VList _ => walk v key aad nstash dg
               | VLeaf x =>
                 '(ev, n) <- decrypt V x key aad nstash dg ;;
                 ret (VLeaf ev, n)
               end) w = Ok ((v, nstash), w)).
  { destruct v as [x|d|l]; try (now apply Hv).
    rewrite every_leaf_leaf in Cv.
    now rewrite (decrypt_in_clear _ _ _ _ _ Cv). }
  rewrite (bind_eq _ _ _ _ _ E). cbv beta iota. rewrite T.
  unfold bind at 1. unfold lift at 1. cbv beta iota.
  now rewrite (bind_eq _ _ _ _ _ (IH Cr _ _ _ _ _ _ _ T Tn)).
Qed.

End Loops.

Lemma texts_walk_node_decrypt (v : value) :
  texts_on (walk_node_decrypt V) v.
Proof.
  induction v as [x|d IH|l IH] using value_induction;
    intros key aad st dg; cbn [walk_node_decrypt].
  - apply demands_left.
    rewrite every_leaf_leaf. apply decrypt_demands_text.
  - apply demands_left. unfold walk_and_decrypt_body. cbn [andb].
    apply demands_right. intros dg'. apply demands_left.
    apply (texts_items _ d IH _ _ _ _ false).
  - apply demands_left. apply (texts_list _ l IH).
Qed.

Lemma idle_walk_node_decrypt (v : value) : idle_on (walk_node_decrypt V) v.
Proof.
  induction v as [x|d IH|l IH] using value_induction;
    intros C key aad st dg w T; cbn [walk_node_decrypt].
  - rewrite every_leaf_leaf in C.
    now rewrite (decrypt_in_clear _ _ _ _ _ C).
  - unfold walk_and_decrypt_body. cbn [andb].
    unfold bind at 1 2. unfold ret at 1.
    now rewrite (bind_eq _ _ _ _ _
                   (idle_items _ d IH false C _ _ _ _ _ _ T)).
  - now rewrite (bind_eq _ _ _ _ _
                   (idle_list _ l IH C 0 empty_stash _ _ _ _ _ T eq_refl)).
Qed.

Lemma returns_only_texts (tree : pydict) (key aad : bytes) (st : stash)
    (dg isRoot ignoreMac : bool) (w : world)
    (r : (pydict * stash) * world) :
  walk_and_decrypt V tree key aad st dg isRoot ignoreMac w = Ok r ->
  every_leaf is_text (VDict (walked isRoot tree)) = true.
Proof.
  revert w r.
  change (demands (walk_and_decrypt V tree key aad st dg isRoot ignoreMac)
            (every_leaf is_text (VDict (walked isRoot tree)) = true)).
  unfold walk_and_decrypt, walk_and_decrypt_body.
  apply demands_right. intros dg'. apply demands_left.
  apply texts_items. apply Forall_forall. intros kv _.
  apply texts_walk_node_decrypt.
Qed.

(** X20: a document in which nothing is encrypted goes through the decrypt
    walk unchanged.  When no leaf outside the [sops] branch of the root
    starts with [ENC[AES256_GCM,data:], no stash is kept and the MAC is not
    checked, the walk returns the document as it is, without a use of the
    cipher or of the digest. *)
Theorem walk_and_decrypt_passes_clear_text (tree : pydict) (key aad : bytes)
    (st : stash) (dg isRoot ignoreMac : bool) (w : world) :
  every_leaf in_clear (VDict (walked isRoot tree)) = true ->
  truthy st = false ->
  (isRoot && negb ignoreMac)%bool = false ->
  walk_and_decrypt V tree key aad st dg isRoot ignoreMac w
  = Ok ((tree, st), w).
Proof.
  intros C T N. unfold walk_and_decrypt, walk_and_decrypt_body. rewrite N.
  unfold bind at 1. unfold ret at 1.
  assert (I : Forall (fun kv => idle_on (walk_node_decrypt V) (snd kv)) tree).
  { apply Forall_forall. intros kv _. apply idle_walk_node_decrypt. }
  now rewrite (bind_eq _ _ _ _ _ (idle_items _ tree I isRoot C _ _ _ _ _ _ T)).
Qed.

End Opening.

(** *** The first leaf that is not a text *)

Lemma first_not_clear_app (a b : list (list string * scalar)) :
  first_not_clear (a ++ b)
  = match first_not_clear a with
    | Some px => Some px
    | None => first_not_clear b
    end.
Proof.
  unfold first_not_clear. induction a as [|px a IH]; [reflexivity|].
  simpl. now destruct (negb (in_clear (snd px))).
Qed.

Lemma first_not_clear_under (k : string) (ls : list (list string * scalar)) :
  first_not_clear (map (fun px => (k :: fst px, snd px)) ls)
  = match first_not_clear ls with
    | Some px => Some (k :: fst px, snd px)
    | None => None
    end.
Proof.
  unfold first_not_clear. induction ls as [|px ls IH]; [reflexivity|].
  simpl. now destruct (negb (in_clear (snd px))).
Qed.

Lemma first_not_clear_none (v : value) :
  first_not_clear (leaves v) = None -> every_leaf in_clear v = true.
Proof.
  unfold first_not_clear, every_leaf.
  induction (leaves v) as [|px ls IH]; [reflexivity|].
  simpl. destruct (in_clear (snd px)); [exact IH|discriminate].
Qed.

Lemma first_not_clear_leaf (x : scalar) :
  first_not_clear (leaves (VLeaf x))
  = if in_clear x then None else Some ([], x).
Proof.
  unfold first_not_clear. cbn [leaves List.find snd].
  now destruct (in_clear x).
Qed.

Lemma bind_fails {A B} (m : M A) (f : A -> M B) (w : world) (e : error) :
  m w = Err e -> bind m f w = Err e.
Proof.
  unfold bind. now intros ->.
Qed.

Lemma open_stash_plain (st nstash : stash) (k : skey) :
  plain_stash st = true -> plain_stash nstash = true ->
  exists st1 nstash1,
    open_stash st k nstash = Ok (st1, nstash1)
    /\ plain_stash st1 = true /\ plain_stash nstash1 = true.
Proof.
  intros P N. unfold open_stash. destruct (truthy st) eqn:T.
  - destruct st; try discriminate P; try discriminate T.
    simpl. now eexists _, _.
  - now exists st, nstash.
Qed.

Lemma close_stash_plain (st nstash : stash) (k : skey) :
  plain_stash st = true ->
  exists st2, close_stash st k nstash = Ok st2 /\ plain_stash st2 = true.
Proof.
  intros P. unfold close_stash. destruct (truthy st) eqn:T.
  - destruct st; try discriminate P; try discriminate T.
    simpl. now eexists.
  - now exists st.
Qed.

Section Tripping.

Context `{Platform}.
Variable V : float.

Lemma decrypt_not_text (x : scalar) (key aad : bytes) (st : stash)
    (dg : bool) (w : world) :
  is_text x = false -> decrypt V x key aad st dg w = Err AttributeError.
Proof.
  unfold decrypt. now destruct x.
Qed.

Section Loops.

Variable walk : value -> bytes -> bytes -> stash -> bool -> M (value * stash).

(** A member of a mapping, as the loop of [walk_and_decrypt] treats it. *)
Lemma entry_passes (v : value) (key aad : bytes) (st : stash) (dg : bool)
    (w : world) :
  passes_on walk v -> every_leaf in_clear v = true ->
  plain_stash st = true ->
  exists st',
    plain_stash st' = true
    /\ (match v with
        | VDict _ | VList _ => walk v key aad st dg
        | VLeaf (SPreserved s) =>
          '(ev, n) <- decrypt V (SPreserved s) key aad st dg ;;
          ret (VLeaf (preserved ev), n)
        | VLeaf x =>
          '(ev, n) <- decrypt V x key aad st dg ;;
          ret (VLeaf ev, n)
        end) w = Ok ((v, st'), w).
Proof.
  intros Hv C P. destruct v as [x|d|l]; try (now apply Hv).
  rewrite every_leaf_leaf in C. exists st. split; [exact P|].
  destruct x; try discriminate C;
    now rewrite (decrypt_in_clear V _ _ _ _ _ C).
Qed.

Lemma entry_trips (v : value) (key aad : bytes) (st : stash) (dg : bool)
    (w : world) (p : list string) (x : scalar) :
  trips_on walk v ->
  first_not_clear (leaves v) = Some (p, x) -> is_text x = false ->
  plain_stash st = true ->
  (match v with
   | VDict _ | VList _ => walk v key aad st dg
   | VLeaf (SPreserved s) =>
     '(ev, n) <- decrypt V (SPreserved s) key aad st dg ;;
     ret (VLeaf (preserved ev), n)
   | VLeaf x =>
     '(ev, n) <- decrypt V x key aad st dg ;;
     ret (VLeaf ev, n)
   end) w = Err AttributeError.
Proof.
  intros Hv F T P. destruct v as [y|d|l]; try (now apply (Hv p x)).
  rewrite first_not_clear_leaf in F.
  destruct (in_clear y); [discriminate F|]. injection F as _ ->.
  destruct x; try discriminate T;
    apply bind_fails; now apply decrypt_not_text.
Qed.

Lemma element_passes (v : value) (key aad : bytes) (st : stash) (dg : bool)
    (w : world) :
  passes_on walk v -> every_leaf in_clear v = true ->
  plain_stash st = true ->
  exists st',
    plain_stash st' = true
    /\ (match v with
        | VDict _ | VList _ => walk v key aad st dg
        | VLeaf x =>
          '(ev, n) <- decrypt V x key aad st dg ;;
          ret (VLeaf ev, n)
        end) w = Ok ((v, st'), w).
Proof.
  intros Hv C P. destruct v as [x|d|l]; try (now apply Hv).
  rewrite every_leaf_leaf in C. exists st. split; [exact P|].
  now rewrite (decrypt_in_clear V _ _ _ _ _ C).
Qed.

Lemma element_trips (v : value) (key aad : bytes) (st : stash) (dg : bool)
    (w : world) (p : list string) (x : scalar) :
  trips_on walk v ->
  first_not_clear (leaves v) = Some (p, x) -> is_text x = false ->
  plain_stash st = true ->
  (match v with
   | VDict _ | VList _ => walk v key aad st dg
   | VLeaf x =>
     '(ev, n) <- decrypt V x key aad st dg ;;
     ret (VLeaf ev, n)
   end) w = Err AttributeError.
Proof.
  intros Hv F T P. destruct v as [y|d|l]; try (now apply (Hv p x)).
  rewrite first_not_clear_leaf in F.
  destruct (in_clear y); [discriminate F|]. injection F as _ ->.
  apply bind_fails. now apply decrypt_not_text.
Qed.

Lemma passes_items (items : pydict) :
  Forall (fun kv => passes_on walk (snd kv)) items ->
  forall isRoot,
    every_leaf in_clear (VDict (walked isRoot items)) = true ->
    forall carry key aad st dg w,
      plain_stash st = true ->
      exists st',
        plain_stash st' = true
        /\ walk_and_decrypt_items V walk items carry key aad st isRoot dg w
           = Ok ((items, st'), w).
Proof.
  induction 1 as [|[k v] rest Hv _ IH];
    intros isRoot C carry key aad st dg w P;
    cbn [walk_and_decrypt_items]; [now exists st|].
  destruct (String.eqb k "sops" && isRoot)%bool eqn:K.
  { rewrite (walked_skip _ _ _ _ K) in C.
    destruct (IH _ C carry key aad st dg w P) as (st' & P' & E).
    exists st'. split; [exact P'|]. now step E. }
  rewrite (walked_keep _ _ _ _ K), every_leaf_dict_cons in C.
  apply andb_prop in C. destruct C as [Cv Cr].
  destruct (open_stash_plain st empty_stash (KStr k) P eq_refl)
    as (st1 & n1 & O & P1 & N1).
  step (lift_eq _ w _ O).
  match goal with
  | |- context [walk v key ?a n1 dg] =>
    destruct (entry_passes v key a n1 dg w Hv Cv N1) as (n2 & N2 & E)
  end.
  step E.
  destruct (close_stash_plain st1 n2 (KStr k) P1) as (st2 & Cl & P2).
  step (lift_eq _ w _ Cl).
  match goal with
  | |- context [walk_and_decrypt_items V walk rest ?c key aad st2 isRoot dg] =>
    destruct (IH _ Cr c key aad st2 dg w P2) as (st3 & P3 & E3)
  end.
  exists st3. split; [exact P3|]. now step E3.
Qed.

Lemma trips_items (items : pydict) :
  Forall (fun kv => passes_on walk (snd kv)) items ->
  Forall (fun kv => trips_on walk (snd kv)) items ->
  forall isRoot p x,
    first_not_clear (leaves (VDict (walked isRoot items))) = Some (p, x) ->
    is_text x = false ->
    forall carry key aad st dg w,
      plain_stash st = true ->
      walk_and_decrypt_items V walk items carry key aad st isRoot dg w
      = Err AttributeError.
Proof.
  intros Hp Ht. revert Hp.
  induction Ht as [|[k v] rest Tv _ IH]; intros Hp isRoot p x F T
    carry key aad st dg w P.
  { destruct isRoot; discriminate F. }
  inversion Hp as [|? ? Pv Pr]; subst. cbn [snd] in *.
  cbn [walk_and_decrypt_items].
  destruct (String.eqb k "sops" && isRoot)%bool eqn:K.
  { rewrite (walked_skip _ _ _ _ K) in F.
    apply bind_fails. now apply (IH Pr isRoot p x). }
  rewrite (walked_keep _ _ _ _ K), leaves_dict_cons, first_not_clear_app,
    first_not_clear_under in F.
  destruct (open_stash_plain st empty_stash (KStr k) P eq_refl)
    as (st1 & n1 & O & P1 & N1).
  step (lift_eq _ w _ O).
  destruct (first_not_clear (leaves v)) as [[p' x']|] eqn:Fv.
  - injection F as _ <-. apply bind_fails.
    now apply (entry_trips v _ _ _ _ _ p' x' Tv Fv T N1).
  - pose proof (first_not_clear_none _ Fv) as Cv.
    match goal with
    | |- context [walk v key ?a n1 dg] =>
      destruct (entry_passes v key a n1 dg w Pv Cv N1) as (n2 & N2 & E)
    end.
    step E.
    destruct (close_stash_plain st1 n2 (KStr k) P1) as (st2 & Cl & P2).
    step (lift_eq _ w _ Cl).
    apply bind_fails. now apply (IH Pr isRoot p x).
Qed.

Lemma passes_list (items : list value) :
  Forall (passes_on walk) items ->
  every_leaf in_clear (VList items) = true ->
  forall i nstash key aad st dg w,
    plain_stash st = true -> plain_stash nstash = true ->
    exists st',
      plain_stash st' = true
      /\ walk_list_and_decrypt_items V walk items i nstash key aad st dg w
         = Ok ((items, st'), w).
Proof.
  induction 1 as [|v rest Hv _ IH]; intros C i nstash key aad st dg w P N;
    cbn [walk_list_and_decrypt_items]; [now exists st|].
  rewrite every_leaf_list_cons in C. apply andb_prop in C.
  destruct C as [Cv Cr].
  destruct (open_stash_plain st nstash (KInt i) P N)
    as (st1 & n1 & O & P1 & N1).
  step (lift_eq _ w _ O).
  destruct (element_passes v key aad n1 dg w Hv Cv N1) as (n2 & N2 & E).
  step E.
  destruct (close_stash_plain st1 n2 (KInt i) P1) as (st2 & Cl & P2).
  step (lift_eq _ w _ Cl).
  destruct (IH Cr (S i) n2 key aad st2 dg w P2 N2) as (st3 & P3 & E3).
  exists st3. split; [exact P3|]. now step E3.
Qed.

Lemma trips_list (items : list value) :
  Forall (passes_on walk) items ->
  Forall (trips_on walk) items ->
  forall p x,
    first_not_clear (leaves (VList items)) = Some (p, x) ->
    is_text x = false ->
    forall i nstash key aad st dg w,
      plain_stash st = true -> plain_stash nstash = true ->
      walk_list_and_decrypt_items V walk items i nstash key aad st dg w
      = Err AttributeError.
Proof.
  intros Hp Ht. revert Hp.
  induction Ht as [|v rest Tv _ IH]; intros Hp p x F T i nstash key aad st
    dg w P N.
  { discriminate F. }
  inversion Hp as [|? ? Pv Pr]; subst.
  cbn [walk_list_and_decrypt_items].
  rewrite leaves_list_cons, first_not_clear_app in F.
  destruct (open_stash_plain st nstash (KInt i) P N)
    as (st1 & n1 & O & P1 & N1).
  step (lift_eq _ w _ O).
  destruct (first_not_clear (leaves v)) as [[p' x']|] eqn:Fv.
  - injection F as <- <-. apply bind_fails.
    now apply (element_trips v _ _ _ _ _ p' x' Tv Fv T N1).
  - pose proof (first_not_clear_none _ Fv) as Cv.
    destruct (element_passes v key aad n1 dg w Pv Cv N1) as (n2 & N2 & E).
    step E.
    destruct (close_stash_plain st1 n2 (KInt i) P1) as (st2 & Cl & P2).
    step (lift_eq _ w _ Cl).
    apply bind_fails. now apply (IH Pr p x).
Qed.

End Loops.

Lemma passes_walk_node_decrypt (v : value) :
  passes_on (walk_node_decrypt V) v.
Proof.
  induction v as [x|d IH|l IH] using value_induction;
    intros C key aad st dg w P; cbn [walk_node_decrypt].
  - rewrite every_leaf_leaf in C. exists st. split; [exact P|].
    now rewrite (decrypt_in_clear V _ _ _ _ _ C).
  - unfold walk_and_decrypt_body. cbn [andb].
    destruct (passes_items _ d IH false C aad key aad st dg w P)
      as (st' & P' & E).
    exists st'. split; [exact P'|].
    unfold bind at 1 2. unfold ret at 1. now step E.
  - destruct (passes_list _ l IH C 0 empty_stash key aad st dg w P eq_refl)
      as (st' & P' & E).
    exists st'. split; [exact P'|]. now step E.
Qed.

Lemma trips_walk_node_decrypt (v : value) :
  trips_on (walk_node_decrypt V) v.
Proof.
  induction v as [y|d IH|l IH] using value_induction;
    intros p x F T key aad st dg w P; cbn [walk_node_decrypt].
  - rewrite first_not_clear_leaf in F.
    destruct (in_clear y); [discriminate F|]. injection F as _ ->.
    apply bind_fails. now apply decrypt_not_text.
  - apply bind_fails. unfold walk_and_decrypt_body. cbn [andb].
    unfold bind at 1 2. unfold ret at 1. apply bind_fails.
    apply (trips_items _ d) with (isRoot := false) (p := p) (x := x);
      try assumption.
    apply Forall_forall. intros kv _. apply passes_walk_node_decrypt.
  - apply bind_fails.
    apply (trips_list _ l) with (p := p) (x := x); try assumption;
      [|reflexivity].
    apply Forall_forall. intros kv _. apply passes_walk_node_decrypt.
Qed.

End Tripping.

Section Refusal.

Context `{Platform}.
Variable V : float.

(** X19: the decrypt walk returns only for documents made of texts.  A
    number, a boolean, a null or bytes among the leaves outside the [sops]
    branch of the root makes it end in an exception, whatever the key, the
    stash and the MAC; with a stash that is [None] or a dict, the exception
    is the [AttributeError] of [value.encode] when every leaf before the
    first such leaf, in traversal order, is a text in clear.  (After an
    envelope the exception can be another one: a walk ends at the first
    leaf that fails.) *)
Theorem walk_and_decrypt_needs_texts (tree : pydict) (key aad : bytes)
    (st : stash) (dg isRoot ignoreMac : bool) (w : world) :
  every_leaf is_text (VDict (walked isRoot tree)) = false ->
  (exists e,
     walk_and_decrypt V tree key aad st dg isRoot ignoreMac w = Err e)
  /\ forall p x,
       first_not_clear (leaves (VDict (walked isRoot tree))) = Some (p, x) ->
       is_text x = false ->
       plain_stash st = true ->
       walk_and_decrypt V tree key aad st dg isRoot ignoreMac w
       = Err AttributeError.
Proof.
  intros N. split.
  - destruct (walk_and_decrypt V tree key aad st dg isRoot ignoreMac w)
      as [r|e] eqn:E; [|now exists e].
    rewrite (returns_only_texts V _ _ _ _ _ _ _ _ _ E) in N. discriminate N.
  - intros p x F T P. unfold walk_and_decrypt, walk_and_decrypt_body.
    assert (I : forall dg' w',
              walk_and_decrypt_items V (walk_node_decrypt V) tree aad key aad
                st isRoot dg' w' = Err AttributeError).
    { intros dg' w'.
      apply (trips_items V _ tree) with (p := p) (x := x); try assumption;
        apply Forall_forall; intros kv _;
        [apply passes_walk_node_decrypt|apply trips_walk_node_decrypt]. }
    destruct (isRoot && negb ignoreMac)%bool.
    + unfold bind at 1 2. unfold sha512_new at 1. unfold ret at 1.
      apply bind_fails, I.
    + unfold bind at 1. unfold ret at 1. apply bind_fails, I.
Qed.

End Refusal.

(** ** The stash of one value *)

Lemma skey_eqb_refl (k : skey) : skey_eqb k k = true.
Proof.
  destruct k; simpl; [apply String.eqb_refl|apply Nat.eqb_refl].
Qed.

Lemma sdict_get_set_same (d : list (skey * stash)) (k : skey) (v : stash) :
  sdict_get (sdict_set d k v) k = Some v.
Proof.
  induction d as [|[k' v'] d IH]; simpl.
  - now rewrite skey_eqb_refl.
  - destruct (skey_eqb k k') eqn:E; simpl; rewrite E; [reflexivity|exact IH].
Qed.

Lemma sdict_get_set_other (d : list (skey * stash)) (s t : string)
    (v : stash) :
  String.eqb t s = false ->
  sdict_get (sdict_set d (KStr s) v) (KStr t) = sdict_get d (KStr t).
Proof.
  intros N. induction d as [|[k' v'] d IH]; cbn [sdict_set sdict_get].
  - cbn [skey_eqb]. now rewrite N.
  - destruct (skey_eqb (KStr s) k') eqn:E; cbn [sdict_get].
    + destruct k' as [s'|i]; [|discriminate E]. cbn [skey_eqb] in *.
      apply String.eqb_eq in E. subst s'. now rewrite N.
    + destruct (skey_eqb (KStr t) k'); [reflexivity|exact IH].
Qed.

Section Stash.

Context `{PlatformLaws}.
Variable V : float.
Hypothesis fmt : current_format V.

Lemma decrypt_envelope_stash (env : string) (key aad iv c e t y : bytes)
    (d : list (skey * stash)) (dg : bool) (w : world) (r : scalar) :
  aes_gcm_encrypt key iv aad c = Some (e, t) ->
  iv <> [] -> c <> [] ->
  encode_utf8 env
  = envelope_bytes (b64encode e) (b64encode iv) (b64encode t) y ->
  forallb b64_char y = true -> y <> [] ->
  d <> [] ->
  restore_type (Some y) c = Ok r ->
  decrypt V (SStr env) key aad (StDict d) dg w
  = Ok ((r, stashed d iv aad c), absorb dg c w).
Proof.
  intros G Ni Nc Henv Py Ny Nd R. destruct fmt as [typed _].
  assert (Nt : t <> []).
  { intros ->. now apply gcm_has_tag in G. }
  pose proof (gcm_keeps_length _ _ _ _ _ _ G) as L.
  assert (Ne : e <> []).
  { intros ->. destruct c; [congruence|discriminate]. }
  unfold decrypt. rewrite typed, Henv.
  rewrite envelope_groups; try apply b64_alphabet; try assumption;
    try (apply b64_not_empty; assumption).
  cbn [nth]. unfold bind, lift, ret, b64decode_or_raise, gcm_decrypt.
  do 3 (rewrite b64_roundtrip; cbv beta iota).
  rewrite (gcm_roundtrip _ _ _ _ _ _ G). cbv beta iota.
  assert (T : truthy (StDict d) = true) by (now destruct d).
  rewrite T. cbn [stash_leaf stash_setitem]. rewrite R.
  now destruct dg.
Qed.

(** X21: a value that has not changed keeps its envelope.  An envelope
    written by [encrypt], once decrypted with a stash, is written again as the
    same text when the value it gave is encrypted with that stash, and no new
    random IV is drawn. *)
Theorem unchanged_leaf_keeps_envelope (x : scalar) (key aad : bytes)
    (st0 : stash) (dg0 : bool) (w0 : world) (d : list (skey * stash)) :
  intact_scalar x ->
  truthy st0 = false ->
  length key = 32 ->
  d <> [] ->
  exists env w1 st',
    encrypt x key aad st0 dg0 w0 = Ok (env, w1)
    /\ (forall dg1 w2,
          decrypt V (SStr env) key aad (StDict d) dg1 w2
          = Ok ((x, st'), absorb dg1 (cleartext_of x) w2))
    /\ forall dg2 w3,
         exists w4,
           encrypt x key aad st' dg2 w3 = Ok (env, w4)
           /\ draws w4 = draws w3.
Proof.
  intros I T K Nd.
  assert (R : restorable x) by (destruct x; try exact Logic.I; apply I).
  destruct (encrypt_fresh x key aad st0 dg0 w0 T K)
    as (e & t & env & w1 & G & E & B).
  destruct (valtype_plain x) as [Py Ny].
  destruct (restore_leaf x R) as (r & Rr & Ri & _).
  rewrite (Ri I) in Rr. clear r Ri.
  assert (Nc : cleartext_of x <> []).
  { apply intact_cleartext. destruct x; try exact I. destruct I. }
  set (iv := urandom32 (draws w0)) in *.
  exists env, w1, (stashed d iv aad (cleartext_of x)).
  split; [exact E|]. split.
  - intros dg1 w2.
    apply (decrypt_envelope_stash env key aad iv _ e t _ d dg1 w2 x G
             (urandom_not_empty _) Nc B Py Ny Nd Rr).
  - intros dg2 w3.
    assert (U : forall w5 : world,
              exists w4,
                bind (choose_iv (stashed d iv aad (cleartext_of x))
                        (cleartext_of x))
                  (fun iv =>
                     bind (gcm_encrypt key iv aad (cleartext_of x))
                       (fun et =>
                          let '(enc_value, tag) := et in
                          bind (lift (decode_or_raise (b64encode enc_value)))
                            (fun data64 =>
                               bind (lift (decode_or_raise (b64encode iv)))
                                 (fun iv64 =>
                                    bind
                                      (lift (decode_or_raise (b64encode tag)))
                                      (fun tag64 =>
                                         ret (format_envelope data64 iv64
                                                tag64 (valtype_of x)))))))
                  w5
                = Ok (env, w4)
                /\ draws w4 = draws w5).
    { intros w5. unfold bind at 1. unfold stashed.
      rewrite (choose_iv_stashed _ (cleartext_of x) iv).
      - unfold bind at 1. unfold gcm_encrypt. rewrite G.
        unfold bind, lift. rewrite !b64_text. unfold ret.
        assert (Same : format_envelope (string_of_list_byte (b64encode e))
                         (string_of_list_byte (b64encode iv))
                         (string_of_list_byte (b64encode t)) (valtype_of x)
                       = env).
        { apply encode_utf8_injective. rewrite B, encode_format_envelope.
          unfold encode_utf8.
          now rewrite !list_byte_of_string_of_list_byte. }
        rewrite Same. eexists. split; reflexivity.
      - apply sdict_get_set_same.
      - rewrite !sdict_get_set_other by reflexivity.
        apply sdict_get_set_same. }
    unfold encrypt. destruct dg2.
    + unfold bind at 1. unfold sha512_update.
      destruct (U {| draws := draws w3; gcm_calls := gcm_calls w3;
                     sha512 := sha512 w3 ++ cleartext_of x |})
        as (w4 & Run & D).
      exists w4. split; [exact Run|exact D].
    + unfold bind at 1. unfold ret at 1. apply U.
Qed.

End Stash.

(** ** The IVs of a run without a stash *)

Section FreshIvs.

Context `{Platform}.

Lemma draws_ivs_quiet {A} (m : M A) :
  (forall w r w1, m w = Ok (r, w1) ->
                  gcm_calls w1 = gcm_calls w /\ draws w1 = draws w) ->
  draws_ivs m.
Proof.
  intros Q w r w1 E. destruct (Q _ _ _ E) as [G D]. exists [].
  rewrite app_nil_r. simpl. now rewrite Nat.add_0_r.
Qed.

Lemma draws_ivs_ret {A} (a : A) : draws_ivs (ret a).
Proof.
  apply draws_ivs_quiet. intros w r w1 E. apply ret_ok in E.
  now destruct E as [_ ->].
Qed.

Lemma draws_ivs_lift {A} (x : result A) : draws_ivs (lift x).
Proof.
  apply draws_ivs_quiet. intros w r w1 E. destruct x; [|discriminate E].
  now injection E as _ <-.
Qed.

Lemma draws_ivs_bind {A B} (m : M A) (f : A -> M B) :
  draws_ivs m -> (forall a, draws_ivs (f a)) -> draws_ivs (bind m f).
Proof.
  intros Dm Df w r w1 E. apply bind_ok in E.
  destruct E as (a & w' & Em & Ef).
  destruct (Dm _ _ _ Em) as (cs1 & G1 & I1 & D1).
  destruct (Df _ _ _ _ Ef) as (cs2 & G2 & I2 & D2).
  exists (cs1 ++ cs2). rewrite G2, G1, <- app_assoc. split; [reflexivity|].
  rewrite length_app, seq_app, !map_app, I1, I2, D1.
  split; [reflexivity|]. rewrite D2, D1. lia.
Qed.

Lemma draws_ivs_bind_with {A B} (m : M A) (f : A -> M B) (P : A -> Prop) :
  yields m P -> draws_ivs m -> (forall a, P a -> draws_ivs (f a)) ->
  draws_ivs (bind m f).
Proof.
  intros Y Dm Df w r w1 E. apply bind_ok in E.
  destruct E as (a & w' & Em & Ef).
  destruct (Dm _ _ _ Em) as (cs1 & G1 & I1 & D1).
  destruct (Df _ (Y _ _ _ Em) _ _ _ Ef) as (cs2 & G2 & I2 & D2).
  exists (cs1 ++ cs2). rewrite G2, G1, <- app_assoc. split; [reflexivity|].
  rewrite length_app, seq_app, !map_app, I1, I2, D1.
  split; [reflexivity|]. rewrite D2, D1. lia.
Qed.

Lemma yields_lift_ok {A} (a : A) : yields (lift (Ok a)) (fun x => x = a).
Proof.
  intros w r w1 E. now injection E as <- _.
Qed.

Lemma draws_ivs_encrypt (x : scalar) (key aad : bytes) (st : stash)
    (dg : bool) :
  truthy st = false -> draws_ivs (encrypt x key aad st dg).
Proof.
  intros T w env w1 E. unfold encrypt in E.
  apply bind_ok in E. destruct E as (u & wa & Ed & E).
  assert (A : gcm_calls wa = gcm_calls w /\ draws wa = draws w).
  { destruct dg; [|apply ret_ok in Ed; now destruct Ed as [_ ->]].
    unfold sha512_update in Ed. now injection Ed as _ <-. }
  destruct A as [Ga Da].
  apply bind_ok in E. destruct E as (iv & wb & Ei & E).
  unfold choose_iv in Ei. rewrite T in Ei. unfold urandom in Ei.
  injection Ei as <- <-.
  apply bind_ok in E. destruct E as ([e t] & wc & Eg & E).
  unfold gcm_encrypt in Eg.
  destruct (aes_gcm_encrypt key (urandom32 (draws wa)) aad (cleartext_of x));
    [|discriminate Eg].
  injection Eg as _ <-.
  assert (Q : gcm_calls w1
              = gcm_calls w
                ++ [{| call_iv := urandom32 (draws w); call_aad := aad;
                       call_cleartext := cleartext_of x |}]
              /\ draws w1 = S (draws w)).
  { unfold bind, lift, ret in E.
    destruct (decode_or_raise (b64encode e)); [|discriminate E].
    destruct (decode_or_raise (b64encode (urandom32 (draws wa))));
      [|discriminate E].
    destruct (decode_or_raise (b64encode t)); [|discriminate E].
    injection E as _ <-. cbn [gcm_calls draws]. now rewrite Ga, Da. }
  destruct Q as [G D]. eexists. split; [exact G|].
  cbn [length seq map call_iv]. split; [reflexivity|]. rewrite D. lia.
Qed.

Section Loops.

Variable walk : value -> bytes -> bytes -> stash -> bool -> M value.

Lemma draws_ivs_items (items : pydict) :
  Forall (fun kv => draws_ivs_on walk (snd kv)) items ->
  forall key aad st isRoot dg,
    truthy st = false ->
    draws_ivs (walk_and_encrypt_items walk items key aad st isRoot dg).
Proof.
  induction 1 as [|[k v] rest Hv _ IH]; intros key aad st isRoot dg T;
    cbn [walk_and_encrypt_items].
  - apply draws_ivs_ret.
  - destruct (String.eqb k "sops" && isRoot)%bool.
    + apply draws_ivs_bind; [now apply IH|]. intros a. apply draws_ivs_ret.
    + rewrite (child_stash_none _ _ _ T).
      eapply draws_ivs_bind_with;
        [apply yields_lift_ok|apply draws_ivs_lift|].
      intros nstash ->. apply draws_ivs_bind.
      * destruct v as [x|d|l]; try (now apply Hv).
        destruct x;
          (apply draws_ivs_bind; [now apply draws_ivs_encrypt|];
           intros ev; apply draws_ivs_ret).
      * intros v'. apply draws_ivs_bind; [now apply IH|].
        intros rest'. apply draws_ivs_ret.
Qed.

Lemma draws_ivs_list (items : list value) :
  Forall (draws_ivs_on walk) items ->
  forall i nstash key aad st dg,
    truthy st = false -> truthy nstash = false ->
    draws_ivs (walk_list_and_encrypt_items walk items i nstash key aad st dg).
Proof.
  induction 1 as [|v rest Hv _ IH]; intros i nstash key aad st dg T Tn;
    cbn [walk_list_and_encrypt_items].
  - apply draws_ivs_ret.
  - rewrite (child_stash_none _ _ _ T).
    eapply draws_ivs_bind_with; [apply yields_lift_ok|apply draws_ivs_lift|].
    intros n ->. apply draws_ivs_bind.
    + destruct v as [x|d|l]; try (now apply Hv).
      apply draws_ivs_bind; [now apply draws_ivs_encrypt|].
      intros ev. apply draws_ivs_ret.
    + intros v'. apply draws_ivs_bind; [now apply IH|].
      intros rest'. apply draws_ivs_ret.
Qed.

End Loops.

Lemma draws_ivs_walk_node_encrypt (v : value) :
  draws_ivs_on walk_node_encrypt v.
Proof.
  induction v as [x|d IH|l IH] using value_induction;
    intros key aad st dg T; cbn [walk_node_encrypt].
  - apply draws_ivs_bind; [now apply draws_ivs_encrypt|].
    intros ev. apply draws_ivs_ret.
  - apply draws_ivs_bind; [|intros r; apply draws_ivs_ret].
    unfold walk_and_encrypt_body.
    apply draws_ivs_bind; [apply draws_ivs_ret|]. intros dg'.
    apply draws_ivs_bind; [now apply draws_ivs_items|].
    intros b. apply draws_ivs_ret.
  - apply draws_ivs_bind; [|intros r; apply draws_ivs_ret].
    now apply draws_ivs_list.
Qed.

Lemma draws_ivs_seal_root (branch : pydict) (key : bytes) :
  draws_ivs (seal_root branch key).
Proof.
  unfold seal_root.
  apply draws_ivs_bind; [apply draws_ivs_lift|]. intros sops.
  apply draws_ivs_bind; [apply draws_ivs_lift|]. intros sops1.
  apply draws_ivs_bind.
  { apply draws_ivs_quiet. intros w r w1 E. unfold sha512_hex in E.
    now injection E as _ <-. }
  intros h. apply draws_ivs_bind; [now apply draws_ivs_encrypt|].
  intros mac. apply draws_ivs_bind; [apply draws_ivs_lift|].
  intros sops2. apply draws_ivs_ret.
Qed.

(** X22: without a stash, every use of the cipher in a run of the encrypt
    walk takes for IV the next answer of [os.urandom(32)], the MAC included:
    the IVs of a run are as many draws, in order, and no value is encrypted
    with the IV of another unless [os.urandom] repeats itself. *)
Theorem walk_and_encrypt_draws_every_iv (tree tree' : pydict)
    (key aad : bytes) (st : stash) (isRoot dg : bool) (w w' : world) :
  truthy st = false ->
  walk_and_encrypt tree key aad st isRoot dg w = Ok (tree', w') ->
  exists calls,
    gcm_calls w' = gcm_calls w ++ calls
    /\ map call_iv calls = map urandom32 (seq (draws w) (length calls))
    /\ draws w' = draws w + length calls.
Proof.
  intros T. revert w tree' w'.
  change (draws_ivs (walk_and_encrypt tree key aad st isRoot dg)).
  unfold walk_and_encrypt, walk_and_encrypt_body.
  apply draws_ivs_bind.
  { destruct isRoot; [|apply draws_ivs_ret].
    apply draws_ivs_bind; [|intros u; apply draws_ivs_ret].
    apply draws_ivs_quiet. intros w r w1 E. unfold sha512_new in E.
    now injection E as _ <-. }
  intros dg'. apply draws_ivs_bind.
  - apply draws_ivs_items; [|exact T]. apply Forall_forall. intros kv _.
    apply draws_ivs_walk_node_encrypt.
  - intros b. destruct isRoot; [apply draws_ivs_seal_root|apply draws_ivs_ret].
Qed.

End FreshIvs.

(** ** Envelopes without a type *)

Section Legacy.

Context `{Platform}.
Variable V : float.

(** X23: under Python 3 nothing written before format 0.8 can be decrypted.
    With an [INPUT_VERSION] below 0.8 the type of a value is the text [str],
    which equals none of the bytes it is compared with: [decrypt] returns
    only for a text that is no envelope, which it gives back untouched; for
    an envelope it ends in an exception or in [panic(..., 23)]. *)
Theorem decrypt_legacy_restores_nothing (x r : scalar) (key aad : bytes)
    (st st' : stash) (dg : bool) (w w' : world) :
  has_type_field V = false ->
  decrypt V x key aad st dg w = Ok ((r, st'), w') ->
  r = x /\ st' = st /\ w' = w
  /\ exists s, (x = SStr s \/ x = SPreserved s)
               /\ re_match (valre V) (encode_utf8 s) = None.
Proof.
  intros L E. unfold decrypt in E. rewrite L in E.
  assert (D : forall groups,
            demands
              (enc_value <- lift (b64decode_or_raise (nth 0 groups [])) ;;
               iv <- lift (b64decode_or_raise (nth 1 groups [])) ;;
               tag <- lift (b64decode_or_raise (nth 2 groups [])) ;;
               cleartext <- lift (gcm_decrypt key iv tag aad enc_value) ;;
               st' <- (if truthy st
                       then lift (stash_leaf st iv aad cleartext)
                       else ret st) ;;
               (if dg then sha512_update cleartext else ret tt) ;;;
               r <- lift (restore_type None cleartext) ;;
               ret (r, st')) False).
  { intros groups. do 6 (apply demands_right; intros ?).
    apply demands_left. intros w0 r0 E0. discriminate E0. }
  assert (T : forall s,
            match re_match (valre V) (encode_utf8 s) with
            | Some groups =>
              enc_value <- lift (b64decode_or_raise (nth 0 groups [])) ;;
              iv <- lift (b64decode_or_raise (nth 1 groups [])) ;;
              tag <- lift (b64decode_or_raise (nth 2 groups [])) ;;
              cleartext <- lift (gcm_decrypt key iv tag aad enc_value) ;;
              st' <- (if truthy st
                      then lift (stash_leaf st iv aad cleartext)
                      else ret st) ;;
              (if dg then sha512_update cleartext else ret tt) ;;;
              r <- lift (restore_type None cleartext) ;;
              ret (r, st')
            | None => ret (x, st)
            end w = Ok ((r, st'), w') ->
            r = x /\ st' = st /\ w' = w
            /\ re_match (valre V) (encode_utf8 s) = None).
  { intros s. destruct (re_match (valre V) (encode_utf8 s)) as [groups|].
    - intros E0. destruct (D groups _ _ E0).
    - intros E0. apply ret_ok in E0. destruct E0 as [[= <- <-] ->].
      now repeat split. }
  destruct x as [|s|s|b|z|f|b]; try discriminate E.
  - destruct (T s E) as (-> & -> & -> & R).
    repeat split. exists s. split; [now left|exact R].
  - destruct (T s E) as (-> & -> & -> & R).
    repeat split. exists s. split; [now right|exact R].
Qed.

End Legacy.

(** ** The region of an ARN *)

Lemma re_match_digit_eq (p : list tok) (s : bytes) :
  re_match (DigitPlus :: p) s = greedy is_digit (re_match p) [] s.
Proof.
  reflexivity.
Qed.

Lemma is_infix_suffix (l s : bytes) (n : nat) :
  is_infix l s = false -> is_infix l (skipn n s) = false.
Proof.
  revert s. induction n as [|n IH]; intros s I; [exact I|].
  destruct s as [|c s]; [exact I|]. simpl. apply IH.
  rewrite is_infix_cons in I. now apply orb_false_elim in I.
Qed.

Lemma skipn_skipn (n m : nat) (s : bytes) :
  skipn n (skipn m s) = skipn (m + n) s.
Proof.
  revert s. induction m as [|m IH]; intros s; [reflexivity|].
  destruct s as [|c s]; [now destruct n|]. simpl. apply IH.
Qed.

Lemma skipn_tl (n : nat) (s : bytes) : skipn (S n) s = skipn n (tl s).
Proof.
  destruct s; [now destruct n|reflexivity].
Qed.

Section Arn.

Variable id : bytes.
Hypothesis id_one_line : forallb not_newline id = true.
Hypothesis id_not_empty : id <> [].
Hypothesis id_plain : is_infix (lit ":key/") id = false.

Lemma key_absent_after_colon :
  is_infix (lit ":key/") (tl (lit ":key/" ++ id)) = false.
Proof.
  reveal_literals. cbn [app tl].
  do 4 (rewrite is_infix_cons;
        match goal with
        | |- (starts_with ?l ?s || _)%bool = false =>
          change (starts_with l s) with false; cbn [orb]
        end).
  exact id_plain.
Qed.

Lemma no_account_without_key (t : bytes) :
  is_infix (lit ":key/") t = false ->
  greedy is_digit (re_match after_account) [] t = None.
Proof.
  intros I. rewrite greedy_stops; [reflexivity|].
  intros n _. now apply re_match_lit_absent.
Qed.

Lemma after_region_fails (account : bytes) :
  forallb is_digit account = true ->
  forall m,
    re_match after_region (skipn m (account ++ lit ":key/" ++ id)) = None.
Proof.
  unfold after_region. induction account as [|a account IH]; intros D m.
  - rewrite app_nil_l, re_match_lit_eq.
    destruct (starts_with (lit ":") (skipn m (lit ":key/" ++ id)));
      [|reflexivity].
    rewrite re_match_digit_eq, skipn_skipn. cbn [length lit].
    destruct m as [|m].
    + reveal_literals. cbn [app skipn Nat.add length list_byte_of_string].
      rewrite greedy_cons.
      change (is_digit "k"%byte) with false. reflexivity.
    + apply no_account_without_key.
      change (length (lit ":")) with 1. rewrite Nat.add_1_r, skipn_tl.
      apply is_infix_suffix, key_absent_after_colon.
  - simpl in D. apply andb_prop in D. destruct D as [Da Dr].
    destruct m as [|m]; [|apply (IH Dr)].
    rewrite re_match_lit_eq. cbn [skipn app starts_with lit].
    assert (N : Byte.eqb ":" a = false).
    { destruct (Byte.eqb ":" a) eqn:E; [|reflexivity].
      apply Byte.byte_dec_bl in E. subst a. discriminate Da. }
    reveal_literals. cbn [starts_with]. now rewrite N.
Qed.

Lemma arn_groups (region account : bytes) :
  forallb not_newline region = true -> region <> [] ->
  forallb is_digit account = true -> account <> [] ->
  re_match arn_re
    (lit "arn:aws:kms:" ++ region ++ lit ":" ++ account ++ lit ":key/" ++ id)
  = Some [region; account; id].
Proof.
  intros Lr Nr Da Na. unfold arn_re.
  rewrite re_match_lit, re_match_any_eq.
  change (re_match [Lit (lit ":"); DigitPlus; Lit (lit ":key/"); AnyPlus;
                    Dollar])
    with (re_match after_region).
  rewrite (greedy_takes not_newline (re_match after_region) region _ []
             [account; id]); try assumption; [reflexivity| |].
  - unfold after_region. rewrite re_match_lit, re_match_digit_eq.
    apply (group_then_lit is_digit (lit ":key/") [AnyPlus; Dollar] account
             id [id] Da Na key_absent_after_colon).
    rewrite re_match_any_eq.
    apply (greedy_to_the_end not_newline _ [] id []); try assumption.
    reflexivity.
  - intros n Hn. destruct n as [|n]; [lia|].
    change (skipn (S n) (lit ":" ++ account ++ lit ":key/" ++ id))
      with (skipn n (account ++ lit ":key/" ++ id)).
    now apply after_region_fails.
Qed.

End Arn.

Section Sessions.

Context `{Platform}.

(** X24: the client of an entry is built for the region of its ARN.  For an
    ARN [arn:aws:kms:REGION:ACCOUNT:key/ID] whose account is a number and
    whose id holds no [:key/], the client is one for [REGION], with the
    credentials [sts.assume_role] gives for the role of the entry when there
    is one, and no client at all when the role cannot be assumed. *)
Theorem get_aws_session_region (entry : pydict) (region account id : string) :
  dict_get entry "arn" = Some (VLeaf (SStr (key_arn region account id))) ->
  one_line region = true -> region <> "" ->
  digits_only account = true -> account <> "" ->
  one_line id = true -> id <> "" ->
  is_infix (lit ":key/") (encode_utf8 id) = false ->
  get_aws_session_for_entry (VDict entry)
  = match dict_get entry "role" with
    | None =>
      Ok (Some {| client_region := encode_utf8 region;
                  client_credentials := None |})
    | Some role =>
      match sts_assume_role role with
      | Some c =>
        Ok (Some {| client_region := encode_utf8 region;
                    client_credentials := Some c |})
      | None => Ok None
      end
    end.
Proof.
  intros A Lr Nr Da Na Li Ni Pi.
  assert (E : forall s : string, s <> "" -> encode_utf8 s <> []).
  { intros s N. destruct s; [congruence|discriminate]. }
  unfold get_aws_session_for_entry. cbn [py_getitem]. rewrite A.
  unfold key_arn. rewrite !encode_utf8_app.
  change (encode_utf8 "arn:aws:kms:") with (lit "arn:aws:kms:").
  change (encode_utf8 ":") with (lit ":").
  change (encode_utf8 ":key/") with (lit ":key/").
  rewrite (arn_groups (encode_utf8 id) Li (E _ Ni) Pi (encode_utf8 region)
             (encode_utf8 account) Lr (E _ Nr) Da (E _ Na)).
  cbn [nth py_contains]. unfold dict_has.
  now destruct (dict_get entry "role").
Qed.

End Sessions.

(** ** The version of the branch *)

Section Version.

Context `{Platform}.

(** X25: when [update_master_keys] returns, the [sops] branch has a version
    that is not below the one of the module: the version it had when that
    was a number at least as high, 0.9 when it had none or a lower one.
    Nothing outside the branch has changed. *)
Theorem update_master_keys_version (tree tree' sops : pydict) (key : bytes) :
  update_master_keys tree key = Ok tree' ->
  dict_get tree "sops" = Some (VDict sops) ->
  exists sops' v,
    dict_get tree' "sops" = Some (VDict sops')
    /\ dict_get sops' "version" = Some v
    /\ below_version v = Ok false
    /\ (v = VLeaf (SFloat VERSION) \/ dict_get sops "version" = Some v)
    /\ forall k, String.eqb k "sops" = false ->
                 dict_get tree' k = dict_get tree k.
Proof.
  intros U S. unfold update_master_keys in U. cbn [py_getitem] in U.
  rewrite S in U.
  destruct (update_recipients "kms" encrypt_key_with_kms key (VDict sops))
    as [sops1|e] eqn:K; [|discriminate U].
  destruct (update_recipients_dict _ _ _ _ _ K) as (d1 & -> & K1).
  destruct (update_recipients "pgp" encrypt_key_with_pgp key (VDict d1))
    as [sops2|e] eqn:P; [|discriminate U].
  destruct (update_recipients_dict _ _ _ _ _ P) as (d2 & -> & P1).
  assert (Same : dict_get d2 "version" = dict_get sops "version").
  { now rewrite (P1 "version" eq_refl), (K1 "version" eq_refl). }
  destruct (update_version (VDict d2)) as [sops3|e] eqn:Ver;
    [|discriminate U].
  injection U as <-.
  assert (R : exists d3 v,
            sops3 = VDict d3 /\ dict_get d3 "version" = Some v
            /\ below_version v = Ok false
            /\ (v = VLeaf (SFloat VERSION)
                \/ dict_get d2 "version" = Some v)).
  { unfold update_version in Ver. cbn [py_contains py_getitem] in Ver.
    unfold dict_has in Ver.
    destruct (dict_get d2 "version") as [x|] eqn:G.
    - destruct (below_version x) as [[]|e] eqn:B; [| |discriminate Ver].
      + injection Ver as <-. eexists _, _. split; [reflexivity|].
        split; [apply dict_get_set_same|]. split; [reflexivity|now left].
      + injection Ver as <-. exists d2, x. now repeat split; auto.
    - injection Ver as <-. eexists _, _. split; [reflexivity|].
      split; [apply dict_get_set_same|]. split; [reflexivity|now left]. }
  destruct R as (d3 & v & -> & G & B & O).
  exists d3, v. split; [apply dict_get_set_same|]. split; [exact G|].
  split; [exact B|]. split.
  - destruct O as [O|O]; [now left|right]. now rewrite <- Same.
  - intros k N. now apply dict_get_set_other.
Qed.

End Version.

(** ** The type of a file *)

Lemma rfind_app_free (c : ascii) (a b : string) :
  char_free c b = true -> rfind c (a ++ b) = rfind c a.
Proof.
  intros F. induction a as [|x a IH]; simpl.
  - induction b as [|y b IHb]; [reflexivity|].
    simpl in *. apply andb_prop in F. destruct F as [N F].
    apply negb_true_iff in N. now rewrite (IHb F), N.
  - now rewrite IH.
Qed.

Lemma rfind_free (c : ascii) (b : string) :
  char_free c b = true -> rfind c b = None.
Proof.
  intros F. exact (rfind_app_free c "" b F).
Qed.

Lemma rfind_app_at (c : ascii) (a x : string) :
  char_free c x = true ->
  rfind c (a ++ String c x) = Some (String.length a).
Proof.
  intros F. induction a as [|y a IH]; simpl.
  - now rewrite (rfind_free c x F), Ascii.eqb_refl.
  - now rewrite IH.
Qed.

Lemma rfind_directory (dir : string) :
  directory dir = true ->
  match rfind "/" dir with Some i => S i | None => 0 end = String.length dir.
Proof.
  unfold directory. induction dir as [|a r IH]; [reflexivity|].
  destruct r as [|b r'].
  - simpl. destruct (Ascii.eqb a "/") eqn:E; [reflexivity|].
    destruct a as [[] [] [] [] [] [] [] []]; discriminate.
  - intros D. change (last_char (String a (String b r')))
      with (last_char (String b r')) in D.
    specialize (IH D).
    change (rfind "/" (String a (String b r')))
      with (match rfind "/" (String b r') with
            | Some i => Some (S i)
            | None => if Ascii.eqb a "/" then Some 0 else None
            end).
    change (String.length (String a (String b r')))
      with (S (String.length (String b r'))).
    destruct (rfind "/" (String b r')) as [i|]; [now rewrite IH|].
    discriminate IH.
Qed.

Lemma get_app (a b : string) (i : nat) :
  String.get (String.length a + i) (a ++ b) = String.get i b.
Proof.
  induction a as [|x a IH]; [reflexivity|exact IH].
Qed.

Lemma has_stem_name (a name rest : string) (i : nat) :
  has_stem (a ++ name ++ String "." rest) (String.length a + i)
    (String.length name - i)
  = negb (only_dots (drop i name)).
Proof.
  remember (String.length name - i) as n eqn:N.
  revert i N. induction n as [|n IH]; intros i N.
  - assert (D : drop i name = "").
    { clear -N. revert i N. induction name as [|x name IH]; intros i N;
        [now destruct i|].
      destruct i as [|i]; [discriminate N|]. simpl. apply IH.
      simpl in N. lia. }
    now rewrite D.
  - cbn [has_stem]. rewrite get_app.
    assert (G : exists x r, drop i name = String x r
                            /\ String.get i (name ++ String "." rest)
                               = Some x
                            /\ drop (S i) name = r).
    { clear -N. revert i N. induction name as [|x name IH]; intros i N;
        [discriminate N|].
      destruct i as [|i]; [now exists x, name|].
      simpl in N. destruct (IH i) as (y & r & D & G & R); [lia|].
      exists y, r. now repeat split. }
    destruct G as (x & r & D & G & R). rewrite G, D.
    replace (S (String.length a + i)) with (String.length a + S i) by lia.
    unfold only_dots. cbn [remove_all].
    destruct (Ascii.eqb x ".") eqn:E.
    + apply Ascii.eqb_eq in E. subst x. rewrite IH by lia.
      now rewrite R.
    + destruct x as [[] [] [] [] [] [] [] []]; try reflexivity.
      discriminate E.
Qed.

Lemma take_app (a b : string) : take (String.length a) (a ++ b) = a.
Proof.
  induction a as [|x a IH]; [now destruct b|]. simpl. now rewrite IH.
Qed.

Lemma drop_app (a b : string) : drop (String.length a) (a ++ b) = b.
Proof.
  induction a as [|x a IH]; [now destruct b|exact IH].
Qed.

Lemma length_append (a b : string) :
  String.length (a ++ b) = String.length a + String.length b.
Proof.
  induction a as [|x a IH]; [reflexivity|]. simpl. now rewrite IH.
Qed.

Lemma append_assoc (a b c : string) :
  ((a ++ b) ++ c)%string = (a ++ b ++ c)%string.
Proof.
  induction a as [|x a IH]; [reflexivity|]. simpl. now rewrite IH.
Qed.

(** The extension of a path: what follows the last dot of its last
    component, when something other than dots comes before that dot. *)
Lemma splitext_extension (dir name x : string) :
  directory dir = true ->
  char_free "/" name = true ->
  char_free "/" x = true ->
  char_free "." x = true ->
  splitext (dir ++ name ++ String "." x)
  = if only_dots name then ((dir ++ name ++ String "." x)%string, "")
    else ((dir ++ name)%string, String "." x).
Proof.
  intros D Fn Fx Fd. unfold splitext.
  rewrite (rfind_app_free "/" dir)
    by (rewrite char_free_app, Fn; simpl; now rewrite Fx).
  rewrite (rfind_directory dir D).
  rewrite <- append_assoc, (rfind_app_at "." _ x Fd), length_append.
  assert (L : Nat.leb (String.length dir)
                (String.length dir + String.length name) = true)
    by (apply Nat.leb_le; lia).
  rewrite L. cbn [andb].
  replace (String.length dir + String.length name - String.length dir)
    with (String.length name - 0) by lia.
  rewrite append_assoc.
  replace (String.length dir) with (String.length dir + 0) at 1 by lia.
  rewrite has_stem_name. cbn [drop].
  replace (drop 0 name) with name by (now destruct name).
  destruct (only_dots name); [reflexivity|]. cbn [negb].
  rewrite <- length_append, <- append_assoc.
  now rewrite take_app, drop_app.
Qed.

(** X26: the type of a file is read from what follows the last dot of the
    last component of its path: [yaml] for [.yaml] and [.yml], [json] for
    [.json]; a component that has only dots before that dot, or nothing, as
    in [.yaml], has no extension and gives [bytes]. *)
Theorem detect_filetype_by_extension (dir name : string) :
  directory dir = true ->
  char_free "/" name = true ->
  detect_filetype (dir ++ name ++ ".yaml")
  = (if only_dots name then "bytes" else "yaml")
  /\ detect_filetype (dir ++ name ++ ".yml")
     = (if only_dots name then "bytes" else "yaml")
  /\ detect_filetype (dir ++ name ++ ".json")
     = (if only_dots name then "bytes" else "json").
Proof.
  intros D F. unfold detect_filetype.
  rewrite (splitext_extension dir name "yaml" D F eq_refl eq_refl).
  rewrite (splitext_extension dir name "yml" D F eq_refl eq_refl).
  rewrite (splitext_extension dir name "json" D F eq_refl eq_refl).
  now destruct (only_dots name).
Qed.

Lemma detect_filetype_by_extension_witness :
  detect_filetype "etc/app.conf.yaml" = "yaml"
  /\ detect_filetype "etc/app.conf.yml" = "yaml"
  /\ detect_filetype "etc/app.conf.json" = "json".
Proof.
  exact (detect_filetype_by_extension "etc/" "app.conf" eq_refl eq_refl).
Defined.

Lemma parse_pgp_fp_entries_witness :
  exists fps,
    parse_pgp_fp Samples.bare_tree "AB12, CD34"
    = Ok (dict_set Samples.bare_tree "sops"
            (VDict (dict_set Samples.bare_sops "pgp"
                      (VList (map pgp_entry fps)))), true)
    /\ join "," fps = remove_all " " "AB12, CD34"
    /\ forallb trimmed fps = true.
Proof.
  exact (parse_pgp_fp_entries Samples.bare_tree Samples.bare_sops
           "AB12, CD34" eq_refl).
Defined.

Lemma parse_kms_arn_entries_witness :
  parse_kms_arn Samples.bare_tree
    "arn:aws:kms:eu:1:key/k+arn:aws:iam::2:role/r, +arn:aws:iam::3"
  = Ok (dict_set Samples.bare_tree "sops"
          (VDict (dict_set Samples.bare_sops "kms"
                    (VList [VDict [("arn", VLeaf (SStr
                                      "arn:aws:kms:eu:1:key/k"));
                                   ("role", VLeaf (SStr
                                      "arn:aws:iam::2:role/r"))];
                            VDict [("arn", VLeaf (SStr
                                      "+arn:aws:iam::3"))]]))), true)
  /\ exists xs,
       parse_kms_arn Samples.bare_tree
         "arn:aws:kms:eu:1:key/k+arn:aws:iam::2:role/r, +arn:aws:iam::3"
       = Ok (dict_set Samples.bare_tree "sops"
               (VDict (dict_set Samples.bare_sops "kms"
                         (VList (map kms_entry xs)))), true)
       /\ xs <> []
       /\ join "," (map kms_entry_text xs)
          = "arn:aws:kms:eu:1:key/k+arn:aws:iam::2:role/r,+arn:aws:iam::3"
       /\ forallb trimmed (map kms_entry_text xs) = true
       /\ forallb role_in_place xs = true.
Proof.
  split; [reflexivity|].
  exact (parse_kms_arn_entries Samples.bare_tree Samples.bare_sops
           "arn:aws:kms:eu:1:key/k+arn:aws:iam::2:role/r, +arn:aws:iam::3"
           eq_refl).
Defined.

Lemma verify_keeps_wrapped_key_witness :
  verify_or_create_sops_branch Samples.wrapped_tree (Some "arn:x") None
  = Ok (Samples.wrapped_tree, false).
Proof.
  exact (verify_keeps_wrapped_key Samples.wrapped_tree Samples.wrapped_sops
           (Some "arn:x") None eq_refl eq_refl eq_refl).
Defined.

Lemma verify_stumbles_on_missing_enc_witness :
  verify_or_create_sops_branch Samples.unwrapped_tree (Some "arn:x") None
  = Err KeyError.
Proof.
  exact (verify_stumbles_on_missing_enc Samples.unwrapped_tree
           Samples.unwrapped_sops Samples.unwrapped_entry
           (VLeaf (SStr "arn:aws:kms:us-east-1:1:key/k")) []
           (Some "arn:x") None eq_refl eq_refl eq_refl eq_refl eq_refl).
Defined.

Lemma verify_panics_without_arguments_witness :
  verify_or_create_sops_branch Samples.plain_tree None None
  = Err (Panic 111)
  /\ 111%Z = 111%Z /\ @None string = None /\ @None string = None.
Proof.
  split; [reflexivity|].
  exact (verify_panics_without_arguments Samples.plain_tree None None 111
           eq_refl).
Defined.

Lemma verify_creates_branch_witness :
  verify_or_create_sops_branch Samples.plain_tree (Some "") (Some "")
  = Ok (Samples.plain_tree
        ++ [("sops",
             VDict [("attention", VLeaf (SStr attention));
                    ("version", VLeaf (SFloat VERSION));
                    ("kms", VList (map kms_entry_of (split "," "")));
                    ("pgp", VList (map pgp_entry_of (split "," "")))])],
        true).
Proof.
  exact (verify_creates_branch Samples.plain_tree "" "" eq_refl).
Defined.

Lemma check_master_keys_named_witness :
  check_master_keys Samples.unwrapped_tree
  = Ok (existsb (named_under "arn") (recipients "kms" Samples.unwrapped_sops)
        || existsb (named_under "fp")
             (recipients "pgp" Samples.unwrapped_sops))%bool.
Proof.
  exact (check_master_keys_named Samples.unwrapped_tree
           Samples.unwrapped_sops eq_refl eq_refl eq_refl).
Defined.

Lemma check_master_keys_after_parse_witness :
  exists tree',
    parse_kms_arn Samples.bare_tree "" = Ok (tree', true)
    /\ check_master_keys tree' = Ok (existsb not_blank (split "," "")).
Proof.
  exact (check_master_keys_after_parse Samples.bare_tree Samples.bare_sops
           "" eq_refl eq_refl).
Defined.

Lemma get_key_prefers_kms_witness :
  get_key (H := Lab.platform) (H0 := LabVault.vault)
    KeySamples.wrapped_twice_tree false Lab.start
  = Ok ((lit "yek", KeySamples.wrapped_twice_tree), Lab.start).
Proof.
  exact (get_key_prefers_kms (H := Lab.platform) (H0 := LabVault.vault)
           KeySamples.wrapped_twice_tree
           KeySamples.wrapped_twice Lab.start eq_refl eq_refl eq_refl).
Defined.

Lemma get_key_stores_new_key_witness :
  exists key tree' w',
    get_key (H := Lab.platform) (H0 := LabVault.vault)
      (KeySamples.one_kms_entry KeySamples.to_wrap) true Lab.start
    = Ok ((key, tree'), w')
    /\ key = Lab.lab_urandom 0
    /\ draws w' = 1
    /\ (exists sops',
          dict_get tree' "sops" = Some (VDict sops')
          /\ existsb (named_under "enc")
               (recipients "kms" sops' ++ recipients "pgp" sops') = true)
    /\ forall k, String.eqb k "sops" = false ->
                 dict_get tree' k
                 = dict_get (KeySamples.one_kms_entry KeySamples.to_wrap) k.
Proof.
  eexists _, _, _. split; [vm_compute; reflexivity|].
  refine (get_key_stores_new_key (H := Lab.platform) (H0 := LabVault.vault)
            (KeySamples.one_kms_entry KeySamples.to_wrap) _ _ Lab.start _ _).
  vm_compute. reflexivity.
Defined.

Lemma get_key_counts_old_enc_witness :
  get_key (H := Lab.platform) (H0 := LabVault.vault)
      (KeySamples.one_kms_entry KeySamples.out_of_reach) true Lab.start
  = Ok ((Lab.lab_urandom 0,
         KeySamples.one_kms_entry KeySamples.out_of_reach),
        {| draws := 1; gcm_calls := []; sha512 := [] |}).
Proof.
  exact (get_key_counts_old_enc (H := Lab.platform) (H0 := LabVault.vault)
           (KeySamples.one_kms_entry KeySamples.out_of_reach)
           [("kms", VList [VDict KeySamples.out_of_reach])]
           [VDict KeySamples.out_of_reach] Lab.start
           eq_refl eq_refl eq_refl eq_refl eq_refl).
Defined.

Lemma get_key_breaks_on_refusal_witness :
  get_key (H := Lab.platform) (H0 := LabVault.vault)
      (KeySamples.one_kms_entry KeySamples.refused) true Lab.start
  = Err TypeError.
Proof.
  refine (get_key_breaks_on_refusal (H := Lab.platform)
            (H0 := LabVault.vault)
            (KeySamples.one_kms_entry KeySamples.refused)
            [("kms", VList [VDict KeySamples.refused])]
            KeySamples.refused "arn:aws:kms:eu-west-1:1:key/k" []
            {| client_region := lit "eu-west-1";
               client_credentials := None |}
            Lab.start eq_refl eq_refl eq_refl _ eq_refl eq_refl).
  discriminate.
Defined.

Lemma walk_and_encrypt_seals_every_leaf_witness :
  walk_and_encrypt (H := Lab.platform) Examples.document Lab.key [] StNone
    true false Lab.start
  = Ok (Examples.encrypted, Examples.world_after_encrypting Examples.document)
  /\ skeleton (VDict (walked true Examples.encrypted))
     = skeleton (VDict (walked true Examples.document))
  /\ every_leaf sealed_leaf (VDict (walked true Examples.encrypted)) = true
  /\ Forall2
       (fun px py =>
          fst py = fst px
          /\ exists iv aad e t data64 iv64 tag64,
               aes_gcm_encrypt (Platform := Lab.platform) Lab.key iv aad
                 (cleartext_of (H := Lab.platform) (snd px))
               = Some (e, t)
               /\ decode_utf8 (b64encode (Platform := Lab.platform) e)
                  = Some data64
               /\ decode_utf8 (b64encode (Platform := Lab.platform) iv)
                  = Some iv64
               /\ decode_utf8 (b64encode (Platform := Lab.platform) t)
                  = Some tag64
               /\ is_text (snd py) = true
               /\ py_str (H := Lab.platform) (snd py)
                  = format_envelope data64 iv64 tag64 (valtype_of (snd px)))
       (leaves (VDict (walked true Examples.document)))
       (leaves (VDict (walked true Examples.encrypted))).
Proof.
  split; [reflexivity|].
  exact (walk_and_encrypt_seals_every_leaf (H := Lab.platform)
           Examples.document Examples.encrypted Lab.key [] StNone true false
           Lab.start (Examples.world_after_encrypting Examples.document)
           eq_refl).
Defined.

Lemma walk_and_decrypt_needs_texts_witness :
  first_not_clear (leaves (VDict (walked true Samples.odd_tree)))
  = Some (["ports"], SInt 8080)
  /\ (exists e,
        walk_and_decrypt (H := Lab.platform) VERSION Samples.odd_tree Lab.key
          [] StNone false true false Lab.start = Err e)
  /\ walk_and_decrypt (H := Lab.platform) VERSION Samples.odd_tree Lab.key
       [] StNone false true false Lab.start = Err AttributeError.
Proof.
  split; [reflexivity|].
  destruct (walk_and_decrypt_needs_texts (H := Lab.platform) VERSION
              Samples.odd_tree Lab.key [] StNone false true false Lab.start
              eq_refl) as [E A].
  split; [exact E|].
  exact (A ["ports"] (SInt 8080) eq_refl eq_refl eq_refl).
Defined.

Lemma walk_and_decrypt_passes_clear_text_witness :
  walk_and_decrypt (H := Lab.platform) VERSION Samples.plain_tree Lab.key []
    StNone false true true Lab.start
  = Ok ((Samples.plain_tree, StNone), Lab.start).
Proof.
  exact (walk_and_decrypt_passes_clear_text (H := Lab.platform) VERSION
           Samples.plain_tree Lab.key [] StNone false true true Lab.start
           eq_refl eq_refl eq_refl).
Defined.

Lemma unchanged_leaf_keeps_envelope_witness :
  exists env w1 st',
    encrypt (H := Lab.platform) (SStr "bob") Lab.key (lit "user:") StNone
      false Lab.start = Ok (env, w1)
    /\ (forall dg1 w2,
          decrypt (H := Lab.platform) VERSION (SStr env) Lab.key
            (lit "user:") (StDict [(KStr "has_stash", StTrue)]) dg1 w2
          = Ok ((SStr "bob", st'),
                absorb dg1 (cleartext_of (H := Lab.platform) (SStr "bob"))
                  w2))
    /\ forall dg2 w3,
         exists w4,
           encrypt (H := Lab.platform) (SStr "bob") Lab.key (lit "user:") st'
             dg2 w3 = Ok (env, w4)
           /\ draws w4 = draws w3.
Proof.
  refine (unchanged_leaf_keeps_envelope (H0 := lab_laws) VERSION
            (conj eq_refl eq_refl) (SStr "bob") Lab.key (lit "user:") StNone
            false Lab.start [(KStr "has_stash", StTrue)]
            (conj _ eq_refl) eq_refl eq_refl _); discriminate.
Defined.

Lemma walk_and_encrypt_draws_every_iv_witness :
  walk_and_encrypt (H := Lab.platform) Examples.document Lab.key [] StNone
    true false Lab.start
  = Ok (Examples.encrypted, Examples.world_after_encrypting Examples.document)
  /\ exists calls,
       gcm_calls (Examples.world_after_encrypting Examples.document)
       = gcm_calls Lab.start ++ calls
       /\ map call_iv calls
          = map Lab.lab_urandom (seq (draws Lab.start) (length calls))
       /\ draws (Examples.world_after_encrypting Examples.document)
          = draws Lab.start + length calls.
Proof.
  split; [reflexivity|].
  exact (walk_and_encrypt_draws_every_iv (H := Lab.platform)
           Examples.document Examples.encrypted Lab.key [] StNone true false
           Lab.start (Examples.world_after_encrypting Examples.document)
           eq_refl eq_refl).
Defined.

Lemma decrypt_legacy_restores_nothing_witness :
  has_type_field 0.5 = false
  /\ decrypt (H := Lab.platform) 0.5 (SStr "bob") Lab.key [] StNone false
       Lab.start = Ok ((SStr "bob", StNone), Lab.start)
  /\ exists s, (SStr "bob" = SStr s \/ SStr "bob" = SPreserved s)
               /\ re_match (valre 0.5) (encode_utf8 s) = None.
Proof.
  split; [reflexivity|]. split; [reflexivity|].
  exact (proj2 (proj2 (proj2
           (decrypt_legacy_restores_nothing (H := Lab.platform) 0.5
              (SStr "bob") (SStr "bob") Lab.key [] StNone StNone false
              Lab.start Lab.start eq_refl eq_refl)))).
Defined.

Lemma get_aws_session_region_witness :
  get_aws_session_for_entry (H := Lab.platform) (VDict KeySamples.to_wrap)
  = Ok (Some {| client_region := encode_utf8 "us-east-1";
                client_credentials := None |}).
Proof.
  refine (get_aws_session_region (H := Lab.platform) KeySamples.to_wrap
            "us-east-1" "1" "k" eq_refl eq_refl _ eq_refl _ eq_refl _
            eq_refl); discriminate.
Defined.

Lemma update_master_keys_version_witness :
  update_master_keys (H := Lab.platform) Examples.recipients_tree Lab.key
  = Ok Examples.recipients_tree'
  /\ exists sops' v,
       dict_get Examples.recipients_tree' "sops" = Some (VDict sops')
       /\ dict_get sops' "version" = Some v
       /\ below_version v = Ok false
       /\ (v = VLeaf (SFloat VERSION)
           \/ dict_get Examples.recipients_sops "version" = Some v)
       /\ forall k, String.eqb k "sops" = false ->
                    dict_get Examples.recipients_tree' k
                    = dict_get Examples.recipients_tree k.
Proof.
  split; [vm_compute; reflexivity|].
  apply (update_master_keys_version (H := Lab.platform)
           Examples.recipients_tree Examples.recipients_tree'
           Examples.recipients_sops Lab.key); vm_compute; reflexivity.
Defined.
